(* ===== verification/_CoqProject ===== *)
-Q . S2P
Prelude.v
RequestTypes.v
Diagnostic.v
RequestAggregate.v
FulfilmentSM.v
MachineAggregate.v
StatusService.v
StatusManagement.v
JsonStore.v
JsonScope.v
Resilience.v
RWLock.v
LoadBalancing.v
Verdict.v
AwsVerdict.v
CloudVerdict.v
K8sPod.v
K8sCache.v
K8sStatus.v
Pagination.v
Provisioning.v
ProviderStrategy.v
Fallback.v
Composite.v
TimeText.v
JsonText.v
PageCursor.v
ListRequests.v
RequestRow.v
RequestRepo.v
Lifecycle.v
Deprovisioning.v
ReturnMachines.v
MachineSync.v
Reconciler.v
MachineRow.v
TemplateOverrides.v
AcquireMachines.v
StatusQuery.v
Orchestrators.v
ProviderSelection.v
Schedulers.v
