(* ===== verification/Prelude.v ===== *)
(** * Open Resource Broker: the request lifecycle and its storage

    Open Resource Broker takes requests for machines from a scheduler, has a
    cloud provider fulfil them, keeps track of both in a store and answers the
    scheduler's polls.  This library models the parts that decide: what status a
    request has and may get, how it is provisioned, what the providers report on a
    poll and what that makes of the request, how concurrent writers share the
    store, how rows are paged, and how calls to providers are retried, locked and
    balanced.  Paths are under [src/src/orb].

    ** The parts and how they meet

    A [Request] (domain) changes status only through the fulfilment state
    machine, which consults the transition table, sets deadlines and records why
    a request fell short.  Three application services drive it: the status service
    on polls and deadline sweeps, the provisioning service while machines are
    asked for and at start-up, the status management service after provisioning.
    On a poll a provider's handler turns what the cloud reports into a
    [ProviderFulfilment] verdict, which the state machine consumes.  The Kubernetes
    handlers read pods through a cache that a watcher and a resync both write.  The
    services read and save requests through a repository in a unit of work; on JSON
    storage a request is a row of a file, the unit of work is a transaction scope
    over one strategy per entity type, and every save is conditional on the version
    that was read.  Clients list requests page by page, with cursors that name a
    position and the query.  Provider calls run under the retry decorator and may be
    spread by the load balancer, guarded by fallbacks, or given to several providers.

    ** Files

    - [Prelude]: results and exceptions, Python dictionaries and JSON values,
      record update, string enumerations, sorting and deduplication, the tactics
      and the hint database [orb].
    - [RequestTypes] ([domain/request/request_types.py],
      [domain/machine/machine_status.py]): statuses, tables, conversions.
    - [Diagnostic] ([domain/base/diagnostic.py], [error_classification.py],
      [provider_fulfilment.py]): diagnostics, their merge, classification.
    - [RequestAggregate] ([domain/request/aggregate.py], [request_identifiers.py],
      [domain/base/entity.py]): modules [RequestId] and [Request], one function per
      method; [mutates] collects the methods as a step relation.
    - [FulfilmentSM] ([domain/request/fulfilment_state_machine.py]): module
      [FulfilmentStateMachine], with [apply] and [evaluate_deadline].
    - [MachineAggregate] ([domain/machine/aggregate.py], [Tags] of
      [domain/base/value_objects.py]).
    - [StatusService] ([application/services/request_status_service.py]): written
      against the class [RequestStore], which a finite-map store implements.
    - [StatusManagement]
      ([application/services/request_status_management_service.py]).
    - [JsonStore] ([infrastructure/storage/json/strategy.py],
      [components/file_manager.py]): the disk, one strategy, its cache and buffer.
    - [JsonScope] ([json/transaction_scope.py], [base/unit_of_work.py],
      [json/unit_of_work.py], [repositories/versioned_save.py]): commit of several
      strategies, aggregates' baselines, histories of units of work.
    - [Resilience] ([infrastructure/resilience]): the retry loop against the class
      [RetryStrategy], with exponential backoff and the circuit breaker as its
      instances.
    - [RWLock] ([components/lock_manager.py]): a transition system over threads.
    - [LoadBalancing] ([providers/base/strategy/load_balancing]): selection,
      statistics, passive health.
    - [Verdict]: the counting behind every verdict, and the class [SoundVerdict], what
      a provider's verdict promises to the state machine; the next files give its
      instances.
    - [AwsVerdict] ([providers/aws/infrastructure/handlers]): RunInstances, MicroVM, EC2
      and spot fleets, scaling groups, and requests over several of them.
    - [CloudVerdict]: modules [Azure] ([providers/azure/services/resource_metadata_service.py]),
      [Gcp] ([providers/gcp/services/inventory_service.py]) and [Oci]
      ([providers/oci/handlers/oci_compute_handler.py]).
    - [K8sPod] ([providers/k8s/utilities/pod_state.py],
      [infrastructure/handlers/shared/pod_state_translator.py]): what a pod's status is,
      and the three routes by which a pod becomes an instance record.
    - [K8sCache] ([providers/k8s/watch]): the pod cache, the event handler, the resync,
      and the two running side by side as the step relation [step].
    - [K8sStatus] ([providers/k8s/infrastructure/handlers], [reconciliation/timeout_gc.py]):
      the resolvers' read path and verdicts, the controllers' caches.
    - [Pagination] ([domain/base/pagination.py]): sort texts, positions, pages.
    - [Provisioning] ([application/services/provisioning_orchestration_service.py],
      [provisioning_writes.py]): the attempt loop against [RequestStore], the saves that
      merge with the stored row, recovery at start-up.
    - [ProviderStrategy] ([providers/base/strategy/provider_strategy.py],
      [domain/base/operations.py]): operations, results and health reports.
    - [Fallback] ([providers/base/strategy/fallback_strategy.py]): the modes of falling
      back, the circuit, and the breaker mode as tasks of one event loop ([step]).
    - [Composite] ([providers/base/strategy/composite_strategy.py]): weights, execution
      modes, aggregation.
    - [TimeText], [JsonText]: of the Python standard library, ISO timestamps and JSON
      text, with the proofs that reading gives back what was written.
    - [PageCursor] ([application/services/orchestration/page_cursor.py]): cursors and
      query fingerprints, with UTF-8 and base64.
    - [ListRequests] ([application/queries/request_query_handlers.py],
      [application/services/orchestration/list_requests.py]): filters, order and pages
      of the listing, and a client that follows its cursors.
    - [RequestRow] ([infrastructure/storage/repositories/request_repository.py],
      [components/generic_serializer.py]): requests as rows and back.
    - [RequestRepo] (the same, and [infrastructure/storage/base/repository_mixin.py]): the
      repository on a JSON strategy, and the abstract store [spec_step] it refines.
    - [Lifecycle] ([application/commands/request_lifecycle_handlers.py]): how command
      handlers are modelled ([world], [action], [unit_of_work]), and the commands that
      update, cancel and complete a request.
    - [Deprovisioning] ([application/services/deprovisioning_orchestrator.py],
      [machine_grouping_service.py], [machine_coordinates.py]): groups of machines, one
      terminate operation per group, the reconciliation of the answers.
    - [ReturnMachines] ([application/commands/request_creation_handlers.py]): the handler
      of return requests, on top of the two.
    - [MachineSync] ([application/services/machine_sync_service.py]): what a provider's
      answer makes of the machines, and the sync that writes it over the stored ones.
    - [Reconciler] ([application/services/request_reconciler.py],
      [request_query_service.py], [application/commands/request_sync_handlers.py]): the
      refresh of one request and a pass over all in flight; [stable] and [preserves] of
      [MachineSync] carry invariants through handlers whatever other writers do.
    - [MachineRow] ([infrastructure/storage/repositories/machine_repository.py]): machines
      as rows and back, with the migrations of old rows, and their repository.
    - [TemplateOverrides] ([application/services/template_overrides.py]): what a caller may
      change of a template for one request.
    - [AcquireMachines] ([application/commands/request_creation_handlers.py],
      [application/services/request_creation_service.py],
      [request_status_management_service.py]): the handler of acquire requests, from the
      command through [Provisioning] to the stored machines.
    - [StatusQuery] ([application/queries/request_query_handlers.py],
      [application/factories/request_dto_factory.py],
      [infrastructure/caching/in_memory_cache_service.py]): the handlers that answer a
      client's poll: cache, deadline, refresh, and the list of the requests in flight.
    - [Orchestrators] ([application/services/orchestration]): the facade the interfaces
      call, against the classes [Buses] and [MachineBuses]: acquire, return, cancel and
      status with their polling, start and stop, the watch totals; the instance
      [system_buses] puts the handlers of the files above behind it.
    - [ProviderSelection] ([infrastructure/services/provider_selection_service.py],
      [domain/services/template_validation_domain_service.py],
      [config/schemas/provider_strategy_schema.py]): which provider serves a template and
      whether it can; [registry_ports] puts both behind the acquire handler.
    - [Schedulers] ([infrastructure/scheduler], [interface/catalog.py]): what the schedulers
      send and are told; the class [SchedulerPort], with modules [HostFactory] and
      [Default] as its instances.

    ** What the theorems show

    Lifecycle ([FulfilmentSM], [RequestTypes], [RequestAggregate]): every run of
    the state machine follows the transition table, of which every path is
    finite; the deadline sweep and the policy for partial capacity are given
    branch by branch; a deadline is set once and settles what it finds; a cancel
    always has its way with a live request; any sequence of operations keeps a
    request well formed.  Diagnostics: the merge is associative and agrees with
    classifying everything at once.

    Services ([StatusService], [StatusManagement]): an update that returns is one
    atomic step on the store, whatever other writers did; one conflict is absorbed;
    the sweep settles expired requests; the outcome tables of polls and of
    provisioning; failures leave a trace whose headline holds no provider text.

    Storage ([JsonStore], [JsonScope]): version-checked saves lose no update;
    a transaction reads what its commit will store; a commit refines the
    simultaneous application of its buffers, or leaves the files as they were; the
    request file is written before what depends on it; no read is stale through
    any history; a damaged file is replaced by its newest usable backup.

    Provisioning ([Provisioning]): the loop never asks for more than is missing and
    makes a bounded number of attempts; its saves are a merge with whatever row is
    stored, atomically; a recovery pass settles every expired request it lists.

    Verdicts ([Verdict], [AwsVerdict], [CloudVerdict], [K8sStatus]): a sound verdict
    never makes the state machine record more than was observed, and all handlers
    give sound ones where their inputs are consistent; fleets combine by a stated
    rule, whose order of fleets does not matter; truncating capacities is harmless.

    Kubernetes cache ([K8sCache], [K8sPod]): names and states agree through any
    interleaving; a resync leaves newer entries alone and otherwise makes the cache
    equal to the list; cached and listed pods give the same instance where stated.

    Repositories ([RequestRow], [RequestRepo], [MachineRow]): requests and machines survive
    their rows; the rows of machines have a schema, and every row of it loads; a batch
    of machines is stored whole or not at all; a return's machines are all found; a row with a
    broken diagnostic still loads, a return request without machines does not;
    repositories of any number of processes on one file, interleaved, are one map
    of requests with version-checked writes.

    Pages ([Pagination], [PageCursor], [ListRequests]): following the positions visits
    every row once, in order, and a row that stays put is not missed when others
    come and go; a cursor decodes to the position it was made of, and only for its
    own query; a client of the listing that follows its cursors gets every request
    the filters accept, once, in order, and comes to an end.

    Strategies ([Fallback], [Composite]): every fallback mode tries the providers its
    plan names, in order, until one succeeds; the circuit opens and closes as its
    history demands; the weights belong to exactly the strategies there are, sum to
    one whenever they were shared out, and selection follows them.

    Commands ([Lifecycle], [Deprovisioning], [ReturnMachines]): a status command is one
    atomic change however often it had to be tried again; a cancel that returns has
    settled the request; every machine of a return is counted once, as terminated,
    failed or skipped, and as terminated only on the provider's word; a return leaves
    its machines shutting down or released, and its own status says which.
    Acquisition ([AcquireMachines], [TemplateOverrides]): what the provider created is on
    record when the handler returns, whatever others write; one machine is stored per
    record of the answer; overrides reach allowed fields only.

    Synchronisation ([MachineSync], [Reconciler]): a sync takes from the provider only
    what the provider owns, reopens no request and brings no machine back; an answered
    poll is recorded exactly, an unanswered one changes nothing; a pass counts every
    request in flight once and reports each provider once.

    Queries ([StatusQuery]): asking for a status reopens nothing, touches no other
    request and takes no machine from its owner; without other writers an answer shows
    what is stored when it is given, and the cache holds settled requests only.

    Facade ([Orchestrators]): for any handlers behind the buses, every wait comes to an
    end, in one of four stated ways, and reports a final status that comes in time; a
    cancel is sent only after all return requests it knows of ended well; the answers
    of start and stop account for every machine; the watch totals add up.

    Selection ([ProviderSelection]): a provider is found whenever one would do, it is what
    was asked for, and the one the policy prefers; a request is created only for an
    enabled provider that has a handler of its API; handlers inherit as documented.

    Schedulers ([Schedulers]): HostFactory is told running exactly while a request is in
    flight and one well-formed machine per machine; its answers read back as the
    queries they answer; no text of a provider error gets into a message.

    Machinery ([Resilience], [RWLock], [LoadBalancing]): the retry loop ends;
    writers exclude each other; statistics account for every operation; round
    robin is fair.  Where the code does less than its documentation says, a
    theorem says what it does: an open circuit is never consulted by the retry
    decorator, a reader and a writer can hold the lock together, a waiting writer
    can miss its wake-up, an unhealthy strategy is not tried again while another is
    healthy, sessions do not stick, tags named [tags] do not survive a dump, pods that
    never start complete a request, a resync can overwrite a newer event, the
    provisioning loop never makes a second attempt, a fleet that cannot be checked
    does not keep a request from being fulfilled, two operations under the circuit
    breaker block their event loop, a late first success counts as a failure of the
    composite, merging keeps the last of equal keys, limits above a page lose rows
    where paging is by offset, the list of active requests leaves out two of the
    active statuses, machines skipped by a return are reported shutting down or stay
    held by a settled request, a return can take over the machines of another, a
    group confirmed in a failed answer counts as failed, a negative number of retries
    turns commands into no-ops, only the built-in identifier prefixes work, an instance
    without a known image counts as terminated on a return, and a terminated machine
    reported without a reason is written again by every sync; reading a machine of the
    old layout damages the cached row, a missing provider API is never recovered, the
    list of active machines holds three statuses only, an acquire handler takes a stored
    request out of ACQUIRING against the table, a conflict while it saves silences the
    events of the change, and one bad record of an answer leaves all its machines
    unrecorded; an outcome the store refused is answered and cached all the same, a
    cancel takes machines that were skipped by their return for returned, returning all
    machines returns fifty, and the watch sees no processors of stored machines; a
    request that is not found is running as far as HostFactory is told, a returned
    machine has failed, selection picks providers that validation refuses, it never
    rotates, may take a disabled provider as the active one, and hands out a strategy
    for a selection; no limit on machines is enforced.

    ** Conventions and bounds

    Python integers are [Z].  A method that raises returns [result]; one that
    mutates returns the new state; the clock, random draws, fresh identifiers and
    provider answers are arguments.  Timestamps are integers, only compared and
    added.  Dictionaries are association lists in insertion order, compared by
    [dict_equiv] where order does not matter.  The loops that need fuel have
    enough: the write loop's is the source's constant of two attempts, the retry
    loop's is one more than the strategy's bound, and [retry_terminates] proves
    that it never runs out.  The provisioning loop's is one more than the configured
    number of retries, its own bound; the walk over pages needs one step per row.  A
    poll's is the number of rounds its time limit allows, and [polling_terminates] says
    that more would change nothing.  The
    JSON reader's fuel is the length of its text and one, which [size_length] shows
    to be enough for whatever was written.  Everything else recurs structurally.

    Disk writes may fail, as a list of faults decides; a write that succeeds is
    atomic and gives the file a signature it never had.  An operation that the code
    runs under its file lock is one step.  Logging, metrics and event delivery are
    left out everywhere.  Code outside the repository is an argument: pydantic's reading
    of integers and its text for diagnostics, the hash of a fingerprint, what a
    provider answers; a witness gives each a concrete function.

    ** Not modelled

    Interfaces (REST, command line, MCP, SDK, user interface), configuration,
    dependency injection, authentication, monitoring and the providers' calls that
    create and release machines are input and output around this core or calls to
    libraries; SQL storage is mostly the database's behaviour.  Parts that carry
    logic and are not modelled: the listing of return requests and the listings by
    cursor of the facade; the field mappings of templates and the Slurm strategy; the
    provider registry; the repositories inside a unit of work; the orphan collector of
    the Kubernetes provider; the entity cache.

    This file holds the shared vocabulary. *)

From stdpp Require Import base gmap strings list fin_maps pretty.
From Stdlib Require Import Ascii ZArith Sorted Lia.

(** ** Results: a Python call returns a value or raises *)

(** The exception classes the modelled code raises or catches, with the data
    the handlers look at. *)
Inductive exn :=
| InvalidRequestStateError (current_state attempted_state : string)
| InvalidMachineStateError (current_state attempted_state : string)
| RequestValidationError (message : string)
| ValueError (message : string)
| KeyError (key : string)
| TypeError (message : string)
| RuntimeError (message : string)
| ConcurrencyError (entity_id : string) (expected_version : option Z)
| StorageError (message : string)
| ProviderContractError (message : string)
| QuotaError (message : string)
| CircuitBreakerOpenError (service_name : string) (failure_count : Z)
    (last_failure_time : option Z)
| MaxRetriesExceededError (attempts : Z) (last : exn)
| OtherError (class_name message : string).

(** [str(e)]: the message the exception was built with, exactly as the source
    words it. *)
Fixpoint exn_str (e : exn) : string :=
  match e with
  | RequestValidationError m | ValueError m | TypeError m | RuntimeError m
  | StorageError m | ProviderContractError m | QuotaError m | OtherError _ m => m
  | KeyError k => String.append "'" (String.append k "'")
  | InvalidRequestStateError c a =>
      "Cannot transition request from " +:+ c +:+ " to " +:+ a
  | InvalidMachineStateError c a => "Cannot transition from " +:+ c +:+ " to " +:+ a
  | ConcurrencyError i (Some v) =>
      "Concurrent write detected for entity '" +:+ i +:+
      "': the stored record is no longer at version " +:+ pretty v +:+
      " (it was changed or deleted by another writer). Re-read the entity, re-apply your change, and retry."
  | ConcurrencyError i None =>
      "Entity '" +:+ i +:+
      "' was saved from two different stored versions in one unit of work. Re-read the entity, re-apply your change, and retry."
  | CircuitBreakerOpenError s n _ =>
      "Circuit breaker is OPEN for service '" +:+ s +:+ "' after " +:+ pretty n +:+
      " failures. Failing fast to prevent cascading failures."
  | MaxRetriesExceededError n e' =>
      "Maximum retry attempts (" +:+ pretty n +:+ ") exceeded. Last error: " +:+ exn_str e'
  end.

Inductive result (A : Type) :=
| Ok (a : A)
| Err (e : exn).
Arguments Ok {A} a.
Arguments Err {A} e.

#[export] Instance result_ret : MRet result := fun A a => Ok a.
#[export] Instance result_bind : MBind result := fun A B f m =>
  match m with Ok a => f a | Err e => Err e end.
#[export] Instance result_fmap : FMap result := fun A B f m =>
  match m with Ok a => Ok (f a) | Err e => Err e end.

#[export] Instance exn_eq_dec : EqDecision exn.
Proof. solve_decision. Defined.

Lemma result_bind_ret {A B} (a : A) (f : A → result B) : (Ok a ≫= f) = f a.
Proof. done. Qed.

Lemma result_bind_Ok {A B} (m : result A) (f : A → result B) b :
  m ≫= f = Ok b ↔ ∃ a, m = Ok a ∧ f a = Ok b.
Proof.
  split; [|by intros (a & -> & H)].
  destruct m as [a|e]; cbn; [eauto|done].
Qed.

(** A loop that builds a list and stops at the first exception. *)
Fixpoint mapM_result {A B} (f : A → result B) (l : list A) : result (list B) :=
  match l with
  | [] => Ok []
  | x :: l' => y ← f x; ys ← mapM_result f l'; Ok (y :: ys)
  end.

Lemma mapM_result_Forall2 {A B} (f : A → result B) l ys :
  mapM_result f l = Ok ys ↔ Forall2 (λ x y, f x = Ok y) l ys.
Proof.
  revert ys. induction l as [|x l IH]; intros ys; simpl; split.
  - intros [= <-]. constructor.
  - by intros ->%Forall2_nil_inv_l.
  - intros (y & Hy & (ys' & Hys & [= <-])%result_bind_Ok)%result_bind_Ok.
    constructor; [done|by apply IH].
  - intros (y & ys' & Hy & Hys%IH & ->)%Forall2_cons_inv_l. rewrite Hy. simpl. by rewrite Hys.
Qed.

Lemma mapM_result_total {A B} (f : A → result B) l :
  (∀ x, x ∈ l → ∃ y, f x = Ok y) → ∃ ys, mapM_result f l = Ok ys.
Proof.
  induction l as [|x l IH]; intros H; simpl; [by eexists|].
  destruct (H x) as [y ->]; [left|]. destruct IH as [ys ->]; [by intros; apply H; right|].
  simpl. by eexists.
Qed.

Lemma mapM_result_length {A B} (f : A → result B) l ys :
  mapM_result f l = Ok ys → length ys = length l.
Proof. rewrite mapM_result_Forall2. intros H. symmetry. by eapply Forall2_length. Qed.

(** ** Record update, [r <| field := v |>] *)

Class Setter {R T : Type} (proj : R → T) := set : (T → T) → R → R.
Arguments set {R T} proj {_} f r /.

(** [solve_setter eta] builds the setter of a projection from the record's eta
    expansion [eta r = Mk (f1 r) .. (fn r)]. *)
Ltac solve_setter eta :=
  lazymatch goal with
  | |- @Setter ?R ?T ?p =>
      let body := constr:(fun (f : T → T) (r : R) =>
        ltac:(let t := eval cbv beta delta [eta] in (eta r) in
              let u := eval pattern (p r) in t in
              lazymatch u with ?g _ =>
                let v := eval cbv beta in (g (f (p r))) in exact v end)) in
      exact body
  end.

Declare Scope orb_scope.
Delimit Scope orb_scope with orb.
Open Scope orb_scope.

Notation "r <| f := v |>" := (set f (fun _ => v) r)
  (at level 12, f at next level, v at level 200, left associativity,
   format "r  <|  f  :=  v  |>") : orb_scope.

(** Boolean membership, the code's [x in [..]]. *)
Notation "x ∈? l" := (bool_decide (x ∈ l)) (at level 70, only parsing) : orb_scope.
Notation "x ≟ y" := (bool_decide (x = y)) (at level 70, only parsing) : orb_scope.

(** ** Dynamic values

    What the code types as [Any]: the JSON-like values kept in metadata,
    provider data and storage rows.  Floating-point values are left out: the
    modelled code never branches on one. *)
Inductive json :=
| JNull
| JBool (b : bool)
| JInt (z : Z)
| JStr (s : string)
| JList (l : list json)
| JDict (d : list (string * json)).

(** Python truthiness. *)
Definition truthy (j : json) : bool :=
  match j with
  | JNull => false
  | JBool b => b
  | JInt z => negb (Z.eqb z 0)
  | JStr s => negb (s ≟ EmptyString)
  | JList l => match l with [] => false | _ => true end
  | JDict d => match d with [] => false | _ => true end
  end.

(** The cancellation of a task, which [except Exception] does not catch. *)
Definition is_cancelled (e : exn) : bool :=
  match e with OtherError c _ => c ≟ "CancelledError" | _ => false end.

(** [x or y] on optional strings: [None] and the empty string are falsy. *)
Definition str_truthy (o : option string) : bool :=
  match o with None => false | Some s => negb (s ≟ EmptyString) end.

Definition or_str (o : option string) (d : string) : string :=
  match o with Some s => if s ≟ EmptyString then d else s | None => d end.

Definition or_opt_str (o d : option string) : option string :=
  if str_truthy o then o else d.

(** [d.get(k)] on a dictionary of dynamic values, where a missing key and an
    explicit [None] give the same answer. *)
Definition jor (a b : json) : json := if truthy a then a else b.

(** ** Python dictionaries

    Insertion-ordered, as the code iterates over them: assigning to a key that
    is present keeps its place, a new key goes last. *)
Abbreviation dict V := (list (string * V)).

Section dict.
Context {V : Type}.
Implicit Types (d : dict V) (k : string) (v : V).

Fixpoint dget k d : option V :=
  match d with
  | [] => None
  | (k', v) :: d' => if decide (k' = k) then Some v else dget k d'
  end.

Fixpoint dset k v d : dict V :=
  match d with
  | [] => [(k, v)]
  | (k', v') :: d' => if decide (k' = k) then (k, v) :: d' else (k', v') :: dset k v d'
  end.

Fixpoint dpop k d : dict V :=
  match d with
  | [] => []
  | (k', v') :: d' => if decide (k' = k) then dpop k d' else (k', v') :: dpop k d'
  end.

Definition dget_default k d v : V := default v (dget k d).
Definition dmem k d : bool := bool_decide (is_Some (dget k d)).
Definition dkeys d : list string := d.*1.
Definition dvalues d : list V := d.*2.

(** [{**d1, **d2}] and [d1.update(d2)]. *)
Definition dmerge d1 d2 : dict V := foldl (λ acc kv, dset kv.1 kv.2 acc) d1 d2.

(** [d1] and [d2] answer every lookup alike. *)
Definition dict_equiv d1 d2 : Prop := ∀ k, dget k d1 = dget k d2.

Definition dict_wf d : Prop := NoDup (dkeys d).

Lemma dget_dset k k' v d :
  dget k' (dset k v d) = if decide (k = k') then Some v else dget k' d.
Proof. induction d as [|[k1 v1] d IH]; simpl; repeat (case_decide || simpl); naive_solver. Qed.

Lemma dget_dset_eq k v d : dget k (dset k v d) = Some v.
Proof. rewrite dget_dset. by case_decide. Qed.

Lemma dget_dset_ne k k' v d : k ≠ k' → dget k' (dset k v d) = dget k' d.
Proof. intros. rewrite dget_dset. by case_decide. Qed.

Lemma dget_dpop k k' d :
  dget k' (dpop k d) = if decide (k = k') then None else dget k' d.
Proof. induction d as [|[k1 v1] d IH]; simpl; repeat (case_decide || simpl); naive_solver. Qed.

Lemma dget_app k d1 d2 :
  dget k (d1 ++ d2) = match dget k d1 with Some v => Some v | None => dget k d2 end.
Proof. induction d1 as [|[k1 v1] d1 IH]; simpl; [done|]. by case_decide. Qed.

Lemma dget_elem_of k d v : dget k d = Some v → (k, v) ∈ d.
Proof.
  induction d as [|[k1 v1] d IH]; simpl; [done|].
  case_decide; intros Hv; simplify_eq; [left|right; auto].
Qed.

Lemma dget_None k d : dget k d = None ↔ k ∉ dkeys d.
Proof.
  unfold dkeys. induction d as [|[k1 v1] d IH]; simpl.
  - split; [intros _; apply not_elem_of_nil|done].
  - rewrite not_elem_of_cons. case_decide; naive_solver.
Qed.

Lemma dmem_elem_of k d : dmem k d = true ↔ k ∈ dkeys d.
Proof.
  unfold dmem. rewrite bool_decide_eq_true, <- not_eq_None_Some, dget_None.
  destruct (decide (k ∈ dkeys d)); tauto.
Qed.

Lemma elem_of_dget k d v : dict_wf d → (k, v) ∈ d → dget k d = Some v.
Proof.
  unfold dict_wf. induction d as [|[k1 v1] d IH]; simpl; [set_solver|].
  rewrite NoDup_cons, elem_of_cons. intros [Hni Hnd] [Heq|Hin]; simplify_eq.
  - by case_decide.
  - case_decide as Hk; [subst|by auto].
    destruct Hni. unfold dkeys. apply list_elem_of_fmap. by exists (k, v).
Qed.

Lemma dkeys_dset k v d :
  dkeys (dset k v d) = if decide (k ∈ dkeys d) then dkeys d else dkeys d ++ [k].
Proof.
  unfold dkeys. induction d as [|[k1 v1] d IH].
  { destruct (decide _) as [Hk|]; [by apply not_elem_of_nil in Hk|done]. }
  cbn [dset]. destruct (decide (k1 = k)) as [->|Hne]; rewrite !fmap_cons; cbn [fst].
  { rewrite decide_True; [done|left]. }
  rewrite IH. destruct (decide (k ∈ d.*1)).
  - rewrite decide_True; [done|by right].
  - rewrite decide_False; [done|]. rewrite not_elem_of_cons. auto.
Qed.

Lemma dkeys_dpop k d : dkeys (dpop k d) = filter (λ k', k' ≠ k) (dkeys d).
Proof.
  unfold dkeys. induction d as [|[k1 v1] d IH]; simpl; [done|].
  rewrite filter_cons. destruct (decide (k1 = k)); simpl.
  - by rewrite decide_False by naive_solver.
  - rewrite decide_True by done. by f_equal.
Qed.

Lemma dict_wf_dset k v d : dict_wf d → dict_wf (dset k v d).
Proof.
  unfold dict_wf. rewrite dkeys_dset. case_decide; [done|].
  intros. apply NoDup_app; repeat split; [done|set_solver|apply NoDup_singleton].
Qed.

Lemma dict_wf_dpop k d : dict_wf d → dict_wf (dpop k d).
Proof. unfold dict_wf. rewrite dkeys_dpop. apply NoDup_filter. Qed.

Lemma dict_wf_dmerge d1 d2 : dict_wf d1 → dict_wf (dmerge d1 d2).
Proof.
  unfold dmerge. revert d1. induction d2 as [|kv d2 IH]; simpl; [done|].
  intros d1 H. apply IH, dict_wf_dset, H.
Qed.

(** A merge looks up in the right dictionary first (given distinct keys there). *)
Lemma dget_dmerge k d1 d2 :
  dict_wf d2 →
  dget k (dmerge d1 d2) = match dget k d2 with Some v => Some v | None => dget k d1 end.
Proof.
  unfold dict_wf, dmerge. revert d1. induction d2 as [|[k2 v2] d2 IH]; simpl; [done|].
  intros d1 [Hni Hnd]%NoDup_cons. rewrite IH by done. rewrite dget_dset.
  case_decide as Hk; [|done]. subst. by apply dget_None in Hni as ->.
Qed.

(** The finite map a dictionary denotes. *)
Definition dict_map d : gmap string V := list_to_map d.

Lemma lookup_dict_map d k : dict_map d !! k = dget k d.
Proof.
  unfold dict_map. induction d as [|[k1 v1] d IH]; simpl; [apply lookup_empty|].
  rewrite lookup_insert. case_decide; [done|]. apply IH.
Qed.

Lemma dict_map_dset k v d : dict_map (dset k v d) = <[k:=v]> (dict_map d).
Proof.
  apply map_eq; intros i. rewrite lookup_insert, !lookup_dict_map. apply dget_dset.
Qed.

Lemma dict_map_dpop k d : dict_map (dpop k d) = delete k (dict_map d).
Proof.
  apply map_eq; intros i. rewrite lookup_delete, !lookup_dict_map. apply dget_dpop.
Qed.

Lemma dict_equiv_map d1 d2 : dict_equiv d1 d2 ↔ dict_map d1 = dict_map d2.
Proof.
  split.
  - intros H. apply map_eq; intros i. by rewrite !lookup_dict_map.
  - intros H k. by rewrite <- !lookup_dict_map, H.
Qed.

#[global] Instance dict_equiv_equivalence : Equivalence dict_equiv.
Proof. split; [by intros d k|by intros d1 d2 H k|intros d1 d2 d3 H1 H2 k; congruence]. Qed.

#[global] Instance dget_proper : Proper ((=) ==> dict_equiv ==> (=)) dget.
Proof. by intros k ? <- d1 d2 H. Qed.

#[global] Instance dset_proper :
  Proper ((=) ==> (=) ==> dict_equiv ==> dict_equiv) dset.
Proof. intros k ? <- v ? <- d1 d2 H k'. by rewrite !dget_dset, H. Qed.

#[global] Instance dpop_proper : Proper ((=) ==> dict_equiv ==> dict_equiv) dpop.
Proof. intros k ? <- d1 d2 H k'. by rewrite !dget_dpop, H. Qed.
End dict.

(** ** Strings *)

Definition ascii_lower (c : Ascii.ascii) : Ascii.ascii :=
  let n := Ascii.nat_of_ascii c in
  if (65 <=? n)%nat && (n <=? 90)%nat then Ascii.ascii_of_nat (n + 32) else c.

(** [s.lower()] on ASCII text. *)
Fixpoint str_lower (s : string) : string :=
  match s with
  | EmptyString => EmptyString
  | String c s' => String (ascii_lower c) (str_lower s')
  end.

(** [s.replace(a, b)] for one-character [a] and [b]. *)
Fixpoint str_replace_char (a b : Ascii.ascii) (s : string) : string :=
  match s with
  | EmptyString => EmptyString
  | String c s' => String (if decide (c = a) then b else c) (str_replace_char a b s')
  end.

(** [s.startswith(p)]. *)
Definition startswith (p s : string) : bool := String.prefix p s.

(** [needle in text]. *)
Fixpoint contains (needle text : string) : bool :=
  startswith needle text ||
  match text with
  | EmptyString => false
  | String _ text' => contains needle text'
  end.

(** [f"{z}"] for an integer. *)
Definition fmt (z : Z) : string := pretty z.

(** [sep.join(l)]. *)
Definition str_join (sep : string) (l : list string) : string := String.concat sep l.

(** The [repr] of a list of plain strings, as an f-string shows it. *)
Definition list_repr (l : list string) : string :=
  String.append "[" (String.append
    (str_join ", " ((λ s, String.append "'" (String.append s "'")) <$> l)) "]").

(** [repr(s)]: single quotes, or double quotes when the text holds a single
    quote and no double quote. *)
Fixpoint str_mem (c : Ascii.ascii) (s : string) : bool :=
  match s with
  | EmptyString => false
  | String c' s' => if decide (c' = c) then true else str_mem c s'
  end.

Definition hex_digit (n : nat) : Ascii.ascii :=
  Ascii.ascii_of_nat (if (n <? 10)%nat then 48 + n else 87 + n).

Definition repr_char (quote c : Ascii.ascii) : string :=
  let n := Ascii.nat_of_ascii c in
  if decide (c = quote) then String "\" (String c EmptyString)
  else if (n =? 92)%nat then "\\"
  else if (n =? 10)%nat then "\n"
  else if (n =? 13)%nat then "\r"
  else if (n =? 9)%nat then "\t"
  else if (n <? 32)%nat || (n =? 127)%nat
  then "\x" +:+ String (hex_digit (n / 16)) (String (hex_digit (n mod 16)) EmptyString)
  else String c EmptyString.

Fixpoint repr_chars (quote : Ascii.ascii) (s : string) : string :=
  match s with
  | EmptyString => EmptyString
  | String c s' => repr_char quote c +:+ repr_chars quote s'
  end.

Definition str_repr (s : string) : string :=
  let q := if str_mem "'"%char s && negb (str_mem (Ascii.ascii_of_nat 34) s)
           then Ascii.ascii_of_nat 34 else "'"%char in
  String q (repr_chars q s +:+ String q EmptyString).

(** [repr(v)] and [str(v)] of a dynamic value. *)
Fixpoint json_repr (j : json) : string :=
  match j with
  | JNull => "None"
  | JBool b => if b then "True" else "False"
  | JInt z => fmt z
  | JStr s => str_repr s
  | JList l => "[" +:+ str_join ", " (map json_repr l) +:+ "]"
  | JDict d =>
      "{" +:+ str_join ", " (map (λ kv, str_repr kv.1 +:+ ": " +:+ json_repr kv.2) d) +:+ "}"
  end.

Definition json_str (j : json) : string :=
  match j with JStr s => s | _ => json_repr j end.

(** Python orders strings by code points; so does the standard library. *)
Lemma ascii_compare_trans a b c o :
  Ascii.compare a b = o → Ascii.compare b c = o → Ascii.compare a c = o.
Proof.
  unfold Ascii.compare. destruct o;
    rewrite ?N.compare_eq_iff, ?N.compare_lt_iff, ?N.compare_gt_iff; lia.
Qed.

Lemma string_leb_trans s1 s2 s3 :
  String.leb s1 s2 = true → String.leb s2 s3 = true → String.leb s1 s3 = true.
Proof.
  unfold String.leb. revert s2 s3.
  induction s1 as [|a s1 IH]; intros [|b s2] [|c s3]; simpl; try done.
  destruct (Ascii.compare a b) eqn:Hab, (Ascii.compare b c) eqn:Hbc; try done;
    try (rewrite (ascii_compare_trans a b c _ Hab Hbc); by try apply IH).
  - apply Ascii.compare_eq_iff in Hab as ->. by rewrite Hbc.
  - apply Ascii.compare_eq_iff in Hbc as ->. by rewrite Hab.
Qed.

Lemma ascii_lower_idemp c : ascii_lower (ascii_lower c) = ascii_lower c.
Proof. destruct c as [[] [] [] [] [] [] [] []]; reflexivity. Qed.

Lemma str_lower_idemp s : str_lower (str_lower s) = str_lower s.
Proof. induction s; simpl; f_equal; auto using ascii_lower_idemp. Qed.

(** Concatenation, which does not reduce by itself. *)
Lemma append_cons c s t : String c s +:+ t = String c (s +:+ t).
Proof. done. Qed.

Lemma append_assoc s t u : (s +:+ t) +:+ u = s +:+ (t +:+ u).
Proof. induction s as [|c s IH]; [done|]. by rewrite !append_cons, IH. Qed.

Lemma append_nil_r s : s +:+ "" = s.
Proof. induction s as [|c s IH]; [done|]. by rewrite append_cons, IH. Qed.

Lemma length_append s t : String.length (s +:+ t) = String.length s + String.length t.
Proof. induction s as [|c s IH]; [done|]. rewrite append_cons. cbn. by rewrite IH. Qed.

(** ** Time

    An instant is a UTC [datetime], in microseconds since the epoch; a
    [timedelta] is a number of microseconds. *)
Abbreviation datetime := Z.

Open Scope Z_scope.

Definition seconds (n : Z) : Z := n * 1000000.

(** The proleptic Gregorian date of a day counted from 1970-01-01. *)
Definition civil_from_days (days : Z) : Z * Z * Z :=
  let z := days + 719468 in
  let era := z / 146097 in
  let doe := z - era * 146097 in
  let yoe := (doe - doe / 1460 + doe / 36524 - doe / 146096) / 365 in
  let doy := doe - (365 * yoe + yoe / 4 - yoe / 100) in
  let mp := (5 * doy + 2) / 153 in
  let d := doy - (153 * mp + 2) / 5 + 1 in
  let m := if (mp <? 10)%Z then mp + 3 else mp - 9 in
  let y := yoe + era * 400 in
  ((if (m <=? 2)%Z then y + 1 else y), m, d).

Fixpoint zero_pad (width : nat) (s : string) : string :=
  match width with
  | O => s
  | S w => if (String.length s <? width)%nat then String "0" (zero_pad w s) else s
  end.

Definition pad (width : nat) (z : Z) : string := zero_pad width (fmt z).

(** [t.isoformat()] of a UTC instant. *)
Definition isoformat (t : datetime) : string :=
  let '(y, m, d) := civil_from_days (t / seconds 86400) in
  let us := t mod seconds 86400 in
  let s := us / 1000000 in
  let frac := us mod 1000000 in
  pad 4 y +:+ "-" +:+ pad 2 m +:+ "-" +:+ pad 2 d +:+ "T" +:+
  pad 2 (s / 3600) +:+ ":" +:+ pad 2 ((s / 60) mod 60) +:+ ":" +:+ pad 2 (s mod 60) +:+
  (if (frac =? 0)%Z then "" else "." +:+ pad 6 frac) +:+ "+00:00".

Close Scope Z_scope.

(** ** Minimum of a list of naturals *)

Lemma foldl_min_l (l : list nat) a b :
  foldl Nat.min (Nat.min a b) l = Nat.min (foldl Nat.min a l) b.
Proof.
  revert a b. induction l as [|x l IH]; intros a b; simpl; [done|].
  rewrite <- IH. f_equal. lia.
Qed.

Lemma foldl_min_le (l : list nat) n : foldl Nat.min n l ≤ n.
Proof.
  revert n. induction l as [|x l IH]; intros n; simpl; [done|].
  specialize (IH (Nat.min n x)). lia.
Qed.

Lemma foldl_min_app n (l1 l2 : list nat) :
  foldl Nat.min n (l1 ++ l2) = Nat.min (foldl Nat.min n l2) (foldl Nat.min n l1).
Proof.
  pose proof (foldl_min_le l1 n). rewrite foldl_app, <- foldl_min_l. f_equal. lia.
Qed.

(** ** Order-preserving deduplication

    The [seen]-set loop the code uses in several places: keep the first element
    of each key. *)
Section dedup.
Context {A K : Type} `{EqDecision K} (key : A → K).

Fixpoint dedup_loop (seen : list K) (l : list A) : list A :=
  match l with
  | [] => []
  | x :: l' =>
      if key x ∈? seen then dedup_loop seen l' else x :: dedup_loop (key x :: seen) l'
  end.

Definition dedup_by (l : list A) : list A := dedup_loop [] l.

Lemma dedup_loop_seen s1 s2 l :
  (∀ k, k ∈ s1 ↔ k ∈ s2) → dedup_loop s1 l = dedup_loop s2 l.
Proof.
  revert s1 s2. induction l as [|x l IH]; intros s1 s2 Hs; simpl; [done|].
  rewrite (bool_decide_ext (key x ∈ s1) (key x ∈ s2)) by apply Hs.
  case_bool_decide; [by apply IH|]. f_equal. apply IH.
  intros k. rewrite !elem_of_cons, Hs. done.
Qed.

Lemma dedup_loop_app seen l1 l2 :
  dedup_loop seen (l1 ++ l2) = dedup_loop seen l1 ++ dedup_loop ((key <$> l1) ++ seen) l2.
Proof.
  revert seen. induction l1 as [|x l1 IH]; intros seen; simpl; [done|].
  case_bool_decide as Hx; rewrite IH; simpl; f_equal; [|f_equal];
    apply dedup_loop_seen; intros k; rewrite ?elem_of_cons, !elem_of_app, ?elem_of_cons;
    naive_solver.
Qed.

(** Deduplicating twice, against a larger set of seen keys, is deduplicating once. *)
Lemma dedup_loop_absorb s1 s2 l :
  (∀ k, k ∈ s1 → k ∈ s2) → dedup_loop s2 (dedup_loop s1 l) = dedup_loop s2 l.
Proof.
  revert s1 s2. induction l as [|x l IH]; intros s1 s2 Hs; simpl; [done|].
  case_bool_decide as H1; simpl.
  - rewrite bool_decide_eq_true_2 by auto. by apply IH.
  - case_bool_decide as H2; [|f_equal]; apply IH; intros k; rewrite ?elem_of_cons;
      naive_solver.
Qed.

Lemma elem_of_dedup_loop_keys seen l k :
  k ∈ key <$> dedup_loop seen l ↔ k ∈ key <$> l ∧ k ∉ seen.
Proof.
  revert seen. induction l as [|x l IH]; intros seen; simpl; [set_solver|].
  case_bool_decide; simpl; rewrite ?elem_of_cons, IH, ?elem_of_cons;
    destruct (decide (k = key x)); naive_solver.
Qed.

Lemma dedup_loop_NoDup seen l : NoDup (key <$> dedup_loop seen l).
Proof.
  revert seen. induction l as [|x l IH]; intros seen; simpl; [constructor|].
  case_bool_decide; simpl; [auto|]. constructor; [|auto].
  rewrite elem_of_dedup_loop_keys, elem_of_cons. naive_solver.
Qed.

Lemma dedup_loop_sublist seen l : dedup_loop seen l `sublist_of` l.
Proof.
  revert seen. induction l as [|x l IH]; intros seen; simpl; [constructor|].
  case_bool_decide; constructor; auto.
Qed.

Lemma dedup_by_NoDup l : NoDup (key <$> dedup_by l).
Proof. apply dedup_loop_NoDup. Qed.

Lemma elem_of_dedup_by_keys l k : k ∈ key <$> dedup_by l ↔ k ∈ key <$> l.
Proof.
  unfold dedup_by. rewrite elem_of_dedup_loop_keys. split; [tauto|].
  intros. split; [done|apply not_elem_of_nil].
Qed.

Lemma dedup_loop_all_seen seen l : (∀ k, k ∈ key <$> l → k ∈ seen) → dedup_loop seen l = [].
Proof.
  induction l as [|x l IH]; simpl; intros Hs; [done|].
  rewrite bool_decide_eq_true_2 by (apply Hs; left). apply IH. intros k Hk. apply Hs. by right.
Qed.

(** Appending elements whose keys are all there already adds nothing. *)
Lemma dedup_by_app_seen l1 l2 :
  (∀ k, k ∈ key <$> l2 → k ∈ key <$> l1) → dedup_by (l1 ++ l2) = dedup_by l1.
Proof.
  intros Hk. unfold dedup_by. rewrite dedup_loop_app, (dedup_loop_all_seen _ l2), app_nil_r.
  - done.
  - intros k Hin. rewrite app_nil_r. auto.
Qed.

Lemma dedup_by_idemp l : dedup_by (dedup_by l) = dedup_by l.
Proof. by apply dedup_loop_absorb. Qed.

Lemma dedup_by_app_l l1 l2 : dedup_by (dedup_by l1 ++ l2) = dedup_by (l1 ++ l2).
Proof.
  unfold dedup_by. rewrite !dedup_loop_app, (dedup_loop_absorb [] []) by done. f_equal.
  apply dedup_loop_seen. intros k. rewrite !app_nil_r. apply elem_of_dedup_by_keys.
Qed.

Lemma dedup_by_app_r l1 l2 : dedup_by (l1 ++ dedup_by l2) = dedup_by (l1 ++ l2).
Proof.
  unfold dedup_by. rewrite !dedup_loop_app. f_equal.
  apply dedup_loop_absorb. intros k Hk. by apply not_elem_of_nil in Hk.
Qed.
End dedup.

(** ** Stable sorting, Python's [sorted] *)
Section sort.
Context {A : Type} (le : A → A → bool).

Fixpoint insert_sorted (x : A) (l : list A) : list A :=
  match l with
  | [] => [x]
  | y :: l' => if le x y then x :: y :: l' else y :: insert_sorted x l'
  end.

Definition sorted_by (l : list A) : list A := foldr insert_sorted [] l.

Lemma insert_sorted_perm x l : insert_sorted x l ≡ₚ x :: l.
Proof.
  induction l as [|y l IH]; simpl; [done|]. destruct (le x y); [done|].
  rewrite IH. apply Permutation_swap.
Qed.

Lemma sorted_by_perm l : sorted_by l ≡ₚ l.
Proof.
  induction l as [|x l IH]; simpl; [done|]. by rewrite insert_sorted_perm, IH.
Qed.

Context (le_total : ∀ x y, le x y = true ∨ le y x = true).
Context (le_trans : ∀ x y z, le x y = true → le y z = true → le x z = true).

Let le_rel x y := le x y = true.

Lemma insert_sorted_sorted x l :
  StronglySorted le_rel l → StronglySorted le_rel (insert_sorted x l).
Proof.
  induction 1 as [|y l Hs IH Hy]; simpl; [repeat constructor|].
  destruct (le x y) eqn:Hxy.
  - constructor; [by constructor|]. constructor; [done|].
    eapply Forall_impl; [exact Hy|]. intros z. by apply le_trans.
  - constructor; [done|]. rewrite insert_sorted_perm. constructor; [|done].
    unfold le_rel. destruct (le_total x y); congruence.
Qed.

Lemma sorted_by_sorted l : StronglySorted le_rel (sorted_by l).
Proof. induction l; simpl; [constructor|by apply insert_sorted_sorted]. Qed.
End sort.

(** ** String enumerations, Python's [class E(str, Enum)] *)

Class StrEnum (E : Type) := {
  enum_members : list E;
  enum_value : E → string;
  enum_complete : ∀ e, e ∈ enum_members;
  enum_value_inj :: Inj (=) (=) enum_value
}.

(** [E(s)]: the member whose value is [s]; [None] where Python raises. *)
Definition enum_of_value {E} `{StrEnum E} (s : string) : option E :=
  snd <$> list_find (λ e, enum_value e = s) enum_members.

(** [E(v.lower())], with the error the enumerations' [from_str] raises. *)
Definition enum_from_str {E} `{StrEnum E} (class_name v : string) : result E :=
  match enum_of_value (str_lower v) with
  | Some e => Ok e
  | None => Err (ValueError ("Invalid " +:+ class_name +:+ ": " +:+ v +:+
                             ". Valid values: " +:+ list_repr (enum_value <$> enum_members)))
  end.

Lemma enum_of_value_Some {E} `{StrEnum E} (s : string) (e : E) :
  enum_of_value s = Some e ↔ enum_value e = s.
Proof.
  unfold enum_of_value. rewrite fmap_Some. split.
  - intros ([i e'] & (? & ? & ?)%list_find_Some & ->). done.
  - intros <-. destruct (list_find_elem_of (λ e', enum_value e' = enum_value e)
      enum_members e) as [[i e'] Hf]; [apply enum_complete|done|].
    exists (i, e'). split; [done|].
    apply list_find_Some in Hf as (_ & Hv & _). simpl. by apply enum_value_inj in Hv.
Qed.

Lemma enum_of_value_value {E} `{StrEnum E} (e : E) : enum_of_value (enum_value e) = Some e.
Proof. by apply enum_of_value_Some. Qed.

(** Membership in an enumeration by exhausting its constructors. *)
Ltac solve_enum_complete := intros []; repeat ((by left) || right).
Ltac solve_enum_inj := intros [] [] H; first [reflexivity | discriminate H].

(** ** Automation *)

Create HintDb orb.
Create Rewrite HintDb orb.
#[export] Hint Rewrite @dget_dset_eq @enum_of_value_value : orb.
#[export] Hint Resolve dict_wf_dset dict_wf_dpop dict_wf_dmerge : orb.

(** Case on every boolean decision and match in sight, then close by
    congruence or arithmetic. *)
Ltac inv_result H :=
  repeat match type of H with
  | context [match ?x with _ => _ end] => destruct x eqn:?; try discriminate H
  end;
  try (injection H as <-).

Ltac split_ifs :=
  repeat match goal with
  | |- context [if ?b then _ else _] => destruct b eqn:?
  | |- context [match ?x with _ => _ end] => destruct x eqn:?
  end.
