(* ===== verification/RequestTypes.v ===== *)
(** * Request and machine enumerations

    [orb/domain/request/request_types.py] and
    [orb/domain/machine/machine_status.py]: the request and machine lifecycle
    statuses with their transition tables, as string enumerations. *)

From stdpp Require Import base strings list relations.
From Stdlib Require Import Ascii ZArith Lia.
From S2P Require Import Prelude.

Module RequestType.
Inductive t := ACQUIRE | RETURN.

#[global] Instance t_eq_dec : EqDecision t.
Proof. solve_decision. Defined.

Definition value (x : t) : string :=
  match x with ACQUIRE => "acquire" | RETURN => "return" end.

#[global] Program Instance t_enum : StrEnum t :=
  { enum_members := [ACQUIRE; RETURN]; enum_value := value }.
Next Obligation. solve_enum_complete. Qed.
Next Obligation. solve_enum_inj. Qed.

Definition from_str (v : string) : result t :=
  enum_from_str "RequestType" v.

Definition to_operation_type (x : t) : string :=
  match x with ACQUIRE => "provision" | RETURN => "terminate" end.

Definition is_acquire (x : t) : bool := x ≟ ACQUIRE.
Definition is_return (x : t) : bool := x ≟ RETURN.
End RequestType.

Module RequestStatus.
Inductive t :=
| PENDING
| IN_PROGRESS
| COMPLETED
| FAILED
| CANCELLED
| PARTIAL
| PARTIAL_PENDING
| TIMEOUT
| ACQUIRING.

#[global] Instance t_eq_dec : EqDecision t.
Proof. solve_decision. Defined.

Definition value (s : t) : string :=
  match s with
  | PENDING => "pending"
  | IN_PROGRESS => "in_progress"
  | COMPLETED => "complete"
  | FAILED => "failed"
  | CANCELLED => "cancelled"
  | PARTIAL => "partial"
  | PARTIAL_PENDING => "partial_pending"
  | TIMEOUT => "timeout"
  | ACQUIRING => "acquiring"
  end.

#[global] Program Instance t_enum : StrEnum t :=
  { enum_members := [PENDING; IN_PROGRESS; COMPLETED; FAILED; CANCELLED; PARTIAL;
                     PARTIAL_PENDING; TIMEOUT; ACQUIRING];
    enum_value := value }.
Next Obligation. solve_enum_complete. Qed.
Next Obligation. solve_enum_inj. Qed.

Definition from_str (v : string) : result t :=
  enum_from_str "RequestStatus" v.

Definition is_terminal (s : t) : bool :=
  s ∈? [COMPLETED; FAILED; CANCELLED; TIMEOUT; PARTIAL].

Definition is_active (s : t) : bool :=
  s ∈? [PENDING; IN_PROGRESS; ACQUIRING; PARTIAL_PENDING].

Definition valid_transitions (s : t) : list t :=
  match s with
  | PENDING => [IN_PROGRESS; ACQUIRING; CANCELLED; FAILED; COMPLETED; PARTIAL; PARTIAL_PENDING]
  | IN_PROGRESS => [COMPLETED; PARTIAL; PARTIAL_PENDING; FAILED; CANCELLED; TIMEOUT; ACQUIRING]
  | ACQUIRING =>
      [ACQUIRING; COMPLETED; PARTIAL; PARTIAL_PENDING; FAILED; TIMEOUT; CANCELLED]
  | PARTIAL_PENDING => [COMPLETED; PARTIAL; FAILED; CANCELLED; TIMEOUT]
  | COMPLETED => []
  | FAILED => []
  | CANCELLED => []
  | TIMEOUT => []
  | PARTIAL => [COMPLETED]
  end.

Definition can_transition_to (s new_status : t) : bool :=
  if new_status ≟ s then true else new_status ∈? valid_transitions s.

#[global] Arguments is_terminal : simpl never.
#[global] Arguments can_transition_to : simpl never.

(** A move of the lifecycle that changes the status. *)
Definition moves (s s' : t) : Prop := can_transition_to s s' = true ∧ s ≠ s'.

(** How many moves a request in a status can still make, at most. *)
Definition remaining_moves (s : t) : nat :=
  match s with
  | PENDING => 5
  | IN_PROGRESS => 4
  | ACQUIRING => 3
  | PARTIAL_PENDING => 2
  | PARTIAL => 1
  | COMPLETED | FAILED | CANCELLED | TIMEOUT => 0
  end.

Lemma moves_remaining s s' : moves s s' → remaining_moves s' < remaining_moves s.
Proof. intros [H Hne]. destruct s, s'; try discriminate H; try congruence; simpl; lia. Qed.

Lemma moves_out_of_terminal s s' :
  is_terminal s = true → moves s s' → s = PARTIAL ∧ s' = COMPLETED.
Proof. intros Ht [H Hne]. by destruct s, s'; try discriminate. Qed.

Lemma active_iff_not_terminal s : is_active s = negb (is_terminal s).
Proof. by destruct s. Qed.

Lemma nsteps_moves n s s' :
  nsteps moves n s s' → n + remaining_moves s' ≤ remaining_moves s.
Proof.
  induction 1 as [x|n x y z Hm _ IH]; [lia|].
  apply moves_remaining in Hm. lia.
Qed.
End RequestStatus.

Module MachineResult.
Inductive t := SUCCESS | FAILED | PENDING | SKIPPED.

#[global] Instance t_eq_dec : EqDecision t.
Proof. solve_decision. Defined.

Definition value (x : t) : string :=
  match x with
  | SUCCESS => "success" | FAILED => "failed" | PENDING => "pending" | SKIPPED => "skipped"
  end.

#[global] Program Instance t_enum : StrEnum t :=
  { enum_members := [SUCCESS; FAILED; PENDING; SKIPPED]; enum_value := value }.
Next Obligation. solve_enum_complete. Qed.
Next Obligation. solve_enum_inj. Qed.

Definition from_str (v : string) : result t := enum_from_str "MachineResult" v.

Definition is_terminal (x : t) : bool := x ∈? [SUCCESS; FAILED; SKIPPED].
Definition is_successful (x : t) : bool := x ≟ SUCCESS.
End MachineResult.

Module MachineStatus.
Inductive t :=
| PENDING
| LAUNCHING
| RUNNING
| STOPPING
| STOPPED
| SHUTTING_DOWN
| TERMINATED
| RETURNED
| FAILED
| UNKNOWN.

#[global] Instance t_eq_dec : EqDecision t.
Proof. solve_decision. Defined.

Definition value (s : t) : string :=
  match s with
  | PENDING => "pending"
  | LAUNCHING => "launching"
  | RUNNING => "running"
  | STOPPING => "stopping"
  | STOPPED => "stopped"
  | SHUTTING_DOWN => "shutting-down"
  | TERMINATED => "terminated"
  | RETURNED => "returned"
  | FAILED => "failed"
  | UNKNOWN => "unknown"
  end.

#[global] Program Instance t_enum : StrEnum t :=
  { enum_members := [PENDING; LAUNCHING; RUNNING; STOPPING; STOPPED; SHUTTING_DOWN;
                     TERMINATED; RETURNED; FAILED; UNKNOWN];
    enum_value := value }.
Next Obligation. solve_enum_complete. Qed.
Next Obligation. solve_enum_inj. Qed.

Definition status_map : dict t :=
  [("pending", PENDING); ("launching", LAUNCHING); ("running", RUNNING);
   ("stopping", STOPPING); ("stopped", STOPPED); ("shutting-down", SHUTTING_DOWN);
   ("terminated", TERMINATED); ("returned", RETURNED); ("failed", FAILED);
   ("unknown", UNKNOWN)].

Definition from_str (v : string) : result t :=
  let normalized_value := str_replace_char "_"%char "-"%char (str_lower v) in
  match dget normalized_value status_map with
  | Some s => Ok s
  | None => Err (ValueError ("Invalid machine status: " +:+ v))
  end.

Definition valid_transitions (s : t) : list t :=
  match s with
  | PENDING => [LAUNCHING; FAILED]
  | LAUNCHING => [RUNNING; FAILED]
  | RUNNING => [STOPPING; SHUTTING_DOWN]
  | STOPPING => [STOPPED; FAILED]
  | STOPPED => [RUNNING; TERMINATED]
  | SHUTTING_DOWN => [TERMINATED]
  | TERMINATED => [RETURNED]
  | FAILED => []
  | RETURNED => []
  | UNKNOWN => [PENDING; RUNNING; STOPPED; TERMINATED]
  end.

Definition can_transition_to (s new_status : t) : bool := new_status ∈? valid_transitions s.

Definition is_terminal (s : t) : bool := s ∈? [TERMINATED; FAILED; RETURNED].
Definition is_active (s : t) : bool := s ∈? [PENDING; LAUNCHING; RUNNING].

Definition moves (s s' : t) : Prop := can_transition_to s s' = true.

(** A terminal machine stays terminal: the only move is TERMINATED to RETURNED. *)
Lemma terminal_moves s s' : is_terminal s = true → moves s s' → is_terminal s' = true.
Proof. unfold moves. by destruct s, s'. Qed.
End MachineStatus.

(** ** Properties *)

(** the request lifecycle is finite and its settled outcomes are final. From any
    status at most five status changes are possible (fewer the further it has
    got), a chain of changes that starts in a terminal status is either empty or
    the single upgrade PARTIAL to COMPLETED, and PENDING is never re-entered. *)
Theorem request_lifecycle_finite n s s' :
  nsteps RequestStatus.moves n s s' →
  n ≤ RequestStatus.remaining_moves s ∧
  (RequestStatus.is_terminal s = true →
     n = 0 ∧ s' = s ∨ n = 1 ∧ s = RequestStatus.PARTIAL ∧ s' = RequestStatus.COMPLETED) ∧
  (s' = RequestStatus.PENDING → n = 0).
Proof.
  intros H. pose proof (RequestStatus.nsteps_moves _ _ _ H) as Hn.
  split_and!; [lia| |].
  - intros Ht. destruct H as [x|n x y z Hm Hrest]; [by left|right].
    destruct (RequestStatus.moves_out_of_terminal _ _ Ht Hm) as [-> ->].
    apply RequestStatus.nsteps_moves in Hrest as Hz. simpl in Hz.
    assert (n = 0) as -> by lia. by inversion Hrest.
  - intros ->. destruct s; simpl in *; lia.
Qed.

Lemma request_lifecycle_finite_witness :
  nsteps RequestStatus.moves 2 RequestStatus.PENDING RequestStatus.COMPLETED ∧
  2 ≤ RequestStatus.remaining_moves RequestStatus.PENDING.
Proof.
  assert (Hs : nsteps RequestStatus.moves 2 RequestStatus.PENDING RequestStatus.COMPLETED).
  { apply (nsteps_l _ 1 _ RequestStatus.IN_PROGRESS); [by split|].
    apply (nsteps_l _ 0 _ RequestStatus.COMPLETED); [by split|constructor]. }
  split; [exact Hs|apply (request_lifecycle_finite 2 _ _ Hs)].
Defined.
