(* ===== verification/Diagnostic.v ===== *)
(** * Fulfilment diagnostics and verdicts

    [orb/domain/base/diagnostic.py] (why a request fell short, and how two
    explanations merge), [orb/domain/base/error_classification.py] (from raw
    provider errors to a category) and [orb/domain/base/provider_fulfilment.py]
    (the capacity verdict a provider reports). *)

From stdpp Require Import base strings list sets.
From Stdlib Require Import ZArith Lia.
From S2P Require Import Prelude.

Module DiagnosticCategory.
Inductive t :=
| CAPACITY | VALIDATION | AUTH | RATE_LIMIT | INTERNAL | DEADLINE | CANCELLED | UNKNOWN.

#[global] Instance t_eq_dec : EqDecision t.
Proof. solve_decision. Defined.

Definition value (c : t) : string :=
  match c with
  | CAPACITY => "capacity" | VALIDATION => "validation" | AUTH => "auth"
  | RATE_LIMIT => "rate_limit" | INTERNAL => "internal" | DEADLINE => "deadline"
  | CANCELLED => "cancelled" | UNKNOWN => "unknown"
  end.

#[global] Program Instance t_enum : StrEnum t :=
  { enum_members := [CAPACITY; VALIDATION; AUTH; RATE_LIMIT; INTERNAL; DEADLINE; CANCELLED;
                     UNKNOWN];
    enum_value := value }.
Next Obligation. solve_enum_complete. Qed.
Next Obligation. solve_enum_inj. Qed.
End DiagnosticCategory.

(** [l.index(x)], with the length of the list where Python raises [ValueError]
    and the callers fall back to [len(l)]. *)
Fixpoint index_or_length {A} `{EqDecision A} (x : A) (l : list A) : nat :=
  match l with
  | [] => 0
  | y :: l' => if decide (y = x) then 0 else S (index_or_length x l')
  end.

Definition _SEVERITY_ORDER : list DiagnosticCategory.t :=
  [DiagnosticCategory.AUTH; DiagnosticCategory.VALIDATION; DiagnosticCategory.CAPACITY;
   DiagnosticCategory.RATE_LIMIT; DiagnosticCategory.DEADLINE; DiagnosticCategory.INTERNAL;
   DiagnosticCategory.CANCELLED; DiagnosticCategory.UNKNOWN].

Definition _severity_index (category : DiagnosticCategory.t) : nat :=
  index_or_length category _SEVERITY_ORDER.

Record ProviderError := mkProviderError {
  pe_code : string;
  pe_message : string;
  pe_fleet_id : option string;
  pe_az : option string;
  pe_instance_type : option string
}.

#[export] Instance ProviderError_eq_dec : EqDecision ProviderError.
Proof. solve_decision. Defined.

Definition _dedup_key (e : ProviderError)
  : string * option string * option string * option string :=
  (pe_code e, pe_fleet_id e, pe_az e, pe_instance_type e).

Record FulfilmentDiagnostic := mkFulfilmentDiagnostic {
  fd_category : DiagnosticCategory.t;
  fd_summary : string;
  fd_detail : option string;
  fd_provider_errors : list ProviderError;
  fd_occurred_at : datetime
}.

#[export] Instance FulfilmentDiagnostic_eq_dec : EqDecision FulfilmentDiagnostic.
Proof. solve_decision. Defined.

(** [FulfilmentDiagnostic.merge]. *)
Definition merge (a b : FulfilmentDiagnostic) : FulfilmentDiagnostic :=
  let winner :=
    if (_severity_index (fd_category a) <=? _severity_index (fd_category b))%nat then a else b in
  {| fd_category := fd_category winner;
     fd_summary := fd_summary winner;
     fd_detail := fd_detail winner;
     fd_provider_errors :=
       dedup_by _dedup_key (fd_provider_errors a ++ fd_provider_errors b);
     fd_occurred_at := Z.max (fd_occurred_at a) (fd_occurred_at b) |}.

(** ** Error classification *)

Definition CAPACITY_CODES : list string :=
  ["InsufficientInstanceCapacity"; "SpotMaxPriceTooLow"; "MaxSpotInstanceCountExceeded";
   "InstanceLimitExceeded"].
Definition AUTH_CODES : list string := ["UnauthorizedOperation"; "AccessDenied"].
Definition VALIDATION_CODES : list string :=
  ["InvalidParameterValue"; "InvalidLaunchTemplateName"].
Definition RATE_LIMIT_CODES : list string := ["Throttling"; "RequestLimitExceeded"].

Definition _CATEGORY_SEVERITY : list DiagnosticCategory.t :=
  [DiagnosticCategory.AUTH; DiagnosticCategory.VALIDATION; DiagnosticCategory.CAPACITY;
   DiagnosticCategory.RATE_LIMIT; DiagnosticCategory.INTERNAL; DiagnosticCategory.UNKNOWN].

(** [_SUMMARY_TEMPLATES[category].format(n=n)]; a missing key raises. *)
Definition summary_for (category : DiagnosticCategory.t) (n : Z) : result string :=
  match category with
  | DiagnosticCategory.CAPACITY =>
      Ok ("Insufficient capacity for " +:+ fmt n +:+ " instance type(s)")
  | DiagnosticCategory.AUTH => Ok "Provider authorization denied"
  | DiagnosticCategory.VALIDATION => Ok "Provider request validation failed"
  | DiagnosticCategory.RATE_LIMIT => Ok "Provider throttled the request"
  | DiagnosticCategory.INTERNAL => Ok "Provider error"
  | DiagnosticCategory.UNKNOWN => Ok ("Provider returned " +:+ fmt n +:+ " error(s)")
  | DiagnosticCategory.DEADLINE | DiagnosticCategory.CANCELLED =>
      Err (KeyError (DiagnosticCategory.value category))
  end.

Definition classify_error_code (code : string) : DiagnosticCategory.t :=
  if code ∈? AUTH_CODES then DiagnosticCategory.AUTH
  else if code ∈? VALIDATION_CODES then DiagnosticCategory.VALIDATION
  else if code ∈? CAPACITY_CODES then DiagnosticCategory.CAPACITY
  else if code ∈? RATE_LIMIT_CODES then DiagnosticCategory.RATE_LIMIT
  else DiagnosticCategory.UNKNOWN.

(** One turn of the loop of [_most_severe], on [(best, best_rank)]. *)
Definition most_severe_step (acc : DiagnosticCategory.t * nat) (cat : DiagnosticCategory.t)
  : DiagnosticCategory.t * nat :=
  let rank := index_or_length cat _CATEGORY_SEVERITY in
  if (rank <? acc.2)%nat then (cat, rank) else acc.

Definition _most_severe (categories : list DiagnosticCategory.t) : DiagnosticCategory.t :=
  (foldl most_severe_step (DiagnosticCategory.UNKNOWN, length _CATEGORY_SEVERITY) categories).1.

Definition jget (k : string) (d : dict json) : json := default JNull (dget k d).

(** Pydantic's check of an [str | None] field. *)
Definition opt_str_field (j : json) : result (option string) :=
  match j with
  | JNull => Ok None
  | JStr s => Ok (Some s)
  | _ => Err (OtherError "ValidationError" "Input should be a valid string")
  end.

Definition error_code (err : dict json) : string :=
  json_str (jor (jor (jget "error_code" err) (jget "code" err)) (JStr "Unknown")).

Definition error_text (err : dict json) : string :=
  json_str (jor (jor (jget "error_message" err) (jget "message" err)) (JStr "")).

Definition provider_error_of (err : dict json) : result ProviderError :=
  fleet_id ← opt_str_field (jget "fleet_id" err);
  az ← opt_str_field (jor (jget "az" err) (jget "availability_zone" err));
  instance_type ← opt_str_field (jget "instance_type" err);
  Ok {| pe_code := error_code err; pe_message := error_text err; pe_fleet_id := fleet_id;
        pe_az := az; pe_instance_type := instance_type |}.

Definition classify_provider_errors (errors : list (dict json)) (now : datetime)
  : result FulfilmentDiagnostic :=
  provider_errors ← mapM_result provider_error_of errors;
  let categories := classify_error_code ∘ error_code <$> errors in
  let category :=
    match categories with
    | [] => DiagnosticCategory.UNKNOWN
    | _ => _most_severe categories
    end in
  summary ← summary_for category (Z.of_nat (length provider_errors));
  Ok {| fd_category := category; fd_summary := summary; fd_detail := None;
        fd_provider_errors := provider_errors; fd_occurred_at := now |}.

(** ** The provider's capacity verdict *)

(** [state] is one of ["fulfilled"], ["in_progress"], ["partial"] and
    ["failed"] by annotation only, so any string can arrive here. *)
Record ProviderFulfilment := mkProviderFulfilment {
  pf_state : string;
  pf_message : string;
  pf_target_units : option Z;
  pf_fulfilled_units : option Z;
  pf_running_count : option Z;
  pf_pending_count : option Z;
  pf_failed_count : option Z;
  pf_final : bool;
  pf_diagnostic : option FulfilmentDiagnostic
}.

(** [ProviderFulfilment(state=.., message=.., final=..)], the rest defaulted. *)
Definition fulfilment (state message : string) (final : bool) : ProviderFulfilment :=
  {| pf_state := state; pf_message := message; pf_target_units := None;
     pf_fulfilled_units := None; pf_running_count := None; pf_pending_count := None;
     pf_failed_count := None; pf_final := final; pf_diagnostic := None |}.

(** ** Lemmas *)

(** The winner of a merge is the leftmost most severe input. *)
Lemma merge_category_min a b :
  _severity_index (fd_category (merge a b)) =
  Nat.min (_severity_index (fd_category a)) (_severity_index (fd_category b)).
Proof. unfold merge; simpl. destruct (Nat.leb_spec (_severity_index (fd_category a))
  (_severity_index (fd_category b))); simpl; lia. Qed.

Lemma severity_index_inj c c' : _severity_index c = _severity_index c' → c = c'.
Proof. by destruct c, c'. Qed.

Lemma merge_headline a b :
  merge a b =
  let winner := if (_severity_index (fd_category a) <=? _severity_index (fd_category b))%nat
                then a else b in
  {| fd_category := fd_category winner; fd_summary := fd_summary winner;
     fd_detail := fd_detail winner;
     fd_provider_errors := fd_provider_errors (merge a b);
     fd_occurred_at := fd_occurred_at (merge a b) |}.
Proof. done. Qed.

(** Turns [nat] comparisons of severities into facts [lia] can use. *)
Ltac case_leb :=
  repeat match goal with
  | |- context [(?x <=? ?y)%nat] => destruct (Nat.leb_spec x y); simpl
  end.

(** The categories the classifier produces. *)
Definition classified (c : DiagnosticCategory.t) : Prop :=
  c ∈ [DiagnosticCategory.AUTH; DiagnosticCategory.VALIDATION; DiagnosticCategory.CAPACITY;
       DiagnosticCategory.RATE_LIMIT; DiagnosticCategory.UNKNOWN].

Lemma classify_error_code_classified code : classified (classify_error_code code).
Proof. unfold classify_error_code, classified. repeat case_bool_decide; set_solver. Qed.

(** Loop invariant: [best_rank] is the rank of [best], or nothing was seen yet. *)
Definition most_severe_inv (acc : DiagnosticCategory.t * nat) : Prop :=
  classified acc.1 ∧
  (acc.2 = index_or_length acc.1 _CATEGORY_SEVERITY ∨
   acc = (DiagnosticCategory.UNKNOWN, length _CATEGORY_SEVERITY)).

Lemma most_severe_step_inv acc c :
  most_severe_inv acc → classified c →
  most_severe_inv (most_severe_step acc c) ∧
  _severity_index (most_severe_step acc c).1 =
    Nat.min (_severity_index acc.1) (_severity_index c).
Proof.
  unfold most_severe_inv, classified. rewrite (elem_of_cons _ c), (elem_of_cons _ acc.1).
  rewrite !elem_of_cons, !elem_of_nil. destruct acc as [best rank]; cbn [fst snd].
  intros [Hb [->|[= -> ->]]] Hc; destruct_or!; subst; try done;
    (split; [split; [|first [by left|by right]]|by vm_compute]);
    apply (bool_decide_unpack _); by vm_compute.
Qed.

Lemma most_severe_loop cats acc :
  most_severe_inv acc → Forall classified cats →
  classified (foldl most_severe_step acc cats).1 ∧
  _severity_index (foldl most_severe_step acc cats).1 =
    foldl Nat.min (_severity_index acc.1) (_severity_index <$> cats).
Proof.
  revert acc. induction cats as [|c cats IH]; intros acc H Hc; simpl.
  { destruct H; done. }
  apply Forall_cons in Hc as [Hc Hcs].
  destruct (most_severe_step_inv acc c H Hc) as [Hi <-]. by apply IH.
Qed.

Lemma most_severe_min cats :
  Forall classified cats →
  classified (_most_severe cats) ∧
  _severity_index (_most_severe cats) =
    foldl Nat.min (_severity_index DiagnosticCategory.UNKNOWN) (_severity_index <$> cats).
Proof.
  intros H. apply most_severe_loop; [|done]. split; [|by right].
  unfold classified; simpl; set_solver.
Qed.

Definition error_categories (errors : list (dict json)) : list DiagnosticCategory.t :=
  classify_error_code ∘ error_code <$> errors.

Lemma error_categories_classified errors : Forall classified (error_categories errors).
Proof.
  apply Forall_forall. intros c (e & -> & _)%list_elem_of_fmap.
  apply classify_error_code_classified.
Qed.

Lemma most_severe_index errors :
  _severity_index (_most_severe (error_categories errors)) =
    foldl Nat.min (_severity_index DiagnosticCategory.UNKNOWN)
      (_severity_index <$> error_categories errors).
Proof. apply most_severe_min, error_categories_classified. Qed.

(** What a successful classification looks like. *)
Lemma classify_spec errors now d :
  classify_provider_errors errors now = Ok d →
  fd_category d = _most_severe (error_categories errors) ∧
  summary_for (fd_category d) (Z.of_nat (length errors)) = Ok (fd_summary d) ∧
  mapM_result provider_error_of errors = Ok (fd_provider_errors d) ∧
  fd_detail d = None ∧ fd_occurred_at d = now.
Proof.
  unfold classify_provider_errors. intros (pes & Hp & H)%result_bind_Ok.
  apply result_bind_Ok in H as (summary & Hs & [= <-]); simpl.
  rewrite <- (mapM_result_length _ _ _ Hp). unfold error_categories. by destruct errors.
Qed.

(** The merge of two explanations, field by field. *)
Lemma merge_errors a b :
  fd_provider_errors (merge a b) =
  dedup_by _dedup_key (fd_provider_errors a ++ fd_provider_errors b).
Proof. done. Qed.

Lemma diagnostic_ext a b :
  fd_category a = fd_category b → fd_summary a = fd_summary b → fd_detail a = fd_detail b →
  fd_provider_errors a = fd_provider_errors b → fd_occurred_at a = fd_occurred_at b → a = b.
Proof. destruct a, b; simpl; congruence. Qed.

(** ** Properties *)

(** merging fulfilment diagnostics is associative, as values: whatever the
    order in which late provider reports are folded onto a request, the stored
    category, summary, detail, error list and time are the same. *)
Theorem merge_assoc a b c : merge (merge a b) c = merge a (merge b c).
Proof.
  apply diagnostic_ext.
  5: simpl; lia.
  4: by rewrite !merge_errors, dedup_by_app_l, dedup_by_app_r, <- app_assoc.
  all: rewrite (merge_headline (merge a b)), (merge_headline a (merge b c)),
         !merge_category_min; simpl; case_leb; try done; lia.
Qed.

(** re-reporting a diagnostic that is already merged in changes nothing
    (the merge-on-write of a request is idempotent), and the merged diagnostic
    carries the most severe of the two categories, the later of the two times
    and each provider error key exactly once. *)
Theorem merge_idempotent a b :
  merge (merge a b) b = merge a b ∧
  _severity_index (fd_category (merge a b)) =
    Nat.min (_severity_index (fd_category a)) (_severity_index (fd_category b)) ∧
  fd_occurred_at (merge a b) = Z.max (fd_occurred_at a) (fd_occurred_at b) ∧
  NoDup (_dedup_key <$> fd_provider_errors (merge a b)) ∧
  (∀ k, k ∈ _dedup_key <$> fd_provider_errors (merge a b) ↔
        k ∈ _dedup_key <$> fd_provider_errors a ∨ k ∈ _dedup_key <$> fd_provider_errors b).
Proof.
  split_and!; [|apply merge_category_min|done|apply dedup_by_NoDup|].
  - apply diagnostic_ext.
    5: simpl; lia.
    4: { rewrite !merge_errors, dedup_by_app_l, <- app_assoc.
         rewrite app_assoc. apply dedup_by_app_seen.
         intros k. rewrite fmap_app, elem_of_app. auto. }
    all: rewrite (merge_headline (merge a b)), merge_category_min; simpl; case_leb;
      try done; lia.
  - intros k. rewrite merge_errors, elem_of_dedup_by_keys, fmap_app. apply elem_of_app.
Qed.

(** the classifier and the merge agree: classifying two batches of provider
    errors together gives the category that merging their separate diagnostics
    gives, so no category is masked by the order of the reports. *)
Theorem classify_merge_agree e1 e2 now d1 d2 d :
  classify_provider_errors e1 now = Ok d1 →
  classify_provider_errors e2 now = Ok d2 →
  classify_provider_errors (e1 ++ e2) now = Ok d →
  fd_category d = fd_category (merge d1 d2).
Proof.
  intros (H1 & _)%classify_spec (H2 & _)%classify_spec (H & _)%classify_spec.
  apply severity_index_inj. rewrite merge_category_min, H, H1, H2.
  rewrite !most_severe_index. unfold error_categories.
  rewrite !fmap_app, foldl_min_app. lia.
Qed.

Lemma classify_merge_agree_witness :
  ∃ d1 d2 d,
    classify_provider_errors [[("error_code", JStr "Throttling")]] 5 = Ok d1 ∧
    classify_provider_errors [[("code", JStr "AccessDenied")]] 5 = Ok d2 ∧
    classify_provider_errors ([[("error_code", JStr "Throttling")]] ++
                              [[("code", JStr "AccessDenied")]]) 5 = Ok d ∧
    fd_category d = fd_category (merge d1 d2) ∧ fd_category d = DiagnosticCategory.AUTH.
Proof.
  do 3 eexists. split; [vm_compute; reflexivity|]. split; [vm_compute; reflexivity|].
  split; [vm_compute; reflexivity|].
  split; [|reflexivity].
  apply (classify_merge_agree [[("error_code", JStr "Throttling")]]
           [[("code", JStr "AccessDenied")]] 5); vm_compute; reflexivity.
Defined.

(** the user-facing summary never leaks a raw provider message: it is
    determined by the error codes alone, so two error lists that differ only in
    messages, fleets, zones or instance types get the same category and summary;
    and the category is one that has a summary template. *)
Theorem classify_summary_safe e1 e2 now1 now2 d1 d2 :
  error_code <$> e1 = error_code <$> e2 →
  classify_provider_errors e1 now1 = Ok d1 →
  classify_provider_errors e2 now2 = Ok d2 →
  fd_category d1 = fd_category d2 ∧ fd_summary d1 = fd_summary d2 ∧
  fd_category d1 ≠ DiagnosticCategory.DEADLINE ∧
  fd_category d1 ≠ DiagnosticCategory.CANCELLED.
Proof.
  intros He (H1 & S1 & _)%classify_spec (H2 & S2 & _)%classify_spec.
  assert (Hc : fd_category d1 = fd_category d2).
  { rewrite H1, H2. unfold error_categories. by rewrite !list_fmap_compose, He. }
  assert (Hl : length e1 = length e2).
  { by rewrite <- (length_fmap error_code e1), He, length_fmap. }
  rewrite Hc, Hl, S2 in S1. split_and!; [done|congruence|..];
    rewrite H1; pose proof (proj1 (most_severe_min _ (error_categories_classified e1))) as Hm;
    unfold classified in Hm; intros Hd; rewrite Hd in Hm;
    by apply (bool_decide_pack _) in Hm.
Qed.

Lemma classify_summary_safe_witness :
  ∃ d1 d2,
    classify_provider_errors [[("error_code", JStr "Throttling");
                               ("message", JStr "account 1234 throttled")]] 5 = Ok d1 ∧
    classify_provider_errors [[("error_code", JStr "Throttling")]] 6 = Ok d2 ∧
    fd_summary d1 = fd_summary d2.
Proof.
  do 2 eexists. split; [vm_compute; reflexivity|]. split; [vm_compute; reflexivity|].
  apply (classify_summary_safe
           [[("error_code", JStr "Throttling"); ("message", JStr "account 1234 throttled")]]
           [[("error_code", JStr "Throttling")]] 5 6); vm_compute; reflexivity.
Defined.
