(* ===== verification/RequestAggregate.v ===== *)
(** * The Request aggregate

    [orb/domain/request/aggregate.py] with the parts of
    [orb/domain/base/entity.py] and [orb/domain/request/request_identifiers.py]
    it uses.  A mutator of the code returns a new aggregate; here it is a
    function from aggregate to aggregate, and each reading of the clock is an
    argument.  [Request.model_validate(fields)] builds an aggregate with an empty
    event queue, [model_copy] one that keeps the queue of the original.

    Left out of the record: [id] (a second spelling of [request_id]) and
    [updated_at] (never written by the aggregate).  [persisted_revision] is the
    identity of the holder object every copy of one load shares; the store that
    maps holders to versions belongs to the repository model. *)

From stdpp Require Import base strings list sets relations.
From Stdlib Require Import Ascii ZArith Lia.
From S2P Require Import Prelude RequestTypes Diagnostic.
Open Scope Z_scope.

(** ** Request identifiers *)
Module RequestId.
Definition REQUEST_ID_PREFIX_ACQUIRE : string := "req-".
Definition REQUEST_ID_PREFIX_RETURN : string := "ret-".

Definition is_hex (c : ascii) : bool :=
  let n := nat_of_ascii c in
  ((48 <=? n)%nat && (n <=? 57)%nat) || ((97 <=? n)%nat && (n <=? 102)%nat).

(** Consume exactly [n] characters of [[0-9a-f]]. *)
Fixpoint hex_run (n : nat) (s : string) : option string :=
  match n with
  | O => Some s
  | S n' =>
      match s with
      | String c s' => if is_hex c then hex_run n' s' else None
      | EmptyString => None
      end
  end.

Definition dash (s : string) : option string :=
  match s with
  | String c s' => if decide (c = "-"%char) then Some s' else None
  | EmptyString => None
  end.

(** [[0-9a-f]{8}-[0-9a-f]{4}-[0-9a-f]{4}-[0-9a-f]{4}-[0-9a-f]{12}], to the end. *)
Definition is_uuid (s : string) : bool :=
  bool_decide ((s1 ← hex_run 8 s; s2 ← dash s1; s3 ← hex_run 4 s2; s4 ← dash s3;
    s5 ← hex_run 4 s4; s6 ← dash s5; s7 ← hex_run 4 s6; s8 ← dash s7; hex_run 12 s8)
    = Some EmptyString).

(** [re.fullmatch(REQUEST_ID_PATTERN, value)]. *)
Definition _is_valid_format (v : string) : bool :=
  (startswith REQUEST_ID_PREFIX_ACQUIRE v || startswith REQUEST_ID_PREFIX_RETURN v)
  && is_uuid (String.substring 4 (String.length v - 4)%nat v).

(** [RequestId(value=v)]. *)
Definition make (v : string) : result string :=
  if _is_valid_format v then Ok v
  else Err (OtherError "ValidationError" ("Invalid request ID format: " +:+ v +:+
              ". Must be in format: req-uuid or ret-uuid")).

Definition prefix_for (ty : RequestType.t) : string :=
  if ty ≟ RequestType.ACQUIRE then REQUEST_ID_PREFIX_ACQUIRE else REQUEST_ID_PREFIX_RETURN.

(** [RequestId.generate], with the text of the fresh UUID as an argument. *)
Definition generate (ty : RequestType.t) (uuid : string) : result string :=
  make (prefix_for ty +:+ uuid).

(** The [request_type] property: the type an identifier's prefix names. *)
Definition request_type (v : string) : RequestType.t :=
  if startswith REQUEST_ID_PREFIX_ACQUIRE v then RequestType.ACQUIRE else RequestType.RETURN.

Lemma make_Ok v v' : make v = Ok v' → v' = v ∧ _is_valid_format v = true.
Proof. unfold make. destruct (_is_valid_format v); [by intros [= <-]|done]. Qed.

(** No identifier starts with both prefixes. *)
Lemma startswith_disjoint v :
  startswith REQUEST_ID_PREFIX_RETURN v = true → startswith REQUEST_ID_PREFIX_ACQUIRE v = false.
Proof.
  unfold startswith. destruct v as [|a [|b [|c v]]]; cbn; try done;
    repeat (case_match; subst; try done).
Qed.

Lemma request_type_prefix ty v : request_type (prefix_for ty +:+ v) = ty.
Proof. destruct ty; [|reflexivity]. unfold request_type, startswith; simpl. by destruct v. Qed.
End RequestId.

(** ** Domain events of a request *)
Inductive RequestEvent :=
| RequestCreatedEvent (request_id request_type template_id : string) (machine_count : Z)
    (timeout tags : json)
| RequestStatusChangedEvent (request_id request_type old_status new_status : string)
| RequestCompletedEvent (request_id request_type completion_status : string)
    (machine_ids : list string).

Module Request.
Record t := mk {
  request_id : string;
  request_type : RequestType.t;
  provider_type : string;
  provider_name : option string;
  template_id : string;
  requested_count : Z;
  desired_capacity : Z;
  provider_api : option string;
  resource_ids : list string;
  machine_ids : list string;
  status : RequestStatus.t;
  status_message : option string;
  successful_count : Z;
  failed_count : Z;
  started_at : option datetime;
  completed_at : option datetime;
  first_status_check : option datetime;
  last_status_check : option datetime;
  deadline_at : option datetime;
  partial_since : option datetime;
  last_transition_at : option datetime;
  fulfilment_diagnostic : option FulfilmentDiagnostic;
  metadata : dict json;
  error_details : dict json;
  provider_data : dict json;
  version : Z;
  created_at : option datetime;
  persisted_revision : nat;
  domain_events : list RequestEvent
}.

Definition eta (r : t) : t :=
  mk (request_id r) (request_type r) (provider_type r) (provider_name r) (template_id r)
    (requested_count r) (desired_capacity r) (provider_api r) (resource_ids r)
    (machine_ids r) (status r) (status_message r) (successful_count r) (failed_count r)
    (started_at r) (completed_at r) (first_status_check r) (last_status_check r)
    (deadline_at r) (partial_since r) (last_transition_at r) (fulfilment_diagnostic r)
    (metadata r) (error_details r) (provider_data r) (version r) (created_at r)
    (persisted_revision r) (domain_events r).

#[global] Hint Extern 1 (@Setter t _ _) => solve_setter eta : typeclass_instances.

(** [Request.model_validate(fields)]: the fields of [r] in a fresh aggregate. *)
Definition rebuilt (r : t) : t := r <| domain_events := [] |>.

Definition add_domain_event (r : t) (e : RequestEvent) : t :=
  r <| domain_events := domain_events r ++ [e] |>.
Definition clear_domain_events (r : t) : t := r <| domain_events := [] |>.
Definition get_domain_events (r : t) : list RequestEvent := domain_events r.

(** [self._rebuild_preserving_events(fields)]. *)
Definition _rebuild_preserving_events (self fields : t) : t :=
  foldl add_domain_event (rebuilt fields) (get_domain_events self).

Definition status_changed (self : t) (old_status new_status : RequestStatus.t)
  : RequestEvent :=
  RequestStatusChangedEvent (request_id self) (RequestType.value (request_type self))
    (RequestStatus.value old_status) (RequestStatus.value new_status).

Definition completed_event (self : t) : RequestEvent :=
  RequestCompletedEvent (request_id self) (RequestType.value (request_type self))
    (RequestStatus.value RequestStatus.COMPLETED) (machine_ids self).

Definition resource_id (self : t) : option string := head (resource_ids self).

Definition start_processing (self : t) (now : datetime) : result t :=
  if negb (status self ≟ RequestStatus.PENDING) then
    Err (InvalidRequestStateError (RequestStatus.value (status self))
           (RequestStatus.value RequestStatus.IN_PROGRESS))
  else
    let fields := self <| status := RequestStatus.IN_PROGRESS |>
                       <| started_at := Some now |>
                       <| version := version self + 1 |> in
    Ok (add_domain_event (rebuilt fields)
          (status_changed self (status self) RequestStatus.IN_PROGRESS)).

(** [now1] is read when an error detail is recorded, [now2] when the request
    completes. *)
Definition add_failure (self : t) (error_message : string)
    (details : option (dict json)) (now1 now2 : datetime) : t :=
  let fields := self <| failed_count := failed_count self + 1 |>
                     <| version := version self + 1 |> in
  let fields :=
    match details with
    | Some ((_ :: _) as d) =>
        fields <| error_details :=
          dset ("error_" +:+ fmt (failed_count self))
            (JDict [("message", JStr error_message); ("details", JDict d);
                    ("timestamp", JStr (isoformat now1))])
            (error_details self) |>
    | _ => fields
    end in
  let fields :=
    if requested_count self <=? successful_count self + failed_count fields then
      fields <| status := if 0 <? successful_count self then RequestStatus.PARTIAL
                          else RequestStatus.FAILED |>
             <| completed_at := Some now2 |>
             <| status_message :=
                  Some ("Request completed with " +:+ fmt (failed_count fields) +:+
                        " failures") |>
    else fields in
  rebuilt fields.

Definition cancel (self : t) (reason : string) (now : datetime) : result t :=
  if status self ∈? [RequestStatus.COMPLETED; RequestStatus.FAILED; RequestStatus.CANCELLED]
  then Err (InvalidRequestStateError (RequestStatus.value (status self))
              (RequestStatus.value RequestStatus.CANCELLED))
  else Ok (rebuilt (self <| status := RequestStatus.CANCELLED |>
                         <| status_message := Some reason |>
                         <| completed_at := Some now |>
                         <| version := version self + 1 |>)).

Definition complete (self : t) (message : option string) (now : datetime) : t :=
  let fields := self <| status := RequestStatus.COMPLETED |>
                     <| status_message := Some (or_str message "Request completed successfully") |>
                     <| completed_at := Some now |>
                     <| version := version self + 1 |> in
  let updated_request :=
    add_domain_event (rebuilt fields)
      (status_changed self (status self) RequestStatus.COMPLETED) in
  add_domain_event updated_request (completed_event self).

Definition fail (self : t) (error_message : string) (details : option (dict json))
    (now : datetime) : t :=
  let fields := self <| status := RequestStatus.FAILED |>
                     <| status_message := Some error_message |>
                     <| completed_at := Some now |>
                     <| version := version self + 1 |> in
  rebuilt match details with
          | Some ((_ :: _) as d) => fields <| error_details := d |>
          | _ => fields
          end.

Definition set_provider_data (self : t) (data : dict json) : t :=
  _rebuild_preserving_events self
    (self <| provider_data := data |> <| version := version self + 1 |>).

Definition update_metadata (self : t) (updates : dict json) : t :=
  _rebuild_preserving_events self
    (self <| metadata := dmerge (metadata self) updates |>
          <| version := version self + 1 |>).

Definition with_last_fulfilment (self : t) (fulfilment_dict : dict json) : t :=
  _rebuild_preserving_events self
    (self <| metadata := dmerge (metadata self) [("last_fulfilment", JDict fulfilment_dict)] |>
          <| version := version self + 1 |>).

Definition with_launch_template_info (self : t) (template_id version' : string) : t :=
  _rebuild_preserving_events self
    (self <| provider_data := dmerge (provider_data self)
               [("launch_template_id", JStr template_id);
                ("launch_template_version", JStr version')] |>
          <| version := version self + 1 |>).

Definition get_provider_data (self : t) (key : string) (dflt : json) : json :=
  dget_default key (provider_data self) dflt.

Definition add_resource_id (self : t) (rid : string) : t :=
  if negb (rid ∈? resource_ids self) then
    _rebuild_preserving_events self
      (self <| resource_ids := resource_ids self ++ [rid] |>
            <| version := version self + 1 |>)
  else self.

Definition remove_resource_id (self : t) (rid : string) : t :=
  if rid ∈? resource_ids self then
    _rebuild_preserving_events self
      (self <| resource_ids := filter (λ x, x ≠ rid) (resource_ids self) |>
            <| version := version self + 1 |>)
  else self.

(** [list(set(l))]: Python enumerates a set of strings in an order that varies
    from run to run.  The model takes the enumeration as a parameter, with what
    is guaranteed of it. *)
Class SetOrder := {
  set_order : list string → list string;
  set_order_NoDup l : NoDup (set_order l);
  elem_of_set_order l x : x ∈ set_order l ↔ x ∈ l
}.

Definition add_machine_ids `{SetOrder} (self : t) (ids : list string) : t :=
  self <| machine_ids := set_order (machine_ids self ++ ids) |>.

Definition update_machine_ids (self : t) (ids : list string) : t :=
  self <| machine_ids := ids |>.

Definition record_status_check (self : t) (now : datetime) : t :=
  self <| first_status_check := Some (default now (first_status_check self)) |>
       <| last_status_check := Some now |>
       <| version := version self + 1 |>.

Definition is_nil {A} (l : list A) : bool := match l with [] => true | _ => false end.

Definition awaiting_resources (self : t) : bool :=
  (status self ∈? [RequestStatus.PENDING; RequestStatus.ACQUIRING])
  && is_nil (resource_ids self) && is_nil (machine_ids self).

Definition needs_machine_id_population (self : t) : bool :=
  is_nil (machine_ids self) && negb (is_nil (resource_ids self))
  && negb (request_type self ≟ RequestType.RETURN).

Definition is_complete (self : t) : bool :=
  status self ∈? [RequestStatus.COMPLETED; RequestStatus.FAILED; RequestStatus.CANCELLED;
                  RequestStatus.PARTIAL].

Definition is_successful (self : t) : bool := status self ≟ RequestStatus.COMPLETED.

(** Whole seconds, truncated as [int] does. *)
Definition duration (self : t) (now : datetime) : option Z :=
  match started_at self, completed_at self with
  | Some s, Some c => Some (Z.quot (c - s) 1000000)
  | Some s, None => Some (Z.quot (now - s) 1000000)
  | None, _ => None
  end.

(** The entries of the creation metadata the creation event carries. *)
Definition event_timeout (metadata : option (dict json)) : json :=
  match metadata with
  | Some ((_ :: _) as m) => dget_default "timeout" m JNull
  | _ => JNull
  end.
Definition event_tags (metadata : option (dict json)) : json :=
  match metadata with
  | Some ((_ :: _) as m) => dget_default "tags" m (JDict [])
  | _ => JDict []
  end.

(** [cls(...)] with the arguments both constructors share; the other fields take
    their defaults.  [holder] is the fresh revision holder. *)
Definition fresh (rid : string) (ty : RequestType.t) (tid : string) (count : Z)
    (ptype : string) (pname papi : option string) (mids : list string)
    (meta : dict json) (now : datetime) (holder : nat) : t :=
  {| request_id := rid; request_type := ty; provider_type := ptype; provider_name := pname;
     template_id := tid; requested_count := count; desired_capacity := count;
     provider_api := papi; resource_ids := []; machine_ids := mids;
     status := RequestStatus.PENDING; status_message := None; successful_count := 0;
     failed_count := 0; started_at := None; completed_at := None;
     first_status_check := None; last_status_check := None; deadline_at := None;
     partial_since := None; last_transition_at := None; fulfilment_diagnostic := None;
     metadata := meta; error_details := []; provider_data := []; version := 0;
     created_at := Some now; persisted_revision := holder; domain_events := [] |}.

(** The identifier [create_new_request] settles on. *)
Definition new_request_id (ty : RequestType.t) (request_id : option string) (uuid : string)
  : result string :=
  match request_id with
  | Some rid =>
      if rid ≟ EmptyString then RequestId.generate ty uuid
      else if negb (startswith RequestId.REQUEST_ID_PREFIX_ACQUIRE rid
                    || startswith RequestId.REQUEST_ID_PREFIX_RETURN rid)
      then RequestId.make (RequestId.prefix_for ty +:+ rid)
      else if negb (startswith (RequestId.prefix_for ty) rid)
      then Err (RequestValidationError
             ("Request ID prefix mismatch: ID '" +:+ rid +:+
              "' has wrong prefix for request_type '" +:+ RequestType.value ty +:+
              "'. Expected prefix: '" +:+ RequestId.prefix_for ty +:+ "'"))
      else RequestId.make rid
  | None => RequestId.generate ty uuid
  end.

Definition create_new_request (ty : RequestType.t) (tid : string) (machine_count : Z)
    (ptype : string) (pname papi : option string) (meta : option (dict json))
    (request_id : option string) (uuid : string) (now : datetime) (holder : nat) : result t :=
  rid ← new_request_id ty request_id uuid;
  Ok (add_domain_event
        (fresh rid ty tid machine_count ptype pname papi [] (default [] meta) now holder)
        (RequestCreatedEvent rid (RequestType.value ty) tid machine_count
           (event_timeout meta) (event_tags meta))).

Definition create_return_request (mids : list string) (ptype pname papi : string)
    (meta : option (dict json)) (request_id : option string) (uuid : string)
    (now : datetime) (holder : nat) : result t :=
  rid ← match request_id with
        | Some rid => if rid ≟ EmptyString then RequestId.generate RequestType.RETURN uuid
                      else RequestId.make rid
        | None => RequestId.generate RequestType.RETURN uuid
        end;
  let n := Z.of_nat (length mids) in
  Ok (add_domain_event
        (fresh rid RequestType.RETURN "return-request" n ptype (Some pname) (Some papi) mids
           (default [] meta) now holder)
        (RequestCreatedEvent rid (RequestType.value RequestType.RETURN) "return-request" n
           (event_timeout meta) (event_tags meta))).

(** The keys [update_with_provisioning_result] looks for in its argument. *)
Record provisioning_result := mk_provisioning_result {
  pr_instance_ids : option (list string);
  pr_provider_data : option (dict json);
  pr_success : bool
}.

Definition update_with_provisioning_result (self : t) (res : provisioning_result)
    (now : datetime) : t :=
  let fields :=
    match pr_instance_ids res with
    | Some ids =>
        self <| successful_count := successful_count self + Z.of_nat (length ids) |>
    | None => self
    end in
  let fields :=
    match pr_provider_data res with
    | Some d => fields <| provider_data := dmerge (provider_data self) d |>
    | None => fields
    end in
  let fields :=
    if pr_success res then
      fields <| status := RequestStatus.IN_PROGRESS |>
             <| started_at := Some (default now (started_at self)) |>
    else fields in
  rebuilt (fields <| version := version self + 1 |>).

Definition update_status (self : t) (new_status : RequestStatus.t) (message : option string)
    (force : bool) (now : datetime) : result t :=
  if negb force && negb (RequestStatus.can_transition_to (status self) new_status) then
    Err (InvalidRequestStateError (RequestStatus.value (status self))
           (RequestStatus.value new_status))
  else
    let fields :=
      self <| status := new_status |>
           <| status_message := message |>
           <| version := version self + 1 |>
           <| started_at :=
                if negb (new_status ≟ RequestStatus.PENDING)
                   && bool_decide (started_at self = None)
                then Some now else started_at self |>
           <| completed_at :=
                if new_status ∈? [RequestStatus.COMPLETED; RequestStatus.FAILED;
                                  RequestStatus.CANCELLED; RequestStatus.PARTIAL;
                                  RequestStatus.TIMEOUT]
                then Some now else completed_at self |> in
    Ok (rebuilt fields).

Definition merged_diagnostic (self : t) (d : FulfilmentDiagnostic) : FulfilmentDiagnostic :=
  match fulfilment_diagnostic self with
  | None => d
  | Some existing => merge existing d
  end.

Definition set_fulfilment_diagnostic (self : t) (d : FulfilmentDiagnostic) : t :=
  _rebuild_preserving_events self
    (self <| fulfilment_diagnostic := Some (merged_diagnostic self d) |>
          <| version := version self + 1 |>).

Definition _transition (self : t) (new_status : RequestStatus.t) (now : datetime)
    (message : option string) (diagnostic : option FulfilmentDiagnostic)
    (deadline : option datetime) (clear_diagnostic : bool) : t :=
  let old_status := status self in
  let fields :=
    self <| status := new_status |>
         <| status_message :=
              match message with Some m => Some m | None => status_message self end |>
         <| last_transition_at := Some now |>
         <| version := version self + 1 |>
         <| started_at :=
              if negb (new_status ≟ RequestStatus.PENDING)
                 && bool_decide (started_at self = None)
              then Some now else started_at self |>
         <| completed_at :=
              if RequestStatus.is_terminal new_status then Some now else completed_at self |>
         <| partial_since :=
              if (new_status ≟ RequestStatus.PARTIAL_PENDING)
                 && bool_decide (partial_since self = None)
              then Some now else partial_since self |>
         <| deadline_at :=
              match deadline with
              | Some d => if bool_decide (deadline_at self = None) then Some d
                          else deadline_at self
              | None => deadline_at self
              end |>
         <| fulfilment_diagnostic :=
              match diagnostic with
              | Some d => Some (merged_diagnostic self d)
              | None => if clear_diagnostic then None else fulfilment_diagnostic self
              end |> in
  let updated_request :=
    add_domain_event (rebuilt fields) (status_changed self old_status new_status) in
  if new_status ≟ RequestStatus.COMPLETED
  then add_domain_event updated_request (completed_event self)
  else updated_request.

(** ** Lemmas *)

Lemma foldl_add_domain_event evs r :
  foldl add_domain_event r evs = r <| domain_events := domain_events r ++ evs |>.
Proof.
  revert r. induction evs as [|e evs IH]; intros r; simpl.
  - rewrite app_nil_r. by destruct r.
  - rewrite IH. unfold add_domain_event; simpl. by rewrite <- app_assoc.
Qed.

(** The preserving rebuild changes no field and keeps the queue of [self]. *)
Lemma rebuild_preserving_eq self fields :
  _rebuild_preserving_events self fields = fields <| domain_events := domain_events self |>.
Proof. unfold _rebuild_preserving_events. by rewrite foldl_add_domain_event. Qed.

(** What every operation leaves alone: the identity of the request. *)
Definition same_identity (r r' : t) : Prop :=
  request_id r' = request_id r ∧ request_type r' = request_type r ∧
  template_id r' = template_id r ∧ provider_type r' = provider_type r ∧
  requested_count r' = requested_count r ∧ created_at r' = created_at r ∧
  persisted_revision r' = persisted_revision r.

(** Well-formed aggregates: a settled request has its completion time, the
    resource list has no repetition, the counters are counts. *)
Definition wf (r : t) : Prop :=
  (RequestStatus.is_terminal (status r) = true → is_Some (completed_at r)) ∧
  NoDup (resource_ids r) ∧ 0 ≤ successful_count r ∧ 0 ≤ failed_count r ∧ 0 ≤ version r.

(** One operation of the aggregate. *)
Inductive mutates : t → t → Prop :=
| m_start_processing r r' now : start_processing r now = Ok r' → mutates r r'
| m_add_failure r msg details now1 now2 : mutates r (add_failure r msg details now1 now2)
| m_cancel r r' reason now : cancel r reason now = Ok r' → mutates r r'
| m_complete r msg now : mutates r (complete r msg now)
| m_fail r msg details now : mutates r (fail r msg details now)
| m_set_provider_data r d : mutates r (set_provider_data r d)
| m_update_metadata r d : mutates r (update_metadata r d)
| m_with_last_fulfilment r d : mutates r (with_last_fulfilment r d)
| m_with_launch_template_info r a b : mutates r (with_launch_template_info r a b)
| m_add_resource_id r x : mutates r (add_resource_id r x)
| m_remove_resource_id r x : mutates r (remove_resource_id r x)
| m_add_machine_ids (S : SetOrder) r ids : mutates r (add_machine_ids r ids)
| m_update_machine_ids r ids : mutates r (update_machine_ids r ids)
| m_record_status_check r now : mutates r (record_status_check r now)
| m_update_with_provisioning_result r res now :
    mutates r (update_with_provisioning_result r res now)
| m_update_status r r' s msg force now :
    update_status r s msg force now = Ok r' → mutates r r'
| m_set_fulfilment_diagnostic r d : mutates r (set_fulfilment_diagnostic r d)
| m_transition r s now msg diag deadline clear :
    mutates r (_transition r s now msg diag deadline clear)
| m_clear_domain_events r : mutates r (clear_domain_events r).

(** What one operation guarantees: identity kept, version never lowered and
    raised by at most one, a deadline once set never moved, [wf] preserved. *)
Definition guarantee (r r' : t) : Prop :=
  same_identity r r' ∧
  (version r' = version r ∨ version r' = version r + 1) ∧
  (is_Some (deadline_at r) → deadline_at r' = deadline_at r) ∧
  (wf r → wf r').

Lemma completion_statuses s :
  (s ∈? [RequestStatus.COMPLETED; RequestStatus.FAILED; RequestStatus.CANCELLED;
         RequestStatus.PARTIAL; RequestStatus.TIMEOUT]) = RequestStatus.is_terminal s.
Proof. by destruct s. Qed.

(** Closes [terminal → completed_at set]: the time was stamped, or the status is
    not terminal, or both are as before. *)
Ltac solve_stamped :=
  let Ht := fresh in intros Ht;
  first [ by (vm_compute in Ht; discriminate Ht) | congruence | by auto
        | eexists; reflexivity ].

Ltac solve_guarantee :=
  unfold set_provider_data, update_metadata, with_last_fulfilment,
    with_launch_template_info, set_fulfilment_diagnostic, guarantee, same_identity, wf;
  rewrite ?rebuild_preserving_eq; cbn;
  split_and!; auto;
  try (intros (Hc & Hr & Hf & Hv); split_and!;
       first [assumption | lia | solve_stamped | idtac]).

Lemma update_status_guarantee r r' s msg force now :
  update_status r s msg force now = Ok r' → guarantee r r'.
Proof.
  unfold update_status. case_match; [done|]. intros [= <-]. rewrite completion_statuses.
  destruct (RequestStatus.is_terminal s) eqn:?; solve_guarantee.
Qed.

(** The fields of a transition, one by one. *)
Lemma transition_fields r s now msg diag deadline clear :
  let r' := _transition r s now msg diag deadline clear in
  status r' = s ∧ version r' = version r + 1 ∧ same_identity r r' ∧
  resource_ids r' = resource_ids r ∧ machine_ids r' = machine_ids r ∧
  successful_count r' = successful_count r ∧ failed_count r' = failed_count r ∧
  status_message r' = match msg with Some m => Some m | None => status_message r end ∧
  completed_at r' = (if RequestStatus.is_terminal s then Some now else completed_at r) ∧
  started_at r' = (if negb (s ≟ RequestStatus.PENDING) then Some (default now (started_at r))
                   else started_at r) ∧
  deadline_at r' = match deadline_at r with Some d => Some d | None => deadline end ∧
  fulfilment_diagnostic r' =
    match diag with
    | Some d => Some (merged_diagnostic r d)
    | None => if clear then None else fulfilment_diagnostic r
    end ∧
  domain_events r' =
    status_changed r (status r) s ::
    (if s ≟ RequestStatus.COMPLETED then [completed_event r] else []).
Proof.
  unfold _transition, add_domain_event, same_identity.
  destruct (s ≟ RequestStatus.COMPLETED); cbn; split_and!; try reflexivity.
  all: try (destruct (deadline_at r), deadline; reflexivity).
  all: destruct (started_at r), (s ≟ RequestStatus.PENDING); reflexivity.
Qed.

Lemma transition_last r s now msg diag deadline clear :
  last_transition_at (_transition r s now msg diag deadline clear) = Some now.
Proof. unfold _transition. by destruct (s ≟ RequestStatus.COMPLETED). Qed.

Lemma transition_guarantee r s now msg diag deadline clear :
  guarantee r (_transition r s now msg diag deadline clear).
Proof.
  destruct (transition_fields r s now msg diag deadline clear)
    as (Hs & Hv & Hi & Hr & _ & Hsc & Hf & _ & Hc & _ & Hd & _).
  split_and!; [done|by right|rewrite Hd; by intros [? ->]|].
  unfold wf. rewrite Hs, Hv, Hr, Hsc, Hf, Hc. intros (? & ? & ? & ? & ?).
  split_and!; try done; [|lia]. intros ->. by eexists.
Qed.

Lemma add_failure_guarantee r msg details now1 now2 :
  guarantee r (add_failure r msg details now1 now2).
Proof.
  unfold add_failure. destruct details as [[|]|], (requested_count r <=? _);
    solve_guarantee.
Qed.

Lemma resource_ids_guarantee r ids :
  NoDup ids ∨ (NoDup (resource_ids r) → NoDup ids) →
  guarantee r (_rebuild_preserving_events r
    (r <| resource_ids := ids |> <| version := version r + 1 |>)).
Proof. intros [?|?]; solve_guarantee; auto. Qed.

Lemma mutates_guarantee r r' : mutates r r' → guarantee r r'.
Proof.
  destruct 1; first [by eapply update_status_guarantee | apply transition_guarantee
                    | apply add_failure_guarantee | idtac].
  - revert H. unfold start_processing. case_match; [done|]. intros [= <-].
    solve_guarantee.
  - revert H. unfold cancel. case_match; [done|]. intros [= <-]. solve_guarantee.
  - solve_guarantee.
  - unfold fail. destruct details as [[|]|]; solve_guarantee.
  - solve_guarantee.
  - solve_guarantee.
  - solve_guarantee.
  - solve_guarantee.
  - unfold add_resource_id. case_match eqn:E; [|solve_guarantee].
    apply resource_ids_guarantee. right. intros Hn. apply NoDup_app. split_and!; [done| |].
    + intros y Hy ->%list_elem_of_singleton. by rewrite bool_decide_eq_true_2 in E.
    + apply NoDup_singleton.
  - unfold remove_resource_id. case_match; [|solve_guarantee].
    apply resource_ids_guarantee. right. apply NoDup_filter.
  - solve_guarantee.
  - solve_guarantee.
  - solve_guarantee.
  - unfold update_with_provisioning_result.
    destruct (pr_instance_ids res), (pr_provider_data res), (pr_success res);
      solve_guarantee.
  - solve_guarantee.
  - solve_guarantee.
Qed.

(** The guarantee along any sequence of operations. *)
Lemma mutates_star r r' :
  rtc mutates r r' →
  same_identity r r' ∧ version r <= version r' ∧
  (is_Some (deadline_at r) → deadline_at r' = deadline_at r) ∧ (wf r → wf r').
Proof.
  induction 1 as [r|r r1 r2 (Hi & Hv & Hd & Hw)%mutates_guarantee _ (Hi' & Hv' & Hd' & Hw')].
  { unfold same_identity. split_and!; done. }
  unfold same_identity in *. destruct_and!. split_and!; try congruence; [lia| |by auto].
  intros Hs. rewrite <- (Hd Hs). apply Hd'. by rewrite Hd.
Qed.

Lemma create_new_request_spec ty tid n ptype pname papi meta rid uuid now holder r :
  create_new_request ty tid n ptype pname papi meta rid uuid now holder = Ok r →
  new_request_id ty rid uuid = Ok (request_id r) ∧
  wf r ∧ status r = RequestStatus.PENDING ∧ request_type r = ty ∧ requested_count r = n.
Proof.
  unfold create_new_request. intros (i & Hi & [= <-])%result_bind_Ok; simpl.
  split_and!; try done. split_and!; simpl; [done|constructor|lia|lia|lia].
Qed.
End Request.

(** First-seen order is one way to enumerate a set. *)
#[export, refine] Instance first_seen_order : Request.SetOrder :=
  { set_order := dedup_by id }.
Proof.
  - intros l. rewrite <- (list_fmap_id (dedup_by id l)). apply dedup_by_NoDup.
  - intros l x. pose proof (elem_of_dedup_by_keys id l x) as H. by rewrite !list_fmap_id in H.
Defined.

(** ** Properties *)

(** C40: whatever operations are applied to a request after its creation, it
    keeps its identity (id, type, template, provider type, requested count,
    creation time, revision holder), its version never decreases, it is
    well-formed (a settled request has a completion time, resource ids are
    distinct, the counts of successes and failures and the version are not
    negative), and a deadline once set never moves. *)
Theorem request_reachable_wf ty tid n ptype pname papi meta rid uuid now holder r0 r1 r2 :
  Request.create_new_request ty tid n ptype pname papi meta rid uuid now holder = Ok r0 →
  rtc Request.mutates r0 r1 → rtc Request.mutates r1 r2 →
  Request.wf r2 ∧ Request.same_identity r0 r2 ∧
  Request.version r1 <= Request.version r2 ∧
  (is_Some (Request.deadline_at r1) → Request.deadline_at r2 = Request.deadline_at r1).
Proof.
  intros (_ & Hw & _)%Request.create_new_request_spec H01 H12.
  assert (H02 : rtc Request.mutates r0 r2) by (by etrans).
  destruct (Request.mutates_star _ _ H02) as (? & _ & _ & ?).
  destruct (Request.mutates_star _ _ H12) as (_ & ? & ? & _). auto.
Qed.

Lemma request_reachable_wf_witness :
  ∃ r0 r1,
    Request.create_new_request RequestType.ACQUIRE "t" 2 "aws" None None None
      (Some "01234567-89ab-cdef-0123-456789abcdef") "" 7 0 = Ok r0 ∧
    rtc Request.mutates r0 r1 ∧ Request.wf r1 ∧
    Request.status r1 = RequestStatus.CANCELLED.
Proof.
  do 2 eexists. split; [vm_compute; reflexivity|].
  match goal with |- rtc _ ?r _ ∧ _ =>
    assert (Hs : rtc Request.mutates r (default r
      match Request.cancel r "x" 9 with Ok r' => Some r' | Err _ => None end)) end.
  { eapply rtc_l; [|apply rtc_refl]. eapply Request.m_cancel. vm_compute. reflexivity. }
  split; [exact Hs|]. split; [|vm_compute; reflexivity].
  eapply (request_reachable_wf RequestType.ACQUIRE "t" 2 "aws" None None None
    (Some "01234567-89ab-cdef-0123-456789abcdef") "" 7 0);
    [vm_compute; reflexivity|apply rtc_refl|exact Hs].
Defined.

(** The identifier an explicit [rid] stands for: itself when it has a prefix,
    otherwise [rid] with the prefix of the request type. *)
Definition full_id (ty : RequestType.t) (rid : string) : string :=
  if startswith RequestId.REQUEST_ID_PREFIX_ACQUIRE rid
     || startswith RequestId.REQUEST_ID_PREFIX_RETURN rid
  then rid else RequestId.prefix_for ty +:+ rid.

(** The prefix of [rid] names the other request type. *)
Definition prefix_mismatch (ty : RequestType.t) (rid : string) : bool :=
  (startswith RequestId.REQUEST_ID_PREFIX_ACQUIRE rid
   || startswith RequestId.REQUEST_ID_PREFIX_RETURN rid)
  && negb (startswith (RequestId.prefix_for ty) rid).

(** a request created under an explicit identifier keeps the meaning of the
    prefix: an identifier with the other type's prefix is refused with a
    validation error, one that is not [prefix + uuid] is refused by the value
    object, and otherwise the request carries that identifier (prefixed if it had
    no prefix), whose prefix names the request's type. *)
Theorem create_request_id_prefix ty tid n ptype pname papi meta rid uuid now holder :
  rid ≠ EmptyString →
  match Request.create_new_request ty tid n ptype pname papi meta (Some rid) uuid now holder with
  | Ok r => prefix_mismatch ty rid = false ∧ Request.request_id r = full_id ty rid ∧
            RequestId._is_valid_format (full_id ty rid) = true ∧
            RequestId.request_type (Request.request_id r) = Request.request_type r
  | Err (RequestValidationError _) => prefix_mismatch ty rid = true
  | Err _ => prefix_mismatch ty rid = false ∧
             RequestId._is_valid_format (full_id ty rid) = false
  end.
Proof.
  intros Hne. unfold Request.create_new_request, Request.new_request_id, prefix_mismatch,
    full_id, RequestId.make.
  rewrite bool_decide_eq_false_2 by done.
  destruct (startswith _ rid || startswith _ rid) eqn:Hp; simpl.
  - destruct (startswith (RequestId.prefix_for ty) rid) eqn:Ht; simpl; [|done].
    destruct (RequestId._is_valid_format rid); simpl; [|done].
    split_and!; try done. unfold RequestId.request_type.
    destruct ty.
    + by change (startswith RequestId.REQUEST_ID_PREFIX_ACQUIRE rid = true) in Ht; rewrite Ht.
    + by rewrite (RequestId.startswith_disjoint rid Ht).
  - destruct (RequestId._is_valid_format _) eqn:Hv; simpl; [|done].
    split_and!; try done. apply RequestId.request_type_prefix.
Qed.

Lemma create_request_id_prefix_witness :
  match Request.create_new_request RequestType.ACQUIRE "t" 1 "aws" None None None
          (Some "ret-01234567-89ab-cdef-0123-456789abcdef") "" 0 0 with
  | Err (RequestValidationError _) =>
      prefix_mismatch RequestType.ACQUIRE "ret-01234567-89ab-cdef-0123-456789abcdef" = true
  | _ => False
  end.
Proof.
  pose proof (create_request_id_prefix RequestType.ACQUIRE "t" 1 "aws" None None None
    "ret-01234567-89ab-cdef-0123-456789abcdef" "" 0 0 ltac:(discriminate)) as H.
  vm_compute in H |- *. exact H.
Defined.

(** [cancel] and the transition table disagree on exactly the statuses [PARTIAL]
    and [TIMEOUT]: both are terminal and the table refuses to leave them for
    [CANCELLED], yet [cancel] succeeds. *)
Theorem cancel_outside_table r reason now :
  (∃ r', Request.cancel r reason now = Ok r' ∧
     Request.status r' = RequestStatus.CANCELLED ∧
     RequestStatus.can_transition_to (Request.status r) RequestStatus.CANCELLED = false) ↔
  Request.status r = RequestStatus.PARTIAL ∨ Request.status r = RequestStatus.TIMEOUT.
Proof.
  unfold Request.cancel. destruct (Request.status r); vm_compute (_ ∈? _);
    split; intros H; try (destruct H as (r' & Hc & _ & Ht); discriminate);
    try (destruct H; discriminate); eauto.
Qed.

(** A terminal request that [is_complete] does not count: the timed-out ones. *)
Theorem is_complete_terminal r :
  RequestStatus.is_terminal (Request.status r) = true ↔
  Request.is_complete r = true ∨ Request.status r = RequestStatus.TIMEOUT.
Proof.
  unfold Request.is_complete. destruct (Request.status r); vm_compute; intuition congruence.
Qed.
