(* ===== verification/FulfilmentSM.v ===== *)
(** * The fulfilment state machine

    [orb/domain/request/fulfilment_state_machine.py]: the policy that turns a
    semantic event (start, provider verdict, cancel, fail, deadline sweep) into
    a status transition of the [Request] aggregate.  Where the code compares
    object identity ([swept is not request]) the model returns, beside the
    aggregate, whether it is a new object. *)

From stdpp Require Import base strings list relations.
From Stdlib Require Import ZArith Lia.
From S2P Require Import Prelude RequestTypes Diagnostic RequestAggregate.
Open Scope Z_scope.

Module FulfilmentEvent.
Inductive t := START | RESOURCES_CREATED | PROVIDER_VERDICT | CANCEL | FAIL | DEADLINE_SWEEP.

#[global] Instance t_eq_dec : EqDecision t.
Proof. solve_decision. Defined.

Definition value (e : t) : string :=
  match e with
  | START => "start" | RESOURCES_CREATED => "resources_created"
  | PROVIDER_VERDICT => "provider_verdict" | CANCEL => "cancel" | FAIL => "fail"
  | DEADLINE_SWEEP => "deadline_sweep"
  end.
End FulfilmentEvent.

Module FulfilmentStateMachine.
(** The machine's only state: the grace period, in microseconds. *)
Record t := mk { _grace_period : Z }.

(** [FulfilmentStateMachine(grace_period_seconds)]. *)
Definition init (grace_period_seconds : Z) : t :=
  {| _grace_period := seconds (Z.max 0 grace_period_seconds) |}.

Definition _VERDICT_STATUS : dict RequestStatus.t :=
  [("fulfilled", RequestStatus.COMPLETED); ("in_progress", RequestStatus.IN_PROGRESS);
   ("failed", RequestStatus.FAILED)].

Definition effective_count (r : Request.t) : Z :=
  Z.max (Request.successful_count r) (Z.of_nat (length (Request.machine_ids r))).

Definition deadline_diagnostic (summary : string) (now : datetime) : FulfilmentDiagnostic :=
  {| fd_category := DiagnosticCategory.DEADLINE; fd_summary := summary; fd_detail := None;
     fd_provider_errors := []; fd_occurred_at := now |}.

(** What an expired request is classified as. *)
Definition deadline_outcome (r : Request.t) (now : datetime)
  : RequestStatus.t * string * option FulfilmentDiagnostic :=
  let n := effective_count r in
  if (0 <? Request.requested_count r) && (Request.requested_count r <=? n) then
    (RequestStatus.COMPLETED,
     "Fully fulfilled: " +:+ fmt n +:+ "/" +:+ fmt (Request.requested_count r) +:+
     " at deadline", None)
  else if 0 <? n then
    let summary := "Deadline exceeded: " +:+ fmt n +:+ "/" +:+
                   fmt (Request.requested_count r) +:+ " fulfilled" in
    (RequestStatus.PARTIAL, summary, Some (deadline_diagnostic summary now))
  else
    let summary := "Deadline exceeded before any capacity was fulfilled" in
    (RequestStatus.TIMEOUT, summary, Some (deadline_diagnostic summary now)).

(** The request and whether it is a new object. *)
Definition evaluate_deadline (r : Request.t) (now : datetime) : Request.t * bool :=
  if RequestStatus.is_terminal (Request.status r) then (r, false)
  else if negb (Request.request_type r ≟ RequestType.ACQUIRE) then (r, false)
  else match Request.deadline_at r with
  | None => (r, false)
  | Some deadline =>
      if now <? deadline then (r, false)
      else if negb (Request.status r ∈? [RequestStatus.IN_PROGRESS; RequestStatus.ACQUIRING;
                                         RequestStatus.PARTIAL_PENDING]) then (r, false)
      else
        let '(target, summary, diagnostic) := deadline_outcome r now in
        if negb (RequestStatus.can_transition_to (Request.status r) target) then (r, false)
        else
          let clear_diagnostic :=
            (target ≟ RequestStatus.COMPLETED) && bool_decide (diagnostic = None) in
          (Request._transition r target now (Some summary) diagnostic None clear_diagnostic,
           true)
  end.

Definition _target_for_verdict (r : Request.t) (f : ProviderFulfilment) (now : datetime)
    (message : option string) (diagnostic : option FulfilmentDiagnostic)
  : RequestStatus.t * option string * option FulfilmentDiagnostic :=
  let resolved_diag := match diagnostic with Some d => Some d | None => pf_diagnostic f end in
  let resolved_message := match message with Some m => Some m | None => Some (pf_message f) end in
  if pf_state f ≟ "partial" then
    if negb (Request.request_type r ≟ RequestType.ACQUIRE) then
      (RequestStatus.PARTIAL, resolved_message, resolved_diag)
    else if pf_final f then (RequestStatus.PARTIAL, resolved_message, resolved_diag)
    else
      let within_deadline :=
        match Request.deadline_at r with None => true | Some d => now <? d end in
      ((if within_deadline then RequestStatus.PARTIAL_PENDING else RequestStatus.PARTIAL),
       resolved_message, resolved_diag)
  else
    (default RequestStatus.IN_PROGRESS (dget (pf_state f) _VERDICT_STATUS),
     resolved_message, resolved_diag).

Definition _resolve_target (r : Request.t) (event : FulfilmentEvent.t) (now : datetime)
    (f : option ProviderFulfilment) (diagnostic : option FulfilmentDiagnostic)
    (message reason : option string)
  : result (RequestStatus.t * option string * option FulfilmentDiagnostic) :=
  match event with
  | FulfilmentEvent.START => Ok (RequestStatus.IN_PROGRESS, message, diagnostic)
  | FulfilmentEvent.RESOURCES_CREATED =>
      Ok (RequestStatus.ACQUIRING,
          Some (or_str message "Provider resources created, waiting for completion"),
          diagnostic)
  | FulfilmentEvent.CANCEL =>
      let cancel_diag :=
        match diagnostic with
        | Some d => d
        | None => {| fd_category := DiagnosticCategory.CANCELLED;
                     fd_summary := or_str reason "Request cancelled"; fd_detail := None;
                     fd_provider_errors := []; fd_occurred_at := now |}
        end in
      Ok (RequestStatus.CANCELLED, or_opt_str reason message, Some cancel_diag)
  | FulfilmentEvent.FAIL => Ok (RequestStatus.FAILED, message, diagnostic)
  | FulfilmentEvent.PROVIDER_VERDICT =>
      match f with
      | None => Err (ValueError "PROVIDER_VERDICT event requires a ProviderFulfilment")
      | Some f => Ok (_target_for_verdict r f now message diagnostic)
      end
  | FulfilmentEvent.DEADLINE_SWEEP =>
      Err (ValueError ("Unhandled fulfilment event: " +:+ FulfilmentEvent.value event))
  end.

(** Steps 3 to 5 of [apply]: from a resolved target to the new request. *)
Definition settle (sm : t) (r : Request.t) (now : datetime) (target : RequestStatus.t)
    (resolved_message : option string) (resolved_diag : option FulfilmentDiagnostic)
    (is_new : bool) : result (Request.t * bool) :=
  if target ≟ Request.status r then
    match resolved_diag with
    | Some d => Ok (Request.set_fulfilment_diagnostic r d, true)
    | None => Ok (r, is_new)
    end
  else if negb (RequestStatus.can_transition_to (Request.status r) target) then
    Err (InvalidRequestStateError (RequestStatus.value (Request.status r))
           (RequestStatus.value target))
  else
    let deadline_at :=
      if bool_decide (Request.deadline_at r = None) && negb (target ≟ RequestStatus.PENDING)
      then Some (default now (Request.started_at r) + _grace_period sm) else None in
    let clear_diagnostic :=
      (target ≟ RequestStatus.COMPLETED) && bool_decide (resolved_diag = None) in
    Ok (Request._transition r target now resolved_message resolved_diag deadline_at
          clear_diagnostic, true).

(** [FulfilmentStateMachine.apply]: the resulting request and whether it is a
    new object. *)
Definition apply (sm : t) (r : Request.t) (event : FulfilmentEvent.t) (now : datetime)
    (f : option ProviderFulfilment) (diagnostic : option FulfilmentDiagnostic)
    (message reason : option string) : result (Request.t * bool) :=
  let '(swept, deadline_flipped) :=
    if event ∈? [FulfilmentEvent.CANCEL; FulfilmentEvent.FAIL] then (r, false)
    else evaluate_deadline r now in
  if deadline_flipped && RequestStatus.is_terminal (Request.status swept)
  then Ok (swept, true)
  else if event ≟ FulfilmentEvent.DEADLINE_SWEEP then Ok (swept, deadline_flipped)
  else
    '(target, resolved_message, resolved_diag) ←
      _resolve_target swept event now f diagnostic message reason;
    settle sm swept now target resolved_message resolved_diag deadline_flipped.
End FulfilmentStateMachine.

(** ** Lemmas *)
Section lemmas.
Import FulfilmentStateMachine.

(** The request is subject to the deadline at [now]. *)
Definition expired (r : Request.t) (now : datetime) : bool :=
  (Request.request_type r ≟ RequestType.ACQUIRE)
  && (Request.status r ∈? [RequestStatus.IN_PROGRESS; RequestStatus.ACQUIRING;
                           RequestStatus.PARTIAL_PENDING])
  && match Request.deadline_at r with None => false | Some d => d <=? now end.

Definition deadline_transition (r : Request.t) (now : datetime) : Request.t :=
  let '(target, summary, diagnostic) := deadline_outcome r now in
  Request._transition r target now (Some summary) diagnostic None
    ((target ≟ RequestStatus.COMPLETED) && bool_decide (diagnostic = None)).

Lemma deadline_outcome_terminal r now :
  RequestStatus.is_terminal (deadline_outcome r now).1.1 = true.
Proof. unfold deadline_outcome. by repeat case_match. Qed.

(** The table check of the sweep always passes: "never raise on a read path" is
    never needed. *)
Lemma deadline_outcome_allowed r now s :
  s ∈ [RequestStatus.IN_PROGRESS; RequestStatus.ACQUIRING; RequestStatus.PARTIAL_PENDING] →
  RequestStatus.can_transition_to s (deadline_outcome r now).1.1 = true.
Proof.
  intros Hs. unfold deadline_outcome. repeat case_match; cbn [fst snd];
    repeat (apply elem_of_cons in Hs as [->|Hs]; [done|]); by apply not_elem_of_nil in Hs.
Qed.

Lemma sweepable_not_terminal s :
  s ∈ [RequestStatus.IN_PROGRESS; RequestStatus.ACQUIRING; RequestStatus.PARTIAL_PENDING] →
  RequestStatus.is_terminal s = false.
Proof.
  intros Hs. repeat (apply elem_of_cons in Hs as [->|Hs]; [done|]).
  by apply not_elem_of_nil in Hs.
Qed.

Lemma evaluate_deadline_eq r now :
  evaluate_deadline r now =
  if expired r now then (deadline_transition r now, true) else (r, false).
Proof.
  unfold evaluate_deadline, expired, deadline_transition.
  case_bool_decide as Hty; simpl; [|by case_match].
  case_bool_decide as Hs; simpl.
  - rewrite (sweepable_not_terminal _ Hs).
    destruct (Request.deadline_at r) as [d|]; [|done].
    rewrite Z.leb_antisym. destruct (now <? d); [done|simpl].
    pose proof (deadline_outcome_allowed r now _ Hs) as Ha.
    destruct (deadline_outcome r now) as [[target summary] diag]; simpl in *. by rewrite Ha.
  - repeat case_match; done.
Qed.

Lemma deadline_transition_status r now :
  Request.status (deadline_transition r now) = (deadline_outcome r now).1.1.
Proof.
  unfold deadline_transition. destruct (deadline_outcome r now) as [[target summary] diag].
  apply Request.transition_fields.
Qed.

Lemma deadline_transition_terminal r now :
  RequestStatus.is_terminal (Request.status (deadline_transition r now)) = true.
Proof. rewrite deadline_transition_status. apply deadline_outcome_terminal. Qed.

Lemma expired_status r now :
  expired r now = true →
  Request.status r ∈ [RequestStatus.IN_PROGRESS; RequestStatus.ACQUIRING;
                      RequestStatus.PARTIAL_PENDING].
Proof. unfold expired. rewrite !andb_true_iff, !bool_decide_eq_true. tauto. Qed.

Lemma deadline_transition_mutates r now : Request.mutates r (deadline_transition r now).
Proof.
  unfold deadline_transition. destruct (deadline_outcome r now) as [[target summary] diag].
  constructor.
Qed.

Definition overrides_deadline (event : FulfilmentEvent.t) : bool :=
  event ∈? [FulfilmentEvent.CANCEL; FulfilmentEvent.FAIL].

(** [apply] as two cases: the deadline fires, or the event is settled. *)
Lemma apply_eq sm r event now f diagnostic message reason :
  apply sm r event now f diagnostic message reason =
  if negb (overrides_deadline event) && expired r now
  then Ok (deadline_transition r now, true)
  else if event ≟ FulfilmentEvent.DEADLINE_SWEEP then Ok (r, false)
  else '(target, m, d) ← _resolve_target r event now f diagnostic message reason;
       settle sm r now target m d false.
Proof.
  unfold apply, overrides_deadline. rewrite evaluate_deadline_eq.
  destruct (event ∈? _); simpl; [done|].
  destruct (expired r now); simpl; [|done]. by rewrite deadline_transition_terminal.
Qed.

(** Every successful settlement is allowed by the transition table. *)
Lemma settle_sound sm r now target m d r' b :
  settle sm r now target m d false = Ok (r', b) →
  Request.status r' = target ∧
  RequestStatus.can_transition_to (Request.status r) target = true ∧
  (Request.mutates r r' ∨ r' = r) ∧ (b = false → r' = r).
Proof.
  unfold settle. case_bool_decide as Ht.
  - assert (RequestStatus.can_transition_to (Request.status r) target = true) as Hc.
    { unfold RequestStatus.can_transition_to. by rewrite bool_decide_eq_true_2. }
    destruct d as [d|]; intros [= <- <-]; split_and!; auto; [|by left; constructor|done].
    unfold Request.set_fulfilment_diagnostic. by rewrite Request.rebuild_preserving_eq.
  - destruct (RequestStatus.can_transition_to _ target) eqn:Hc; simpl; [|done].
    intros [= <- <-]. split_and!; try done; [apply Request.transition_fields|].
    left; constructor.
Qed.

Lemma apply_sound sm r event now f diagnostic message reason r' b :
  apply sm r event now f diagnostic message reason = Ok (r', b) →
  RequestStatus.can_transition_to (Request.status r) (Request.status r') = true ∧
  (Request.mutates r r' ∨ r' = r) ∧ (b = false → r' = r).
Proof.
  rewrite apply_eq. destruct (negb _ && expired r now) eqn:He.
  - intros [= <- <-]. apply andb_true_iff in He as [_ He]. split_and!; [|left|done].
    + rewrite deadline_transition_status. by apply deadline_outcome_allowed, (expired_status r now).
    + apply deadline_transition_mutates.
  - case_bool_decide.
    + intros [= <- <-]. split_and!; auto. unfold RequestStatus.can_transition_to.
      by rewrite bool_decide_eq_true_2.
    + intros ([[target m] d] & _ & Hs)%result_bind_Ok.
      apply settle_sound in Hs as (-> & ? & ? & ?). auto.
Qed.
End lemmas.

(** ** Runs of the machine

    The callers keep the request they had when the machine refuses an event. *)
Record input := mk_input {
  in_event : FulfilmentEvent.t;
  in_now : datetime;
  in_fulfilment : option ProviderFulfilment;
  in_diagnostic : option FulfilmentDiagnostic;
  in_message : option string;
  in_reason : option string
}.

Definition apply_input (sm : FulfilmentStateMachine.t) (r : Request.t) (i : input)
  : result (Request.t * bool) :=
  FulfilmentStateMachine.apply sm r (in_event i) (in_now i) (in_fulfilment i)
    (in_diagnostic i) (in_message i) (in_reason i).

Definition feed (sm : FulfilmentStateMachine.t) (r : Request.t) (i : input) : Request.t :=
  match apply_input sm r i with Ok (r', _) => r' | Err _ => r end.

Definition run (sm : FulfilmentStateMachine.t) (r : Request.t) (ins : list input) : Request.t :=
  foldl (feed sm) r ins.

(** How many inputs of a run changed the status. *)
Fixpoint status_changes (sm : FulfilmentStateMachine.t) (r : Request.t) (ins : list input) : nat :=
  match ins with
  | [] => 0
  | i :: ins' =>
      ((if Request.status (feed sm r i) ≟ Request.status r then 0 else 1)
       + status_changes sm (feed sm r i) ins')%nat
  end.

Lemma feed_sound sm r i :
  RequestStatus.can_transition_to (Request.status r) (Request.status (feed sm r i)) = true ∧
  (Request.mutates r (feed sm r i) ∨ feed sm r i = r).
Proof.
  unfold feed. destruct (apply_input sm r i) as [[r' b]|e] eqn:Ha.
  - apply apply_sound in Ha as (? & ? & _). auto.
  - split; [|by right]. unfold RequestStatus.can_transition_to. by rewrite bool_decide_eq_true_2.
Qed.

Lemma run_mutates sm r ins : rtc Request.mutates r (run sm r ins).
Proof.
  revert r. induction ins as [|i ins IH]; intros r; simpl; [done|].
  destruct (feed_sound sm r i) as [_ [Hm| ->]]; [|apply IH].
  eapply rtc_l; [exact Hm|apply IH].
Qed.

Lemma run_moves sm r ins :
  nsteps RequestStatus.moves (status_changes sm r ins)
    (Request.status r) (Request.status (run sm r ins)).
Proof.
  revert r. induction ins as [|i ins IH]; intros r; simpl; [constructor|].
  case_bool_decide as Hs; simpl.
  - rewrite <- Hs. apply IH.
  - eapply nsteps_l; [|apply IH]. split; [apply feed_sound|congruence].
Qed.

(** A settled request keeps its status, except that PARTIAL can become COMPLETED. *)
Lemma run_settled sm r ins :
  RequestStatus.is_terminal (Request.status r) = true →
  Request.status (run sm r ins) = Request.status r ∨
  Request.status r = RequestStatus.PARTIAL ∧ Request.status (run sm r ins) = RequestStatus.COMPLETED.
Proof.
  intros Ht. destruct (run_moves sm r ins) as [x|n x y z Hxy Hyz]; [by left|right].
  destruct (RequestStatus.moves_out_of_terminal _ _ Ht Hxy) as [-> ->].
  split; [done|]. inversion Hyz as [|? ? ? ? Hbad]; subst; [done|].
  apply RequestStatus.moves_remaining in Hbad. simpl in Hbad. lia.
Qed.

(** ** Properties *)

(** C1: the state machine refines the status table: along any run of events,
    verdicts, cancels and sweeps, the statuses a request goes through form a path
    of the transition table with one edge per status change, so there are at most
    five changes; a settled request (other than PARTIAL) never changes status
    again, PARTIAL can only become COMPLETED; and the aggregate stays well-formed
    with its identity and its deadline (once set) intact. *)
Theorem run_refines_table sm r ins :
  nsteps RequestStatus.moves (status_changes sm r ins)
    (Request.status r) (Request.status (run sm r ins)) ∧
  (status_changes sm r ins ≤ RequestStatus.remaining_moves (Request.status r))%nat ∧
  (RequestStatus.is_terminal (Request.status r) = true →
     Request.status (run sm r ins) = Request.status r ∨
     Request.status r = RequestStatus.PARTIAL ∧
     Request.status (run sm r ins) = RequestStatus.COMPLETED) ∧
  Request.same_identity r (run sm r ins) ∧
  (is_Some (Request.deadline_at r) →
     Request.deadline_at (run sm r ins) = Request.deadline_at r) ∧
  (Request.wf r → Request.wf (run sm r ins)).
Proof.
  pose proof (run_moves sm r ins) as Hm.
  pose proof (RequestStatus.nsteps_moves _ _ _ Hm).
  destruct (Request.mutates_star _ _ (run_mutates sm r ins)) as (? & _ & ? & ?).
  split_and!; try done; [lia|]. apply run_settled.
Qed.

(** what the deadline sweep does, branch by branch.  An acquire request that
    is in progress, acquiring or holding a partial result and whose deadline has
    come is settled: completed, without a shortfall explanation, when the larger
    of its success counter and its machine list covers a positive requested count;
    partial when some but not all capacity is there; timed out when there is none;
    the last two carry a deadline explanation.  Every other request is returned as
    the same object. *)
Theorem deadline_sweep_spec r now :
  let n := FulfilmentStateMachine.effective_count r in
  let q := Request.requested_count r in
  let '(r', is_new) := FulfilmentStateMachine.evaluate_deadline r now in
  is_new = expired r now ∧
  (expired r now = false → r' = r) ∧
  (expired r now = true →
     Request.status r' =
       (if (0 <? q) && (q <=? n) then RequestStatus.COMPLETED
        else if 0 <? n then RequestStatus.PARTIAL else RequestStatus.TIMEOUT) ∧
     Request.completed_at r' = Some now ∧
     (Request.fulfilment_diagnostic r' = None ↔ Request.status r' = RequestStatus.COMPLETED) ∧
     Request.version r' = Request.version r + 1).
Proof.
  simpl. rewrite evaluate_deadline_eq. destruct (expired r now) eqn:He; [|done].
  split_and!; [done|done|]. intros _. unfold deadline_transition.
  destruct (FulfilmentStateMachine.deadline_outcome r now) as [[target summary] diag] eqn:Ho.
  destruct (Request.transition_fields r target now (Some summary) diag None
    ((target ≟ RequestStatus.COMPLETED) && bool_decide (diag = None)))
    as (-> & -> & _ & _ & _ & _ & _ & _ & -> & _ & _ & -> & _).
  unfold FulfilmentStateMachine.deadline_outcome in Ho.
  destruct (_ && _); [|destruct (0 <? _)]; injection Ho as <- <- <-; done.
Qed.

(** C2: the deadline is live and final: once its deadline has come, an acquire
    request that has left the queue is settled by the next event of any kind
    except cancel and fail (whose own target wins): completed when its machines
    cover a positive requested count, partial when there are some, timed out when
    there are none, with the completion time set.  The sweep does nothing the
    second time, and whatever sequence of events comes later the status stays, except
    that a partial result can become complete. *)
Theorem deadline_settles sm r event now f diag msg reason :
  Request.request_type r = RequestType.ACQUIRE →
  RequestStatus.is_active (Request.status r) = true →
  Request.status r ≠ RequestStatus.PENDING →
  (∃ d, Request.deadline_at r = Some d ∧ d <= now) →
  event ∉ [FulfilmentEvent.CANCEL; FulfilmentEvent.FAIL] →
  ∃ r', FulfilmentStateMachine.apply sm r event now f diag msg reason = Ok (r', true) ∧
        RequestStatus.is_terminal (Request.status r') = true ∧
        Request.status r' =
          (let n := Z.max (Request.successful_count r) (Z.of_nat (length (Request.machine_ids r))) in
           if (0 <? Request.requested_count r) && (Request.requested_count r <=? n)
           then RequestStatus.COMPLETED
           else if 0 <? n then RequestStatus.PARTIAL else RequestStatus.TIMEOUT) ∧
        Request.completed_at r' = Some now ∧
        (∀ now', FulfilmentStateMachine.evaluate_deadline r' now' = (r', false)) ∧
        ∀ ins, Request.status (run sm r' ins) = Request.status r' ∨
               Request.status r' = RequestStatus.PARTIAL ∧
               Request.status (run sm r' ins) = RequestStatus.COMPLETED.
Proof.
  intros Hty Ha Hp (d & Hd & Hle) Hev.
  assert (He : expired r now = true).
  { unfold expired. rewrite Hty, Hd. rewrite bool_decide_eq_true_2 by done. simpl.
    apply andb_true_iff. split; [|by apply Z.leb_le]. by destruct (Request.status r). }
  exists (deadline_transition r now).
  pose proof (deadline_transition_terminal r now) as Ht.
  split_and!; [|done| | | |intros ins; by apply run_settled].
  - rewrite apply_eq, He. unfold overrides_deadline. by rewrite bool_decide_eq_false_2.
  - rewrite deadline_transition_status. unfold FulfilmentStateMachine.deadline_outcome,
      FulfilmentStateMachine.effective_count. cbn zeta. destruct (_ && _); [done|].
    by destruct (0 <? _).
  - unfold deadline_transition.
    pose proof (deadline_outcome_terminal r now) as Hot.
    destruct (FulfilmentStateMachine.deadline_outcome r now) as [[target summary] dg].
    simpl in Hot. by destruct (Request.transition_fields r target now (Some summary) dg None
      ((target ≟ RequestStatus.COMPLETED) && bool_decide (dg = None)))
      as (_ & _ & _ & _ & _ & _ & _ & _ & -> & _); rewrite Hot.
  - intros now'. rewrite evaluate_deadline_eq.
    destruct (expired _ now') eqn:He'; [|done].
    apply expired_status, sweepable_not_terminal in He'. congruence.
Qed.

(** the grace period is granted exactly once.  When an accepted event moves
    a request out of PENDING, the deadline becomes its start time (or the current
    time) plus the configured grace period, and that deadline is not in the past;
    when the request already has a deadline the event leaves it alone. *)
Theorem deadline_set_on_leaving_pending sm r event now f diag msg reason r' b :
  FulfilmentStateMachine.apply sm r event now f diag msg reason = Ok (r', b) →
  Request.status r = RequestStatus.PENDING →
  Request.status r' ≠ RequestStatus.PENDING →
  Request.deadline_at r' =
    Some (default (default now (Request.started_at r) + FulfilmentStateMachine._grace_period sm)
            (Request.deadline_at r)) ∧
  Request.started_at r' = Some (default now (Request.started_at r)) ∧
  Request.last_transition_at r' = Some now.
Proof.
  rewrite apply_eq. intros H Hp Hp'.
  assert (expired r now = false) as He.
  { destruct (expired r now) eqn:He; [|done]. apply expired_status in He. rewrite Hp in He.
    by apply (bool_decide_pack _) in He. }
  rewrite He, andb_false_r in H. case_bool_decide; [by injection H as <- <-|].
  apply result_bind_Ok in H as ([[target m] d] & _ & H).
  pose proof (proj1 (settle_sound _ _ _ _ _ _ _ _ H)) as Hst.
  unfold FulfilmentStateMachine.settle in H. rewrite bool_decide_eq_false_2 in H by congruence.
  case_match; [done|]. injection H as <- <-.
  rewrite (bool_decide_eq_false_2 (target = RequestStatus.PENDING)) by congruence.
  destruct (Request.transition_fields r target now m d
    (if bool_decide (Request.deadline_at r = None) && negb false
     then Some (default now (Request.started_at r) + FulfilmentStateMachine._grace_period sm)
     else None) ((target ≟ RequestStatus.COMPLETED) && bool_decide (d = None)))
    as (_ & _ & _ & _ & _ & _ & _ & _ & _ & -> & -> & _).
  rewrite (bool_decide_eq_false_2 (target = RequestStatus.PENDING)) by congruence.
  split_and!; [by destruct (Request.deadline_at r)|done|apply Request.transition_last].
Qed.

Lemma deadline_set_on_leaving_pending_witness :
  let r := Request.fresh "req-1" RequestType.ACQUIRE "t" 1 "aws" None None [] [] 5 0 in
  let sm := FulfilmentStateMachine.init 60 in
  ∃ r' b, FulfilmentStateMachine.apply sm r FulfilmentEvent.START 10 None None None None
            = Ok (r', b) ∧
          Request.deadline_at r' = Some 60000010.
Proof.
  intros r sm. do 2 eexists. split; [vm_compute; reflexivity|].
  apply (deadline_set_on_leaving_pending sm r FulfilmentEvent.START 10 None None None None _ true);
    [vm_compute; reflexivity|reflexivity|discriminate].
Defined.

(** a cancel has authority over every live request, expired or not: it is
    accepted, the request becomes CANCELLED with a cancellation (or the supplied)
    explanation folded in and its completion time set; on a request that is
    already settled it is refused, except that cancelling twice is harmless. *)
Theorem cancel_authority sm r now f diag msg reason :
  match FulfilmentStateMachine.apply sm r FulfilmentEvent.CANCEL now f diag msg reason with
  | Ok (r', _) =>
      Request.status r' = RequestStatus.CANCELLED ∧
      is_Some (Request.fulfilment_diagnostic r') ∧
      (RequestStatus.is_active (Request.status r) = true → Request.completed_at r' = Some now) ∧
      (RequestStatus.is_active (Request.status r) = true ∨
       Request.status r = RequestStatus.CANCELLED)
  | Err e =>
      RequestStatus.is_terminal (Request.status r) = true ∧
      Request.status r ≠ RequestStatus.CANCELLED ∧
      e = InvalidRequestStateError (RequestStatus.value (Request.status r)) "cancelled"
  end.
Proof.
  rewrite apply_eq. cbn [negb overrides_deadline].
  change (overrides_deadline FulfilmentEvent.CANCEL) with true. cbn [negb andb].
  rewrite bool_decide_eq_false_2 by done. cbn [FulfilmentStateMachine._resolve_target].
  set (d := match diag with Some d => d | None => _ end). cbn [mbind result_bind].
  unfold FulfilmentStateMachine.settle. case_bool_decide as Hc.
  - unfold Request.set_fulfilment_diagnostic. rewrite Request.rebuild_preserving_eq, <- Hc.
    split_and!; [by cbn|by eexists|done|by right].
  - destruct (RequestStatus.can_transition_to _ _) eqn:Ht; cbn [negb].
    + set (dl := if _ && _ then _ else _). set (cl := _ && _).
      destruct (Request.transition_fields r RequestStatus.CANCELLED now (or_opt_str reason msg)
        (Some d) dl cl) as (-> & _ & _ & _ & _ & _ & _ & _ & -> & _ & _ & -> & _).
      split_and!; [done|by eexists|done|left]. by destruct (Request.status r).
    + split_and!; [by destruct (Request.status r)|done|done].
Qed.

(** A concrete acquire request, for the witnesses: one machine asked for, in
    progress, due at instant 50. *)
Definition sample : Request.t :=
  Request.fresh "req-1" RequestType.ACQUIRE "t" 2 "aws" None None ["m1"] [] 5 0
    <| Request.status := RequestStatus.IN_PROGRESS |>
    <| Request.deadline_at := Some 50 |>.

Lemma deadline_settles_witness :
  ∃ r', FulfilmentStateMachine.apply (FulfilmentStateMachine.init 60) sample
          FulfilmentEvent.START 60 None None None None = Ok (r', true) ∧
        Request.status r' = RequestStatus.PARTIAL.
Proof.
  destruct (deadline_settles (FulfilmentStateMachine.init 60) sample FulfilmentEvent.START 60
    None None None None) as (r' & Hr & _); try done.
  - by exists 50.
  - apply (bool_decide_unpack _). by vm_compute.
  - exists r'. split; [exact Hr|]. vm_compute in Hr. by injection Hr as <-.
Defined.

(** the holding rule for partial capacity.  A partial verdict that is not the
    provider's last word, on an acquire request that is live and within its
    deadline, parks the request in PARTIAL_PENDING and never settles it; a final
    partial verdict, or any partial verdict on a return request, settles it as
    PARTIAL at once. *)
Theorem partial_verdict_policy sm r now fm diag msg :
  RequestStatus.is_active (Request.status r) = true →
  expired r now = false →
  pf_state fm = "partial" →
  ∃ r' b,
    FulfilmentStateMachine.apply sm r FulfilmentEvent.PROVIDER_VERDICT now (Some fm) diag
      msg None = Ok (r', b) ∧
    Request.status r' =
      if pf_final fm || negb (Request.request_type r ≟ RequestType.ACQUIRE)
         || negb match Request.deadline_at r with None => true | Some d => now <? d end
      then RequestStatus.PARTIAL else RequestStatus.PARTIAL_PENDING.
Proof.
  intros Ha He Hst. rewrite apply_eq, He, andb_false_r.
  rewrite bool_decide_eq_false_2 by done. cbn [FulfilmentStateMachine._resolve_target].
  unfold FulfilmentStateMachine._target_for_verdict. rewrite bool_decide_eq_true_2 by done.
  set (tgt := if pf_final fm || _ || _ then RequestStatus.PARTIAL else _).
  set (m := match msg with Some m => Some m | None => _ end).
  set (d := match diag with Some d => Some d | None => _ end).
  assert (∃ r' b, FulfilmentStateMachine.settle sm r now tgt m d false = Ok (r', b)) as
    (r' & b & Hset).
  { unfold FulfilmentStateMachine.settle. case_bool_decide; [destruct d; eauto|].
    assert (RequestStatus.can_transition_to (Request.status r) tgt = true) as ->; [|cbn; eauto].
    unfold tgt in *. clear tgt. destruct (pf_final fm || _ || _), (Request.status r);
      first [done | by vm_compute in Ha]. }
  exists r', b. split; [|apply (settle_sound _ _ _ _ _ _ _ _ Hset)].
  rewrite <- Hset. unfold tgt.
  destruct (pf_final fm), (Request.request_type r ≟ RequestType.ACQUIRE),
    (match Request.deadline_at r with None => true | Some d0 => now <? d0 end); reflexivity.
Qed.

Lemma partial_verdict_policy_witness :
  ∃ r' b, FulfilmentStateMachine.apply (FulfilmentStateMachine.init 60) sample
      FulfilmentEvent.PROVIDER_VERDICT 40 (Some (fulfilment "partial" "1/2" false)) None None None
      = Ok (r', b) ∧ Request.status r' = RequestStatus.PARTIAL_PENDING.
Proof.
  apply (partial_verdict_policy (FulfilmentStateMachine.init 60) sample 40
           (fulfilment "partial" "1/2" false) None None); vm_compute; reflexivity.
Defined.

(** observers see every status change exactly once: an accepted event that
    changes the status leaves on the new aggregate one status-changed event with
    the old and the new status, followed by one completion event exactly when the
    new status is COMPLETED; and a request that completes without a supplied or
    provider explanation carries none, whatever shortfall it reported earlier. *)
Theorem transition_events_exact sm r event now f diag msg reason r' b :
  FulfilmentStateMachine.apply sm r event now f diag msg reason = Ok (r', b) →
  Request.status r' ≠ Request.status r →
  b = true ∧
  Request.version r' = Request.version r + 1 ∧
  Request.domain_events r' =
    Request.status_changed r (Request.status r) (Request.status r') ::
    (if Request.status r' ≟ RequestStatus.COMPLETED then [Request.completed_event r] else []) ∧
  (Request.status r' = RequestStatus.COMPLETED → diag = None →
   (∀ fm, f = Some fm → pf_diagnostic fm = None) → Request.fulfilment_diagnostic r' = None).
Proof.
  rewrite apply_eq. intros H Hne.
  assert (Hkey : ∀ tgt m d dl,
    r' = Request._transition r tgt now m d dl
           ((tgt ≟ RequestStatus.COMPLETED) && bool_decide (d = None)) → b = true →
    (tgt = RequestStatus.COMPLETED → diag = None →
      (∀ fm, f = Some fm → pf_diagnostic fm = None) → d = None) →
    b = true ∧ Request.version r' = Request.version r + 1 ∧
    Request.domain_events r' =
      Request.status_changed r (Request.status r) (Request.status r') ::
      (if Request.status r' ≟ RequestStatus.COMPLETED then [Request.completed_event r] else []) ∧
    (Request.status r' = RequestStatus.COMPLETED → diag = None →
     (∀ fm, f = Some fm → pf_diagnostic fm = None) →
     Request.fulfilment_diagnostic r' = None)).
  { intros tgt m d dl -> -> Hd.
    destruct (Request.transition_fields r tgt now m d dl
      ((tgt ≟ RequestStatus.COMPLETED) && bool_decide (d = None)))
      as (-> & -> & _ & _ & _ & _ & _ & _ & _ & _ & _ & -> & ->).
    split_and!; try done. intros -> Hdg Hf. by rewrite (Hd eq_refl Hdg Hf). }
  destruct (negb _ && _).
  - injection H as <- <-. revert Hkey. unfold deadline_transition.
    destruct (FulfilmentStateMachine.deadline_outcome r now) as [[tgt sm'] dg] eqn:Ho.
    intros Hkey. eapply Hkey; [done..|]. intros -> _ _. revert Ho.
    unfold FulfilmentStateMachine.deadline_outcome. repeat case_match; congruence.
  - destruct (event ≟ FulfilmentEvent.DEADLINE_SWEEP); [by injection H as <- <-|].
    apply result_bind_Ok in H as ([[tgt m] d] & Hr & Hs).
    pose proof (proj1 (settle_sound _ _ _ _ _ _ _ _ Hs)) as <-.
    unfold FulfilmentStateMachine.settle in Hs. rewrite bool_decide_eq_false_2 in Hs by done.
    destruct (RequestStatus.can_transition_to _ _); [|done].
    injection Hs as Hr' <-. eapply Hkey; [done|done|].
    intros Hc -> Hf. destruct event; simplify_eq/=; try congruence.
    destruct f as [fm|]; [|done]. specialize (Hf fm eq_refl).
    unfold FulfilmentStateMachine._target_for_verdict in Hr. rewrite Hf in Hr.
    repeat case_match; congruence.
Qed.

Lemma transition_events_exact_witness :
  ∃ r' b, FulfilmentStateMachine.apply (FulfilmentStateMachine.init 60) sample
      FulfilmentEvent.PROVIDER_VERDICT 40 (Some (fulfilment "fulfilled" "ok" false)) None None None
      = Ok (r', b) ∧
    length (Request.domain_events r') = 2%nat.
Proof.
  do 2 eexists. split; [vm_compute; reflexivity|].
  match goal with |- length (Request.domain_events ?r) = _ =>
    destruct (transition_events_exact (FulfilmentStateMachine.init 60) sample
      FulfilmentEvent.PROVIDER_VERDICT 40 (Some (fulfilment "fulfilled" "ok" false)) None None None
      r true) as (_ & _ & He & _); [vm_compute; reflexivity|vm_compute; discriminate|] end.
  rewrite He. reflexivity.
Defined.
