(* ===== verification/MachineAggregate.v ===== *)
(** * The Machine aggregate

    [orb/domain/machine/aggregate.py] on the value object [Tags] of
    [orb/domain/base/value_objects.py].  Every mutator rebuilds the aggregate from
    [model_dump()] through [model_validate], so what a field serialises to must
    validate back; for [Tags] that is spelled out, the other fields dump to
    themselves.  The clock is an argument.  Not modelled: [update_network_info]
    and [from_provider_format], which parse IP addresses and ISO timestamps. *)

From stdpp Require Import base strings list relations.
From Stdlib Require Import ZArith Lia.
From S2P Require Import Prelude RequestTypes.
Open Scope Z_scope.

Definition ValidationError (m : string) : exn := OtherError "ValidationError" m.

(** ** Tags *)
Module Tags.
Abbreviation t := (dict string).

Definition _serialize (tags : t) : json := JDict ((λ kv, (kv.1, JStr kv.2)) <$> tags).

Definition as_tag (kv : string * json) : result (string * string) :=
  match kv.2 with
  | JStr s => Ok (kv.1, s)
  | _ => Err (ValidationError "Input should be a valid string")
  end.

(** [Tags.model_validate(data)]: [_accept_dict] takes a plain dict for the tags
    unless it has a key ["tags"], then the field is validated. *)
Definition _accept_dict (data : json) : json :=
  match data with
  | JDict d => if negb (dmem "tags" d) then JDict [("tags", data)] else data
  | _ => data
  end.

Definition model_validate (data : json) : result t :=
  match _accept_dict data with
  | JDict d =>
      match dget "tags" d with
      | Some (JDict tags) => mapM_result as_tag tags
      | Some _ => Err (ValidationError "Input should be a valid dictionary")
      | None => Ok []
      end
  | _ => Err (ValidationError "Input should be a valid dictionary")
  end.

Definition get (tags : t) (key : string) (dflt : option string) : option string :=
  match dget key tags with Some v => Some v | None => dflt end.
Definition add (tags : t) (key v : string) : t := dset key v tags.
Definition remove (tags : t) (key : string) : t := dpop key tags.
Definition to_dict (tags : t) : dict string := tags.
Definition merge (tags other : t) : t := dmerge tags other.

Lemma dget_serialized tags k :
  dget k ((λ kv : string * string, (kv.1, JStr kv.2)) <$> tags) = JStr <$> dget k tags.
Proof. induction tags as [|[k' v] tags IH]; simpl; [done|]. by case_decide. Qed.

Lemma as_tag_serialized tags :
  mapM_result as_tag ((λ kv : string * string, (kv.1, JStr kv.2)) <$> tags) = Ok tags.
Proof.
  apply mapM_result_Forall2, Forall2_fmap_l, Forall_Forall2_diag, Forall_true. by intros [k v].
Qed.

(** What comes back when a tag set is dumped and validated. *)
Lemma model_validate_serialize tags :
  model_validate (_serialize tags) =
  if dmem "tags" tags then Err (ValidationError "Input should be a valid dictionary") else Ok tags.
Proof.
  unfold model_validate, _serialize, _accept_dict, dmem. rewrite dget_serialized.
  destruct (dget "tags" tags) as [v|] eqn:Ht; simpl.
  - by rewrite dget_serialized, Ht.
  - apply as_tag_serialized.
Qed.
End Tags.

(** ** Events *)
Inductive MachineEvent :=
| MachineStatusChangedEvent (machine_id old_status new_status : string) (reason : option string)
    (timestamp : datetime) (machine_type provider_type : string)
| MachineProvisionedEvent (machine_id : string) (private_ip public_ip : option string)
    (provisioning_time : datetime).

(** ** The aggregate *)
Module Machine.
Record t := mk {
  machine_id : string;
  name : option string;
  template_id : string;
  request_id : option string;
  return_request_id : option string;
  provider_type : string;
  provider_name : string;
  provider_api : string;
  resource_id : option string;
  instance_type : string;
  image_id : string;
  price_type : option string;
  private_ip : option string;
  public_ip : option string;
  private_dns_name : option string;
  public_dns_name : option string;
  subnet_id : option string;
  security_group_ids : list string;
  vpc_id : option string;
  status : MachineStatus.t;
  status_reason : option string;
  launch_time : option datetime;
  provisioning_started_at : option datetime;
  termination_time : option datetime;
  tags : Tags.t;
  metadata : dict json;
  provider_data : dict json;
  version : Z;
  created_at : option datetime;
  persisted_revision : nat;
  domain_events : list MachineEvent
}.

Definition eta (m : t) : t :=
  mk (machine_id m) (name m) (template_id m) (request_id m) (return_request_id m)
    (provider_type m) (provider_name m) (provider_api m) (resource_id m) (instance_type m)
    (image_id m) (price_type m) (private_ip m) (public_ip m) (private_dns_name m)
    (public_dns_name m) (subnet_id m) (security_group_ids m) (vpc_id m) (status m)
    (status_reason m) (launch_time m) (provisioning_started_at m) (termination_time m)
    (tags m) (metadata m) (provider_data m) (version m) (created_at m)
    (persisted_revision m) (domain_events m).

#[global] Hint Extern 1 (@Setter t _ _) => solve_setter eta : typeclass_instances.

(** [Machine.model_validate(fields)] where [fields] came from [model_dump()]. *)
Definition rebuilt (fields : t) : result t :=
  tags' ← Tags.model_validate (Tags._serialize (tags fields));
  Ok (fields <| tags := tags' |> <| domain_events := [] |>).

Definition add_domain_event (m : t) (e : MachineEvent) : t :=
  m <| domain_events := domain_events m ++ [e] |>.

Definition status_changed (self : t) (new_status : MachineStatus.t) (reason : option string)
    (now : datetime) : MachineEvent :=
  MachineStatusChangedEvent (machine_id self) (MachineStatus.value (status self))
    (MachineStatus.value new_status) reason now (instance_type self) (provider_type self).

Definition start_launching (self : t) (now : datetime) : result t :=
  if negb (status self ≟ MachineStatus.PENDING) then
    Err (InvalidMachineStateError (MachineStatus.value (status self))
           (MachineStatus.value MachineStatus.LAUNCHING))
  else
    updated_machine ← rebuilt (self <| status := MachineStatus.LAUNCHING |>
                                    <| provisioning_started_at := Some now |>
                                    <| version := version self + 1 |>);
    Ok (add_domain_event updated_machine
          (status_changed self MachineStatus.LAUNCHING (Some "Machine launching initiated") now)).

(** [str(ip) if ip else None]. *)
Definition ip_or_none (ip : option string) : option string := if str_truthy ip then ip else None.

Definition update_status (self : t) (new_status : MachineStatus.t) (reason : option string)
    (now : datetime) : result t :=
  let first_running :=
    (new_status ≟ MachineStatus.RUNNING) && bool_decide (launch_time self = None) in
  let ended := new_status ∈? [MachineStatus.TERMINATED; MachineStatus.FAILED] in
  updated_machine ←
    rebuilt (self <| status := new_status |>
                  <| status_reason := reason |>
                  <| version := version self + 1 |>
                  <| launch_time := if first_running then Some now else launch_time self |>
                  <| termination_time :=
                       if negb first_running && ended then Some now else termination_time self |>);
  if negb (status self ≟ new_status) then
    let updated_machine := add_domain_event updated_machine (status_changed self new_status reason now) in
    Ok (if (new_status ≟ MachineStatus.RUNNING)
           && (str_truthy (private_ip updated_machine) || str_truthy (public_ip updated_machine))
        then add_domain_event updated_machine
               (MachineProvisionedEvent (machine_id self) (ip_or_none (private_ip updated_machine))
                  (ip_or_none (public_ip updated_machine)) now)
        else updated_machine)
  else Ok updated_machine.

(** The merged tags go in as a [Tags] object, which validates as it is. *)
Definition update_tags (self : t) (new_tags : Tags.t) : t :=
  self <| tags := Tags.merge (tags self) new_tags |>
       <| version := version self + 1 |> <| domain_events := [] |>.

Definition set_provider_data (self : t) (data : dict json) : result t :=
  rebuilt (self <| provider_data := data |> <| version := version self + 1 |>).

Definition get_provider_data (self : t) (key : string) (dflt : json) : json :=
  dget_default key (provider_data self) dflt.

Definition display_name (self : t) : string :=
  or_str (name self)
    (or_str (private_dns_name self)
       (or_str (public_dns_name self)
          (or_str (private_ip self) (machine_id self)))).

Definition is_running (self : t) : bool := status self ≟ MachineStatus.RUNNING.
Definition is_terminated (self : t) : bool :=
  status self ∈? [MachineStatus.TERMINATED; MachineStatus.SHUTTING_DOWN].
Definition is_healthy (self : t) : bool :=
  status self ∈? [MachineStatus.PENDING; MachineStatus.RUNNING].

Definition uptime (self : t) (now : datetime) : option Z :=
  match launch_time self with
  | Some l => if status self ≟ MachineStatus.RUNNING then Some (Z.quot (now - l) 1000000) else None
  | None => None
  end.

(** ** Histories *)

Inductive mutates : t → t → Prop :=
| mut_launch m now m' : start_launching m now = Ok m' → mutates m m'
| mut_status m s reason now m' : update_status m s reason now = Ok m' → mutates m m'
| mut_tags m new_tags : mutates m (update_tags m new_tags)
| mut_provider_data m data m' : set_provider_data m data = Ok m' → mutates m m'.

(** The lifecycle timestamps agree with the status. *)
Definition wf (m : t) : Prop :=
  (status m = MachineStatus.RUNNING → is_Some (launch_time m)) ∧
  (status m ∈ [MachineStatus.TERMINATED; MachineStatus.FAILED] → is_Some (termination_time m)).

Lemma rebuilt_spec m :
  rebuilt m = if dmem "tags" (tags m)
              then Err (ValidationError "Input should be a valid dictionary")
              else Ok (m <| domain_events := [] |>).
Proof.
  unfold rebuilt. rewrite Tags.model_validate_serialize. destruct (dmem _ _); [done|].
  by destruct m.
Qed.

(** One mutation: a fresh version, the same machine, sticky launch time. *)
Definition guarantee (m m' : t) : Prop :=
  machine_id m' = machine_id m ∧ provider_api m' = provider_api m ∧
  version m' = version m + 1 ∧
  (∀ l, launch_time m = Some l → launch_time m' = Some l) ∧
  (wf m → wf m').

Lemma update_status_eq m s reason now m' :
  update_status m s reason now = Ok m' →
  dmem "tags" (tags m) = false ∧
  machine_id m' = machine_id m ∧ provider_api m' = provider_api m ∧
  version m' = version m + 1 ∧ status m' = s ∧
  launch_time m' = (if (s ≟ MachineStatus.RUNNING) && bool_decide (launch_time m = None)
                    then Some now else launch_time m) ∧
  termination_time m' = (if s ∈? [MachineStatus.TERMINATED; MachineStatus.FAILED]
                         then Some now else termination_time m) ∧
  domain_events m' =
    (if status m ≟ s then [] else
     status_changed m s reason now ::
     (if (s ≟ MachineStatus.RUNNING) && (str_truthy (private_ip m) || str_truthy (public_ip m))
      then [MachineProvisionedEvent (machine_id m) (ip_or_none (private_ip m))
              (ip_or_none (public_ip m)) now] else [])).
Proof.
  unfold update_status. rewrite rebuilt_spec. destruct m as [].
  cbn -[dmem bool_decide]. destruct (dmem _ _); [done|]. cbn -[bool_decide].
  case_bool_decide as Hst; cbn -[bool_decide].
  - intros [= <-]. cbn -[bool_decide]. destruct s, launch_time0; split_and!; reflexivity.
  - case_match; intros [= <-]; cbn -[bool_decide]; destruct s, launch_time0; split_and!; reflexivity.
Qed.

Lemma machine_mutates_guarantee m m' : mutates m m' → guarantee m m'.
Proof.
  unfold guarantee, wf. destruct 1 as [m now m' H|m s reason now m' H|m new_tags|m data m' H].
  - unfold start_launching in H. destruct (negb _); [done|].
    apply result_bind_Ok in H as (u & Hu & [= <-]). rewrite rebuilt_spec in Hu.
    revert Hu. destruct (dmem _ _); [done|]. intros [= <-]. simpl. split_and!; try done.
    intros _. split; [done|]. intros Hs. apply (bool_decide_eq_true_2 _) in Hs. discriminate Hs.
  - apply update_status_eq in H as (_ & -> & -> & -> & -> & -> & -> & _).
    split_and!; try done.
    + intros l ->. by rewrite (bool_decide_false (Some l = None)), andb_false_r by done.
    + intros [Hl Ht]. split.
      * intros ->. rewrite (bool_decide_true (MachineStatus.RUNNING = _)) by done. simpl.
        destruct (launch_time m); by eexists.
      * intros Hs. rewrite bool_decide_true by done. by eexists.
  - simpl. split_and!; done.
  - unfold set_provider_data in H. rewrite rebuilt_spec in H. revert H.
    destruct (dmem _ _); [done|]. intros [= <-]. simpl. split_and!; done.
Qed.
End Machine.

(** ** Theorems *)

(** Dumping and validating a tag set gives it back exactly when no tag is
    called ["tags"]; a set with such a tag, which every constructor accepts, is
    rejected on the way back, so the round trip the value objects document does
    not hold for it. *)
Theorem tags_roundtrip_iff tags :
  Tags.model_validate (Tags._serialize tags) = Ok tags ↔ dmem "tags" tags = false.
Proof. rewrite Tags.model_validate_serialize. destruct (dmem "tags" tags); naive_solver. Qed.

(** A machine that carries a tag called ["tags"] can no longer change status:
    every status update raises a validation error, whatever the new status. *)
Theorem tags_tag_blocks_status m s reason now :
  dmem "tags" (Machine.tags m) = true →
  ∃ e, Machine.update_status m s reason now = Err e.
Proof.
  intros Ht. unfold Machine.update_status. rewrite Machine.rebuilt_spec. simpl. rewrite Ht.
  by eexists.
Qed.

Definition sample_machine (tags : dict string) : Machine.t :=
  {| Machine.machine_id := "i-1"; Machine.name := None; Machine.template_id := "t";
     Machine.request_id := Some "req-1"; Machine.return_request_id := None;
     Machine.provider_type := "aws"; Machine.provider_name := "aws-1";
     Machine.provider_api := "EC2Fleet"; Machine.resource_id := None;
     Machine.instance_type := "m5.large"; Machine.image_id := "ami-1";
     Machine.price_type := None; Machine.private_ip := Some "10.0.0.1";
     Machine.public_ip := None; Machine.private_dns_name := None;
     Machine.public_dns_name := None; Machine.subnet_id := None;
     Machine.security_group_ids := []; Machine.vpc_id := None;
     Machine.status := MachineStatus.PENDING; Machine.status_reason := None;
     Machine.launch_time := None; Machine.provisioning_started_at := None;
     Machine.termination_time := None; Machine.tags := tags; Machine.metadata := [];
     Machine.provider_data := []; Machine.version := 0; Machine.created_at := Some 0;
     Machine.persisted_revision := 0; Machine.domain_events := [] |}.

Lemma tags_tag_blocks_status_witness :
  ∃ e, Machine.update_status (sample_machine [("tags", "blue")]) MachineStatus.RUNNING None 5
       = Err e.
Proof. apply (tags_tag_blocks_status (sample_machine [("tags", "blue")])). reflexivity. Defined.

(** Through any history of launches, status updates, tag and provider data
    changes a machine keeps its identity and provider API, its version counts the
    changes, a launch time once recorded is never overwritten, and a machine that
    starts consistent (a running machine has a launch time, an ended one a
    termination time) stays so. *)
Theorem machine_history n m m' :
  nsteps Machine.mutates n m m' → Machine.wf m →
  Machine.machine_id m' = Machine.machine_id m ∧
  Machine.provider_api m' = Machine.provider_api m ∧
  Machine.version m' = Machine.version m + Z.of_nat n ∧
  (∀ l, Machine.launch_time m = Some l → Machine.launch_time m' = Some l) ∧
  Machine.wf m'.
Proof.
  induction 1 as [m|n m m1 m' Hm _ IH]; intros Hwf; [split_and!; try done; lia|].
  apply Machine.machine_mutates_guarantee in Hm as (Hi & Hp & Hv & Hl & Hw).
  destruct (IH (Hw Hwf)) as (-> & -> & -> & Hl' & Hw'). split_and!; try done; [lia|].
  intros l Hm. by apply Hl', Hl.
Qed.

Lemma machine_history_witness :
  ∃ m', Machine.update_status (sample_machine []) MachineStatus.RUNNING None 5 = Ok m' ∧
        Machine.version m' = 1 ∧ Machine.wf m'.
Proof.
  eexists. split; [vm_compute; reflexivity|].
  destruct (machine_history 1 (sample_machine [])
    (match Machine.update_status (sample_machine []) MachineStatus.RUNNING None 5 with
     | Ok m => m | Err _ => sample_machine [] end)) as (_ & _ & Hv & _ & Hw).
  - eapply nsteps_l; [eapply (Machine.mut_status _ MachineStatus.RUNNING None 5);
      vm_compute; reflexivity|constructor].
  - split; [done|]. intros H. apply (bool_decide_eq_true_2 _) in H. discriminate H.
  - split; [exact Hv|exact Hw].
Defined.

(** The events of a status update are exact: none when the status does not
    change; otherwise one status-changed event from the old status to the new,
    followed by one provisioned event exactly when the machine becomes running
    with an address.  Events pending on the old aggregate are not carried over. *)
Theorem machine_status_events m s reason now m' :
  Machine.update_status m s reason now = Ok m' →
  Machine.domain_events m' =
    if Machine.status m ≟ s then []
    else Machine.status_changed m s reason now ::
      (if (s ≟ MachineStatus.RUNNING)
          && (str_truthy (Machine.private_ip m) || str_truthy (Machine.public_ip m))
       then [MachineProvisionedEvent (Machine.machine_id m)
               (Machine.ip_or_none (Machine.private_ip m))
               (Machine.ip_or_none (Machine.public_ip m)) now]
       else []).
Proof. by intros (_ & _ & _ & _ & _ & _ & _ & H)%Machine.update_status_eq. Qed.

Lemma machine_status_events_witness :
  ∃ m', Machine.update_status (sample_machine []) MachineStatus.RUNNING None 5 = Ok m' ∧
        length (Machine.domain_events m') = 2%nat.
Proof.
  eexists. split; [vm_compute; reflexivity|].
  rewrite (machine_status_events (sample_machine []) MachineStatus.RUNNING None 5) by
    (vm_compute; reflexivity). reflexivity.
Defined.
