(* ===== verification/StatusService.v ===== *)
(** * The request status service

    [orb/application/services/request_status_service.py]: what a poll concludes
    from the machines and the provider's verdict, and the two writes of a
    request's status (the update after a poll and the deadline sweep), each a
    read, a change and a save in a unit of work, repeated once when another
    writer got in between.

    The service reaches the store through the unit of work; what it relies on is
    the class [RequestStore].  Other writers are explicit: each attempt is given
    the change the rest of the system makes between its read and its commit. *)

From stdpp Require Import base gmap strings list.
From Stdlib Require Import ZArith Lia.
From S2P Require Import Prelude RequestTypes Diagnostic RequestAggregate FulfilmentSM.
From S2P Require Import MachineAggregate.
Open Scope Z_scope.

(** ** What the service relies on *)

(** A saved request is read back without its pending events, under the version
    the store gave it. *)
Definition persisted (r : Request.t) (v : Z) : Request.t :=
  r <| Request.version := v |> <| Request.domain_events := [] |>.

Class RequestStore (S : Type) := {
  (* the state is one the promises below are made for *)
  rs_ok : S → Prop;
  (* [uow.requests.get_by_id] *)
  rs_get : S → string → option Request.t;
  (* [uow.requests.save] of a request loaded at a version, and the commit *)
  rs_save : S → Z → Request.t → result unit * S;
  rs_save_current s e r cur :
    rs_ok s → rs_get s (Request.request_id r) = Some cur → Request.version cur = e →
    ∃ s', rs_save s e r = (Ok (), s') ∧ rs_ok s' ∧
      ∀ i, rs_get s' i = if decide (Request.request_id r = i)
                         then Some (persisted r (Z.max (Request.version r) (e + 1)))
                         else rs_get s i;
  rs_save_stale s e r :
    rs_ok s →
    (∀ cur, rs_get s (Request.request_id r) = Some cur → Request.version cur ≠ e) →
    ∃ i v, rs_save s e r = (Err (ConcurrencyError i v), s);
  rs_get_id s i cur : rs_ok s → rs_get s i = Some cur → Request.request_id cur = i
}.

(** ** Determining the status *)

Record provider_metadata := mk_provider_metadata {
  provider_fetch_failed : bool;
  provider_fulfilment : option ProviderFulfilment
}.

Definition determined : Type := option string * option string.

Definition acquire_state_map : dict string :=
  [("fulfilled", RequestStatus.value RequestStatus.COMPLETED);
   ("in_progress", RequestStatus.value RequestStatus.IN_PROGRESS);
   ("partial", RequestStatus.value RequestStatus.PARTIAL);
   ("failed", RequestStatus.value RequestStatus.FAILED)].

Definition _determine_acquire_status (request : Request.t) (pm : provider_metadata)
  : result determined :=
  match provider_fulfilment pm with
  | None =>
      Err (ProviderContractError
        ("Provider " +:+ default "None" (Request.provider_name request) +:+ " did not emit " +:+
         "ProviderFulfilment for acquire request. Every provider's " +:+
         "check_hosts_status must return CheckHostsStatusResult with fulfilment."))
  | Some f =>
      match dget (pf_state f) acquire_state_map with
      | None => Ok (Some (RequestStatus.value RequestStatus.IN_PROGRESS), Some (pf_message f))
      | Some mapped => Ok (Some mapped, Some (pf_message f))
      end
  end.

(** [sum(1 for m in machines if m.status.value in values)]. *)
Definition count_status (statuses : list MachineStatus.t) (machines : list Machine.t) : Z :=
  Z.of_nat (length (filter (λ m, Machine.status m ∈ statuses) machines)).

Definition _determine_return_status (db_machines provider_machines : list Machine.t)
    (request : Request.t) : determined :=
  let db_machine_count := fmt (Z.of_nat (length db_machines)) in
  match provider_machines with
  | [] =>
      match db_machines with
      | _ :: _ =>
          (Some (RequestStatus.value RequestStatus.COMPLETED),
           Some ("Return request completed: all machines terminated " +:+
                 "(no longer visible in provider) (total in DB: " +:+ db_machine_count +:+ ")"))
      | [] =>
          (Some (RequestStatus.value RequestStatus.IN_PROGRESS),
           Some "Awaiting provider confirmation of termination")
      end
  | _ =>
      let shutting_down_count :=
        count_status [MachineStatus.SHUTTING_DOWN; MachineStatus.STOPPING] provider_machines in
      let terminated_count :=
        count_status [MachineStatus.TERMINATED; MachineStatus.STOPPED] provider_machines in
      let running_count := count_status [MachineStatus.RUNNING] provider_machines in
      let failed_count := count_status [MachineStatus.FAILED] provider_machines in
      let completion_target := Request.requested_count request in
      if (completion_target <=? terminated_count) && (running_count =? 0) then
        (Some (RequestStatus.value RequestStatus.COMPLETED),
         Some ("Return request completed: " +:+ fmt terminated_count +:+ " terminated, " +:+
               fmt shutting_down_count +:+ " shutting down (total in DB: " +:+
               db_machine_count +:+ ")"))
      else if 0 <? running_count then
        (Some (RequestStatus.value RequestStatus.IN_PROGRESS),
         Some ("Return in progress: " +:+ fmt running_count +:+ " machines still running, " +:+
               "awaiting termination (total in DB: " +:+ db_machine_count +:+ ")"))
      else if 0 <? failed_count then
        (Some (RequestStatus.value RequestStatus.FAILED),
         Some ("Return request failed: " +:+ fmt failed_count +:+
               " machines failed to terminate (total in DB: " +:+ db_machine_count +:+ ")"))
      else (Some (RequestStatus.value RequestStatus.IN_PROGRESS), Some "Instances terminating")
  end.

Definition determine_status_from_machines (db_machines provider_machines : list Machine.t)
    (request : Request.t) (pm : provider_metadata) : result determined :=
  let determined :=
    if Request.request_type request ≟ RequestType.RETURN then
      Ok (_determine_return_status db_machines provider_machines request)
    else if provider_fetch_failed pm then Ok (None, None)
    else _determine_acquire_status request pm in
  match determined with
  | Ok d => Ok d
  | Err (ProviderContractError m) => Err (ProviderContractError m)
  | Err _ => Ok (Some (RequestStatus.value RequestStatus.IN_PROGRESS),
                 Some "Status determination failed — will retry")
  end.

(** ** Building the new state *)

Definition synthesised_state (target : RequestStatus.t) : option string :=
  match target with
  | RequestStatus.COMPLETED => Some "fulfilled"
  | RequestStatus.IN_PROGRESS | RequestStatus.ACQUIRING => Some "in_progress"
  | RequestStatus.PARTIAL | RequestStatus.PARTIAL_PENDING => Some "partial"
  | RequestStatus.FAILED => Some "failed"
  | _ => None
  end.

Definition _synthesise_fulfilment (status message : string) : option ProviderFulfilment :=
  target ← enum_of_value (E := RequestStatus.t) status;
  mapped ← synthesised_state target;
  Some (fulfilment mapped message false).

(** [dataclasses.asdict(fulfilment)] without the diagnostic. *)
Definition snapshot (f : ProviderFulfilment) : dict json :=
  let units (o : option Z) := match o with Some z => JInt z | None => JNull end in
  [("state", JStr (pf_state f)); ("message", JStr (pf_message f));
   ("target_units", units (pf_target_units f)); ("fulfilled_units", units (pf_fulfilled_units f));
   ("running_count", units (pf_running_count f)); ("pending_count", units (pf_pending_count f));
   ("failed_count", units (pf_failed_count f)); ("final", JBool (pf_final f))].

Definition counts_machines (s : RequestStatus.t) : bool :=
  s ∈? [RequestStatus.COMPLETED; RequestStatus.PARTIAL; RequestStatus.PARTIAL_PENDING;
        RequestStatus.IN_PROGRESS].

(** The reconciliation of [successful_count] with the machine identifiers. *)
Definition heal_count (r : Request.t) (changed : bool) : Request.t * bool :=
  let actual_count := Z.of_nat (length (Request.machine_ids r)) in
  if counts_machines (Request.status r) && negb (actual_count =? 0)
     && negb (actual_count =? Request.successful_count r)
  then (r <| Request.successful_count := actual_count |>, true) else (r, changed).

Definition _build_status_update (sm : FulfilmentStateMachine.t) (request : Request.t)
    (status message : string) (f : option ProviderFulfilment) (now : datetime)
  : result (Request.t * bool) :=
  verdict ← match f with
            | Some f => Ok f
            | None => match _synthesise_fulfilment status message with
                      | Some synthetic => Ok synthetic
                      | None => Err (ValueError ("Unknown request status: " +:+ str_repr status))
                      end
            end;
  '(applied, is_new) ←
    FulfilmentStateMachine.apply sm request FulfilmentEvent.PROVIDER_VERDICT now (Some verdict)
      None (Some message) None;
  let '(updated_request, changed) := heal_count applied is_new in
  Ok match f with
     | Some f => (Request.with_last_fulfilment updated_request (snapshot f), true)
     | None => (updated_request, changed)
     end.

(** ** The writes *)

Definition _WRITE_ATTEMPTS : nat := 2.

Section service.
Context {S : Type} `{!RequestStore S} (sm : FulfilmentStateMachine.t).

(** What the rest of the system does between the read and the commit of each
    attempt. *)
Abbreviation environment := (list (S → S)).

Definition interfere (env : environment) : S → S := default id (head env).

(** The read-change-save loop both writes share.  [change] says what to do with
    the request read: nothing to write, a refusal, or a request to save. *)
Inductive change_result :=
| Return (r : Request.t)
| Raise (e : exn)
| Save (r : Request.t).

Fixpoint write_loop (request : Request.t) (on_missing : Request.t)
    (change : Request.t → change_result) (attempts : nat) (env : environment) (s : S)
  : result Request.t * S :=
  match attempts with
  | O => (Ok request, s)
  | Datatypes.S attempts' =>
      match rs_get s (Request.request_id request) with
      | None => (Ok on_missing, s)
      | Some current =>
          match change current with
          | Return r => (Ok r, s)
          | Raise e => (Err e, s)
          | Save updated =>
              let updated := updated <| Request.version := Request.version current + 1 |> in
              match rs_save (interfere env s) (Request.version current) updated with
              | (Ok _, s') => (Ok updated, s')
              | (Err (ConcurrencyError i v), s') =>
                  match attempts' with
                  | O => (Err (ConcurrencyError i v), s')
                  | _ => write_loop request on_missing change attempts' (tail env) s'
                  end
              | (Err e, s') => (Err e, s')
              end
          end
      end
  end.

(** What [update_request_status] does with the request it read. *)
Definition status_change (status message : string) (f : option ProviderFulfilment)
    (now : datetime) (current : Request.t) : change_result :=
  match _build_status_update sm current status message f now with
  | Err (InvalidRequestStateError _ _) => Return current
  | Err e => Raise e
  | Ok (updated, changed) => if negb changed then Return current else Save updated
  end.

Definition update_request_status (request : Request.t) (status message : string)
    (pm : option provider_metadata) (now : datetime) (env : environment) (s : S)
  : result Request.t * S :=
  let f := pm ≫= provider_fulfilment in
  if bool_decide (f = None) && bool_decide (_synthesise_fulfilment status message = None)
  then (Ok request, s)
  else write_loop request request (status_change status message f now) _WRITE_ATTEMPTS env s.

(** What [sweep_expired_deadline] does with the request it read. *)
Definition sweep_change (now : datetime) (current : Request.t) : change_result :=
  if RequestStatus.is_terminal (Request.status current) then Return current
  else
    let '(swept, is_new) := FulfilmentStateMachine.evaluate_deadline current now in
    if negb is_new || (Request.status swept ≟ Request.status current) then Return current
    else Save swept.

Definition sweep_expired_deadline (request : Request.t) (now : datetime) (env : environment)
    (s : S) : result Request.t * S :=
  write_loop request request (sweep_change now) _WRITE_ATTEMPTS env s.
End service.

(** [map_machine_status_to_result]. *)
Definition map_machine_status_to_result (status : string) (ty : RequestType.t) : string :=
  if ty ≟ RequestType.RETURN then
    if status ∈? ["terminated"; "stopped"] then "succeed"
    else if status ∈? ["pending"; "terminating"; "shutting-down"; "stopping"; "running"]
    then "executing" else "fail"
  else if status ≟ "running" then "succeed"
  else if status ∈? ["pending"; "launching"] then "executing"
  else "fail".

(** ** A reference store: a map of requests with compare-and-set saves *)

#[export] Program Instance map_store : RequestStore (gmap string Request.t) := {
  rs_ok m := ∀ i r, m !! i = Some r → Request.request_id r = i;
  rs_get m i := m !! i;
  rs_save m e r :=
    let i := Request.request_id r in
    match m !! i with
    | Some cur =>
        if Request.version cur =? e
        then (Ok (), <[i := persisted r (Z.max (Request.version r) (e + 1))]> m)
        else (Err (ConcurrencyError i (Some e)), m)
    | None => (Err (ConcurrencyError i (Some e)), m)
    end
}.
Next Obligation.
  intros m e r cur Hok Hcur <-. simpl in *. rewrite Hcur, Z.eqb_refl.
  eexists. split; [done|]. split.
  - intros i r'. rewrite lookup_insert. case_decide as Hi; [|by apply Hok].
    intros [= <-]. by subst.
  - intros i. rewrite lookup_insert. done.
Qed.
Next Obligation.
  intros m e r Hok Hst. simpl in *. destruct (m !! _) as [cur|] eqn:Hcur; [|by do 2 eexists].
  destruct (Z.eqb_spec (Request.version cur) e); [by destruct (Hst cur)|by do 2 eexists].
Qed.
Next Obligation. intros m i cur Hok Hcur. by apply Hok. Qed.

(** ** Lemmas: building *)

Lemma can_transition_refl s : RequestStatus.can_transition_to s s = true.
Proof. unfold RequestStatus.can_transition_to. by rewrite bool_decide_eq_true_2. Qed.

Lemma mutates_id r r' : Request.mutates r r' ∨ r' = r → Request.request_id r' = Request.request_id r.
Proof. intros [H| ->]; [|done]. by apply Request.mutates_guarantee in H as ((? & _) & _). Qed.

Lemma heal_count_fields r ch r' ch' :
  heal_count r ch = (r', ch') →
  Request.status r' = Request.status r ∧ Request.request_id r' = Request.request_id r ∧
  Request.machine_ids r' = Request.machine_ids r ∧
  (counts_machines (Request.status r) = true → Request.machine_ids r ≠ [] →
   Request.successful_count r' = Z.of_nat (length (Request.machine_ids r))) ∧
  (ch' = false → r' = r ∧ ch = false).
Proof.
  unfold heal_count. destruct (counts_machines (Request.status r)) eqn:Hc; simpl.
  2: by intros [= <- <-].
  destruct (Z.eqb_spec (Z.of_nat (length (Request.machine_ids r))) 0) as [H0|H0]; simpl.
  { intros [= <- <-]. split_and!; try done. intros _ Hne. destruct (Request.machine_ids r); done. }
  destruct (Z.eqb_spec (Z.of_nat (length (Request.machine_ids r))) (Request.successful_count r))
    as [Heq|Heq]; simpl; intros [= <- <-]; split_and!; done.
Qed.

Lemma with_last_fulfilment_fields r d :
  Request.status (Request.with_last_fulfilment r d) = Request.status r ∧
  Request.request_id (Request.with_last_fulfilment r d) = Request.request_id r ∧
  Request.machine_ids (Request.with_last_fulfilment r d) = Request.machine_ids r ∧
  Request.successful_count (Request.with_last_fulfilment r d) = Request.successful_count r.
Proof. unfold Request.with_last_fulfilment. by rewrite Request.rebuild_preserving_eq. Qed.

(** What a built update is: a move the transition table allows, of the same
    request, with the machine count reconciled. *)
Lemma build_status_update_spec sm r status message f now r' ch :
  _build_status_update sm r status message f now = Ok (r', ch) →
  Request.request_id r' = Request.request_id r ∧
  RequestStatus.can_transition_to (Request.status r) (Request.status r') = true ∧
  (counts_machines (Request.status r') = true → Request.machine_ids r' ≠ [] →
   Request.successful_count r' = Z.of_nat (length (Request.machine_ids r'))) ∧
  (ch = false → r' = r).
Proof.
  unfold _build_status_update. intros (verdict & _ & H)%result_bind_Ok.
  apply result_bind_Ok in H as ([applied is_new] & Ha & H).
  apply apply_sound in Ha as (Htr & Hmut%mutates_id & Hid).
  destruct (heal_count applied is_new) as [u ch1] eqn:Hh.
  apply heal_count_fields in Hh as (Hs & Hi & Hm & Hc & Hch).
  injection H as H. destruct f as [f|]; injection H as <- <-.
  - destruct (with_last_fulfilment_fields u (snapshot f)) as (-> & -> & -> & ->).
    split_and!; [congruence|by rewrite Hs| |done].
    rewrite Hs, Hm. auto.
  - split_and!; [congruence|by rewrite Hs| |].
    + rewrite Hs, Hm. auto.
    + intros ->. destruct Hch as [-> ?]; [done|]. by apply Hid.
Qed.

(** The state machine refuses a verdict only as an invalid state. *)
Lemma apply_error sm r now v message e :
  FulfilmentStateMachine.apply sm r FulfilmentEvent.PROVIDER_VERDICT now (Some v) None
    (Some message) None = Err e → ∃ a b, e = InvalidRequestStateError a b.
Proof.
  rewrite apply_eq. destruct (negb _ && _); [done|]. simpl.
  destruct (FulfilmentStateMachine._target_for_verdict _ _ _ _ _) as [[target m] d].
  unfold FulfilmentStateMachine.settle. case_bool_decide; [by destruct d|].
  destruct (negb _); [|done]. intros [= <-]. eauto.
Qed.

(** The builder never raises a concurrency error of its own. *)
Lemma build_status_update_error sm r status message f now e :
  _build_status_update sm r status message f now = Err e →
  (∃ a b, e = InvalidRequestStateError a b) ∨ (∃ m, e = ValueError m).
Proof.
  unfold _build_status_update.
  destruct (match f with Some f => Ok f | None => _ end) as [verdict|e0] eqn:Hv; simpl.
  2: { intros [= <-]. destruct f; [done|]. case_match; [done|]. injection Hv as <-. eauto. }
  destruct (FulfilmentStateMachine.apply _ _ _ _ _ _ _ _) as [[a b]|e0] eqn:Ha; simpl.
  { by destruct (heal_count a b), f. }
  intros [= <-]. left. by eapply apply_error.
Qed.

(** ** Lemmas: the loop *)

Section loop.
Context {S : Type} `{!RequestStore S}.

(** The rest of the system keeps the store sound, and every change it makes to a
    request that stays raises its version. *)
Definition env_ok (f : S → S) : Prop :=
  ∀ s, rs_ok s → rs_ok (f s) ∧
    ∀ i r r', rs_get s i = Some r → rs_get (f s) i = Some r' →
      r' = r ∨ Request.version r < Request.version r'.

(** The state after the first [k] changes of the rest of the system. *)
Definition after (k : nat) (env : list (S → S)) (s : S) : S := foldl (λ s f, f s) s (take k env).

(** One atomic read-change-save on [s], with result [r] and state [s']. *)
Definition atomic_write (i : string) (on_missing : Request.t)
    (change : Request.t → change_result) (s : S) (r : Request.t) (s' : S) : Prop :=
  match rs_get s i with
  | None => r = on_missing ∧ s' = s
  | Some cur =>
      match change cur with
      | Return r0 => r = r0 ∧ s' = s
      | Raise _ => False
      | Save u =>
          r = u <| Request.version := Request.version cur + 1 |> ∧
          ∀ j, rs_get s' j = if decide (i = j) then Some (persisted u (Request.version cur + 1))
                             else rs_get s j
      end
  end.

(** [change] keeps the request's identity. *)
Definition keeps_id (change : Request.t → change_result) : Prop :=
  ∀ cur u, change cur = Save u → Request.request_id u = Request.request_id cur.

Lemma save_at_read request current u (s1 : S) :
  rs_ok s1 → rs_get s1 (Request.request_id request) = Some current →
  Request.request_id u = Request.request_id current →
  ∃ s', rs_save s1 (Request.version current) (u <| Request.version := Request.version current + 1 |>)
        = (Ok (), s') ∧ rs_ok s' ∧
    ∀ j, rs_get s' j = if decide (Request.request_id request = j)
                       then Some (persisted u (Request.version current + 1)) else rs_get s1 j.
Proof.
  intros Hok Hcur Hid. pose proof (rs_get_id _ _ _ Hok Hcur) as Hi.
  destruct (rs_save_current s1 (Request.version current)
    (u <| Request.version := Request.version current + 1 |>) current) as (s' & Hs & Hok' & Hg);
    [done|cbn; by rewrite Hid, Hi|done|].
  exists s'. split; [done|]. split; [done|]. intros j. rewrite Hg.
  assert (Request.request_id request = Request.request_id u) as -> by congruence.
  simpl. by rewrite Z.max_id.
Qed.

Lemma interfere_ok env (s : S) :
  Forall env_ok env → rs_ok s →
  rs_ok (interfere env s) ∧
  ∀ i r r', rs_get s i = Some r → rs_get (interfere env s) i = Some r' →
    r' = r ∨ Request.version r < Request.version r'.
Proof.
  intros He Hok. unfold interfere. destruct He as [|f env Hf He]; simpl; [|by apply Hf].
  split; [done|]. unfold id. intros i r r' H1 H2. left. congruence.
Qed.

(** The save of an attempt either finds the request as it was read, or is
    refused and changes nothing. *)
Lemma attempt_cases request current u env (s : S) :
  Forall env_ok env → rs_ok s → rs_get s (Request.request_id request) = Some current →
  Request.request_id u = Request.request_id current →
  rs_get (interfere env s) (Request.request_id request) = Some current ∨
  ∃ i v, rs_save (interfere env s) (Request.version current)
           (u <| Request.version := Request.version current + 1 |>) =
         (Err (ConcurrencyError i v), interfere env s).
Proof.
  intros He Hok Hcur Hid. destruct (interfere_ok env s He Hok) as [Hok' Hver].
  pose proof (rs_get_id _ _ _ Hok Hcur) as Hi.
  destruct (rs_get (interfere env s) (Request.request_id request)) as [cur'|] eqn:Hg.
  - destruct (Hver _ _ _ Hcur Hg) as [->|Hlt]; [by left|right].
    apply rs_save_stale; [done|]. simpl. rewrite Hid, Hi, Hg. intros c [= <-]. lia.
  - right. apply rs_save_stale; [done|]. simpl. by rewrite Hid, Hi, Hg.
Qed.

(** The loop under interference is one atomic write on a state the system went
    through. *)
Lemma write_loop_atomic request on_missing change n env (s : S) r s' :
  keeps_id change → Forall env_ok env → rs_ok s →
  write_loop request on_missing change (Datatypes.S n) env s = (Ok r, s') →
  ∃ k, rs_ok (after k env s) ∧
       atomic_write (Request.request_id request) on_missing change (after k env s) r s'.
Proof.
  intros Hkeep. revert env s. induction n as [|n IH]; intros env s He Hok; cbn [write_loop];
    destruct (rs_get s (Request.request_id request)) as [current|] eqn:Hcur.
  2,4: intros [= <- <-]; exists 0%nat; split; [done|]; unfold atomic_write, after; simpl;
       by rewrite Hcur.
  all: destruct (change current) as [r0|e|u] eqn:Hch;
    [intros [= <- <-]; exists 0%nat; split; [done|]; unfold atomic_write, after; simpl;
     by rewrite Hcur, Hch|done|].
  all: pose proof (Hkeep _ _ Hch) as Hid; destruct (interfere_ok env s He Hok) as [Hok' _];
    destruct (attempt_cases request current u env s He Hok Hcur Hid) as [Hg|(i & v & Hsv)];
    [destruct (save_at_read request current u _ Hok' Hg Hid) as (s1 & -> & _ & Hget);
     intros [= <- <-]; exists 1%nat; replace (after 1 env s) with (interfere env s)
       by (by destruct env); split; [done|]; unfold atomic_write; by rewrite Hg, Hch|].
  - rewrite Hsv. done.
  - rewrite Hsv. intros H. apply IH in H as (k & Hk & Ha); [|by destruct He|done].
    exists (Datatypes.S k). replace (after (Datatypes.S k) env s)
      with (after k (tail env) (interfere env s)); [done|].
    destruct env; [by destruct k|done].
Qed.

(** With one attempt to spare, a single interfering change is absorbed. *)
Lemma write_loop_retry request on_missing change f (s : S) :
  keeps_id change → (∀ cur i v, change cur ≠ Raise (ConcurrencyError i v)) →
  env_ok f → rs_ok s →
  ∀ i v, (write_loop request on_missing change _WRITE_ATTEMPTS [f] s).1
         ≠ Err (ConcurrencyError i v).
Proof.
  intros Hkeep Hraise Hf Hok i v. unfold _WRITE_ATTEMPTS. cbn [write_loop].
  assert (Forall env_ok [f]) as He by auto.
  destruct (rs_get s _) as [current|] eqn:Hcur; [|done].
  destruct (change current) as [r0|e|u] eqn:Hch; [done|simpl; intros [= ->]; by eapply Hraise|].
  pose proof (Hkeep _ _ Hch) as Hid. destruct (interfere_ok [f] s He Hok) as [Hok' _].
  destruct (attempt_cases request current u [f] s He Hok Hcur Hid) as [Hg|(i0 & v0 & ->)].
  { by destruct (save_at_read request current u _ Hok' Hg Hid) as (s1 & -> & _). }
  cbn [tail]. destruct (rs_get (interfere [f] s) _) as [cur2|] eqn:Hcur2; [|done].
  destruct (change cur2) as [r0|e|u2] eqn:Hch2; [done|simpl; intros [= ->]; by eapply Hraise|].
  pose proof (Hkeep _ _ Hch2) as Hid2.
  change (interfere [] (interfere [f] s)) with (interfere [f] s).
  by destruct (save_at_read request cur2 u2 _ Hok' Hcur2 Hid2) as (s1 & -> & _).
Qed.
End loop.

Lemma status_change_keeps_id sm status message f now :
  keeps_id (status_change sm status message f now).
Proof.
  intros cur u. unfold status_change.
  destruct (_build_status_update _ _ _ _ _ _) as [[r' []]|e] eqn:Hb; simpl; [|done|by destruct e].
  intros [= <-]. by apply build_status_update_spec in Hb as (-> & _).
Qed.

(** The count a built update stores: of its machines when the status says they
    are there and there are any, as it was otherwise. *)
Abbreviation machine_count r :=
  (if bool_decide (Request.machine_ids r ≠ [] ∧
       Request.status r ∈ [RequestStatus.COMPLETED; RequestStatus.PARTIAL;
         RequestStatus.PARTIAL_PENDING; RequestStatus.IN_PROGRESS])
   then Z.of_nat (length (Request.machine_ids r)) else Request.successful_count r).

Lemma heal_count_exact r ch :
  heal_count r ch = (r <| Request.successful_count := machine_count r |>,
                     negb (machine_count r =? Request.successful_count r) || ch).
Proof.
  unfold heal_count, counts_machines. destruct (Request.machine_ids r) as [|m ms] eqn:Hm.
  { rewrite andb_false_r, bool_decide_false by naive_solver.
    rewrite Z.eqb_refl. by destruct r. }
  destruct (decide (Request.status r ∈ [RequestStatus.COMPLETED; RequestStatus.PARTIAL;
    RequestStatus.PARTIAL_PENDING; RequestStatus.IN_PROGRESS])) as [Hin|Hin].
  - rewrite (bool_decide_true (_ ∧ _)), bool_decide_true by done.
    replace (Z.of_nat (length (m :: ms)) =? 0) with false by done. cbn [andb negb].
    destruct (Z.eqb_spec (Z.of_nat (length (m :: ms))) (Request.successful_count r)) as [->|];
      [by destruct r|done].
  - rewrite (bool_decide_false (_ ∧ _)), bool_decide_false by naive_solver.
    rewrite Z.eqb_refl. by destruct r.
Qed.

Lemma submitted_guard (f : option ProviderFulfilment) status message verdict :
  match f with Some v => Some v | None => _synthesise_fulfilment status message end = Some verdict →
  bool_decide (f = None) && bool_decide (_synthesise_fulfilment status message = None) = false.
Proof. destruct f; [done|]. by intros ->. Qed.

(** What the service does with the request it read, through the state machine's
    answer. *)
Lemma status_change_exact sm status message (f : option ProviderFulfilment) now cur verdict :
  match f with Some v => Some v | None => _synthesise_fulfilment status message end = Some verdict →
  status_change sm status message f now cur =
  match FulfilmentStateMachine.apply sm cur FulfilmentEvent.PROVIDER_VERDICT now (Some verdict)
          None (Some message) None with
  | Err _ => Return cur
  | Ok (applied, is_new) =>
      let counted := applied <| Request.successful_count := machine_count applied |> in
      if bool_decide (f = None ∧ is_new = false ∧ machine_count applied = Request.successful_count applied)
      then Return cur
      else Save match f with
                | Some v => Request.with_last_fulfilment counted (snapshot v)
                | None => counted
                end
  end.
Proof.
  intros Hv. unfold status_change.
  destruct (_build_status_update sm cur status message f now) as [p|e] eqn:Hb;
    pose proof Hb as Hb'; unfold _build_status_update in Hb.
  all: assert (match f with
            | Some f => Ok f
            | None => match _synthesise_fulfilment status message with
                      | Some synthetic => Ok synthetic
                      | None => Err (ValueError ("Unknown request status: " +:+ str_repr status))
                      end
            end = Ok verdict) as Hv'
    by (destruct f; [by injection Hv as ->|by rewrite Hv]);
    rewrite Hv' in Hb; cbn [mbind result_bind] in Hb.
  all: destruct (FulfilmentStateMachine.apply _ _ _ _ _ _ _ _) as [[applied is_new]|e0] eqn:Ha;
    cbn in Hb; try discriminate Hb.
  - rewrite heal_count_exact in Hb. cbn zeta. destruct f as [v|]; injection Hb as <-.
    + by rewrite (bool_decide_false (Some v = None ∧ _)) by naive_solver.
    + destruct is_new; [by rewrite orb_true_r, (bool_decide_false (_ ∧ true = false ∧ _)) by naive_solver|].
      rewrite orb_false_r. destruct (Z.eqb_spec (machine_count applied) (Request.successful_count applied));
        cbn [negb]; [by rewrite (bool_decide_true (_ ∧ false = false ∧ _))
            |by rewrite (bool_decide_false (_ ∧ false = false ∧ _)) by naive_solver].
  - rewrite heal_count_exact in Hb. by destruct f.
  - injection Hb as ->. apply build_status_update_error in Hb' as [(a & b & ->)|(m & ->)]; [done|].
    by apply apply_error in Ha as (? & ? & ?).
Qed.

Lemma status_change_raise sm status message f now cur i v :
  status_change sm status message f now cur ≠ Raise (ConcurrencyError i v).
Proof.
  unfold status_change.
  destruct (_build_status_update _ _ _ _ _ _) as [[r' []]|e] eqn:Hb; simpl; [done|done|].
  apply build_status_update_error in Hb as [(a & b & ->)|(m & ->)]; done.
Qed.

(** ** Theorems *)

(** C3: A status update is atomic and drops nothing.  However other writers
    change the store while the service works on a copy read before, an update that
    returns has the effect of one read-change-save at a single moment, and leaves
    every other request alone.  With neither a provider verdict nor a status it
    can translate it returns the caller's request and writes nothing.  Otherwise it
    submits the verdict to the state machine for the request as stored at that
    moment: when the machine refuses it (the request was settled meanwhile, for
    instance) nothing is written and the stored request is returned; when there is
    nothing new (no verdict to record, no new state, a count that fits) likewise;
    in every other case the machine's result is stored, a move the transition table
    allows, at the next version, with the count of its machines when it is complete,
    partial or in progress and has any, and with a snapshot of the provider's
    verdict when there is one. *)
Theorem status_update_atomic {S} `{!RequestStore S} sm request status message pm now env (s : S) r s' :
  Forall env_ok env → rs_ok s →
  update_request_status sm request status message pm now env s = (Ok r, s') →
  let i := Request.request_id request in
  let f := pm ≫= provider_fulfilment in
  match (match f with Some v => Some v | None => _synthesise_fulfilment status message end) with
  | None => r = request ∧ s' = s
  | Some verdict =>
      ∃ k, let s0 := after k env s in
        rs_ok s0 ∧ (∀ j, j ≠ i → rs_get s' j = rs_get s0 j) ∧
        match rs_get s0 i with
        | None => s' = s0 ∧ r = request
        | Some cur =>
            match FulfilmentStateMachine.apply sm cur FulfilmentEvent.PROVIDER_VERDICT now
                    (Some verdict) None (Some message) None with
            | Err _ => s' = s0 ∧ r = cur
            | Ok (applied, is_new) =>
                let count :=
                  if bool_decide (Request.machine_ids applied ≠ [] ∧
                       Request.status applied ∈ [RequestStatus.COMPLETED; RequestStatus.PARTIAL;
                         RequestStatus.PARTIAL_PENDING; RequestStatus.IN_PROGRESS])
                  then Z.of_nat (length (Request.machine_ids applied))
                  else Request.successful_count applied in
                let counted := applied <| Request.successful_count := count |> in
                let u := match f with
                         | Some v => Request.with_last_fulfilment counted (snapshot v)
                         | None => counted
                         end in
                if bool_decide (f = None ∧ is_new = false ∧ count = Request.successful_count applied)
                then s' = s0 ∧ r = cur
                else
                  rs_get s' i = Some (persisted u (Request.version cur + 1)) ∧
                  r = u <| Request.version := Request.version cur + 1 |> ∧
                  Request.status u = Request.status applied ∧
                  RequestStatus.can_transition_to (Request.status cur) (Request.status applied) = true
            end
        end
  end.
Proof.
  intros He Hok. cbv zeta. unfold update_request_status.
  set (f := pm ≫= provider_fulfilment).
  destruct (match f with Some v => Some v | None => _ end) as [verdict|] eqn:Hv.
  2: { destruct f; [done|]. rewrite Hv. by intros [= <- <-]. }
  rewrite (submitted_guard _ _ _ _ Hv). unfold _WRITE_ATTEMPTS.
  intros (k & Hk & Ha)%write_loop_atomic; [|apply status_change_keeps_id|done|done].
  exists k. split; [done|]. unfold atomic_write in Ha.
  destruct (rs_get (after k env s) _) as [cur|] eqn:Hg; [|by destruct Ha as [-> ->]].
  rewrite (status_change_exact _ _ _ _ _ _ _ Hv) in Ha.
  destruct (FulfilmentStateMachine.apply _ _ _ _ _ _ _ _) as [[applied is_new]|e] eqn:Happ;
    [|by destruct Ha as [-> ->]].
  cbv zeta in Ha. destruct (bool_decide (f = None ∧ _)); [by destruct Ha as [-> ->]|].
  destruct Ha as [-> Hget].
  split; [intros j Hj; by rewrite Hget, decide_False|]. rewrite Hget, decide_True by done.
  apply apply_sound in Happ as (Htr & _). split_and!; try done.
  destruct f as [v|]; [|done]. by destruct (with_last_fulfilment_fields
    (applied <| Request.successful_count := machine_count applied |>) (snapshot v)) as (-> & _).
Qed.

(** One conflict is absorbed.  If a single other writer changes the store
    between the read and the save, the update is not lost and no conflict
    surfaces: the service reads again, re-applies and saves. *)
Theorem one_conflict_absorbed {S} `{!RequestStore S} sm request status message pm now f (s : S) :
  env_ok f → rs_ok s →
  ∀ i v, (update_request_status sm request status message pm now [f] s).1
         ≠ Err (ConcurrencyError i v).
Proof.
  intros Hf Hok i v. unfold update_request_status. destruct (bool_decide _ && bool_decide _); [done|].
  apply write_loop_retry; [apply status_change_keeps_id|apply status_change_raise|done|done].
Qed.

(** The deadline sweep ends what it must.  With no other writer, a stored
    request whose deadline has passed is stored back settled (complete, partial or
    timed out) at the next version and returned; any other request is returned as
    stored and nothing is written. *)
Theorem sweep_settles_expired {S} `{!RequestStore S} request now (s : S) cur :
  rs_ok s → rs_get s (Request.request_id request) = Some cur →
  let '(r, s') := sweep_expired_deadline request now [] s in
  if expired cur now then
    ∃ r' cur', r = Ok r' ∧ rs_get s' (Request.request_id request) = Some cur' ∧
      Request.version cur' = Request.version cur + 1 ∧
      RequestStatus.is_terminal (Request.status cur') = true ∧
      Request.status r' = Request.status cur'
  else r = Ok cur ∧ s' = s.
Proof.
  intros Hok Hg. unfold sweep_expired_deadline, _WRITE_ATTEMPTS. cbn [write_loop].
  rewrite Hg. unfold sweep_change. rewrite evaluate_deadline_eq.
  destruct (expired cur now) eqn:He.
  - pose proof (expired_status _ _ He) as Hst.
    rewrite (sweepable_not_terminal _ Hst). cbn [negb orb].
    pose proof (deadline_transition_terminal cur now) as Hterm.
    rewrite bool_decide_false.
    2: { intros Heq. rewrite Heq, (sweepable_not_terminal _ Hst) in Hterm. done. }
    assert (Request.request_id (deadline_transition cur now) = Request.request_id cur) as Hid
      by (apply mutates_id; left; apply deadline_transition_mutates).
    destruct (save_at_read request cur (deadline_transition cur now) s Hok Hg Hid)
      as (s' & Hsv & _ & Hget).
    change (interfere [] s) with s. rewrite Hsv.
    do 2 eexists. split; [done|]. rewrite Hget, decide_True by done. split; [done|].
    simpl. done.
  - by destruct (RequestStatus.is_terminal _).
Qed.

Lemma count_status_zero statuses machines :
  count_status statuses machines = 0 ↔ ∀ m, m ∈ machines → Machine.status m ∉ statuses.
Proof.
  unfold count_status. induction machines as [|m ms IH]; [split; [intros _ m ?%not_elem_of_nil|]; done|].
  rewrite filter_cons. setoid_rewrite elem_of_cons. destruct (decide (Machine.status m ∈ statuses)) as [Hm|Hm].
  - cbn [length]. split; [lia|]. intros H. destruct (H m); auto.
  - rewrite IH. split; [intros H x [->|Hx]; auto|auto].
Qed.

Lemma count_status_pos statuses machines :
  0 < count_status statuses machines ↔ ∃ m, m ∈ machines ∧ Machine.status m ∈ statuses.
Proof.
  split.
  - intros Hpos. destruct (filter (λ m, Machine.status m ∈ statuses) machines) as [|m ms] eqn:Hf.
    { unfold count_status in Hpos. rewrite Hf in Hpos. done. }
    exists m. assert (m ∈ m :: ms) as Hm by left. rewrite <-Hf in Hm.
    by apply list_elem_of_filter in Hm as [? ?].
  - intros (m & Hm & Hs). assert (0 ≤ count_status statuses machines) by (unfold count_status; lia).
    destruct (Z.eq_dec (count_status statuses machines) 0) as [H0|]; [|lia].
    by apply (proj1 (count_status_zero _ _)) with m in H0.
Qed.

(** How a return request is reported.  It is complete exactly when the provider no
    longer shows any machine although some were on record, or when none of the
    machines it shows is running and at least as many as requested have terminated
    or stopped; it has failed exactly when machines are shown, none of them running,
    fewer than requested have terminated or stopped, and one is in the state failed;
    and in every other case, with nothing on record and nothing shown among them, it
    is still in progress. *)
Theorem return_completed_iff db machines request :
  let reported := (_determine_return_status db machines request).1 in
  let gone := Z.of_nat (length (filter (λ m, Machine.status m = MachineStatus.TERMINATED ∨
                                            Machine.status m = MachineStatus.STOPPED) machines)) in
  let none_running := ∀ m, m ∈ machines → Machine.status m ≠ MachineStatus.RUNNING in
  (reported = Some "complete" ↔
     (machines = [] ∧ db ≠ []) ∨
     (machines ≠ [] ∧ none_running ∧ Request.requested_count request ≤ gone)) ∧
  (reported = Some "failed" ↔
     none_running ∧ gone < Request.requested_count request ∧
     ∃ m, m ∈ machines ∧ Machine.status m = MachineStatus.FAILED) ∧
  (reported = Some "complete" ∨ reported = Some "failed" ∨ reported = Some "in_progress").
Proof.
  cbv zeta. unfold _determine_return_status. destruct machines as [|m ms].
  { destruct db; cbn; split_and!; try naive_solver; split; try done;
      intros (_ & _ & m & ?%not_elem_of_nil & _); done. }
  set (l := m :: ms).
  assert (Z.of_nat (length (filter (λ m, Machine.status m = MachineStatus.TERMINATED ∨
            Machine.status m = MachineStatus.STOPPED) l))
          = count_status [MachineStatus.TERMINATED; MachineStatus.STOPPED] l) as ->.
  { unfold count_status. do 2 f_equal. apply list_filter_iff. intros x.
    rewrite elem_of_cons, list_elem_of_singleton. done. }
  pose proof (count_status_zero [MachineStatus.RUNNING] l) as Hrun.
  setoid_rewrite list_elem_of_singleton in Hrun.
  pose proof (count_status_pos [MachineStatus.FAILED] l) as Hfail.
  setoid_rewrite list_elem_of_singleton in Hfail. rewrite <-Hrun, <-Hfail.
  assert (0 ≤ count_status [MachineStatus.RUNNING] l) as Hnn by (unfold count_status; lia).
  assert (l ≠ []) as Hl by done. clearbody l.
  destruct (Z.leb_spec (Request.requested_count request)
    (count_status [MachineStatus.TERMINATED; MachineStatus.STOPPED] l));
    destruct (Z.eqb_spec (count_status [MachineStatus.RUNNING] l) 0) as [Hz|Hz];
    destruct (Z.ltb_spec 0 (count_status [MachineStatus.RUNNING] l));
    destruct (Z.ltb_spec 0 (count_status [MachineStatus.FAILED] l)); try lia; cbn;
    (split_and!; [split; [intros Hs; try discriminate Hs; auto|intros [[? _]|(_ & ? & ?)]; try done; lia]
                 |split; [intros Hs; try discriminate Hs; auto|intros (? & ? & ?); try done; lia]
                 |auto]).
Qed.

(** The acquire path never guesses.  Determining the status of an acquire
    request raises [ProviderContractError] exactly when the provider was reached
    and gave no verdict; when it could not be reached the stored state is kept;
    otherwise the verdict alone decides, unknown verdicts counting as in
    progress, whatever the machine lists say. *)
Theorem acquire_trusts_verdict db machines request pm :
  Request.request_type request ≠ RequestType.RETURN →
  (∀ f, provider_fetch_failed pm = false → provider_fulfilment pm = Some f →
     determine_status_from_machines db machines request pm =
     Ok (Some (RequestStatus.value
           (if pf_state f ≟ "fulfilled" then RequestStatus.COMPLETED
            else if pf_state f ≟ "partial" then RequestStatus.PARTIAL
            else if pf_state f ≟ "failed" then RequestStatus.FAILED
            else RequestStatus.IN_PROGRESS)), Some (pf_message f))) ∧
  (provider_fetch_failed pm = true →
     determine_status_from_machines db machines request pm = Ok (None, None)) ∧
  ((∃ m, determine_status_from_machines db machines request pm = Err (ProviderContractError m)) ↔
   provider_fetch_failed pm = false ∧ provider_fulfilment pm = None).
Proof.
  intros Hty. unfold determine_status_from_machines. rewrite (bool_decide_false _ Hty).
  destruct (provider_fetch_failed pm); [naive_solver|].
  unfold _determine_acquire_status. destruct (provider_fulfilment pm) as [f|]; [|naive_solver].
  unfold acquire_state_map. simpl. split_and!; [intros f' _ [= <-]|done|];
    repeat case_decide; repeat case_bool_decide; subst; try congruence; naive_solver.
Qed.

(** ** Witnesses *)

Definition sample_store : gmap string Request.t := {[ "req-1" := sample ]}.

(** Another writer cancels the request. *)
Definition cancel_it (m : gmap string Request.t) : gmap string Request.t :=
  alter (λ r, r <| Request.status := RequestStatus.CANCELLED |>
                <| Request.version := Request.version r + 1 |>) "req-1" m.

Lemma sample_store_ok : rs_ok sample_store.
Proof. intros i r Hr. unfold sample_store in Hr. apply lookup_singleton_Some in Hr as [<- <-]. reflexivity. Qed.

Lemma cancel_it_ok : env_ok cancel_it.
Proof.
  intros m Hok. simpl. unfold cancel_it. split.
  - intros i r Hr. apply lookup_alter_Some in Hr as [(<- & r0 & Hr0 & ->)|[_ Hr]]; simpl;
      [by apply (Hok "req-1")|by apply Hok].
  - intros i r r' Hr Hr'. apply lookup_alter_Some in Hr' as [(<- & r0 & Hr0 & ->)|[_ Hr']];
      simplify_eq/=; [right; lia|by left].
Qed.

Definition sample_sm := FulfilmentStateMachine.init 60.
Definition sample_verdict : provider_metadata :=
  mk_provider_metadata false (Some (fulfilment "fulfilled" "all running" false)).

(** A request cancelled between the read and the save stays cancelled. *)
Lemma status_update_atomic_witness :
  let o := update_request_status sample_sm sample "complete" "all running" (Some sample_verdict)
             10 [cancel_it] sample_store in
  (∃ r, o.1 = Ok r ∧ Request.status r = RequestStatus.CANCELLED) ∧
  ∃ k, rs_ok (after k [cancel_it] sample_store).
Proof.
  intros o. split; [eexists; split; vm_compute; reflexivity|].
  destruct (status_update_atomic sample_sm sample "complete" "all running" (Some sample_verdict)
    10 [cancel_it] sample_store (match o.1 with Ok r => r | Err _ => sample end) o.2)
    as (k & Hk & _).
  - apply Forall_singleton, cancel_it_ok.
  - apply sample_store_ok.
  - vm_compute. reflexivity.
  - by exists k.
Defined.

Lemma one_conflict_absorbed_witness :
  (update_request_status sample_sm sample "complete" "all running" (Some sample_verdict)
     10 [cancel_it] sample_store).1 ≠ Err (ConcurrencyError "req-1" (Some 0)).
Proof.
  apply (one_conflict_absorbed sample_sm sample "complete" "all running" (Some sample_verdict)
    10 cancel_it sample_store cancel_it_ok sample_store_ok).
Defined.

Lemma sweep_settles_expired_witness :
  let '(r, s') := sweep_expired_deadline sample 60 [] sample_store in
  ∃ r' cur', r = Ok r' ∧ rs_get s' "req-1" = Some cur' ∧
    RequestStatus.is_terminal (Request.status cur') = true.
Proof.
  pose proof (sweep_settles_expired sample 60 sample_store sample sample_store_ok eq_refl) as H.
  destruct (sweep_expired_deadline sample 60 [] sample_store) as [r s'].
  destruct H as (r' & cur' & ? & ? & _ & ? & _). by exists r', cur'.
Defined.

Lemma acquire_trusts_verdict_witness :
  determine_status_from_machines [] [] sample sample_verdict =
    Ok (Some "complete", Some "all running").
Proof.
  destruct (acquire_trusts_verdict [] [] sample sample_verdict) as (H & _); [done|].
  rewrite (H _ eq_refl eq_refl). reflexivity.
Defined.
