(* ===== verification/StatusManagement.v ===== *)
(** * Request status after provisioning

    [orb/application/services/request_status_management_service.py]: the status a
    request gets from what the provider returned when it was provisioned, and the
    classified record of a failure, both through the fulfilment state machine.

    Modelled for [Request] aggregates (the duck-typed fallback for test doubles is
    not), with the [ProvisioningResult] of
    [provisioning_orchestration_service.py].  [update_request_from_provisioning],
    which also stores the machines, is in [AcquireMachines]. *)

From stdpp Require Import base strings list.
From Stdlib Require Import ZArith Lia.
From S2P Require Import Prelude RequestTypes Diagnostic RequestAggregate FulfilmentSM.
Open Scope Z_scope.

(** ** Provisioning results *)

Inductive OperationOutcome := Accepted | Completed | RequiresFollowUp | Failed.

Record ProvisioningResult := mk_provisioning {
  success : bool;
  resource_ids : list string;
  machine_ids : list string;
  instances : list json;
  provider_data : dict json;
  error_message : option string;
  is_final : bool;
  provider_error_code : option string;
  provider_error_message : option string;
  provider_request_id : option string;
  error_source : option string
}.

(** [__post_init__]: the outcome, when there is one, decides finality. *)
Definition derived_final (outcome : option OperationOutcome) (explicit : bool) : bool :=
  match outcome with
  | None => explicit
  | Some Accepted => false
  | Some Completed => true
  | Some RequiresFollowUp => false
  | Some Failed => true
  end.

(** ** Reading the result *)

(** [str(i.get("status", "")).lower() in {"pending", "launching"}]. *)
Definition unsettled (i : json) : bool :=
  match i with
  | JDict d => str_lower (json_str (dget_default "status" d (JStr ""))) ∈? ["pending"; "launching"]
  | _ => false
  end.

Definition _has_unsettled_instances (instances : list json) : bool := existsb unsettled instances.

(** The identifier of one instance; [None] when it has none, an error where
    the entry is not a dict (the caller catches it). *)
Definition instance_id_of (i : json) : result (option string) :=
  match i with
  | JDict d =>
      let v := dget_default "instance_id" d JNull in
      Ok (if truthy v then Some (json_str v) else None)
  | _ => Err (OtherError "AttributeError" "object has no attribute 'get'")
  end.

Definition _extract_machine_ids (res : ProvisioningResult) : list string :=
  match machine_ids res with
  | _ :: _ => machine_ids res
  | [] => match mapM_result instance_id_of (instances res) with
          | Ok ids => omap id ids
          | Err _ => []
          end
  end.

(** ** The verdict *)

Definition _apply_verdict (sm : FulfilmentStateMachine.t) (request : Request.t)
    (state message : string) (event : FulfilmentEvent.t) (f : option ProviderFulfilment)
    (final : bool) (diagnostic : option FulfilmentDiagnostic) (now : datetime)
  : result Request.t :=
  let applied :=
    if event ≟ FulfilmentEvent.PROVIDER_VERDICT then
      let verdict := match f with Some f => f | None => fulfilment state message final end in
      FulfilmentStateMachine.apply sm request FulfilmentEvent.PROVIDER_VERDICT now (Some verdict)
        diagnostic (Some message) None
    else
      FulfilmentStateMachine.apply sm request event now None diagnostic (Some message) None in
  match applied with
  | Ok (r, _) => Ok r
  | Err (InvalidRequestStateError _ _) => Ok request
  | Err e => Err e
  end.

(** [f"{err.get('error_code', 'Unknown')}: {err.get('error_message', 'No message')}"]. *)
Definition error_line (err : dict json) : string :=
  json_str (dget_default "error_code" err (JStr "Unknown")) +:+ ": " +:+
  json_str (dget_default "error_message" err (JStr "No message")).

Definition error_summary (provider_errors : list (dict json)) : string :=
  or_str (Some (str_join "; " (error_line <$> provider_errors))) "Unknown API errors".

(** The verdict, its message and its finality. *)
Definition provisioning_verdict (request : Request.t) (instance_count requested_count : Z)
    (has_api_errors : bool) (provider_errors : list (dict json)) (fulfillment_final : bool)
  : string * string * bool :=
  let ratio := fmt instance_count +:+ "/" +:+ fmt requested_count in
  if instance_count =? requested_count then
    if negb fulfillment_final then
      ("in_progress", ratio +:+ " instances created — awaiting running state", false)
    else if has_api_errors then
      ("fulfilled", "All " +:+ fmt instance_count +:+
         " instances provisioned (with non-blocking provider warnings)", false)
    else ("fulfilled", "All instances provisioned successfully", false)
  else if 0 <? instance_count then
    if negb fulfillment_final then
      ("in_progress", ratio +:+ " instances created — awaiting provider confirmation", false)
    else if has_api_errors then
      ("partial", "Partial success: " +:+ ratio +:+ " instances created with API errors: " +:+
         error_summary provider_errors, fulfillment_final)
    else ("partial", "Partially fulfilled: " +:+ ratio +:+ " instances", fulfillment_final)
  else if negb (Request.is_nil (Request.resource_ids request)) then
    ("in_progress", "Resources created, instances pending", false)
  else ("failed", "No instances provisioned and no cloud resources created", false).

Definition _update_request_status (sm : FulfilmentStateMachine.t) (request : Request.t)
    (instance_count requested_count : Z) (has_api_errors : bool)
    (provider_errors : list (dict json)) (fulfillment_final : bool) (now : datetime)
  : result Request.t :=
  let request :=
    request <| Request.successful_count :=
                 if 0 <? instance_count then instance_count
                 else Request.successful_count request |> in
  let '(state, message, final) :=
    provisioning_verdict request instance_count requested_count has_api_errors provider_errors
      fulfillment_final in
  _apply_verdict sm request state message FulfilmentEvent.PROVIDER_VERDICT None final None now.

(** ** Failures *)

Definition dicts_of (l : list json) : list (dict json) :=
  omap (λ j, match j with JDict d => Some d | _ => None end) l.

(** The error records a failed result offers for classification. *)
Definition failure_errors (res : ProvisioningResult) (message : string) : list (dict json) :=
  let errors :=
    match dget "fleet_errors" (provider_data res) with
    | Some (JList l) => dicts_of l
    | _ => []
    end in
  match errors, provider_error_code res with
  | [], Some code =>
      if code ≟ EmptyString then []
      else [[("error_code", JStr code);
             ("error_message", JStr (default message (provider_error_message res)))]]
  | _, _ => errors
  end.

Definition _classify_failure_diagnostic (res : ProvisioningResult) (message : string)
    (now : datetime) : result FulfilmentDiagnostic :=
  let detail := provider_error_code res in
  match failure_errors res message with
  | [] =>
      Ok {| fd_category := DiagnosticCategory.INTERNAL; fd_summary := "Provisioning failed";
            fd_detail := Some (or_str detail message); fd_provider_errors := [];
            fd_occurred_at := now |}
  | errors =>
      classified ← classify_provider_errors errors now;
      Ok {| fd_category := fd_category classified; fd_summary := fd_summary classified;
            fd_detail := or_opt_str detail (fd_detail classified);
            fd_provider_errors := fd_provider_errors classified;
            fd_occurred_at := fd_occurred_at classified |}
  end.

Definition opt_entry (key : string) (v : option string) : dict json :=
  match v with
  | Some s => if s ≟ EmptyString then [] else [(key, JStr s)]
  | None => []
  end.

Definition provider_error_block (res : ProvisioningResult) : dict json :=
  opt_entry "code" (provider_error_code res) ++ opt_entry "message" (provider_error_message res) ++
  opt_entry "source" (error_source res) ++ opt_entry "aws_request_id" (provider_request_id res).

Definition failure_message (res : ProvisioningResult) : string :=
  or_str (error_message res) "Provisioning failed (no error details)".

Definition _handle_provisioning_failure (sm : FulfilmentStateMachine.t) (request : Request.t)
    (res : ProvisioningResult) (now1 now2 : datetime) : result Request.t :=
  let message := failure_message res in
  failure_diagnostic ← _classify_failure_diagnostic res message now1;
  request1 ← _apply_verdict sm request "failed" ("Provisioning failed: " +:+ message)
               FulfilmentEvent.FAIL None false (Some failure_diagnostic) now2;
  let request2 :=
    Request.update_metadata request1
      [("error_message", JStr message); ("error_type", JStr "ProvisioningFailure")] in
  Ok match provider_error_block res with
     | [] => request2
     | block =>
         Request._rebuild_preserving_events request2
           (request2 <| Request.error_details :=
                          dset "provider_error" (JDict block) (Request.error_details request2) |>
                     <| Request.version := Request.version request2 + 1 |>)
     end.

(** ** Lemmas *)

(** A verdict on an acquire request whose deadline has not passed. *)
Lemma verdict_in_progress sm r state message final now target :
  Request.request_type r = RequestType.ACQUIRE → expired r now = false →
  (FulfilmentStateMachine._target_for_verdict r (fulfilment state message final) now
     (Some message) None).1.1 = target →
  RequestStatus.can_transition_to (Request.status r) target = true →
  ∃ r', _apply_verdict sm r state message FulfilmentEvent.PROVIDER_VERDICT None final None now
        = Ok r' ∧
        Request.status r' = target ∧ Request.successful_count r' = Request.successful_count r.
Proof.
  intros Hty Hex Htg Hcan. unfold _apply_verdict.
  rewrite bool_decide_true by done. rewrite apply_eq, Hex, andb_false_r.
  rewrite bool_decide_false by done. cbn -[FulfilmentStateMachine._target_for_verdict].
  assert ((FulfilmentStateMachine._target_for_verdict r (fulfilment state message final) now
             (Some message) None).2 = None) as Hd
    by (unfold FulfilmentStateMachine._target_for_verdict; simpl; by repeat case_match).
  destruct (FulfilmentStateMachine._target_for_verdict _ _ _ _ _) as [[tg m] d].
  simpl in Htg, Hd. subst tg d. unfold FulfilmentStateMachine.settle.
  case_bool_decide as Heq; [by exists r|]. rewrite Hcan. simpl.
  eexists. split; [done|]. split; apply Request.transition_fields.
Qed.

(** The status a provisioning result calls for. *)
Definition provisioned_status (resources : list string) (n requested : Z) (final : bool) : RequestStatus.t :=
  if n =? requested then if final then RequestStatus.COMPLETED else RequestStatus.IN_PROGRESS
  else if 0 <? n then if final then RequestStatus.PARTIAL else RequestStatus.IN_PROGRESS
  else if Request.is_nil resources then RequestStatus.FAILED else RequestStatus.IN_PROGRESS.

(** The table of the outcomes, for the statuses in which provisioning ends. *)
Lemma outcome_table sm r n requested errs perrs final now :
  Request.request_type r = RequestType.ACQUIRE →
  Request.status r ∈ [RequestStatus.PENDING; RequestStatus.IN_PROGRESS] → expired r now = false →
  ∃ r', _update_request_status sm r n requested errs perrs final now = Ok r' ∧
    Request.status r' = provisioned_status (Request.resource_ids r) n requested final ∧
    Request.successful_count r' = if 0 <? n then n else Request.successful_count r.
Proof.
  intros Hty Hst Hex. unfold _update_request_status.
  set (r1 := r <| Request.successful_count := _ |>).
  destruct (provisioning_verdict r1 n requested errs perrs final) as [[state message] fin] eqn:Hv.
  destruct (verdict_in_progress sm r1 state message fin now
    (provisioned_status (Request.resource_ids r) n requested final)) as (r' & ? & ? & Hc);
    [done|exact Hex| | |exists r'; by rewrite Hc].
  - unfold FulfilmentStateMachine._target_for_verdict.
    change (Request.request_type r1) with (Request.request_type r). rewrite Hty.
    revert Hv. unfold provisioning_verdict, provisioned_status.
    change (Request.resource_ids r1) with (Request.resource_ids r). clearbody r1.
    destruct (n =? requested), final, errs, (0 <? n), (Request.is_nil (Request.resource_ids r));
      by intros [= <- <- <-].
  - change (Request.status r1) with (Request.status r). unfold provisioned_status.
    rewrite !elem_of_cons, elem_of_nil in Hst. destruct Hst as [->|[->|[]]]; by repeat case_match.
Qed.

Lemma fail_non_terminal s :
  RequestStatus.is_terminal s = false →
  RequestStatus.can_transition_to s RequestStatus.FAILED = true ∧ RequestStatus.FAILED ≠ s.
Proof. by destruct s. Qed.

(** ** Theorems *)

(** What a finished provisioning call makes of an acquire request that is
    pending or in progress.  Exactly the requested number, settled: complete; any
    other positive number, settled: partial at once, deadline or not, more than
    requested included; not settled: still in progress.  No instances: in progress
    when resources were created, failed otherwise.  Any positive number is
    recorded as the count of successes. *)
Theorem provisioning_outcome_table sm r n requested errs perrs final now :
  Request.request_type r = RequestType.ACQUIRE →
  Request.status r ∈ [RequestStatus.PENDING; RequestStatus.IN_PROGRESS] → expired r now = false →
  ∃ r', _update_request_status sm r n requested errs perrs final now = Ok r' ∧
    Request.status r' =
      (if n =? requested then
         if final then RequestStatus.COMPLETED else RequestStatus.IN_PROGRESS
       else if 0 <? n then
         if final then RequestStatus.PARTIAL else RequestStatus.IN_PROGRESS
       else if Request.is_nil (Request.resource_ids r) then RequestStatus.FAILED
       else RequestStatus.IN_PROGRESS) ∧
    Request.successful_count r' = if 0 <? n then n else Request.successful_count r.
Proof. apply outcome_table. Qed.

Definition sample_result : ProvisioningResult :=
  mk_provisioning false [] [] [] [] (Some "boom") true (Some "UnauthorizedOperation")
    (Some "not allowed: arn:secret") None None.

Lemma provisioning_outcome_table_witness :
  ∃ r', _update_request_status (FulfilmentStateMachine.init 60) sample 3 2 false [] true 10 = Ok r' ∧
        Request.status r' = RequestStatus.PARTIAL.
Proof.
  destruct (provisioning_outcome_table (FulfilmentStateMachine.init 60) sample 3 2 false [] true 10
    eq_refl ltac:(by right; left) eq_refl) as (r' & Hr & Hs & _).
  by exists r'.
Defined.

(** A provisioning failure ends every request that was not settled and keeps
    its trace: the request is failed, the event that says so is still pending for
    publication after all the bookkeeping, the message is in the metadata, and the
    provider's error details, when it gave any, are in [error_details]. *)
Theorem provisioning_failure_recorded sm r res now1 now2 r' :
  RequestStatus.is_terminal (Request.status r) = false →
  _handle_provisioning_failure sm r res now1 now2 = Ok r' →
  Request.status r' = RequestStatus.FAILED ∧
  Request.status_changed r (Request.status r) RequestStatus.FAILED ∈ Request.domain_events r' ∧
  dget "error_message" (Request.metadata r') = Some (JStr (failure_message res)) ∧
  (provider_error_block res ≠ [] →
   dget "provider_error" (Request.error_details r') = Some (JDict (provider_error_block res))).
Proof.
  intros Ht. unfold _handle_provisioning_failure.
  intros (d & _ & H)%result_bind_Ok. apply result_bind_Ok in H as (r1 & Hr1 & H).
  destruct (fail_non_terminal _ Ht) as [Hcan Hne].
  assert (Request.status r1 = RequestStatus.FAILED ∧
          Request.domain_events r1 = [Request.status_changed r (Request.status r) RequestStatus.FAILED])
    as [Hs He].
  { revert Hr1. unfold _apply_verdict. rewrite bool_decide_false by done.
    rewrite apply_eq. change (overrides_deadline FulfilmentEvent.FAIL) with true.
    cbn -[RequestStatus.can_transition_to]. unfold FulfilmentStateMachine.settle.
    rewrite (bool_decide_false _ Hne), Hcan. cbn -[Request._transition].
    intros [= <-]. edestruct Request.transition_fields as (-> & _ & _ & _ & _ & _ & _ & _ & _ & _ & _ & _ & ->).
    done. }
  injection H as <-. unfold Request.update_metadata.
  destruct (provider_error_block res) as [|kv block]; rewrite !Request.rebuild_preserving_eq;
    cbn; rewrite Hs, He; split_and!; try done; try (by left).
  all: try (intros _; by rewrite dget_dset_eq).
  all: by rewrite dget_dset_ne, dget_dset_eq by done.
Qed.

Lemma provisioning_failure_recorded_witness :
  ∃ r', _handle_provisioning_failure (FulfilmentStateMachine.init 60) sample sample_result 1 2 = Ok r' ∧
        Request.status r' = RequestStatus.FAILED.
Proof.
  eexists. split; [vm_compute; reflexivity|].
  refine (proj1 (provisioning_failure_recorded (FulfilmentStateMachine.init 60) sample sample_result
    1 2 _ eq_refl _)).
  vm_compute; reflexivity.
Defined.

(** The headline of a classified failure is safe to show: it is the fixed
    text for an unexplained failure, or the template of the most severe category
    among the provider's error codes; no provider message can change it.  The
    category is likewise a function of the codes alone. *)
Theorem failure_headline_safe res message now d :
  _classify_failure_diagnostic res message now = Ok d →
  let errors := failure_errors res message in
  if Request.is_nil errors
  then fd_category d = DiagnosticCategory.INTERNAL ∧ fd_summary d = "Provisioning failed"
  else fd_category d = _most_severe (error_categories errors) ∧
       summary_for (fd_category d) (Z.of_nat (length errors)) = Ok (fd_summary d).
Proof.
  unfold _classify_failure_diagnostic. destruct (failure_errors res message) as [|e es] eqn:He;
    [by intros [= <-]|].
  intros (c & (Hc & Hs & _)%classify_spec & [= <-])%result_bind_Ok. done.
Qed.

Lemma failure_headline_safe_witness :
  ∃ d, _classify_failure_diagnostic sample_result "boom" 1 = Ok d ∧
       fd_category d = DiagnosticCategory.AUTH.
Proof.
  eexists. split; [vm_compute; reflexivity|].
  refine (proj1 (failure_headline_safe sample_result "boom" 1 _ _)). vm_compute; reflexivity.
Defined.
