(* ===== verification/JsonStore.v ===== *)
(** * The JSON storage strategy

    [orb/infrastructure/storage/json/strategy.py] on the file operations it uses
    from [components/file_manager.py]: versioned saves, the transaction buffer
    and its conflict rule, reads that see the buffer, the signature-checked read
    cache, the backup ring and the recovery of a damaged file from it.

    A file's text is modelled up to JSON parsing ([content]); a write replaces
    the file atomically or fails leaving it alone, and gives it a signature no
    earlier version had (a rename brings a new inode and change time).  Which
    writes fail is decided by a list of faults the disk carries.  An operation
    under the locks is one step.  Reads and copies of existing files do not fail
    here, and rows are values: a caller does not change a row after handing it
    over. *)

From stdpp Require Import base gmap strings list.
From Stdlib Require Import ZArith Lia.
From S2P Require Import Prelude.
Open Scope Z_scope.

(** The data of one record as a caller passes it; what a file holds under a
    record's key is any JSON value. *)
Abbreviation row := (dict json).
Abbreviation section := (dict json).

(** ** Files *)

Inductive content :=
| Blank                  (* no file, or only white space *)
| Json (j : json)        (* text that parses *)
| Garbage.               (* text that does not parse *)

Record file := mk_file { f_content : content; f_signature : nat }.

Record disk := mk_disk {
  files : gmap string file;
  (* per data file, its backups: name stamp and content, newest first *)
  backups : gmap string (list (string * content));
  (* damaged files that were copied aside *)
  corrupt_copies : list (string * content);
  next_signature : nat;
  faults : list bool;         (* for each write to come: does it fail? *)
  clock_stamp : string        (* [datetime.now().strftime("%Y%m%d_%H%M%S")] *)
}.

Definition disk_eta (d : disk) : disk :=
  mk_disk (files d) (backups d) (corrupt_copies d) (next_signature d) (faults d) (clock_stamp d).
#[export] Hint Extern 1 (@Setter disk _ _) => solve_setter disk_eta : typeclass_instances.

#[export] Instance json_eq_dec : EqDecision json.
Proof.
  refine (fix go (x y : json) {struct x} : Decision (x = y) :=
    match x, y with
    | JNull, JNull => left eq_refl
    | JBool a, JBool b => cast_if (decide (a = b))
    | JInt a, JInt b => cast_if (decide (a = b))
    | JStr a, JStr b => cast_if (decide (a = b))
    | JList a, JList b => cast_if (@list_eq_dec _ go a b)
    | JDict a, JDict b => cast_if (@list_eq_dec _ (@prod_eq_dec _ _ _ go) a b)
    | _, _ => right _
    end); clear go; abstract congruence.
Defined.

#[export] Instance content_eq_dec : EqDecision content.
Proof. solve_decision. Defined.

Definition read_file_with_signature (d : disk) (path : string) : content * option nat :=
  match files d !! path with
  | None => (Blank, None)
  | Some f => (f_content f, Some (f_signature f))
  end.

Definition current_signature (d : disk) (path : string) : option nat :=
  f_signature <$> files d !! path.

Definition OSError : exn := OtherError "OSError" "write failed".

(** [write_file]: atomic replace, or an exception and the old file. *)
Definition write_file (d : disk) (path : string) (c : content) : result unit * disk :=
  match faults d with
  | true :: fs => (Err OSError, d <| faults := fs |>)
  | fs =>
      (Ok (), d <| files := <[path := mk_file c (next_signature d)]> (files d) |>
                <| next_signature := S (next_signature d) |>
                <| faults := tail fs |>)
  end.

(** [parse_file]: blank text and non-objects are empty, bad text raises. *)
Definition parse_file (c : content) : result (dict json) :=
  match c with
  | Blank => Ok []
  | Json (JDict d) => Ok d
  | Json _ => Ok []
  | Garbage => Err (ValueError "Expecting value")
  end.

(** [section_of]: this entity type's records within the full file content. *)
Definition section_of (entity_type : string) (full_data : dict json) : section :=
  match dget entity_type full_data with
  | Some (JDict d) => d
  | _ => []
  end.

(** [_section_from]: the same, from the file's content. *)
Definition _section_from (entity_type : string) (c : content) : result section :=
  match c with
  | Blank => Ok []
  | Garbage => Err (ValueError "Expecting value")
  | Json (JDict full_data) =>
      Ok match dget_default entity_type full_data (JDict []) with JDict d => d | _ => [] end
  | Json _ => Ok []
  end.

(** ** Backups *)

Definition list_backups (d : disk) (path : string) : list (string * content) :=
  default [] (backups d !! path).

(** [_cleanup_old_backups]: keep the newest [backup_count]. *)
Definition _cleanup_old_backups (backup_count : nat) (l : list (string * content)) :=
  take backup_count l.

(** [create_backup]: skipped when the newest backup already has this content; a
    backup of the same second has the same name and is overwritten. *)
Definition create_backup (backup_enabled : bool) (backup_count : nat)
    (d : disk) (path : string) : disk :=
  match files d !! path with
  | None => d
  | Some f =>
      if negb backup_enabled then d
      else
        let existing := list_backups d path in
        if match existing with b :: _ => b.2 ≟ f_content f | [] => false end then d
        else
          let kept := filter (λ b, b.1 ≠ clock_stamp d) existing in
          d <| backups := <[path := _cleanup_old_backups backup_count
                                      ((clock_stamp d, f_content f) :: kept)]> (backups d) |>
  end.

(** ** Versions *)

(** [x if isinstance(x, int) else 0]; a Python bool is an int. *)
Definition int_or_0 (j : option json) : Z :=
  match j with
  | Some (JInt z) => z
  | Some (JBool b) => Z.b2z b
  | _ => 0
  end.

Definition row_version (r : row) : Z := int_or_0 (dget "version" r).

(** [expected == data.get("version")]. *)
Definition version_is (expected : Z) (r : row) : bool :=
  match dget "version" r with
  | Some (JInt z) => Z.eqb z expected
  | Some (JBool b) => Z.eqb (Z.b2z b) expected
  | _ => false
  end.

Definition _written_version (data : row) (expected : option Z) : Z :=
  let local := row_version data in
  match expected with None => local | Some e => Z.max local (e + 1) end.

Definition _check_expected (entity_id : string) (stored : option json) (expected : Z)
  : result unit :=
  match stored with
  | None | Some JNull => Err (ConcurrencyError entity_id (Some expected))
  | Some (JDict r) =>
      if negb (Z.eqb (row_version r) expected)
      then Err (ConcurrencyError entity_id (Some expected)) else Ok ()
  | Some _ => Err (OtherError "AttributeError" "object has no attribute 'get'")
  end.

(** ** The transaction buffer *)

Inductive staged_op := Put (data : row) | Delete.

Record _StagedWrite := mk_staged {
  op : staged_op;
  expected : option Z;
  conflict : bool
}.

Abbreviation buffer := (dict _StagedWrite).

(** The new put continues a change this transaction already staged: it expects
    the version the staged put carries. *)
Definition own_staged_put (previous : option _StagedWrite) (exp : option Z) : bool :=
  match previous, exp with
  | Some (mk_staged (Put pdata) _ _), Some e => version_is e pdata
  | _, _ => false
  end.

Definition first_baseline (previous : option _StagedWrite) (exp : option Z) : option Z :=
  match previous ≫= expected with Some e => Some e | None => exp end.

Definition baselines_conflict (previous : option _StagedWrite) (exp : option Z) : bool :=
  match previous with
  | None => false
  | Some p =>
      conflict p ||
      match expected p, exp with Some e', Some e => negb (Z.eqb e' e) | _, _ => false end
  end.

Definition _stage_put_locked (b : buffer) (entity_id : string) (data : row)
    (exp : option Z) : buffer :=
  let previous := dget entity_id b in
  dset entity_id
    (if own_staged_put previous exp
     then mk_staged (Put data) (previous ≫= expected) (default false (conflict <$> previous))
     else mk_staged (Put data) (first_baseline previous exp) (baselines_conflict previous exp)) b.

Definition stage_delete_one (b : buffer) (entity_id : string) : buffer :=
  dset entity_id
    match dget entity_id b with
    | Some previous => mk_staged Delete (expected previous) (conflict previous)
    | None => mk_staged Delete None false
    end b.

(** One buffered operation, checked against [sec] and applied to [acc]. *)
Definition apply_staged (sec : section) (acc : result section)
    (kv : string * _StagedWrite) : result section :=
  res ← acc;
  let '(entity_id, staged) := kv in
  if conflict staged then Err (ConcurrencyError entity_id None)
  else
    _ ← match expected staged with
        | Some e => _check_expected entity_id (dget entity_id sec) e
        | None => Ok ()
        end;
    Ok match op staged with
       | Put data => dset entity_id (JDict data) res
       | Delete => dpop entity_id res
       end.

Definition apply_buffer_to (b : buffer) (sec : section) : result section :=
  foldl (apply_staged sec) (Ok sec) b.

(** One buffered operation as a read sees it. *)
Definition overlay (acc : section) (kv : string * _StagedWrite) : section :=
  match op kv.2 with
  | Put data => dset kv.1 (JDict data) acc
  | Delete => dpop kv.1 acc
  end.

(** ** The strategy *)

Record strategy := mk_strategy {
  real_path : string;
  entity_type : string;
  backup_enabled : bool;
  backup_count : nat;
  _buffer : buffer;
  (* the cached records with the signature they were read at *)
  _cache : option (section * option nat)
}.

Definition strategy_eta (s : strategy) : strategy :=
  mk_strategy (real_path s) (entity_type s) (backup_enabled s) (backup_count s)
    (_buffer s) (_cache s).
#[export] Hint Extern 1 (@Setter strategy _ _) => solve_setter strategy_eta : typeclass_instances.

Definition init (file_path entity_type : string) (backup_count : nat) (backup_enabled : bool)
  : strategy := mk_strategy file_path entity_type backup_enabled backup_count [] None.

Definition clear_buffer (s : strategy) : strategy := s <| _buffer := [] |>.
Definition drop_cache (s : strategy) : strategy := s <| _cache := None |>.
Definition cleanup (s : strategy) : strategy := clear_buffer (drop_cache s).
Definition has_buffered_writes (s : strategy) : bool :=
  match _buffer s with [] => false | _ => true end.
Definition has_buffered_puts (s : strategy) : bool :=
  existsb (λ kv, match op kv.2 with Put _ => true | Delete => false end) (_buffer s).

(** A method of the strategy: it may raise, and changes the disk and itself. *)
Definition step (A : Type) : Type := result A * disk * strategy.

(** The loop over the backups in [_recover_from_backup]: the first that parses. *)
Fixpoint first_valid_backup (l : list (string * content)) : option (content * dict json) :=
  match l with
  | [] => None
  | (_, c) :: l' =>
      match parse_file c with
      | Ok backup_data => Some (c, backup_data)
      | Err _ => first_valid_backup l'
      end
  end.

(** [_recover_from_backup], reached when the file does not parse.  It runs under
    the cross-process lock after the file is read again, which in one step gives
    the same content. *)
Definition _recover_from_backup (d : disk) (s : strategy) (error : exn)
  : result (section * option nat) * disk :=
  let path := real_path s in
  let '(c, signature) := read_file_with_signature d path in
  match _section_from (entity_type s) c with
  | Ok data => (Ok (data, signature), d)
  | Err _ =>
      match first_valid_backup (list_backups d path) with
      | None => (Err (StorageError (path +:+ ": " +:+ exn_str error +:+ "; no valid backup")), d)
      | Some (backup_content, backup_data) =>
          let d1 := d <| corrupt_copies := corrupt_copies d ++ [(path, c)] |> in
          match write_file d1 path backup_content with
          | (Ok _, d2) =>
              (Ok (section_of (entity_type s) backup_data, current_signature d2 path), d2)
          | (Err e, d2) =>
              (Err (StorageError (path +:+ ": " +:+ exn_str error +:+
                                  "; restoring backup failed: " +:+ exn_str e)), d2)
          end
      end
  end.

(** The second half of [_load_data]: a fresh read that fills the cache. *)
Definition load_fresh (d : disk) (s : strategy) : step section :=
  let '(c, signature) := read_file_with_signature d (real_path s) in
  let '(loaded, d') :=
    match _section_from (entity_type s) c with
    | Ok data => (Ok (data, signature), d)
    | Err e => _recover_from_backup d s e
    end in
  match loaded with
  | Ok (data, sig) => (Ok data, d', s <| _cache := Some (data, sig) |>)
  | Err e => (Err e, d', s)
  end.

(** [_load_data]: the cached records while the file still has the signature they
    were read with, else a fresh read. *)
Definition _load_data (d : disk) (s : strategy) : step section :=
  match _cache s with
  | Some (data, signature) =>
      if current_signature d (real_path s) ≟ signature then (Ok data, d, s)
      else load_fresh d s
  | None => load_fresh d s
  end.

(** [_lookup]: the buffered write first, then the stored record. *)
Definition _lookup (d : disk) (s : strategy) (entity_id : string) : step (option json) :=
  match dget entity_id (_buffer s) with
  | Some staged =>
      (Ok match op staged with Put data => Some (JDict data) | Delete => None end, d, s)
  | None => let '(r, d', s') := _load_data d s in ((dget entity_id <$> r), d', s')
  end.

(** [_visible_records]: the stored records overlaid with the buffer. *)
Definition _visible_records (d : disk) (s : strategy) : step section :=
  let '(r, d', s') := _load_data d s in
  (((λ base, foldl overlay base (_buffer s)) <$> r), d', s').

Definition wrap_error {A} (prefix : string) (r : result A) : result A :=
  match r with Ok a => Ok a | Err e => Err (StorageError (prefix +:+ exn_str e)) end.

Definition find_by_id (d : disk) (s : strategy) (entity_id : string) : step (option json) :=
  let '(r, d', s') := _lookup d s entity_id in
  (wrap_error ("Failed to find entity " +:+ entity_id +:+ ": ") r, d', s').

Definition find_all (d : disk) (s : strategy) : step section :=
  let '(r, d', s') := _visible_records d s in
  (wrap_error "Failed to load all entities: " r, d', s').

(** A stored JSON null reads as an absent record. *)
Definition exists_entity (d : disk) (s : strategy) (entity_id : string) : step bool :=
  let '(r, d', s') := _lookup d s entity_id in
  (((λ o, match o with None | Some JNull => false | Some _ => true end) <$> r), d', s').

Definition count (d : disk) (s : strategy) : step Z :=
  let '(r, d', s') := _visible_records d s in
  (((λ all_data, Z.of_nat (length all_data)) <$> r), d', s').

(** ** Writes *)

(** [_mutate]: read, change and write this entity type's section.  [apply]
    returns whether it changed the section, the section and its result. *)
Definition _mutate {R} (d : disk) (s : strategy)
    (apply : section → result (bool * section * R)) (what : string) : step R :=
  let fail e d' := (Err (StorageError ("Failed to " +:+ what +:+ ": " +:+ exn_str e)),
                    d', drop_cache s) in
  let '(c, _) := read_file_with_signature d (real_path s) in
  match parse_file c with
  | Err e => fail e d
  | Ok full_data =>
      match apply (section_of (entity_type s) full_data) with
      | Err (ConcurrencyError i v) => (Err (ConcurrencyError i v), d, drop_cache s)
      | Err e => fail e d
      | Ok (false, _, r) => (Ok r, d, s)
      | Ok (true, working, r) =>
          let full_data' := dset (entity_type s) (JDict working) full_data in
          let d1 := create_backup (backup_enabled s) (backup_count s) d (real_path s) in
          match write_file d1 (real_path s) (Json (JDict full_data')) with
          | (Err e, d2) => fail e d2
          | (Ok _, d2) =>
              (Ok r, d2, s <| _cache := Some (working, current_signature d2 (real_path s)) |>)
          end
      end
  end.

(** The operations take whether the strategy's scope is active. *)
Definition save (active : bool) (d : disk) (s : strategy) (entity_id : string) (data : row)
  : step unit :=
  if active then (Ok (), d, s <| _buffer := _stage_put_locked (_buffer s) entity_id data None |>)
  else _mutate d s (λ sec, Ok (true, dset entity_id (JDict data) sec, ()))
         ("save entity " +:+ entity_id).

Abbreviation versioned_item := (string * row * option Z)%type.

(** The rows [save_versioned_batch] writes: the data with its written version. *)
Definition versioned_row (item : versioned_item) : versioned_item :=
  let '(entity_id, data, exp) := item in
  (entity_id, dset "version" (JInt (_written_version data exp)) data, exp).

Fixpoint check_rows (sec : section) (rows : list versioned_item) : result unit :=
  match rows with
  | [] => Ok ()
  | (entity_id, _, exp) :: rows' =>
      _ ← match exp with
          | Some e => _check_expected entity_id (dget entity_id sec) e
          | None => Ok ()
          end;
      check_rows sec rows'
  end.

Definition put_rows (sec : section) (rows : list versioned_item) : section :=
  foldl (λ acc item, dset item.1.1 (JDict item.1.2) acc) sec rows.

Definition save_versioned_batch (active : bool) (d : disk) (s : strategy)
    (items : list versioned_item) : step (list Z) :=
  match items with
  | [] => (Ok [], d, s)
  | _ =>
      let rows := versioned_row <$> items in
      let versions := (λ item : versioned_item, _written_version item.1.2 item.2) <$> items in
      if active then
        (Ok versions, d,
         s <| _buffer := foldl (λ b row, _stage_put_locked b row.1.1 row.1.2 row.2)
                           (_buffer s) rows |>)
      else
        _mutate d s (λ sec, _ ← check_rows sec rows; Ok (true, put_rows sec rows, versions))
          "save entities"
  end.

Definition save_versioned (active : bool) (d : disk) (s : strategy) (entity_id : string)
    (data : row) (expected_version : option Z) : step Z :=
  let '(r, d', s') := save_versioned_batch active d s [(entity_id, data, expected_version)] in
  ((versions ← r; match versions with v :: _ => Ok v | [] => Err (OtherError "IndexError" "") end),
   d', s').

Definition save_batch (active : bool) (d : disk) (s : strategy) (entities : dict row)
  : step unit :=
  if active then
    (Ok (), d, s <| _buffer := foldl (λ b kv, _stage_put_locked b kv.1 kv.2 None)
                                (_buffer s) entities |>)
  else
    _mutate d s (λ sec, Ok (true, dmerge sec ((λ kv, (kv.1, JDict kv.2)) <$> entities), ()))
      "save batch".

Definition delete_entity (active : bool) (d : disk) (s : strategy) (entity_id : string)
  : step unit :=
  if active then (Ok (), d, s <| _buffer := stage_delete_one (_buffer s) entity_id |>)
  else
    _mutate d s
      (λ sec, Ok (match dget entity_id sec with None | Some JNull => false | _ => true end,
                  dpop entity_id sec, ()))
      ("delete entity " +:+ entity_id).

Definition delete_batch (active : bool) (d : disk) (s : strategy) (entity_ids : list string)
  : step unit :=
  if active then
    (Ok (), d, s <| _buffer := foldl stage_delete_one (_buffer s) entity_ids |>)
  else
    _mutate d s (λ sec, Ok (true, foldl (λ acc i, dpop i acc) sec entity_ids, ()))
      "delete batch".

(** ** Lemmas: versions *)

Lemma written_version_gt data e : e < _written_version data (Some e).
Proof. unfold _written_version. lia. Qed.

Lemma row_version_dset r v : row_version (dset "version" (JInt v) r) = v.
Proof. unfold row_version. by rewrite dget_dset_eq. Qed.

Lemma check_expected_Ok i o e :
  _check_expected i o e = Ok () ↔ ∃ r, o = Some (JDict r) ∧ row_version r = e.
Proof.
  unfold _check_expected. destruct o as [[]|]; try naive_solver.
  destruct (Z.eqb_spec (row_version d) e); naive_solver.
Qed.

(** The stored record is an object, as the store itself writes it. *)
Definition stored_object (o : option json) : Prop :=
  match o with None | Some JNull | Some (JDict _) => True | _ => False end.

Lemma check_expected_Err i o e :
  stored_object o → _check_expected i o e ≠ Ok () →
  _check_expected i o e = Err (ConcurrencyError i (Some e)).
Proof. unfold _check_expected. destruct o as [[]|]; simpl; try done. by case_match. Qed.

(** ** Lemmas: the disk *)

(** [d'] comes after [d]: a file is as it was, gone, or has a signature younger
    than anything [d] had handed out. *)
Definition evolves (d d' : disk) : Prop :=
  (next_signature d ≤ next_signature d')%nat ∧
  ∀ p, files d' !! p = files d !! p ∨ files d' !! p = None ∨
       ∃ f, files d' !! p = Some f ∧
            (next_signature d ≤ f_signature f < next_signature d')%nat.

Definition disk_ok (d : disk) : Prop :=
  ∀ p f, files d !! p = Some f → (f_signature f < next_signature d)%nat.

#[export] Instance evolves_preorder : PreOrder evolves.
Proof.
  split.
  - intros d. split; [done|auto].
  - intros d1 d2 d3 [Hn1 H1] [Hn2 H2]. split; [lia|]. intros p.
    destruct (H2 p) as [->|[->|(f & -> & ?)]]; [|auto|].
    + destruct (H1 p) as [->|[->|(f & -> & ?)]]; [auto..|].
      right; right. exists f. split; [done|lia].
    + right; right. exists f. split; [done|lia].
Qed.

Lemma evolves_disk_ok d d' : evolves d d' → disk_ok d → disk_ok d'.
Proof.
  intros [Hn Hf] Hok p f Hp. destruct (Hf p) as [H|[H|(f' & H & ?)]]; rewrite Hp in H.
  - symmetry in H. apply Hok in H. lia.
  - done.
  - simplify_eq. lia.
Qed.

Lemma evolves_same d d' :
  files d' = files d → next_signature d' = next_signature d → evolves d d'.
Proof. intros Hf Hn. split; [lia|]. intros p. rewrite Hf. auto. Qed.

(** A write either installs the content under a fresh signature or changes no
    file. *)
Lemma write_file_inv d p c r d' :
  write_file d p c = (r, d') →
  (r = Ok () ∧ files d' = <[p := mk_file c (next_signature d)]> (files d) ∧
     next_signature d' = S (next_signature d) ∨
   r = Err OSError ∧ files d' = files d ∧ next_signature d' = next_signature d) ∧
  backups d' = backups d ∧ corrupt_copies d' = corrupt_copies d ∧ faults d' = tail (faults d) ∧
  (r = Ok () ↔ head (faults d) ≠ Some true).
Proof.
  unfold write_file. destruct (faults d) as [|[] fs]; intros [= <- <-]; naive_solver.
Qed.

Lemma write_file_evolves d p c r d' : write_file d p c = (r, d') → evolves d d'.
Proof.
  intros ([(_ & Hf & Hn)|(_ & Hf & Hn)] & _)%write_file_inv; [|by apply evolves_same].
  split; [lia|]. intros q. rewrite Hf.
  destruct (decide (p = q)) as [<-|]; [|left; by apply lookup_insert_ne].
  right; right. eexists. rewrite lookup_insert_eq. split; [done|]. simpl. lia.
Qed.

Lemma create_backup_files en n (d : disk) p :
  files (create_backup en n d p) = files d ∧
  next_signature (create_backup en n d p) = next_signature d ∧
  faults (create_backup en n d p) = faults d ∧
  corrupt_copies (create_backup en n d p) = corrupt_copies d.
Proof. unfold create_backup. repeat (case_match; try done). Qed.

Lemma create_backup_evolves en n d p : evolves d (create_backup en n d p).
Proof. destruct (create_backup_files en n d p) as (Hf & Hn & _). by apply evolves_same. Qed.

(** What a file holds for one entity type, by a fresh read. *)
Definition stored (d : disk) (path entity_type : string) : result section :=
  _section_from entity_type (read_file_with_signature d path).1.

Lemma section_from_parse et c :
  _section_from et c = section_of et <$> parse_file c.
Proof.
  destruct c as [|[]|]; try done. simpl. unfold section_of, dget_default.
  destruct (dget et d) as [[]|]; done.
Qed.

Lemma stored_files d d' path et : files d' !! path = files d !! path → stored d' path et = stored d path et.
Proof. unfold stored, read_file_with_signature. by intros ->. Qed.

Lemma stored_insert d' path et c n :
  files d' !! path = Some (mk_file c n) → stored d' path et = _section_from et c.
Proof. unfold stored, read_file_with_signature. by intros ->. Qed.

Lemma section_from_dset et (sec full : section) et' :
  _section_from et' (Json (JDict (dset et (JDict sec) full))) =
  if decide (et = et') then Ok sec else _section_from et' (Json (JDict full)).
Proof. simpl. unfold dget_default. rewrite dget_dset. by destruct (decide (et = et')). Qed.

(** ** Lemmas: the cache *)

Definition cache_ok (d : disk) (s : strategy) : Prop :=
  match _cache s with
  | None => True
  | Some (data, sig) =>
      (∀ n, sig = Some n → (n < next_signature d)%nat) ∧
      (sig = None → data = []) ∧
      (current_signature d (real_path s) = sig →
       stored d (real_path s) (entity_type s) = Ok data)
  end.

Lemma cache_ok_drop d s : cache_ok d (drop_cache s).
Proof. done. Qed.

Lemma current_signature_None d p et :
  current_signature d p = None → stored d p et = Ok [].
Proof.
  unfold current_signature, stored, read_file_with_signature.
  by destruct (files d !! p).
Qed.

Lemma cache_ok_evolves d d' s : evolves d d' → cache_ok d s → cache_ok d' s.
Proof.
  unfold cache_ok. intros [Hn Hf]. destruct (_cache s) as [[data sig]|]; [|done].
  intros (Hlt & Hnone & Hc). split_and!; [intros n ?; specialize (Hlt n); naive_solver lia|done|].
  intros Hsig. destruct (Hf (real_path s)) as [H|[H|(f & H & ?)]].
  - rewrite (stored_files d d') by done. apply Hc. rewrite <- Hsig.
    unfold current_signature. by rewrite H.
  - unfold current_signature in Hsig. rewrite H in Hsig. simpl in Hsig.
    rewrite Hnone by done. apply current_signature_None. unfold current_signature. by rewrite H.
  - unfold current_signature in Hsig. rewrite H in Hsig. simpl in Hsig.
    specialize (Hlt _ (eq_sym Hsig)). lia.
Qed.

Lemma cache_ok_fill d s data :
  disk_ok d → stored d (real_path s) (entity_type s) = Ok data →
  cache_ok d (s <| _cache := Some (data, current_signature d (real_path s)) |>).
Proof.
  intros Hok Hst. unfold cache_ok; simpl. split_and!; [|intros Hs|done].
  - unfold current_signature. intros n. destruct (files d !! _) eqn:Hf; simpl; [|done].
    intros [= <-]. by apply Hok in Hf.
  - rewrite (current_signature_None d _ (entity_type s)) in Hst by done. naive_solver.
Qed.

(** ** Lemmas: reads and writes *)

(** The parts of a strategy no operation changes. *)
Definition same_config (s s' : strategy) : Prop :=
  real_path s' = real_path s ∧ entity_type s' = entity_type s ∧
  backup_enabled s' = backup_enabled s ∧ backup_count s' = backup_count s.

(** An operation keeps the disk's history and the cache's meaning. *)
Definition sound_step (d : disk) (s : strategy) (d' : disk) (s' : strategy) : Prop :=
  evolves d d' ∧ cache_ok d' s' ∧ same_config s s'.

Lemma first_valid_backup_parses l bc bd :
  first_valid_backup l = Some (bc, bd) → parse_file bc = Ok bd.
Proof.
  induction l as [|[st c] l IH]; simpl; [done|].
  destruct (parse_file c) eqn:Hp; [by intros [= <- <-]|apply IH].
Qed.

Lemma read_signature d p : (read_file_with_signature d p).2 = current_signature d p.
Proof. unfold read_file_with_signature, current_signature. by destruct (files d !! p). Qed.

(** What a read that returns [r] on disk [d'] must have seen. *)
Definition read_ok (d' : disk) (s : strategy) (r : result (section * option nat)) : Prop :=
  ∀ data sig, r = Ok (data, sig) →
    stored d' (real_path s) (entity_type s) = Ok data ∧
    sig = current_signature d' (real_path s).

Lemma recover_spec d s e r d' :
  disk_ok d → _recover_from_backup d s e = (r, d') → evolves d d' ∧ read_ok d' s r.
Proof.
  intros Hok. unfold _recover_from_backup, read_ok. pose proof (read_signature d (real_path s)).
  destruct (read_file_with_signature d (real_path s)) as [c sg] eqn:Hr; simpl in *; subst.
  destruct (_section_from _ c) as [data0|] eqn:Hs.
  { intros [= <- <-]. split; [done|]. intros data sig [= <- <-]. unfold stored.
    by rewrite Hr. }
  destruct (first_valid_backup _) as [[bc bd]|] eqn:Hb; [|by intros [= <- <-]].
  destruct (write_file _ _ bc) as [[[]|ex] d2] eqn:Hw; intros [= <- <-].
  all: split; [etrans; [|by eapply write_file_evolves]; by apply evolves_same|].
  - intros data sig [= <- <-]. split; [|done].
    apply write_file_inv in Hw as ([(_ & Hf & _)|[? _]] & _); [|done].
    erewrite stored_insert by (rewrite Hf; apply lookup_insert_eq).
    by rewrite section_from_parse, (first_valid_backup_parses _ _ _ Hb).
  - intros data sig [=].
Qed.

(** A load returns what the file then holds, and when the file parses it changes
    nothing. *)
Definition load_ok (d : disk) (s : strategy) (st : step section) : Prop :=
  let '(r, d', s') := st in
  sound_step d s d' s' ∧ _buffer s' = _buffer s ∧
  (∀ data, r = Ok data → stored d' (real_path s) (entity_type s) = Ok data) ∧
  (∀ data, stored d (real_path s) (entity_type s) = Ok data → r = Ok data ∧ d' = d).

Lemma load_fresh_spec d s : disk_ok d → cache_ok d s → load_ok d s (load_fresh d s).
Proof.
  intros Hok Hc. unfold load_fresh, load_ok, sound_step. pose proof (read_signature d (real_path s)).
  unfold stored at 2.
  destruct (read_file_with_signature d (real_path s)) as [c sg] eqn:Hr; simpl in *; subst.
  destruct (_section_from (entity_type s) c) as [data0|e0] eqn:Hs.
  - assert (stored d (real_path s) (entity_type s) = Ok data0) as Hst
      by (unfold stored; by rewrite Hr).
    split; [split; [done|split; [by eapply cache_ok_fill|done]]|].
    split; [done|]. split; [by intros data [= <-]|]. by intros data [= <-].
  - destruct (_recover_from_backup d s e0) as [loaded d1] eqn:Hrec.
    apply recover_spec in Hrec as [Hev Hst]; [|done].
    destruct loaded as [[data1 sg1]|e1].
    + destruct (Hst data1 sg1) as [? ->]; [done|].
      assert (disk_ok d1) by (by eapply evolves_disk_ok).
      split; [split; [done|split; [by apply cache_ok_fill|done]]|].
      split; [done|]. split; by intros data [= <-].
    + split; [split; [done|split; [by eapply cache_ok_evolves|done]]|done].
Qed.

Lemma load_data_spec d s : disk_ok d → cache_ok d s → load_ok d s (_load_data d s).
Proof.
  intros Hok Hc. unfold _load_data.
  destruct (_cache s) as [[data sig]|] eqn:Hcs; [|by apply load_fresh_spec].
  case_bool_decide as Hsig; [|by apply load_fresh_spec].
  pose proof Hc as Hc'. unfold cache_ok in Hc'. rewrite Hcs in Hc'.
  destruct Hc' as (_ & _ & Hst). specialize (Hst Hsig).
  split; [by split|]. split; [done|]. split; [by intros ? [= <-]|].
  intros data' ?. split; congruence.
Qed.

Lemma parse_section c full et :
  parse_file c = Ok full → _section_from et c = Ok (section_of et full).
Proof. rewrite section_from_parse. by intros ->. Qed.

(** [_mutate] either returns, with exactly this section replaced (or nothing
    changed), or raises with every file as it was and the cache dropped. *)
Lemma mutate_inv {R} d s (f : section → result (bool * section * R)) what r d' s' :
  _mutate d s f what = (r, d', s') →
  (∃ sec w x, stored d (real_path s) (entity_type s) = Ok sec ∧ f sec = Ok (false, w, x) ∧
     r = Ok x ∧ d' = d ∧ s' = s) ∨
  (∃ sec w x, stored d (real_path s) (entity_type s) = Ok sec ∧ f sec = Ok (true, w, x) ∧
     r = Ok x ∧ evolves d d' ∧
     (∀ p et, stored d' p et = if decide ((real_path s, entity_type s) = (p, et)) then Ok w
                               else stored d p et) ∧
     s' = s <| _cache := Some (w, current_signature d' (real_path s)) |>) ∨
  (∃ e, r = Err e ∧ files d' = files d ∧ next_signature d' = next_signature d ∧
     s' = drop_cache s).
Proof.
  unfold _mutate. destruct (read_file_with_signature d (real_path s)) as [c sg] eqn:Hr.
  assert (∀ et, stored d (real_path s) et = _section_from et c) as Hst
    by (intros et; unfold stored; by rewrite Hr).
  destruct (parse_file c) as [full|e] eqn:Hp;
    [|intros [= <- <- <-]; right; right; by eexists].
  assert (∀ et, stored d (real_path s) et = Ok (section_of et full)) as Hst'.
  { intros et. rewrite Hst. by apply parse_section. }
  destruct (f _) as [[[[] w] x]|ex] eqn:Hf.
  2: { intros [= <- <- <-]. left. by eexists _, w, x. }
  2: { intros H. right; right. destruct ex; injection H as <- <- <-; by eexists. }
  set (d1 := create_backup _ _ _ _).
  assert (files d1 = files d ∧ next_signature d1 = next_signature d) as [Hf1 Hn1]
    by (split; apply create_backup_files).
  destruct (write_file d1 _ _) as [[[]|e] d2] eqn:Hw; intros [= <- <- <-].
  - right; left. exists (section_of (entity_type s) full), w, x. split_and!; try done.
    + etrans; [apply create_backup_evolves|by eapply write_file_evolves].
    + apply write_file_inv in Hw as ([(_ & Hf2 & _)|[? _]] & _); [|done].
      intros p et. destruct (decide (p = real_path s)) as [->|Hne].
      * erewrite stored_insert by (rewrite Hf2; apply lookup_insert_eq).
        rewrite section_from_dset. repeat case_decide; try congruence.
        rewrite Hst'. by apply (parse_section (Json (JDict full))).
      * rewrite decide_False by congruence. apply stored_files.
        by rewrite Hf2, lookup_insert_ne, Hf1.
  - right; right. apply write_file_inv in Hw as ([(? & _)|(_ & Hf2 & Hn2)] & _); [done|].
    eexists. split_and!; [done|congruence|congruence|done].
Qed.

Lemma mutate_sound {R} d s (f : section → result (bool * section * R)) what r d' s' :
  disk_ok d → cache_ok d s → _mutate d s f what = (r, d', s') →
  sound_step d s d' s' ∧ _buffer s' = _buffer s.
Proof.
  intros Hok Hc [(?&?&?&?&?&?&->&->)|[(sec&w&x&?&?&?&Hev&Hst&->)|(?&?&?&?&->)]]%mutate_inv.
  - repeat split; auto.
  - split; [split; [done|split; [|done]]|done]. apply cache_ok_fill.
    + by eapply evolves_disk_ok.
    + rewrite Hst. by rewrite decide_True.
  - repeat split; [by apply evolves_same..].
Qed.

Lemma mutate_concurrency {R} d s (f : section → result (bool * section * R)) what sec i v :
  stored d (real_path s) (entity_type s) = Ok sec → f sec = Err (ConcurrencyError i v) →
  _mutate d s f what = (Err (ConcurrencyError i v), d, drop_cache s).
Proof.
  unfold _mutate, stored. destruct (read_file_with_signature d (real_path s)) as [c sg]; simpl.
  rewrite section_from_parse. destruct (parse_file c); simpl; [|done]. by intros [= ->] ->.
Qed.

Lemma mutate_written {R} d s (f : section → result (bool * section * R)) what sec w x :
  stored d (real_path s) (entity_type s) = Ok sec → f sec = Ok (true, w, x) →
  head (faults d) ≠ Some true →
  ∃ d' s', _mutate d s f what = (Ok x, d', s').
Proof.
  unfold _mutate, stored. destruct (read_file_with_signature d (real_path s)) as [c sg]; simpl.
  rewrite section_from_parse. destruct (parse_file c) as [full|]; simpl; [|done].
  intros [= ->] -> Hfl. destruct (write_file _ _ _) as [r d2] eqn:Hw.
  apply write_file_inv in Hw as (_ & _ & _ & _ & [_ Hr]).
  rewrite (Hr ltac:(by destruct (create_backup_files (backup_enabled s) (backup_count s) d
                         (real_path s)) as (_ & _ & -> & _))).
  by do 2 eexists.
Qed.

(** ** Lemmas: the buffer *)

Lemma apply_staged_Err sec b e : foldl (apply_staged sec) (Err e) b = Err e.
Proof. induction b; simpl; auto. Qed.

Lemma apply_buffer_overlay_aux b sec acc res :
  foldl (apply_staged sec) (Ok acc) b = Ok res → res = foldl overlay acc b.
Proof.
  revert acc. induction b as [|[i st] b IH]; intros acc; simpl; [by intros [= ->]|].
  destruct (conflict st); [by rewrite apply_staged_Err|].
  destruct (match expected st with Some _ => _ | None => _ end) as [[]|e]; simpl;
    [|by rewrite apply_staged_Err].
  unfold overlay at 1; simpl. apply IH.
Qed.

Lemma apply_buffer_overlay b sec res :
  apply_buffer_to b sec = Ok res → res = foldl overlay sec b.
Proof. apply apply_buffer_overlay_aux. Qed.

Lemma dget_overlay b sec i :
  dict_wf b →
  dget i (foldl overlay sec b) =
  match dget i b with
  | Some st => match op st with Put data => Some (JDict data) | Delete => None end
  | None => dget i sec
  end.
Proof.
  unfold dict_wf. revert sec. induction b as [|[k st] b IH]; intros sec; simpl; [done|].
  intros [Hni Hnd]%NoDup_cons. rewrite IH by done.
  case_decide as Hk; [subst k; apply dget_None in Hni as ->|].
  - unfold overlay; simpl. destruct (op st); by rewrite ?dget_dset_eq, ?dget_dpop, ?decide_True.
  - destruct (dget i b) eqn:?; [done|]. unfold overlay; simpl.
    destruct (op st); [by rewrite dget_dset_ne|]. by rewrite dget_dpop, decide_False.
Qed.

(** A conflicting entry makes the commit of its section fail. *)
Lemma conflict_fails b sec i st :
  dget i b = Some st → conflict st = true → ∃ e, apply_buffer_to b sec = Err e.
Proof.
  unfold apply_buffer_to. generalize (Ok sec : result section). induction b as [|[k st'] b IH]; [done|].
  intros acc Hi Hc. simpl in *. case_decide as Hk; [|eauto].
  injection Hi as ->. destruct acc as [acc|e]; simpl.
  - rewrite Hc. eexists. apply apply_staged_Err.
  - eexists. apply apply_staged_Err.
Qed.

(** The operations that change a buffer inside a transaction. *)
Inductive stage_op := SPut (entity_id : string) (data : row) (exp : option Z)
                    | SDelete (entity_id : string).

Definition stage (b : buffer) (o : stage_op) : buffer :=
  match o with
  | SPut i data exp => _stage_put_locked b i data exp
  | SDelete i => stage_delete_one b i
  end.

Lemma stage_wf b o : dict_wf b → dict_wf (stage b o).
Proof. destruct o; simpl; [apply dict_wf_dset|apply dict_wf_dset]. Qed.

(** Once two baselines disagreed, no later write of the transaction clears it;
    and a baseline, once given, stays the record's baseline. *)
Lemma stage_conflict_sticky b o i st :
  dget i b = Some st → ∃ st', dget i (stage b o) = Some st' ∧
    (conflict st = true → conflict st' = true) ∧
    (∀ e, expected st = Some e → expected st' = Some e).
Proof.
  intros Hi. destruct o as [k data exp|k]; cbn [stage].
  - unfold _stage_put_locked. rewrite dget_dset. case_decide as Hk; [subst k|by eauto].
    eexists; split; [done|]. rewrite Hi. destruct (own_staged_put _ _); simpl; [auto|].
    unfold first_baseline; simpl. split; [by intros ->|by intros e ->].
  - unfold stage_delete_one. rewrite dget_dset. case_decide as Hk; [subst k|by eauto].
    rewrite Hi. eauto.
Qed.

Lemma stages_conflict_sticky os b i st :
  dget i b = Some st → ∃ st', dget i (foldl stage b os) = Some st' ∧
    (conflict st = true → conflict st' = true) ∧
    (∀ e, expected st = Some e → expected st' = Some e).
Proof.
  revert b st. induction os as [|o os IH]; intros b st Hi; simpl; [by eauto|].
  destruct (stage_conflict_sticky b o i st Hi) as (st' & Hi' & Hc & He).
  destruct (IH _ _ Hi') as (st'' & ? & ? & ?). exists st''. auto.
Qed.

(** ** Theorems *)

(** A version-checked save outside a transaction, on a file that parses and
    with a write that does not fail, has exactly two outcomes.  If the stored
    record is at the expected version the file then holds the new row, with a
    version above the expected one, which is the version returned, and every
    other record and section is as before.  Otherwise it raises
    [ConcurrencyError] and the disk is untouched. *)
Theorem save_versioned_spec d s i data e sec :
  stored d (real_path s) (entity_type s) = Ok sec → stored_object (dget i sec) →
  head (faults d) ≠ Some true →
  let '(r, d', s') := save_versioned false d s i data (Some e) in
  ((∃ old v, dget i sec = Some (JDict old) ∧ row_version old = e ∧ r = Ok v ∧ e < v ∧
      ∀ p et, stored d' p et =
        if decide ((real_path s, entity_type s) = (p, et))
        then Ok (dset i (JDict (dset "version" (JInt v) data)) sec) else stored d p et) ∨
   (¬ (∃ old, dget i sec = Some (JDict old) ∧ row_version old = e) ∧
    r = Err (ConcurrencyError i (Some e)) ∧ d' = d ∧ s' = drop_cache s)).
Proof.
  intros Hst Hobj Hfl. unfold save_versioned, save_versioned_batch. cbn [fmap list_fmap versioned_row fst snd].
  set (v := _written_version data (Some e)).
  set (f := λ sec0 : section, _ ← _; _).
  assert (_check_expected i (dget i sec) e = Ok () ∨ _check_expected i (dget i sec) e ≠ Ok ())
    as [Hc|Hc] by (destruct (_check_expected _ _ _) as [[]|]; auto).
  - assert (f sec = Ok (true, dset i (JDict (dset "version" (JInt v) data)) sec, [v])) as Hf.
    { unfold f; simpl. by rewrite Hc. }
    destruct (mutate_written d s f "save entities" _ _ _ Hst Hf Hfl) as (d' & s' & Hm).
    rewrite Hm. simpl. left. apply check_expected_Ok in Hc as (old & -> & <-).
    exists old, v. split_and!; [done|done|done|apply written_version_gt|].
    apply mutate_inv in Hm as [(?&?&?&?&?&?&?&?)|[(sec'&w&x&Hs'&Hf'&?&_&Hall&_)|(?&?&_)]];
      [congruence| |done].
    rewrite Hst in Hs'. injection Hs' as <-. rewrite Hf in Hf'. by injection Hf' as <- <-.
  - assert (f sec = Err (ConcurrencyError i (Some e))) as Hf.
    { unfold f; simpl. by rewrite check_expected_Err. }
    rewrite (mutate_concurrency _ _ _ _ _ _ _ Hst Hf). right. split_and!; try done.
    by rewrite <- (check_expected_Ok i).
Qed.

Lemma save_versioned_Ok_inv d s i data e v d' s' :
  save_versioned false d s i data (Some e) = (Ok v, d', s') →
  e < v ∧ ∃ sec', stored d' (real_path s) (entity_type s) = Ok sec' ∧
    dget i sec' = Some (JDict (dset "version" (JInt v) data)).
Proof.
  unfold save_versioned, save_versioned_batch. cbn [fmap list_fmap versioned_row fst snd].
  set (f := λ sec0 : section, _ ← _; _).
  destruct (_mutate d s f "save entities") as [[r d1] s1] eqn:Hm.
  destruct r as [vs|]; [|done]. intros [= Hv <- <-].
  apply mutate_inv in Hm as [(sec&w&x&_&Hf&_)|[(sec&w&x&_&Hf&Hx&_&Hall&_)|(?&?&_)]]; [| |done];
    unfold f in Hf; apply result_bind_Ok in Hf as (? & _ & Hf); [done|].
  injection Hf as <- <-. injection Hx as ->. simpl in Hv. injection Hv as <-.
  split; [apply written_version_gt|].
  eexists. rewrite Hall, decide_True by done. split; [done|]. apply dget_dset_eq.
Qed.

Definition sample_file : json :=
  JDict [("requests", JDict [("req-1", JDict [("status", JStr "pending"); ("version", JInt 3)])])].

Definition sample_disk : disk :=
  mk_disk {[ "requests.json" := mk_file (Json sample_file) 0 ]} ∅ [] 1 [] "20250101_000000".

Definition sample_strategy : strategy := init "requests.json" "requests" 5 true.

Lemma save_versioned_spec_witness :
  let '(r, d', s') :=
    save_versioned false sample_disk sample_strategy "req-1" [("status", JStr "complete")]
      (Some 2) in
  r = Err (ConcurrencyError "req-1" (Some 2)) ∧ d' = sample_disk.
Proof.
  pose proof (save_versioned_spec sample_disk sample_strategy "req-1"
    [("status", JStr "complete")] 2 _ eq_refl I ltac:(done)) as H.
  destruct (save_versioned _ _ _ _ _ _) as [[r d'] s'].
  destruct H as [(old & v & Ho & Hv & _)|(_ & -> & -> & _)]; [|done].
  vm_compute in Ho. injection Ho as <-. discriminate Hv.
Defined.

(** C35: No update is lost.  When two strategies on one file (in one process or
    in two, whatever each has cached) save the same record from the same stored
    version, the one that writes second gets [ConcurrencyError], and what the
    first wrote stays as it is. *)
Theorem no_lost_update d s1 s2 i data1 data2 e v d1 s1' :
  real_path s2 = real_path s1 → entity_type s2 = entity_type s1 →
  save_versioned false d s1 i data1 (Some e) = (Ok v, d1, s1') →
  save_versioned false d1 s2 i data2 (Some e) =
    (Err (ConcurrencyError i (Some e)), d1, drop_cache s2) ∧
  ∃ sec, stored d1 (real_path s1) (entity_type s1) = Ok sec ∧
         dget i sec = Some (JDict (dset "version" (JInt v) data1)).
Proof.
  intros Hp He (Hlt & sec & Hst & Hi)%save_versioned_Ok_inv.
  split; [|by exists sec]. rewrite <- Hp, <- He in Hst.
  unfold save_versioned, save_versioned_batch.
  cbn [fmap list_fmap versioned_row fst snd].
  erewrite mutate_concurrency; [done|exact Hst|]. simpl.
  rewrite Hi. simpl. rewrite row_version_dset. by rewrite (proj2 (Z.eqb_neq v e)) by lia.
Qed.

Lemma no_lost_update_witness :
  ∃ d1 s1', save_versioned false sample_disk sample_strategy "req-1" [("a", JInt 1)] (Some 3)
            = (Ok 4, d1, s1') ∧
  save_versioned false d1 sample_strategy "req-1" [("b", JInt 2)] (Some 3) =
    (Err (ConcurrencyError "req-1" (Some 3)), d1, drop_cache sample_strategy).
Proof.
  do 2 eexists. split; [vm_compute; reflexivity|].
  refine (proj1 (no_lost_update sample_disk sample_strategy sample_strategy "req-1"
    [("a", JInt 1)] [("b", JInt 2)] 3 4 _ _ eq_refl eq_refl _)).
  vm_compute; reflexivity.
Defined.

(** C36: Reads inside a transaction see the transaction's own writes, and see
    exactly what its commit will store.  Whether or not the buffered writes would
    still validate, [find_all] gives the section with the buffer laid over it: a
    record whose last buffered write is a put is there with the data put, one whose
    last buffered write is a delete is absent, and any other is as stored.
    [find_by_id] agrees with it on every key, and a commit that validates against
    this file content writes that very section. *)
Theorem transaction_view_is_commit d s sec :
  disk_ok d → cache_ok d s → dict_wf (_buffer s) →
  stored d (real_path s) (entity_type s) = Ok sec →
  ∃ view, (find_all d s).1.1 = Ok view ∧
    (∀ i, dget i view =
       match dget i (_buffer s) with
       | None => dget i sec
       | Some st => match op st with Put data => Some (JDict data) | Delete => None end
       end) ∧
    (∀ i, (find_by_id d s i).1.1 = Ok (dget i view)) ∧
    (∀ res, apply_buffer_to (_buffer s) sec = Ok res → res = view).
Proof.
  intros Hok Hc Hwf Hst. exists (foldl overlay sec (_buffer s)).
  pose proof (load_data_spec d s Hok Hc) as Hl.
  unfold find_all, _visible_records, find_by_id, _lookup.
  destruct (_load_data d s) as [[r d'] s']. destruct Hl as (_ & _ & _ & Hr).
  destruct (Hr _ Hst) as [-> ->]. split; [done|]. split; [|split].
  - intros i. rewrite dget_overlay by done. by destruct (dget i (_buffer s)) as [st|].
  - intros i. rewrite dget_overlay by done. by destruct (dget i (_buffer s)) as [st|]; simpl.
  - intros res. apply apply_buffer_overlay.
Qed.

Definition sample_in_txn : strategy :=
  (save_versioned true sample_disk sample_strategy "req-1" [("status", JStr "complete")]
     (Some 3)).2.

Lemma transaction_view_is_commit_witness :
  dget "req-1" (_buffer sample_in_txn) ≠ None ∧
  ∃ view, (find_all sample_disk sample_in_txn).1.1 = Ok view ∧
    (∀ i, (find_by_id sample_disk sample_in_txn i).1.1 = Ok (dget i view)).
Proof.
  split; [done|].
  destruct (transaction_view_is_commit sample_disk sample_in_txn
    [("req-1", JDict [("status", JStr "pending"); ("version", JInt 3)])]) as (view & ? & _ & ? & _).
  - intros p f Hp. cbn [files sample_disk] in Hp. apply lookup_singleton_Some in Hp as [<- <-]. simpl. lia.
  - exact I.
  - apply NoDup_singleton.
  - reflexivity.
  - by exists view.
Defined.

(** A record saved twice in one transaction from two different stored
    versions can never be committed: whatever else the transaction stages, on
    this record or others, applying its buffer raises against any file content.
    (The second save is exempt when it continues the transaction's own staged
    row; then the first baseline stays in force.) *)
Theorem divergent_baselines_never_commit b i st data e1 e2 os sec :
  dget i b = Some st → expected st = Some e1 → e1 ≠ e2 →
  own_staged_put (Some st) (Some e2) = false →
  ∃ err, apply_buffer_to (foldl stage (_stage_put_locked b i data (Some e2)) os) sec = Err err.
Proof.
  intros Hi He Hne Hown.
  destruct (stages_conflict_sticky os (_stage_put_locked b i data (Some e2)) i
    (mk_staged (Put data) (Some e1) true)) as (st' & Hi' & Hc & _).
  { unfold _stage_put_locked. rewrite dget_dset_eq, Hi, Hown.
    unfold first_baseline, baselines_conflict. simpl. rewrite He. do 2 f_equal.
    rewrite (proj2 (Z.eqb_neq e1 e2)) by done. apply orb_true_r. }
  eapply conflict_fails; [exact Hi'|by apply Hc].
Qed.

Lemma divergent_baselines_never_commit_witness :
  ∃ err, apply_buffer_to
    (foldl stage (_stage_put_locked (_buffer sample_in_txn) "req-1" [("x", JInt 1)] (Some 7))
       [SDelete "req-1"])
    [("req-1", JDict [("version", JInt 3)])] = Err err.
Proof.
  eapply (divergent_baselines_never_commit (_buffer sample_in_txn) "req-1" _ [("x", JInt 1)] 3 7);
    [vm_compute; reflexivity|vm_compute; reflexivity|done|vm_compute; reflexivity].
Defined.

(** A read that meets a file that does not parse: with a usable backup, the
    newest one that parses is installed as the file, its section is what the read
    returns, and the damaged content is kept aside; with none the read raises
    [StorageError] and the disk is untouched. *)
Theorem damaged_file_recovery d s sig :
  files d !! real_path s = Some (mk_file Garbage sig) → _cache s = None →
  head (faults d) ≠ Some true →
  let '(r, d', _) := _load_data d s in
  match first_valid_backup (list_backups d (real_path s)) with
  | Some (c, full) =>
      r = Ok (section_of (entity_type s) full) ∧
      (read_file_with_signature d' (real_path s)).1 = c ∧
      corrupt_copies d' = corrupt_copies d ++ [(real_path s, Garbage)] ∧
      ∀ p, p ≠ real_path s → files d' !! p = files d !! p
  | None => (∃ m, r = Err (StorageError m)) ∧ d' = d
  end.
Proof.
  intros Hf Hc Hfl. unfold _load_data, load_fresh, _recover_from_backup, read_file_with_signature.
  rewrite Hc, Hf. simpl.
  destruct (first_valid_backup _) as [[c full]|]; [|by eauto].
  destruct (write_file _ _ c) as [r d2] eqn:Hw.
  apply write_file_inv in Hw as ([(-> & Hf2 & _)|(-> & _)] & _ & Hcc & _ & Hr).
  - rewrite Hf2, lookup_insert_eq. split_and!; [done|done|done|].
    intros p Hp. by rewrite lookup_insert_ne.
  - destruct Hr as [_ Hr]. by discriminate (Hr Hfl).
Qed.

Lemma damaged_file_recovery_witness :
  let d := mk_disk {[ "requests.json" := mk_file Garbage 0 ]}
             {[ "requests.json" := [("t2", Garbage); ("t1", Json sample_file)] ]} [] 1 []
             "20250101_000000" in
  (_load_data d sample_strategy).1.1 =
    Ok [("req-1", JDict [("status", JStr "pending"); ("version", JInt 3)])].
Proof.
  intros d. pose proof (damaged_file_recovery d sample_strategy 0 eq_refl eq_refl ltac:(done)) as H.
  destruct (_load_data d sample_strategy) as [[r d'] s']. exact (proj1 H).
Defined.
