(* ===== verification/JsonScope.v ===== *)
(** * The commit scope and the unit of work on JSON storage

    [orb/infrastructure/storage/json/transaction_scope.py]: the scope the JSON
    strategies of one unit of work share, its two-phase commit (validate every
    buffer against the files, then write them in an order that keeps the request
    file ahead, restoring on a failed write);
    [orb/infrastructure/storage/repositories/versioned_save.py]: the saves that
    carry an aggregate's baseline version and move it only after the commit;
    [orb/infrastructure/storage/base/unit_of_work.py] and
    [json/unit_of_work.py]: begin, commit, rollback and the context manager.

    The locks the commit takes make it one step.  A callback deferred until the
    commit is the one the code defers: the update of an aggregate's baseline. *)

From stdpp Require Import base gmap strings list sorting.
From Stdlib Require Import ZArith Sorted Lia.
From S2P Require Import Prelude JsonStore.
Open Scope Z_scope.

(** ** Aggregates in memory

    The objects a save touches: the [PersistedRevision] holders, shared by every
    copy of an aggregate derived from one load, and the aggregates' own versions. *)

Record heap := mk_heap {
  revisions : gmap nat (option Z);    (* [PersistedRevision.value] *)
  versions : gmap nat Z               (* [aggregate.version] *)
}.

Record aggregate_ref := mk_aggregate { agg : nat; persisted_revision : nat }.

Definition revision_value (h : heap) (a : aggregate_ref) : option Z :=
  default None (revisions h !! persisted_revision a).

Definition mark_saved (h : heap) (holder : nat) (version : Z) : heap :=
  mk_heap (<[holder := Some version]> (revisions h)) (versions h).

(** [_record_saved]. *)
Definition _record_saved (a : aggregate_ref) (written : Z) (h : heap) : heap :=
  let h' := mark_saved h (persisted_revision a) written in
  if versions h' !! agg a ≟ Some written then h'
  else mk_heap (revisions h') (<[agg a := written]> (versions h')).

Record callback := mk_callback { cb_aggregate : aggregate_ref; cb_written : Z }.
Definition run_callback (h : heap) (c : callback) : heap :=
  _record_saved (cb_aggregate c) (cb_written c) h.

(** ** The scope *)

Record scope := mk_scope {
  _strategies : list strategy;
  _after_commit : list callback;
  _active : bool
}.

Definition scope_eta (s : scope) : scope :=
  mk_scope (_strategies s) (_after_commit s) (_active s).
#[export] Hint Extern 1 (@Setter scope _ _) => solve_setter scope_eta : typeclass_instances.

Definition _discard (sc : scope) : scope :=
  sc <| _strategies := clear_buffer <$> _strategies sc |> <| _after_commit := [] |>.

Definition begin (sc : scope) : result scope :=
  if _active sc then Err (RuntimeError "Transaction already active")
  else Ok (_discard (sc <| _active := true |>)).

Definition defer (h : heap) (sc : scope) (c : callback) : heap * scope :=
  if _active sc then (h, sc <| _after_commit := _after_commit sc ++ [c] |>)
  else (run_callback h c, sc).

Definition rollback (sc : scope) : scope :=
  if negb (_active sc) then sc else _discard (sc <| _active := false |>).

(** *** Applying the buffers *)

(** The sort key [(real_path, entity_type)], compared as Python compares tuples. *)
Definition strategy_le (s1 s2 : strategy) : bool :=
  if real_path s1 ≟ real_path s2 then String.leb (entity_type s1) (entity_type s2)
  else String.leb (real_path s1) (real_path s2).

Definition add_to_group (groups : dict (list strategy)) (s : strategy) : dict (list strategy) :=
  dset (real_path s) (dget_default (real_path s) groups [] ++ [s]) groups.

Definition groups_of (ordered : list strategy) : dict (list strategy) :=
  foldl add_to_group [] ordered.

(** The full content of one file with every buffer of its strategies applied. *)
Definition apply_strategies (full_data : dict json) (strategies : list strategy)
  : result (dict json) :=
  foldl (λ acc s, full ← acc;
           sec ← apply_buffer_to (_buffer s) (section_of (entity_type s) full);
           Ok (dset (entity_type s) (JDict sec) full))
    (Ok full_data) strategies.

Record plan := mk_plan {
  pl_path : string;
  pl_strategies : list strategy;
  pl_image : option content;        (* [images[path]] *)
  pl_data : dict json               (* [plans[path]] *)
}.

#[export] Instance staged_op_eq_dec : EqDecision staged_op.
Proof. solve_decision. Defined.
#[export] Instance staged_write_eq_dec : EqDecision _StagedWrite.
Proof. solve_decision. Defined.
#[export] Instance strategy_eq_dec : EqDecision strategy.
Proof. solve_decision. Defined.
#[export] Instance plan_eq_dec : EqDecision plan.
Proof. solve_decision. Defined.

Definition plan_group (d : disk) (group : string * list strategy) : result plan :=
  let '(c, signature) := read_file_with_signature d group.1 in
  full_data ← parse_file c;
  full' ← apply_strategies full_data group.2;
  Ok (mk_plan group.1 group.2
        (match signature with Some _ => Some c | None => None end) full').

Definition backup_group (d : disk) (p : plan) : disk :=
  match pl_strategies p with
  | s :: _ => create_backup (backup_enabled s) (backup_count s) d (pl_path p)
  | [] => d
  end.

Definition _ANCHOR_ENTITY : string := "requests".

Definition holds_anchor (p : plan) : bool :=
  existsb (λ s, entity_type s ≟ _ANCHOR_ENTITY) (pl_strategies p).

(** The key [(holds_anchor(p) != has_puts, p)]; [False] sorts before [True]. *)
Definition write_le (has_puts : bool) (p q : plan) : bool :=
  match xorb (holds_anchor p) has_puts, xorb (holds_anchor q) has_puts with
  | false, true => true
  | true, false => false
  | _, _ => String.leb (pl_path p) (pl_path q)
  end.

Fixpoint write_plans (d : disk) (order : list plan) (written : list plan)
  : result unit * disk * list plan :=
  match order with
  | [] => (Ok (), d, written)
  | p :: order' =>
      match write_file d (pl_path p) (Json (JDict (pl_data p))) with
      | (Ok _, d') => write_plans d' order' (written ++ [p])
      | (Err e, d') => (Err e, d', written)
      end
  end.

Definition restore_one (d : disk) (p : plan) : disk :=
  match pl_image p with
  | None => d <| files := delete (pl_path p) (files d) |>
  | Some image => (write_file d (pl_path p) image).2
  end.

Definition _restore (d : disk) (written : list plan) : disk :=
  foldl restore_one d (reverse written).

(** [_apply]: the outcome, the disk, and whether the strategies drop their caches. *)
Definition _apply (d : disk) (pending : list strategy) : result unit * disk * bool :=
  let ordered := sorted_by strategy_le pending in
  let has_puts := existsb has_buffered_puts ordered in
  match mapM_result (plan_group d) (groups_of ordered) with
  | Err (ConcurrencyError i v) => (Err (ConcurrencyError i v), d, true)
  | Err e => (Err e, d, false)
  | Ok plans =>
      let d1 := foldl backup_group d plans in
      match write_plans d1 (sorted_by (write_le has_puts) plans) [] with
      | (Ok _, d2, _) => (Ok (), d2, true)
      | (Err _, d2, written) =>
          (Err (StorageError "Failed to write the unit of work to storage"),
           _restore d2 written, true)
      end
  end.

(** [commit]: whatever happens the transaction is over and the buffers empty; the
    callbacks run only when the files were written. *)
Definition commit (d : disk) (h : heap) (sc : scope) : result unit * disk * heap * scope :=
  if negb (_active sc) then (Err (RuntimeError "No active transaction to commit"), d, h, sc)
  else
    let callbacks := _after_commit sc in
    let pending := filter (λ s, has_buffered_writes s = true) (_strategies sc) in
    let '(r, d', drop) :=
      match pending with [] => (Ok (), d, false) | _ => _apply d pending end in
    let dropped :=
      (λ s, if drop && has_buffered_writes s then drop_cache s else s) <$> _strategies sc in
    let sc' := _discard (sc <| _strategies := dropped |> <| _active := false |>) in
    match r with
    | Ok _ => (Ok (), d', foldl run_callback h callbacks, sc')
    | Err e => (Err e, d', h, sc')
    end.

(** ** Versioned saves of aggregates *)

(** A state of the whole unit of work. *)
Record uow := mk_uow { u_disk : disk; u_heap : heap; u_scope : scope; _in_transaction : bool }.

Definition uow_eta (u : uow) : uow := mk_uow (u_disk u) (u_heap u) (u_scope u) (_in_transaction u).
#[export] Hint Extern 1 (@Setter uow _ _) => solve_setter uow_eta : typeclass_instances.

(** A method call on the [k]-th strategy of the scope. *)
Definition on_strategy {A} (k : nat) (f : bool → disk → strategy → step A) (u : uow)
  : result A * uow :=
  match _strategies (u_scope u) !! k with
  | None => (Err (OtherError "IndexError" "list index out of range"), u)
  | Some s =>
      let '(r, d', s') := f (_active (u_scope u)) (u_disk u) s in
      (r, u <| u_disk := d' |>
            <| u_scope := u_scope u <| _strategies := <[k := s']> (_strategies (u_scope u)) |> |>)
  end.

Definition _record_when_committed (u : uow) (a : aggregate_ref) (written : Z) : uow :=
  let '(h, sc) := defer (u_heap u) (u_scope u) (mk_callback a written) in
  u <| u_heap := h |> <| u_scope := sc |>.

(** [save_one] on a strategy that supports versioned saves, as the JSON one does. *)
Definition save_one (k : nat) (u : uow) (entity_id : string) (data : row) (a : aggregate_ref)
  : result unit * uow :=
  let '(r, u') :=
    on_strategy k (λ active d s,
      save_versioned active d s entity_id data (revision_value (u_heap u) a)) u in
  match r with
  | Ok written => (Ok (), _record_when_committed u' a written)
  | Err e => (Err e, u')
  end.

(** [save_many]. *)
Definition save_many (k : nat) (u : uow) (entries : list (string * row * aggregate_ref))
  : result bool * uow :=
  let items := (λ e : string * row * aggregate_ref,
                  (e.1.1, e.1.2, revision_value (u_heap u) e.2)) <$> entries in
  let '(r, u') := on_strategy k (λ active d s, save_versioned_batch active d s items) u in
  match r with
  | Ok written =>
      (Ok true, foldl (λ u e, _record_when_committed u e.1.2 e.2) u' (zip entries written))
  | Err e => (Err e, u')
  end.

(** ** The unit of work *)

Definition TransactionError (m : string) : exn := OtherError "TransactionError" m.

Definition uow_begin (u : uow) : result unit * uow :=
  if _in_transaction u then (Err (TransactionError "Transaction already in progress"), u)
  else
    let u1 := u <| _in_transaction := true |> in
    match begin (u_scope u1) with
    | Ok sc => (Ok (), u1 <| u_scope := sc |>)
    | Err e => (Err e, u1)
    end.

Definition uow_commit (u : uow) : result unit * uow :=
  if negb (_in_transaction u) then (Err (TransactionError "No transaction in progress"), u)
  else
    let '(r, d, h, sc) := commit (u_disk u) (u_heap u) (u_scope u) in
    (r, mk_uow d h sc false).

Definition uow_rollback (u : uow) : result unit * uow :=
  if negb (_in_transaction u) then (Err (TransactionError "No transaction in progress"), u)
  else (Ok (), u <| u_scope := rollback (u_scope u) |> <| _in_transaction := false |>).

(** [with uow: body]: begin, then commit, or roll back and re-raise. *)
Definition with_uow {A} (u : uow) (body : uow → result A * uow) : result A * uow :=
  match uow_begin u with
  | (Err e, u1) => (Err e, u1)
  | (Ok _, u1) =>
      match body u1 with
      | (Ok a, u2) =>
          match uow_commit u2 with
          | (Ok _, u3) => (Ok a, u3)
          | (Err e, u3) => (Err e, u3)
          end
      | (Err e, u2) =>
          match uow_rollback u2 with
          | (Ok _, u3) => (Err e, u3)
          | (Err e', u3) => (Err e', u3)
          end
      end
  end.

(** [JSONUnitOfWork.__init__]: three strategies on one scope. *)
Definition json_uow (d : disk) (h : heap) (machine_file request_file template_file : string)
    (backup_count : nat) (backup_enabled : bool) : uow :=
  mk_uow d h
    (mk_scope [init machine_file "machines" backup_count backup_enabled;
               init request_file "requests" backup_count backup_enabled;
               init template_file "templates" backup_count backup_enabled] [] false)
    false.

(** ** Lemmas: writing and restoring *)

Definition contents (d : disk) (path : string) : option content :=
  f_content <$> files d !! path.

Definition fault_count (l : list bool) : nat := length (filter (λ b, b = true) l).

Lemma fault_count_tail l :
  (fault_count (tail l) + (if head l ≟ Some true then 1 else 0) = fault_count l)%nat.
Proof.
  unfold fault_count. destruct l as [|b l]; simpl; [done|]. rewrite filter_cons.
  repeat case_bool_decide; repeat case_decide; simpl; naive_solver lia.
Qed.

Lemma write_file_contents d p c r d' :
  write_file d p c = (r, d') →
  evolves d d' ∧ backups d' = backups d ∧
  (r = Ok () ∧ fault_count (faults d') = fault_count (faults d) ∧
     (∀ q, contents d' q = if decide (p = q) then Some c else contents d q) ∨
   (∃ e, r = Err e) ∧ S (fault_count (faults d')) = fault_count (faults d) ∧
     (∀ q, contents d' q = contents d q)).
Proof.
  intros Hw. split; [by eapply write_file_evolves|].
  apply write_file_inv in Hw as (Hcase & -> & _ & Hfl & Hr). split; [done|].
  pose proof (fault_count_tail (faults d)) as Hc. unfold contents.
  destruct Hcase as [(-> & Hf & _)|(-> & Hf & _)]; [left|right]; rewrite Hfl, Hf.
  - rewrite bool_decide_false in Hc by naive_solver. split_and!; [done|lia|].
    intros q. by case_decide; subst; rewrite ?lookup_insert_eq, ?lookup_insert_ne.
  - destruct (decide (head (faults d) = Some true)) as [Hh|Hh]; [|naive_solver].
    rewrite bool_decide_true in Hc by done. split_and!; [by eexists|lia|done].
Qed.

(** What a list of plans would put at a path. *)
Definition planned (l : list plan) : dict content :=
  (λ p, (pl_path p, Json (JDict (pl_data p)))) <$> l.

Definition images (l : list plan) : dict (option content) := (λ p, (pl_path p, pl_image p)) <$> l.

Lemma dkeys_planned l : dkeys (planned l) = pl_path <$> l.
Proof. unfold dkeys, planned. by rewrite <- list_fmap_compose. Qed.

(** The write loop replaces a prefix of the files, all of them unless one write
    failed. *)
Lemma write_plans_spec order d w r d' w' :
  NoDup (pl_path <$> order) → write_plans d order w = (r, d', w') →
  evolves d d' ∧ backups d' = backups d ∧
  ∃ rest pre, order = pre ++ rest ∧ w' = w ++ pre ∧
    (∀ p, contents d' p =
       match dget p (planned pre) with Some c => Some c | None => contents d p end) ∧
    (r = Ok () ∧ rest = [] ∧ fault_count (faults d') = fault_count (faults d) ∨
     (∃ e, r = Err e) ∧ S (fault_count (faults d')) = fault_count (faults d)).
Proof.
  revert d w. induction order as [|pl order IH]; intros d w Hnd; simpl.
  { intros [= <- <- <-]. split; [done|]. split; [done|]. exists [], [].
    split; [done|]. split; [by rewrite app_nil_r|]. split; [done|]. by left. }
  rewrite fmap_cons in Hnd. apply NoDup_cons in Hnd as [Hni Hnd].
  destruct (write_file d _ _) as [r1 d1] eqn:Hw.
  apply write_file_contents in Hw as (Hev & Hb & [(-> & Hfl & Hc)|([e ->] & Hfl & Hc)]).
  - intros (Hev' & Hb' & rest & pre & -> & -> & Hc' & Hr)%IH; [|done].
    split; [by etrans|]. split; [congruence|].
    exists rest, (pl :: pre). rewrite <- app_assoc. split_and!; [done|done| |].
    + intros p. rewrite Hc', Hc. simpl. case_decide as Hp; [|done].
      assert (dget p (planned pre) = None) as ->; [|done].
      apply dget_None. rewrite dkeys_planned. subst p. intros Hin. apply Hni. rewrite fmap_app. set_solver.
    + rewrite <- Hfl. done.
  - intros [= <- <- <-]. split; [done|]. split; [done|].
    exists (pl :: order), []. rewrite app_nil_r. split_and!; [done|done|done|].
    right. split; [by eexists|lia].
Qed.

(** With no further fault the restore puts every written file back. *)
Lemma restore_spec w d :
  fault_count (faults d) = 0%nat →
  fault_count (faults (_restore d w)) = 0%nat ∧
  ∀ p, contents (_restore d w) p =
       match dget p (images w) with Some image => image | None => contents d p end.
Proof.
  intros H0. unfold _restore. induction w as [|pl w [IH0 IHc]]; [done|].
  rewrite reverse_cons, foldl_app. cbn [foldl].
  set (d1 := foldl restore_one d (reverse w)) in *. unfold restore_one. simpl.
  destruct (pl_image pl) as [c|] eqn:Hi.
  - destruct (write_file d1 (pl_path pl) c) as [r d2] eqn:Hw.
    apply write_file_contents in Hw as (_ & _ & [(_ & Hfl & Hc)|(_ & Hfl & _)]); [|lia].
    simpl. split; [lia|]. intros p. rewrite Hc, IHc. by case_decide.
  - simpl. split; [done|]. intros p. unfold contents. simpl.
    case_decide as Hp; [subst; by rewrite lookup_delete_eq|].
    rewrite lookup_delete_ne by done. apply IHc.
Qed.

Lemma restore_evolves w d : evolves d (_restore d w) ∧ backups (_restore d w) = backups d.
Proof.
  unfold _restore. generalize (reverse w). clear w. intros w. revert d.
  induction w as [|pl w IH]; intros d; simpl; [done|].
  destruct (IH (restore_one d pl)) as [He Hb]. rewrite Hb. clear IH Hb.
  assert (evolves d (restore_one d pl) ∧ backups (restore_one d pl) = backups d) as [He' Hb].
  { unfold restore_one. destruct (pl_image pl) as [c|].
    - destruct (write_file d (pl_path pl) c) as [r d2] eqn:Hw.
      by apply write_file_contents in Hw as (? & ? & _).
    - split; [|done]. split; [done|]. intros p. simpl.
      destruct (decide (pl_path pl = p)) as [->|]; [by rewrite lookup_delete_eq; auto|].
      rewrite lookup_delete_ne by done. auto. }
  split; [by etrans|done].
Qed.

Lemma backups_files plans d :
  let d' := foldl backup_group d plans in
  files d' = files d ∧ next_signature d' = next_signature d ∧ faults d' = faults d.
Proof.
  revert d. induction plans as [|p plans IH]; intros d; simpl; [done|].
  destruct (IH (backup_group d p)) as (-> & -> & ->). unfold backup_group.
  destruct (pl_strategies p) as [|s ?]; [done|].
  by destruct (create_backup_files (backup_enabled s) (backup_count s) d (pl_path p))
    as (-> & -> & -> & _).
Qed.

Lemma contents_read d p :
  (read_file_with_signature d p).1 = default Blank (contents d p).
Proof. unfold read_file_with_signature, contents. by destruct (files d !! p). Qed.

Lemma stored_contents d p et : stored d p et = _section_from et (default Blank (contents d p)).
Proof. unfold stored. by rewrite contents_read. Qed.

(** ** Lemmas: grouping and planning *)

Definition at_path (p : string) (l : list strategy) : list strategy :=
  filter (λ s, real_path s = p) l.

Lemma dget_groups p g l :
  dget p (foldl add_to_group g l) =
  match at_path p l with [] => dget p g | ss => Some (dget_default p g [] ++ ss) end.
Proof.
  unfold at_path. revert g. induction l as [|s l IH]; intros g; simpl; [done|].
  rewrite IH, filter_cons. unfold add_to_group, dget_default. rewrite dget_dset.
  destruct (decide (real_path s = p)) as [<-|]; [|done].
  destruct (filter _ l); simpl; [done|]. by rewrite <- app_assoc.
Qed.

Lemma groups_wf l : dict_wf (groups_of l).
Proof.
  unfold groups_of. assert (dict_wf ([] : dict (list strategy))) as H by constructor.
  revert H. generalize ([] : dict (list strategy)).
  induction l as [|s l IH]; intros g Hg; simpl; [done|]. by apply IH, dict_wf_dset.
Qed.

Lemma elem_of_groups l p ss : (p, ss) ∈ groups_of l ↔ ss = at_path p l ∧ ss ≠ [].
Proof.
  pose proof (dget_groups p [] l) as Hg. simpl in Hg. split.
  - intros H%elem_of_dget; [|apply groups_wf]. unfold groups_of in H. rewrite Hg in H.
    destruct (at_path p l); naive_solver.
  - intros [-> Hne]. apply dget_elem_of. unfold groups_of. rewrite Hg.
    by destruct (at_path p l).
Qed.

Lemma plan_group_inv d p ss pl :
  plan_group d (p, ss) = Ok pl →
  pl_path pl = p ∧ pl_strategies pl = ss ∧ pl_image pl = contents d p ∧
  ∃ full, parse_file (default Blank (contents d p)) = Ok full ∧
          apply_strategies full ss = Ok (pl_data pl).
Proof.
  unfold plan_group. cbn [fst snd]. rewrite <- contents_read.
  unfold contents, read_file_with_signature. destruct (files d !! p) as [f|];
    intros (full & Hp & (full' & Ha & [= <-])%result_bind_Ok)%result_bind_Ok;
    cbn [fst pl_path pl_strategies pl_image pl_data]; eauto 10.
Qed.

Section planning.
Context (d : disk) (ordered : list strategy) (plans : list plan).
Context (Hplans : mapM_result (plan_group d) (groups_of ordered) = Ok plans).

Lemma plans_paths : pl_path <$> plans = dkeys (groups_of ordered).
Proof using Hplans.
  revert plans Hplans. unfold dkeys. induction (groups_of ordered) as [|[p ss] g IH];
    intros plans Hp%mapM_result_Forall2.
  - by apply Forall2_nil_inv_l in Hp as ->.
  - apply Forall2_cons_inv_l in Hp as (pl & plans' & Hpl & Hp & ->).
    apply plan_group_inv in Hpl as (<- & _). rewrite !fmap_cons. f_equal.
    by apply IH, mapM_result_Forall2.
Qed.

Lemma plans_NoDup : NoDup (pl_path <$> plans).
Proof using Hplans. rewrite plans_paths. apply groups_wf. Qed.

Lemma elem_of_plans pl : pl ∈ plans → plan_group d (pl_path pl, at_path (pl_path pl) ordered) = Ok pl.
Proof using Hplans.
  pose proof Hplans as H. apply mapM_result_Forall2 in H.
  intros (i & Hi)%list_elem_of_lookup.
  destruct (Forall2_lookup_r _ _ _ _ _ H Hi) as ([p ss] & Hg & Hpl).
  pose proof (plan_group_inv _ _ _ _ Hpl) as (-> & _).
  apply list_elem_of_lookup_2, elem_of_groups in Hg as [-> _]. done.
Qed.

Lemma plan_exists p : at_path p ordered ≠ [] → ∃ pl, pl ∈ plans ∧ pl_path pl = p.
Proof using Hplans.
  intros Hne. pose proof Hplans as H. apply mapM_result_Forall2 in H.
  destruct (proj1 (list_elem_of_lookup _ _) (proj2 (elem_of_groups ordered p _) (conj eq_refl Hne)))
    as (i & Hi).
  destruct (Forall2_lookup_l _ _ _ _ _ H Hi) as (pl & Hpl & (Hp & _)%plan_group_inv).
  exists pl. split; [by eapply list_elem_of_lookup_2|done].
Qed.

(** The written files, whatever order they were written in. *)
Lemma dget_planned order p :
  order ≡ₚ plans →
  match at_path p ordered with
  | [] => dget p (planned order) = None
  | ss => ∃ full full', parse_file (default Blank (contents d p)) = Ok full ∧
            apply_strategies full ss = Ok full' ∧
            dget p (planned order) = Some (Json (JDict full'))
  end.
Proof using Hplans.
  intros Hperm. destruct (at_path p ordered) as [|s ss] eqn:Hss.
  - apply dget_None. rewrite dkeys_planned, Hperm, plans_paths. unfold dkeys.
    intros ([p' ss] & -> & [-> Hne]%elem_of_groups)%list_elem_of_fmap. by apply Hne.
  - destruct (plan_exists p) as (pl & Hpl & <-); [by rewrite Hss|].
    pose proof (elem_of_plans pl Hpl) as (_ & _ & _ & full & ? & ?)%plan_group_inv.
    rewrite Hss in *. exists full, (pl_data pl). split_and!; [done|done|].
    apply elem_of_dget.
    + unfold dict_wf. rewrite dkeys_planned, Hperm. apply plans_NoDup.
    + apply list_elem_of_fmap. exists pl. by rewrite Hperm.
Qed.

Lemma dget_images w p i : w ⊆ plans → dget p (images w) = Some i → i = contents d p.
Proof using Hplans.
  intros Hsub (pl & [= -> ->] & Hin)%dget_elem_of%list_elem_of_fmap.
  by apply Hsub, elem_of_plans, plan_group_inv in Hin as (_ & _ & -> & _).
Qed.
End planning.

(** ** The commit as a whole *)

Lemma apply_planned d pending plans :
  mapM_result (plan_group d) (groups_of (sorted_by strategy_le pending)) = Ok plans →
  ∃ d1 order, order ≡ₚ plans ∧
    (∀ p, contents d1 p = contents d p) ∧ faults d1 = faults d ∧
    _apply d pending =
      match write_plans d1 order [] with
      | (Ok _, d2, _) => (Ok (), d2, true)
      | (Err _, d2, written) =>
          (Err (StorageError "Failed to write the unit of work to storage"),
           _restore d2 written, true)
      end.
Proof.
  intros Hp. unfold _apply. rewrite Hp.
  destruct (backups_files plans d) as (Hf & _ & Hfl).
  eexists _, _. split; [apply sorted_by_perm|]. split; [|split; [exact Hfl|done]].
  intros p. unfold contents. by rewrite Hf.
Qed.

(** A failure before the first write leaves the disk exactly as it was. *)
Lemma apply_invalid d pending e :
  mapM_result (plan_group d) (groups_of (sorted_by strategy_le pending)) = Err e →
  ∃ b, _apply d pending = (Err e, d, b).
Proof. intros Hp. unfold _apply. rewrite Hp. destruct e; eauto. Qed.

Lemma apply_Ok_contents d pending d' b p :
  _apply d pending = (Ok (), d', b) →
  match at_path p (sorted_by strategy_le pending) with
  | [] => contents d' p = contents d p
  | ss => ∃ full full', parse_file (default Blank (contents d p)) = Ok full ∧
            apply_strategies full ss = Ok full' ∧
            contents d' p = Some (Json (JDict full'))
  end.
Proof.
  intros Ha.
  destruct (mapM_result (plan_group d) (groups_of (sorted_by strategy_le pending)))
    as [plans|e] eqn:Hp; [|by apply apply_invalid in Hp as [? Hp]; rewrite Hp in Ha].
  destruct (apply_planned _ _ _ Hp) as (d1 & order & Hperm & Hc & _ & Heq).
  rewrite Heq in Ha. clear Heq.
  destruct (write_plans d1 order []) as [[r d2] w] eqn:Hw. destruct r as [[]|]; [|done].
  injection Ha as <- <-. apply write_plans_spec in Hw.
  2: { rewrite Hperm. by eapply plans_NoDup. }
  destruct Hw as (_ & _ & rest & pre & -> & _ & Hc' & [(_ & -> & _)|([? ?] & _)]); [|done].
  rewrite app_nil_r in Hperm. pose proof (dget_planned _ _ _ Hp pre p Hperm) as Hg.
  rewrite Hc', Hc. destruct (at_path _ _) as [|s ss]; [by rewrite Hg|].
  destruct Hg as (full & full' & ? & ? & ->). eauto.
Qed.

Lemma apply_Err_contents d pending e d' b p :
  (fault_count (faults d) ≤ 1)%nat → _apply d pending = (Err e, d', b) →
  contents d' p = contents d p.
Proof.
  intros Hfl Ha.
  destruct (mapM_result (plan_group d) (groups_of (sorted_by strategy_le pending)))
    as [plans|e'] eqn:Hp.
  2: { apply apply_invalid in Hp as [? Hp]. rewrite Hp in Ha. by injection Ha as _ <- _. }
  destruct (apply_planned _ _ _ Hp) as (d1 & order & Hperm & Hc & Hfl1 & Heq).
  rewrite Heq in Ha. clear Heq.
  destruct (write_plans d1 order []) as [[r d2] w] eqn:Hw.
  destruct r as [[]|e2]; [done|]. injection Ha as _ <- _. apply write_plans_spec in Hw.
  2: { rewrite Hperm. by eapply plans_NoDup. }
  destruct Hw as (_ & _ & rest & pre & -> & -> & Hc' & [(? & _)|(_ & Hf2)]); [done|].
  simpl. destruct (restore_spec pre d2) as [_ ->]; [rewrite Hfl1 in Hf2; lia|].
  destruct (dget p (images pre)) as [i|] eqn:Hi.
  - eapply (dget_images _ _ _ Hp); [|exact Hi]. intros x Hx. rewrite <- Hperm. set_solver.
  - rewrite Hc', Hc. assert (dget p (planned pre) = None) as ->; [|done].
    apply dget_None. apply dget_None in Hi. rewrite dkeys_planned. unfold dkeys, images in Hi.
    by rewrite <- list_fmap_compose in Hi.
Qed.

Lemma section_of_dset et (sec full : section) et' :
  section_of et' (dset et (JDict sec) full) =
  if decide (et = et') then sec else section_of et' full.
Proof. unfold section_of. rewrite dget_dset. by case_decide. Qed.

Lemma apply_strategies_cons full s ss :
  apply_strategies full (s :: ss) =
  (sec ← apply_buffer_to (_buffer s) (section_of (entity_type s) full);
   apply_strategies (dset (entity_type s) (JDict sec) full) ss).
Proof.
  unfold apply_strategies. cbn [foldl].
  change (Ok full ≫= ?f) with (f full). cbn beta.
  destruct (apply_buffer_to _ _) as [sec|e]; [done|]. cbn.
  induction ss as [|s' ss IH]; [done|apply IH].
Qed.

Lemma apply_strategies_spec ss full full' :
  NoDup (entity_type <$> ss) → apply_strategies full ss = Ok full' →
  (∀ s, s ∈ ss →
     apply_buffer_to (_buffer s) (section_of (entity_type s) full) =
       Ok (section_of (entity_type s) full')) ∧
  (∀ et, et ∉ entity_type <$> ss → section_of et full' = section_of et full).
Proof.
  revert full. induction ss as [|s ss IH]; intros full.
  { intros _ [= <-]. split; [|done]. intros s Hs. by apply not_elem_of_nil in Hs. }
  rewrite fmap_cons, apply_strategies_cons. intros [Hni Hnd]%NoDup_cons.
  intros (sec & Hs & (Hin & Hout)%IH)%result_bind_Ok; [|done]. split.
  - intros s' [->|Hs']%elem_of_cons.
    + by rewrite Hout, section_of_dset, decide_True.
    + rewrite <- Hin, section_of_dset by done. rewrite decide_False; [done|].
      intros Heq. apply Hni. rewrite Heq. by apply list_elem_of_fmap_2.
  - intros et Het. rewrite Hout by set_solver. rewrite section_of_dset.
    rewrite decide_False; [done|]. set_solver.
Qed.

Definition key (s : strategy) : string * string := (real_path s, entity_type s).

Lemma at_path_NoDup p l : NoDup (key <$> l) → NoDup (entity_type <$> at_path p l).
Proof.
  unfold at_path. induction l as [|s l IH]; [constructor|].
  rewrite fmap_cons. intros [Hni Hnd]%NoDup_cons. rewrite filter_cons.
  case_decide as Hp; [|auto]. rewrite fmap_cons. apply NoDup_cons. split; [|auto].
  intros (s' & He & [Hp' Hs']%list_elem_of_filter)%list_elem_of_fmap. apply Hni.
  apply list_elem_of_fmap. exists s'. split; [unfold key; congruence|done].
Qed.

Lemma elem_of_at_path p l s : s ∈ at_path p l ↔ real_path s = p ∧ s ∈ l.
Proof. unfold at_path. by rewrite list_elem_of_filter. Qed.

(** A successful [_apply], section by section. *)
Lemma apply_Ok_stored d pending d' b :
  NoDup (key <$> pending) → _apply d pending = (Ok (), d', b) →
  (∀ s, s ∈ pending → ∃ sec sec',
     stored d (real_path s) (entity_type s) = Ok sec ∧
     stored d' (real_path s) (entity_type s) = Ok sec' ∧
     apply_buffer_to (_buffer s) sec = Ok sec') ∧
  (∀ p et, (p, et) ∉ key <$> pending → stored d' p et = stored d p et).
Proof.
  intros Hnd Ha. set (l := sorted_by strategy_le pending).
  assert (NoDup (key <$> l)) as Hnd' by (unfold l; by rewrite sorted_by_perm).
  split.
  - intros s Hs. pose proof (apply_Ok_contents _ _ _ _ (real_path s) Ha) as Hc. fold l in Hc.
    assert (s ∈ at_path (real_path s) l) as Hin
      by (apply elem_of_at_path; unfold l; by rewrite sorted_by_perm).
    destruct (at_path (real_path s) l) as [|s0 ss] eqn:Hat; [by apply not_elem_of_nil in Hin|].
    destruct Hc as (full & full' & Hp & Hap & Hc').
    apply apply_strategies_spec in Hap as [Hap _]; [|rewrite <- Hat; by apply at_path_NoDup].
    exists (section_of (entity_type s) full), (section_of (entity_type s) full').
    rewrite !stored_contents, Hc'. split_and!; [by apply parse_section|..|by apply Hap].
    by apply (parse_section (Json (JDict full'))).
  - intros p et Hni. pose proof (apply_Ok_contents _ _ _ _ p Ha) as Hc. fold l in Hc.
    destruct (at_path p l) as [|s0 ss] eqn:Hat; [by rewrite !stored_contents, Hc|].
    destruct Hc as (full & full' & Hp & Hap & Hc').
    apply apply_strategies_spec in Hap as [_ Hap]; [|rewrite <- Hat; by apply at_path_NoDup].
    rewrite !stored_contents, Hc', (parse_section _ _ et Hp). cbn [default].
    rewrite (parse_section (Json (JDict full')) full') by done. f_equal. apply Hap.
    rewrite <- Hat. intros (s & -> & [<- Hs]%elem_of_at_path)%list_elem_of_fmap. apply Hni.
    unfold l in Hs. rewrite sorted_by_perm in Hs. apply list_elem_of_fmap. by exists s.
Qed.

(** The buffer of a pending strategy that would not validate against its file
    stops the commit before anything is written. *)
Lemma apply_stale d pending s sec e :
  NoDup (key <$> pending) → s ∈ pending →
  stored d (real_path s) (entity_type s) = Ok sec → apply_buffer_to (_buffer s) sec = Err e →
  ∃ e' b, _apply d pending = (Err e', d, b).
Proof.
  intros Hnd Hs Hst Hab.
  destruct (mapM_result (plan_group d) (groups_of (sorted_by strategy_le pending)))
    as [plans|e'] eqn:Hp; [exfalso|by apply apply_invalid in Hp as [b ?]; eauto].
  assert (s ∈ at_path (real_path s) (sorted_by strategy_le pending)) as Hin
    by (apply elem_of_at_path; by rewrite sorted_by_perm).
  destruct (plan_exists _ _ _ Hp (real_path s)) as (pl & Hpl & Hpath);
    [intros H; rewrite H in Hin; by apply not_elem_of_nil in Hin|].
  pose proof (elem_of_plans _ _ _ Hp pl Hpl) as (_ & _ & _ & full & Hpf & Hap)%plan_group_inv.
  rewrite Hpath in *. apply apply_strategies_spec in Hap as [Hap _].
  2: { apply at_path_NoDup. by rewrite sorted_by_perm. }
  specialize (Hap s Hin). rewrite stored_contents, (parse_section _ _ _ Hpf) in Hst.
  injection Hst as <-. congruence.
Qed.

Lemma filter_keys (P : strategy → Prop) `{∀ s, Decision (P s)} l :
  NoDup (key <$> l) → NoDup (key <$> filter P l).
Proof.
  intros Hnd. eapply sublist_NoDup; [exact Hnd|]. apply fmap_sublist, sublist_filter.
Qed.

Lemma no_writes_overlay s sec : has_buffered_writes s = false → foldl overlay sec (_buffer s) = sec.
Proof. unfold has_buffered_writes. by destruct (_buffer s). Qed.

Lemma stale_entry_fails b sec i st :
  dget i b = Some st →
  conflict st = true ∨ (∃ e, expected st = Some e ∧ _check_expected i (dget i sec) e ≠ Ok ()) →
  ∃ e, apply_buffer_to b sec = Err e.
Proof.
  intros Hi Hbad. destruct Hbad as [Hc|(e & He & Hne)]; [by eapply conflict_fails|].
  unfold apply_buffer_to. revert Hi. generalize (Ok sec : result section).
  induction b as [|[k st'] b IH]; [done|]. intros acc Hi. simpl in *.
  case_decide as Hk; [subst k; injection Hi as ->|by apply IH].
  destruct acc as [acc|e0]; simpl; [|eexists; apply apply_staged_Err].
  destruct (conflict st); [eexists; apply apply_staged_Err|]. rewrite He.
  destruct (_check_expected i (dget i sec) e) as [[]|e0]; [done|].
  eexists. apply apply_staged_Err.
Qed.

(** The state a scope is in after any commit or rollback. *)
Definition idle (sc : scope) : Prop :=
  _active sc = false ∧ _after_commit sc = [] ∧ Forall (λ s, _buffer s = []) (_strategies sc).

Lemma discard_idle sc : _active sc = false → idle (_discard sc).
Proof.
  intros Ha. split; [done|]. split; [done|]. simpl. apply Forall_fmap, Forall_true. done.
Qed.

Definition pending_of (sc : scope) : list strategy :=
  filter (λ s, has_buffered_writes s = true) (_strategies sc).

Lemma elem_of_pending sc s :
  s ∈ pending_of sc ↔ s ∈ _strategies sc ∧ has_buffered_writes s = true.
Proof. unfold pending_of. rewrite list_elem_of_filter. tauto. Qed.

(** What [commit] does, by the outcome of [_apply]. *)
Lemma commit_inv d h sc r d' h' sc' :
  _active sc = true → commit d h sc = (r, d', h', sc') →
  idle sc' ∧
  (r = Ok () ∧ h' = foldl run_callback h (_after_commit sc) ∧
     (pending_of sc = [] ∧ d' = d ∨
      ∃ b, _apply d (pending_of sc) = (Ok (), d', b)) ∨
   ∃ e b, r = Err e ∧ h' = h ∧ _apply d (pending_of sc) = (Err e, d', b)).
Proof.
  intros Hact. unfold commit. rewrite Hact. simpl. fold (pending_of sc).
  set (o := match pending_of sc with [] => _ | _ => _ end).
  destruct o as [[r1 d1] b] eqn:Ho.
  assert (r1 = Ok () ∧ pending_of sc = [] ∧ d1 = d ∨ _apply d (pending_of sc) = (r1, d1, b)) as Hc.
  { subst o. destruct (pending_of sc); [left; naive_solver|by right]. }
  destruct r1 as [[]|e]; intros [= <- <- <- <-]; (split; [by apply discard_idle|]).
  - left. split; [done|]. split; [done|]. destruct Hc as [(_ & ? & ?)|Hc]; [by left|eauto].
  - right. destruct Hc as [(? & _)|Hc]; [done|eauto].
Qed.

(** ** Theorems *)

(** C33: A successful commit stores, for every strategy of the unit of work, its
    section with the buffered writes laid over it (each buffer having validated
    against the file), leaves every other section of every file as it was, moves
    the aggregates' baselines in the order they were deferred, and leaves the
    scope idle with empty buffers.  The files may be shared between strategies. *)
Theorem commit_refines_transaction d h sc d' h' sc' :
  _active sc = true → NoDup (key <$> _strategies sc) →
  commit d h sc = (Ok (), d', h', sc') →
  (∀ s sec, s ∈ _strategies sc → stored d (real_path s) (entity_type s) = Ok sec →
     stored d' (real_path s) (entity_type s) = Ok (foldl overlay sec (_buffer s)) ∧
     apply_buffer_to (_buffer s) sec = Ok (foldl overlay sec (_buffer s))) ∧
  (∀ p et, (p, et) ∉ key <$> _strategies sc → stored d' p et = stored d p et) ∧
  h' = foldl run_callback h (_after_commit sc) ∧ idle sc'.
Proof.
  intros Hact Hnd Hcm. apply commit_inv in Hcm as (Hidle & Hcm); [|done].
  destruct Hcm as [(_ & -> & Hcase)|(? & ? & ? & _)]; [|done].
  assert (NoDup (key <$> pending_of sc)) as Hnd' by by apply filter_keys.
  split; [|split; [|done]].
  - intros s sec Hs Hst. destruct (has_buffered_writes s) eqn:Hw.
    + assert (s ∈ pending_of sc) as Hp by by apply elem_of_pending.
      destruct Hcase as [[Hnil _]|[b Ha]]; [rewrite Hnil in Hp; by apply not_elem_of_nil in Hp|].
      destruct (proj1 (apply_Ok_stored _ _ _ _ Hnd' Ha) s Hp) as (sec0 & sec' & Hst0 & Hst' & Hab).
      rewrite Hst in Hst0. injection Hst0 as <-.
      rewrite <- (apply_buffer_overlay _ _ _ Hab). done.
    + rewrite no_writes_overlay by done. unfold has_buffered_writes in Hw.
      destruct (_buffer s) eqn:Hb; [|done]. split; [|done].
      destruct Hcase as [[_ ->]|[b Ha]]; [done|].
      rewrite (proj2 (apply_Ok_stored _ _ _ _ Hnd' Ha)); [done|].
      intros (s' & Hk & [Hs' Hw']%elem_of_pending)%list_elem_of_fmap.
      assert (s' = s) as ->.
      { apply list_elem_of_lookup in Hs as [i Hi], Hs' as [j Hj].
        assert (i = j) as ->; [|congruence].
        eapply NoDup_lookup; [exact Hnd|..]; rewrite list_lookup_fmap; [by rewrite Hi|].
        rewrite Hj. simpl. by rewrite <- Hk. }
      unfold has_buffered_writes in Hw'. by rewrite Hb in Hw'.
  - intros p et Hni. destruct Hcase as [[_ ->]|[b Ha]]; [done|].
    apply (proj2 (apply_Ok_stored _ _ _ _ Hnd' Ha)).
    intros (s & Hk & [Hs _]%elem_of_pending)%list_elem_of_fmap. apply Hni.
    apply list_elem_of_fmap. by exists s.
Qed.

(** C32: A commit that fails changes nothing.  Whatever made it fail (a conflict, a
    file that does not parse, a write that failed), if no second write fails
    during the restore then every file holds the content it held before, or is
    absent as before; no baseline moved; and the scope is idle, its buffers
    discarded. *)
Theorem commit_all_or_nothing d h sc e d' h' sc' :
  _active sc = true → (fault_count (faults d) ≤ 1)%nat →
  commit d h sc = (Err e, d', h', sc') →
  (∀ p, contents d' p = contents d p) ∧ h' = h ∧ idle sc'.
Proof.
  intros Hact Hfl (Hidle & [(? & _)|(? & b & _ & -> & Ha)])%commit_inv; [done| |done].
  split; [|done]. intros p. by eapply apply_Err_contents.
Qed.

(** A stale baseline anywhere aborts the whole unit of work: if one strategy
    staged a write of a record from a version the file no longer has (or staged
    conflicting baselines), the commit raises and the disk is untouched, the
    files of the other strategies included, even if writes would have failed. *)
Theorem stale_baseline_aborts_commit d h sc s sec i st :
  _active sc = true → NoDup (key <$> _strategies sc) → s ∈ _strategies sc →
  stored d (real_path s) (entity_type s) = Ok sec →
  dget i (_buffer s) = Some st →
  conflict st = true ∨ (∃ e, expected st = Some e ∧ _check_expected i (dget i sec) e ≠ Ok ()) →
  ∃ err, (commit d h sc).1.1.1 = Err err ∧ (commit d h sc).1.1.2 = d ∧ (commit d h sc).1.2 = h.
Proof.
  intros Hact Hnd Hs Hst Hi Hbad.
  assert (∃ e, apply_buffer_to (_buffer s) sec = Err e) as [e He].
  { by eapply stale_entry_fails. }
  assert (s ∈ pending_of sc) as Hp.
  { apply elem_of_pending. split; [done|]. unfold has_buffered_writes.
    by destruct (_buffer s). }
  destruct (apply_stale d (pending_of sc) s sec e) as (e' & b & Ha);
    [by apply filter_keys|done..|].
  destruct (commit d h sc) as [[[r d'] h'] sc'] eqn:Hc.
  apply commit_inv in Hc as (_ & [(_ & _ & [[Hn _]|[b' Ha']])|(e2 & b2 & -> & -> & Ha')]);
    [rewrite Hn in Hp; by apply not_elem_of_nil in Hp|congruence| |done].
  rewrite Ha in Ha'. injection Ha' as <- <- <-. by exists e'.
Qed.

Section write_order.
Context (has_puts : bool).

Lemma write_le_total p q : write_le has_puts p q = true ∨ write_le has_puts q p = true.
Proof.
  unfold write_le.
  destruct (xorb (holds_anchor p) _), (xorb (holds_anchor q) _); auto using String.leb_total.
Qed.

Lemma write_le_trans p q r :
  write_le has_puts p q = true → write_le has_puts q r = true → write_le has_puts p r = true.
Proof.
  unfold write_le. destruct (xorb (holds_anchor p) _), (xorb (holds_anchor q) _),
    (xorb (holds_anchor r) _); try done; apply string_leb_trans.
Qed.
End write_order.

(** The request file is never behind.  However far a commit gets with its
    writes before it stops, a commit that stores rows has replaced the file that
    holds the requests before any other, and a commit that only deletes replaces
    it after every other, so no file on disk refers to requests that are not
    there. *)
Theorem anchor_never_behind has_puts plans n p q :
  p ∈ plans → q ∈ plans → holds_anchor p = true → holds_anchor q = false →
  let written := take n (sorted_by (write_le has_puts) plans) in
  if has_puts then q ∈ written → p ∈ written else p ∈ written → q ∈ written.
Proof.
  intros Hp Hq Hap Haq written. set (order := sorted_by (write_le has_puts) plans) in *.
  assert (StronglySorted (λ x y, write_le has_puts x y = true) order) as Hs
    by (apply sorted_by_sorted; [apply write_le_total|apply write_le_trans]).
  assert (∀ x y, y ∈ order → x ∈ written → y ∉ written → write_le has_puts x y = true) as Hle.
  { intros x y Hy Hx Hny. rewrite <- (take_drop n order) in Hy, Hs.
    fold written in Hy, Hs. apply elem_of_app in Hy as [?|Hy]; [done|].
    exact (StronglySorted_app_1_elem_of _ _ _ _ _ Hs Hx Hy). }
  assert (p ∈ order ∧ q ∈ order) as [Hp' Hq'] by (unfold order; by rewrite !sorted_by_perm).
  unfold write_le in Hle. destruct has_puts.
  - intros Hw. destruct (decide (p ∈ written)) as [|Hn]; [done|].
    specialize (Hle q p Hp' Hw Hn). by rewrite Hap, Haq in Hle.
  - intros Hw. destruct (decide (q ∈ written)) as [|Hn]; [done|].
    specialize (Hle p q Hq' Hw Hn). by rewrite Hap, Haq in Hle.
Qed.

(** ** Histories

    Several units of work, in one process or in several, share a disk; besides
    their calls the history may hold changes to a data file made outside
    ([External], [Unlink]), the passing of time and the announcement of write
    faults. *)

Inductive strat_op :=
| OpSave (entity_id : string) (data : row)
| OpSaveVersionedBatch (items : list versioned_item)
| OpSaveBatch (entities : dict row)
| OpDelete (entity_id : string)
| OpDeleteBatch (entity_ids : list string)
| OpFindById (entity_id : string)
| OpFindAll
| OpExists (entity_id : string)
| OpCount
| OpCleanup.

Definition run_strat_op (active : bool) (d : disk) (s : strategy) (o : strat_op)
  : disk * strategy :=
  match o with
  | OpSave i data => let '(_, d', s') := save active d s i data in (d', s')
  | OpSaveVersionedBatch items =>
      let '(_, d', s') := save_versioned_batch active d s items in (d', s')
  | OpSaveBatch entities => let '(_, d', s') := save_batch active d s entities in (d', s')
  | OpDelete i => let '(_, d', s') := delete_entity active d s i in (d', s')
  | OpDeleteBatch ids => let '(_, d', s') := delete_batch active d s ids in (d', s')
  | OpFindById i => let '(_, d', s') := find_by_id d s i in (d', s')
  | OpFindAll => let '(_, d', s') := find_all d s in (d', s')
  | OpExists i => let '(_, d', s') := exists_entity d s i in (d', s')
  | OpCount => let '(_, d', s') := count d s in (d', s')
  | OpCleanup => (d, cleanup s)
  end.

Definition backups_ok (d : disk) : Prop :=
  ∀ p l, backups d !! p = Some l → Forall (λ b, ∃ full, parse_file b.2 = Ok full) l.

(** What every operation on a strategy preserves. *)
Definition op_ok (d : disk) (s : strategy) (d' : disk) (s' : strategy) : Prop :=
  sound_step d s d' s' ∧ (backups_ok d → backups_ok d') ∧
  (dict_wf (_buffer s) → dict_wf (_buffer s')).

Lemma create_backup_ok en n d p full :
  parse_file (read_file_with_signature d p).1 = Ok full →
  backups_ok d → backups_ok (create_backup en n d p).
Proof.
  unfold create_backup, read_file_with_signature, list_backups. intros Hp Hb.
  destruct (files d !! p) as [f|]; [|done]. simpl in Hp.
  destruct (negb en); [done|]. case_match; [done|].
  intros q l. simpl. destruct (decide (p = q)) as [<-|Hne].
  - rewrite lookup_insert_eq. intros [= <-]. unfold _cleanup_old_backups. apply Forall_take.
    constructor; [by exists full|]. apply Forall_forall. intros b [_ Hin]%list_elem_of_filter.
    destruct (backups d !! p) as [l|] eqn:Hl; simpl in Hin; [|by apply not_elem_of_nil in Hin].
    specialize (Hb _ _ Hl). rewrite Forall_forall in Hb. by apply Hb.
  - rewrite lookup_insert_ne by done. apply Hb.
Qed.

Lemma mutate_backups {R} d s (f : section → result (bool * section * R)) what r d' s' :
  _mutate d s f what = (r, d', s') → backups_ok d → backups_ok d'.
Proof.
  unfold _mutate. destruct (read_file_with_signature d (real_path s)) as [c sg] eqn:Hr.
  destruct (parse_file c) as [full|e] eqn:Hp; [|by intros [= <- <- <-]].
  destruct (f _) as [[[[] w] x]|ex].
  2: by intros [= <- <- <-].
  2: by destruct ex; intros [= <- <- <-].
  intros Hw Hb.
  eapply (create_backup_ok (backup_enabled s) (backup_count s) d (real_path s)) in Hb;
    [|by rewrite Hr].
  revert Hw. destruct (write_file _ _ _) as [[[]|e] d2] eqn:Hw; intros [= <- <- <-];
    apply write_file_contents in Hw as (_ & Hb' & _); unfold backups_ok; by rewrite Hb'.
Qed.

Lemma load_backups d s r d' s' : _load_data d s = (r, d', s') → backups d' = backups d.
Proof.
  unfold _load_data, load_fresh, _recover_from_backup.
  destruct (read_file_with_signature d (real_path s)) as [c sg].
  intros H. repeat (case_match; simplify_eq/=; try done).
  all: match goal with
       | Hw : write_file ?d0 _ _ = _ |- _ => by apply write_file_contents in Hw as (_ & -> & _)
       end.
Qed.

Lemma mutate_op_ok {R} d s (f : section → result (bool * section * R)) what :
  disk_ok d → cache_ok d s →
  let '(_, d', s') := _mutate d s f what in op_ok d s d' s'.
Proof.
  intros Hd Hc. destruct (_mutate d s f what) as [[r d'] s'] eqn:Hm.
  pose proof (mutate_sound _ _ _ _ _ _ _ Hd Hc Hm) as [Hs Hb].
  split; [done|]. split; [by eapply mutate_backups|by rewrite Hb].
Qed.

Lemma load_op_ok d s :
  disk_ok d → cache_ok d s → let '(_, d', s') := _load_data d s in op_ok d s d' s'.
Proof.
  intros Hd Hc. pose proof (load_data_spec d s Hd Hc) as Hl.
  destruct (_load_data d s) as [[r d'] s'] eqn:Hm. destruct Hl as (Hs & Hb & _).
  split; [done|]. split; [|by rewrite Hb]. unfold backups_ok. by rewrite (load_backups _ _ _ _ _ Hm).
Qed.

Lemma buffer_op_ok d s b :
  cache_ok d s → (dict_wf (_buffer s) → dict_wf b) → op_ok d s d (s <| _buffer := b |>).
Proof. intros Hc Hw. split; [by split|]. by split. Qed.

Lemma foldl_stage_wf {A} (f : buffer → A → buffer) l b :
  (∀ b x, dict_wf b → dict_wf (f b x)) → dict_wf b → dict_wf (foldl f b l).
Proof. intros Hf. revert b. induction l as [|x l IH]; simpl; auto. Qed.

Lemma run_strat_op_ok active d s o :
  disk_ok d → cache_ok d s →
  let '(d', s') := run_strat_op active d s o in op_ok d s d' s'.
Proof.
  intros Hd Hc. destruct o; simpl; unfold save, save_versioned_batch, save_batch, delete_entity,
    delete_batch, find_by_id, find_all, exists_entity, count, _lookup, _visible_records.
  1-5: try match goal with |- context [match ?l with [] => _ | _ => _ end] =>
         destruct l; [by split; [by split|]|] end;
       destruct active;
       [apply buffer_op_ok; [done|];
        first [apply dict_wf_dset | apply foldl_stage_wf; intros; apply dict_wf_dset; done]
       |match goal with |- context [_mutate _ _ ?f ?w] =>
          pose proof (mutate_op_ok d s f w Hd Hc) as H;
          by destruct (_mutate d s f w) as [[? ?] ?] end].
  1-4: try destruct (dget _ (_buffer s)); [try by split; [by split|]|..];
       pose proof (load_op_ok d s Hd Hc) as H; by destruct (_load_data d s) as [[? ?] ?].
  split; [by split|]. split; [done|]. intros _. apply NoDup_nil_2.
Qed.

(** *** The commit in a history *)

Lemma backup_groups_ok d plans :
  (∀ pl, pl ∈ plans → ∃ full, parse_file (read_file_with_signature d (pl_path pl)).1 = Ok full) →
  backups_ok d → backups_ok (foldl backup_group d plans).
Proof.
  revert d. induction plans as [|pl plans IH]; intros d Hp Hb; simpl; [done|].
  apply IH.
  - intros pl' Hin. destruct (Hp pl') as [full Hf]; [by right|]. exists full.
    unfold backup_group, read_file_with_signature in *. destruct (pl_strategies pl); [done|].
    by rewrite (proj1 (create_backup_files _ _ _ _)).
  - destruct (Hp pl) as [full Hf]; [by left|]. unfold backup_group.
    destruct (pl_strategies pl); [done|]. by eapply create_backup_ok.
Qed.

Lemma buffers_apply_sound d pending r d' b :
  _apply d pending = (r, d', b) → evolves d d' ∧ (backups_ok d → backups_ok d').
Proof.
  unfold _apply.
  destruct (mapM_result _ _) as [plans|e] eqn:Hp.
  2: by destruct e; intros [= <- <- <-].
  destruct (backups_files plans d) as (Hf & Hn & _).
  assert (evolves d (foldl backup_group d plans)) as He by by apply evolves_same.
  assert (backups_ok d → backups_ok (foldl backup_group d plans)) as Hb.
  { apply backup_groups_ok. intros pl Hin. apply (elem_of_plans _ _ _ Hp) in Hin.
    apply plan_group_inv in Hin as (_ & _ & _ & full & ? & _). rewrite contents_read. eauto. }
  destruct (write_plans _ _ []) as [[r2 d2] w] eqn:Hw.
  apply write_plans_spec in Hw as (He2 & Hb2 & _).
  2: { rewrite sorted_by_perm. by eapply plans_NoDup. }
  assert (backups_ok d → backups_ok d2) as Hb3 
    by (intros Hb0; unfold backups_ok; rewrite Hb2; exact (Hb Hb0)).
  destruct r2 as [[]|e]; intros [= <- <- <-]; [split; [by etrans|done]|].
  destruct (restore_evolves w d2) as [He3 Hb4].
  split; [etrans; [exact He|by etrans]|]. intros ?. unfold backups_ok. rewrite Hb4. by apply Hb3.
Qed.

(** What holds of every strategy of a scope, whatever the history. *)
Definition scope_ok (d : disk) (sc : scope) : Prop :=
  Forall (λ s, cache_ok d s ∧ dict_wf (_buffer s)) (_strategies sc).

Lemma scope_ok_evolves d d' sc : evolves d d' → scope_ok d sc → scope_ok d' sc.
Proof.
  intros He Hs. eapply Forall_impl; [exact Hs|]. intros s [? ?].
  split; [by eapply cache_ok_evolves|done].
Qed.

Lemma discard_ok d sc : scope_ok d sc → scope_ok d (_discard sc).
Proof.
  intros H. unfold scope_ok. simpl. apply Forall_fmap. eapply Forall_impl; [exact H|].
  intros s [? _]. split; [done|apply NoDup_nil_2].
Qed.

Lemma commit_sound d h sc :
  scope_ok d sc →
  let '(_, d', _, sc') := commit d h sc in
  evolves d d' ∧ (backups_ok d → backups_ok d') ∧ scope_ok d' sc'.
Proof.
  intros Hsc. unfold commit. destruct (negb (_active sc)); [done|].
  set (o := match filter _ _ with [] => _ | _ => _ end).
  assert (let '(_, d', _) := o in evolves d d' ∧ (backups_ok d → backups_ok d')) as Ho.
  { subst o. destruct (filter _ _) as [|s0 l]; [done|].
    destruct (_apply d (s0 :: l)) as [[r d'] b] eqn:Ha. by eapply buffers_apply_sound. }
  destruct o as [[r d'] b]. destruct Ho as [He Hb].
  set (dropped := _ <$> _strategies sc).
  assert (scope_ok d' (_discard (sc <| _strategies := dropped |> <| _active := false |>))) as Hd.
  { apply discard_ok. apply (scope_ok_evolves d d'); [done|]. unfold scope_ok. simpl.
    apply Forall_fmap. eapply Forall_impl; [exact Hsc|]. intros s [? ?]. simpl.
    by destruct (b && _). }
  by destruct r as [[]|].
Qed.

Record world := mk_world { w_disk : disk; w_heap : heap; w_scopes : list scope }.

Inductive world_op :=
| Call (n k : nat) (o : strat_op)      (* on strategy [k] of scope [n] *)
| Begin (n : nat)
| Commit (n : nat)
| Rollback (n : nat)
| External (path : string) (c : content)
| Unlink (path : string)
| Tick (stamp : string) (fs : list bool).

Definition world_step (w : world) (o : world_op) : world :=
  let d := w_disk w in
  match o with
  | Call n k o =>
      match w_scopes w !! n with
      | Some sc =>
          match _strategies sc !! k with
          | Some s =>
              let '(d', s') := run_strat_op (_active sc) d s o in
              mk_world d' (w_heap w)
                (<[n := sc <| _strategies := <[k := s']> (_strategies sc) |>]> (w_scopes w))
          | None => w
          end
      | None => w
      end
  | Begin n =>
      match w_scopes w !! n with
      | Some sc => match begin sc with
                   | Ok sc' => mk_world d (w_heap w) (<[n := sc']> (w_scopes w))
                   | Err _ => w
                   end
      | None => w
      end
  | Commit n =>
      match w_scopes w !! n with
      | Some sc => let '(_, d', h', sc') := commit d (w_heap w) sc in
                   mk_world d' h' (<[n := sc']> (w_scopes w))
      | None => w
      end
  | Rollback n =>
      match w_scopes w !! n with
      | Some sc => mk_world d (w_heap w) (<[n := rollback sc]> (w_scopes w))
      | None => w
      end
  | External path c =>
      mk_world (d <| files := <[path := mk_file c (next_signature d)]> (files d) |>
                  <| next_signature := S (next_signature d) |>) (w_heap w) (w_scopes w)
  | Unlink path =>
      mk_world (d <| files := delete path (files d) |>) (w_heap w) (w_scopes w)
  | Tick stamp fs =>
      mk_world (d <| clock_stamp := stamp |> <| faults := fs |>) (w_heap w) (w_scopes w)
  end.

Definition world_ok (w : world) : Prop :=
  disk_ok (w_disk w) ∧ backups_ok (w_disk w) ∧ Forall (scope_ok (w_disk w)) (w_scopes w).

(** A step that evolves the disk and gives one scope a sound new state. *)
Lemma world_ok_update w d' h' n sc' :
  world_ok w → evolves (w_disk w) d' → (backups_ok (w_disk w) → backups_ok d') →
  scope_ok d' sc' → world_ok (mk_world d' h' (<[n := sc']> (w_scopes w))).
Proof.
  intros (Hd & Hb & Hs) He Hb' Hsc. split; [by eapply evolves_disk_ok|]. split; [by apply Hb'|].
  apply Forall_insert; [|done]. eapply Forall_impl; [exact Hs|].
  intros sc. by apply scope_ok_evolves.
Qed.

Lemma world_ok_disk w d' :
  world_ok w → evolves (w_disk w) d' → backups d' = backups (w_disk w) →
  world_ok (mk_world d' (w_heap w) (w_scopes w)).
Proof.
  intros (Hd & Hb & Hs) He Hb'. split; [by eapply evolves_disk_ok|].
  split; [unfold backups_ok; simpl; by rewrite Hb'|].
  eapply Forall_impl; [exact Hs|]. intros sc. by apply scope_ok_evolves.
Qed.

Lemma external_evolves d path c :
  evolves d (d <| files := <[path := mk_file c (next_signature d)]> (files d) |>
               <| next_signature := S (next_signature d) |>).
Proof.
  split; [simpl; lia|]. intros p. simpl. destruct (decide (path = p)) as [<-|];
    [|left; by apply lookup_insert_ne].
  right; right. eexists. rewrite lookup_insert_eq. split; [done|]. simpl. lia.
Qed.

Lemma unlink_evolves d path : evolves d (d <| files := delete path (files d) |>).
Proof.
  split; [done|]. intros p. simpl.
  destruct (decide (path = p)) as [->|]; [rewrite lookup_delete_eq; auto|].
  rewrite lookup_delete_ne by done. auto.
Qed.

Lemma world_step_ok w o : world_ok w → world_ok (world_step w o).
Proof.
  intros Hw. pose proof Hw as (Hd & Hb & Hs). rewrite Forall_lookup in Hs.
  destruct o as [n k o|n|n|n|path c|path|stamp fs]; simpl;
    try (destruct (w_scopes w !! n) as [sc|] eqn:Hn; [|done]; specialize (Hs _ _ Hn)).
  - destruct (_strategies sc !! k) as [s|] eqn:Hk; [|done].
    destruct (proj1 (Forall_lookup _ _) Hs _ _ Hk) as [Hc Hwf].
    pose proof (run_strat_op_ok (_active sc) (w_disk w) s o Hd Hc) as H.
    destruct (run_strat_op _ _ _ _) as [d' s']. destruct H as ((He & Hc' & _) & Hb' & Hwf').
    apply world_ok_update; [done..|]. unfold scope_ok; simpl. apply Forall_insert; [|by auto].
    by apply (scope_ok_evolves (w_disk w)).
  - unfold begin. destruct (_active sc); [done|].
    apply world_ok_update; [done..|]. by apply discard_ok.
  - pose proof (commit_sound (w_disk w) (w_heap w) sc Hs) as H.
    destruct (commit _ _ _) as [[[r d'] h'] sc']. destruct H as (? & ? & ?).
    by apply world_ok_update.
  - apply world_ok_update; [done..|]. unfold rollback. destruct (negb _); [done|].
    by apply discard_ok.
  - apply world_ok_disk; [done|apply external_evolves|done].
  - apply world_ok_disk; [done|apply unlink_evolves|done].
  - apply world_ok_disk; [done|by apply evolves_same|done].
Qed.

(** C34: No read is stale.  After any history of calls, transactions and
    outside changes to the files, by any number of units of work that share a
    disk, a strategy whose file parses reads exactly the section the file holds
    now, overlaid with its own transaction's writes, and reads it without
    changing the disk; and every backup any of them would fall back on parses. *)
Theorem reads_never_stale w os n sc s sec :
  world_ok w →
  let w' := foldl world_step w os in
  w_scopes w' !! n = Some sc → s ∈ _strategies sc →
  stored (w_disk w') (real_path s) (entity_type s) = Ok sec →
  (find_all (w_disk w') s).1 = (Ok (foldl overlay sec (_buffer s)), w_disk w') ∧
  backups_ok (w_disk w').
Proof.
  intros Hw w' Hn Hs Hst.
  assert (world_ok w') as (Hd & Hb & Hsc).
  { subst w'. clear -Hw. revert w Hw. induction os as [|o os IH]; intros w Hw; simpl; [done|].
    by apply IH, world_step_ok. }
  split; [|done]. rewrite Forall_lookup in Hsc. specialize (Hsc _ _ Hn).
  destruct (proj1 (Forall_forall _ _) Hsc _ Hs) as [Hc _].
  pose proof (load_data_spec _ _ Hd Hc) as Hl. unfold find_all, _visible_records.
  destruct (_load_data (w_disk w') s) as [[r d'] s']. destruct Hl as (_ & _ & _ & Hr).
  by destruct (Hr _ Hst) as [-> ->].
Qed.

Lemma record_saved_spec a v h :
  revision_value (_record_saved a v h) a = Some v ∧ versions (_record_saved a v h) !! agg a = Some v.
Proof.
  unfold _record_saved, revision_value. case_bool_decide as Hv; simpl in *;
    by rewrite ?lookup_insert_eq.
Qed.

(** The state in the middle of [with uow: save_one(...)], before the commit. *)
Lemma save_one_staged k u s i data a :
  _in_transaction u = false → idle (u_scope u) → _strategies (u_scope u) !! k = Some s →
  let v := _written_version data (revision_value (u_heap u) a) in
  let s' := clear_buffer s
              <| _buffer := [(i, mk_staged (Put (dset "version" (JInt v) data))
                                  (revision_value (u_heap u) a) false)] |> in
  let strategies := <[k := s']> (clear_buffer <$> _strategies (u_scope u)) in
  with_uow u (λ u1, save_one k u1 i data a) =
    let '(r, d, h, sc) :=
      commit (u_disk u) (u_heap u) (mk_scope strategies [mk_callback a v] true) in
    (r, mk_uow d h sc false).
Proof.
  intros Ht (Ha & _ & _) Hk v s' strategies.
  unfold with_uow, uow_begin, begin. rewrite Ht. cbn -[commit]. rewrite Ha.
  unfold save_one, on_strategy. cbn -[commit]. rewrite list_lookup_fmap, Hk. cbn -[commit].
  unfold uow_commit, _record_when_committed. cbn -[commit]. fold v s' strategies.
  destruct (commit (u_disk u) (u_heap u) _) as [[[[[]|] ?] ?] ?]; done.
Qed.

(** An aggregate's baseline always names a version that is stored.  Saving an
    aggregate in a unit of work either commits, and then its baseline, its own
    version and the version in the stored row are one and the same number, above
    the baseline it was saved from; or the save raises, and then no baseline moved
    and (absent a second write failure) no file changed. *)
Theorem baseline_names_stored_version k u s i data a :
  _in_transaction u = false → idle (u_scope u) → NoDup (key <$> _strategies (u_scope u)) →
  _strategies (u_scope u) !! k = Some s →
  let '(r, u') := with_uow u (λ u1, save_one k u1 i data a) in
  match r with
  | Ok _ => ∃ v sec,
      revision_value (u_heap u') a = Some v ∧ versions (u_heap u') !! agg a = Some v ∧
      stored (u_disk u') (real_path s) (entity_type s) = Ok sec ∧
      dget i sec = Some (JDict (dset "version" (JInt v) data)) ∧
      (∀ e, revision_value (u_heap u) a = Some e → e < v)
  | Err _ => u_heap u' = u_heap u ∧
      ((fault_count (faults (u_disk u)) ≤ 1)%nat →
       ∀ p, contents (u_disk u') p = contents (u_disk u) p)
  end.
Proof.
  intros Ht Hidle Hnd Hk. rewrite (save_one_staged k u s) by done. cbn zeta.
  set (v := _written_version _ _). set (s' := clear_buffer s <| _buffer := _ |>).
  set (sc := mk_scope _ _ true).
  assert (key <$> _strategies sc = key <$> _strategies (u_scope u)) as Hkeys.
  { unfold sc; simpl. apply list_eq. intros j. rewrite !list_lookup_fmap.
    destruct (decide (k = j)) as [<-|]; [|rewrite list_lookup_insert_ne, list_lookup_fmap by done;
      by destruct (_ !! j)].
    rewrite list_lookup_insert_eq, Hk; [done|]. rewrite length_fmap. by apply lookup_lt_Some in Hk. }
  assert (s' ∈ pending_of sc) as Hs'.
  { apply elem_of_pending. split; [|done]. apply (list_elem_of_lookup_2 _ k).
    apply list_lookup_insert_eq. rewrite length_fmap. by apply lookup_lt_Some in Hk. }
  destruct (commit _ _ sc) as [[[r d'] h'] sc'] eqn:Hc.
  apply commit_inv in Hc as (_ & [(-> & -> & Hcase)|(e & b & -> & -> & Ha)]); [| |done].
  - destruct Hcase as [[Hn _]|[b Ha]]; [rewrite Hn in Hs'; by apply not_elem_of_nil in Hs'|].
    apply apply_Ok_stored in Ha as [Ha _]; [|apply filter_keys; by rewrite Hkeys].
    destruct (Ha s' Hs') as (sec & sec' & _ & Hst & Hab%apply_buffer_overlay).
    exists v, sec'. simpl in *. destruct (record_saved_spec a v (u_heap u)) as [Hr Hv].
    split_and!; [done|done|done| |intros e He; unfold v; rewrite He; apply written_version_gt].
    subst sec'. apply dget_dset_eq.
  - split; [done|]. intros Hfl p. by eapply apply_Err_contents.
Qed.

(** ** Witnesses *)

Definition sample_heap : heap := mk_heap {[ 0%nat := Some 3 ]} {[ 0%nat := 3 ]}.

Definition sample_uow : uow :=
  json_uow sample_disk sample_heap "machines.json" "requests.json" "templates.json" 5 true.

(** A transaction that has staged a machine and a new version of the request. *)
Definition sample_staged : uow :=
  let u1 := (uow_begin sample_uow).2 in
  let u2 := (save_one 1 u1 "req-1" [("status", JStr "complete")] (mk_aggregate 0 0)).2 in
  (save_one 0 u2 "m-1" [("status", JStr "running")] (mk_aggregate 1 1)).2.

Lemma sample_keys : NoDup (key <$> _strategies (u_scope sample_staged)).
Proof. apply (bool_decide_unpack _). vm_compute. exact I. Qed.

Definition sample_requests : strategy :=
  default sample_strategy (_strategies (u_scope sample_staged) !! 1%nat).

Lemma sample_requests_elem : sample_requests ∈ _strategies (u_scope sample_staged).
Proof. by apply (list_elem_of_lookup_2 _ 1%nat). Qed.

Definition sample_commit (d : disk) := commit d (u_heap sample_staged) (u_scope sample_staged).

Lemma commit_refines_transaction_witness :
  stored (sample_commit sample_disk).1.1.2 "requests.json" "requests" =
    Ok [("req-1", JDict [("status", JStr "complete"); ("version", JInt 4)])].
Proof.
  pose proof (commit_refines_transaction sample_disk (u_heap sample_staged)
    (u_scope sample_staged) (sample_commit sample_disk).1.1.2 (sample_commit sample_disk).1.2
    (sample_commit sample_disk).2 eq_refl sample_keys ltac:(vm_compute; reflexivity)) as (Hs & _).
  exact (proj1 (Hs sample_requests
    [("req-1", JDict [("status", JStr "pending"); ("version", JInt 3)])]
    sample_requests_elem eq_refl)).
Defined.

Lemma commit_all_or_nothing_witness :
  let d := sample_disk <| faults := [false; true] |> in
  (sample_commit d).1.1.1 ≠ Ok () ∧
  contents (sample_commit d).1.1.2 "requests.json" = contents d "requests.json".
Proof.
  intros d. split; [by vm_compute|].
  pose proof (commit_all_or_nothing d (u_heap sample_staged) (u_scope sample_staged)
    (StorageError "Failed to write the unit of work to storage")
    (sample_commit d).1.1.2 (sample_commit d).1.2 (sample_commit d).2
    eq_refl ltac:(vm_compute; lia) ltac:(vm_compute; reflexivity)) as (Hc & _).
  apply Hc.
Defined.

Lemma stale_baseline_aborts_commit_witness :
  let d := sample_disk <| files := {[ "requests.json" := mk_file
             (Json (JDict [("requests", JDict [("req-1", JDict [("version", JInt 9)])])])) 0 ]} |> in
  ∃ err, (sample_commit d).1.1.1 = Err err ∧ (sample_commit d).1.1.2 = d.
Proof.
  intros d.
  destruct (stale_baseline_aborts_commit d (u_heap sample_staged) (u_scope sample_staged)
    sample_requests [("req-1", JDict [("version", JInt 9)])] "req-1"
    (mk_staged (Put [("status", JStr "complete"); ("version", JInt 4)]) (Some 3) false)
    eq_refl sample_keys sample_requests_elem eq_refl eq_refl) as (err & H1 & H2 & _).
  - right. exists 3. split; [reflexivity|]. vm_compute. discriminate.
  - by exists err.
Defined.

Definition sample_world : world := mk_world sample_disk sample_heap [u_scope sample_uow].

Lemma sample_world_ok : world_ok sample_world.
Proof.
  split; [|split].
  - intros p f Hp. cbn in Hp. apply lookup_singleton_Some in Hp as [<- <-]. simpl. lia.
  - intros p l Hp. cbn in Hp. by rewrite lookup_empty in Hp.
  - repeat constructor; apply NoDup_nil_2.
Qed.

(** Another process rewrites the request file behind a filled cache. *)
Lemma reads_never_stale_witness :
  let os := [Call 0 1 OpFindAll;
             External "requests.json" (Json (JDict [("requests", JDict [("req-2", JDict [])])]))] in
  let w' := foldl world_step sample_world os in
  ∃ sc s, w_scopes w' !! 0%nat = Some sc ∧ _cache s ≠ None ∧ s ∈ _strategies sc ∧
          (find_all (w_disk w') s).1.1 = Ok [("req-2", JDict [])].
Proof.
  intros os w'.
  set (sc := default (u_scope sample_uow) (w_scopes w' !! 0%nat)).
  set (s := default sample_strategy (_strategies sc !! 1%nat)).
  exists sc, s. split; [by vm_compute|]. split; [by vm_compute|].
  assert (s ∈ _strategies sc) as Hs by by apply (list_elem_of_lookup_2 _ 1%nat).
  split; [done|].
  pose proof (reads_never_stale sample_world os 0%nat sc s [("req-2", JDict [])]
    sample_world_ok eq_refl Hs eq_refl) as [H _].
  change (foldl world_step sample_world os) with w' in H. by rewrite H.
Defined.

Lemma baseline_names_stored_version_witness :
  let u' := (with_uow sample_uow
               (λ u1, save_one 1 u1 "req-1" [("status", JStr "complete")] (mk_aggregate 0 0))).2 in
  ∃ v, revision_value (u_heap u') (mk_aggregate 0 0) = Some v ∧ 3 < v.
Proof.
  pose proof (baseline_names_stored_version 1 sample_uow sample_strategy "req-1"
    [("status", JStr "complete")] (mk_aggregate 0 0) eq_refl
    ltac:(repeat constructor) ltac:(apply (bool_decide_unpack _); vm_compute; exact I) eq_refl) as H.
  destruct (with_uow _ _) as [[[]|e] u'] eqn:Hw.
  - destruct H as (v & sec & Hv & _ & _ & _ & Hlt). exists v. split; [exact Hv|].
    by apply Hlt.
  - exfalso. revert Hw. vm_compute. discriminate.
Defined.

Lemma anchor_never_behind_witness :
  let p := mk_plan "requests.json" [sample_strategy] None [] in
  let q := mk_plan "machines.json" [init "machines.json" "machines" 5 true] None [] in
  let written := take 2 (sorted_by (write_le true) [q; p]) in
  p ∈ written.
Proof.
  intros p q written.
  apply (anchor_never_behind true [q; p] 2 p q); try done; [right; left|left|].
  vm_compute. right. left.
Defined.
