(* ===== verification/Resilience.v ===== *)
(** * Retry and circuit breaker

    [orb/infrastructure/resilience]: the retry loop of [retry_decorator.py] on the
    strategies [strategy/exponential.py] and [strategy/circuit_breaker.py], with
    the classifier registry.  The loop is written against the class
    [RetryStrategy], which both strategies implement.

    A clock reading is an integer number of ticks; the timeouts are in ticks.  The
    delays are not modelled: the loop sleeps for them and decides nothing from
    them, and the readings each attempt makes are given with the attempt, so any
    passing of time is covered. *)

From stdpp Require Import base strings list.
From Stdlib Require Import ZArith Lia.
From S2P Require Import Prelude.
Open Scope Z_scope.

(** ** Classifiers *)

Definition core_is_non_retryable (e : exn) : bool :=
  match e with
  | OtherError c _ => c ∈? ["ProviderNotReadyError"; "OperationNotSupportedError"]
  | _ => false
  end.

(** [is_non_retryable], with the classifiers registered by the providers. *)
Definition is_non_retryable (classifiers : list (exn → bool)) (e : exn) : bool :=
  existsb (λ c, c e) (core_is_non_retryable :: classifiers).

(** ** The strategy interface *)

(** What the loop needs of a strategy whose instance data and shared state are
    [St]: every answer may change the state; past some attempt it never says yes. *)
Class RetryStrategy (St : Type) := {
  should_retry : St → Z → exn → Z → result bool * St;
  get_delay_state : St → Z → St;       (* what [get_delay] does to the state *)
  on_retry_state : St → Z → St;        (* what [on_retry] does to the state *)
  record_success : St → Z → St;
  retry_bound : St → nat;
  should_retry_bound st attempt e t :
    Z.of_nat (retry_bound st) ≤ attempt → (should_retry st attempt e t).1 ≠ Ok true;
  retry_bound_kept st attempt e t :
    retry_bound (should_retry st attempt e t).2 = retry_bound st;
  retry_bound_delay st t : retry_bound (get_delay_state st t) = retry_bound st;
  retry_bound_on_retry st t : retry_bound (on_retry_state st t) = retry_bound st
}.

(** ** The retry loop *)

(** One attempt: what the wrapped function did, and the clock when the strategy
    is asked, when the delay is computed and when the retry is announced. *)
Record attempt_script (A : Type) := mk_attempt {
  outcome : result A;
  t_result : Z;
  t_delay : Z;
  t_retry : Z
}.
Arguments outcome {A} _.
Arguments t_result {A} _.
Arguments t_delay {A} _.
Arguments t_retry {A} _.

(** [wrapper]: [None] when the fuel runs out, else the result, the number of
    calls made and the final state.  [func] gives each attempt's script. *)
Fixpoint wrapper {A St} `{!RetryStrategy St} (max_attempts : Z) (func : nat → attempt_script A)
    (fuel : nat) (attempt : nat) (st : St) : option (result A * nat * St) :=
  match fuel with
  | O => None
  | Datatypes.S fuel' =>
      let a := func attempt in
      match outcome a with
      | Ok v => Some (Ok v, Datatypes.S attempt, record_success st (t_result a))
      | Err e =>
          match should_retry st (Z.of_nat attempt) e (t_result a) with
          | (Err e', st1) => Some (Err e', Datatypes.S attempt, st1)
          | (Ok false, st1) =>
              Some (Err (if max_attempts <=? Z.of_nat attempt
                         then MaxRetriesExceededError (Z.of_nat attempt + 1) e else e),
                    Datatypes.S attempt, st1)
          | (Ok true, st1) =>
              wrapper max_attempts func fuel' (Datatypes.S attempt)
                (on_retry_state (get_delay_state st1 (t_delay a)) (t_retry a))
          end
      end
  end.

(** ** Exponential backoff *)

Record ExponentialBackoffStrategy := mk_exponential {
  eb_max_attempts : Z;
  eb_classifiers : list (exn → bool)
}.

Definition eb_should_retry (st : ExponentialBackoffStrategy) (attempt : Z) (e : exn) : bool :=
  if eb_max_attempts st <=? attempt then false
  else if is_non_retryable (eb_classifiers st) e then false
  else true.

#[export] Program Instance exponential_strategy : RetryStrategy ExponentialBackoffStrategy := {
  should_retry st attempt e t := (Ok (eb_should_retry st attempt e), st);
  get_delay_state st t := st;
  on_retry_state st t := st;
  record_success st t := st;
  retry_bound st := Z.to_nat (eb_max_attempts st)
}.
Next Obligation.
  intros st attempt e t Hle. simpl in *. unfold eb_should_retry.
  destruct (Z.leb_spec (eb_max_attempts st) attempt); [done|]. lia.
Qed.
Next Obligation. done. Qed.
Next Obligation. done. Qed.
Next Obligation. done. Qed.

(** ** The circuit breaker *)

Inductive CircuitState := CLOSED | OPEN | HALF_OPEN.

#[export] Instance CircuitState_eq_dec : EqDecision CircuitState.
Proof. solve_decision. Defined.

Record circuit := mk_circuit {
  state : CircuitState;
  failure_count : Z;
  last_failure_time : option Z;
  last_success_time : option Z;
  half_open_start_time : option Z
}.

Definition circuit_eta (c : circuit) : circuit :=
  mk_circuit (state c) (failure_count c) (last_failure_time c) (last_success_time c)
    (half_open_start_time c).
#[export] Hint Extern 1 (@Setter circuit _ _) => solve_setter circuit_eta : typeclass_instances.

Definition new_circuit : circuit := mk_circuit CLOSED 0 None None None.

Record breaker_config := mk_breaker_config {
  service_name : string;
  failure_threshold : Z;
  reset_timeout : Z;
  half_open_timeout : Z;
  cb_max_attempts : Z;
  cb_classifiers : list (exn → bool)
}.

(** [_get_current_state]: the state, after the time-driven transitions.  A zero
    timestamp is falsy. *)
Definition _get_current_state (cfg : breaker_config) (c : circuit) (current_time : Z) : circuit :=
  match state c with
  | OPEN =>
      match last_failure_time c with
      | Some t =>
          if negb (t =? 0) && (reset_timeout cfg <=? current_time - t)
          then c <| state := HALF_OPEN |> <| half_open_start_time := Some current_time |> else c
      | None => c
      end
  | HALF_OPEN =>
      match half_open_start_time c with
      | Some t =>
          if negb (t =? 0) && (half_open_timeout cfg <=? current_time - t)
          then c <| state := OPEN |> <| half_open_start_time := None |> else c
      | None => c
      end
  | CLOSED => c
  end.

Definition cb_is_open (cfg : breaker_config) (c : circuit) (t : Z) : bool * circuit :=
  let c' := _get_current_state cfg c t in (state c' ≟ OPEN, c').

Definition _force_open (c : circuit) (t : Z) : circuit :=
  c <| state := OPEN |> <| last_failure_time := Some t |>.

Definition record_failure (cfg : breaker_config) (c : circuit) (t : Z) : circuit :=
  let c1 := c <| failure_count := failure_count c + 1 |> <| last_failure_time := Some t |> in
  if (state c1 ≟ CLOSED) && (failure_threshold cfg <=? failure_count c1)
  then c1 <| state := OPEN |> else c1.

Definition cb_record_success (c : circuit) (t : Z) : circuit :=
  let c1 := c <| last_success_time := Some t |> <| failure_count := 0 |> in
  if state c1 ≟ HALF_OPEN then c1 <| state := CLOSED |> <| half_open_start_time := None |> else c1.

Definition cb_should_retry (cfg : breaker_config) (c : circuit) (attempt : Z) (e : exn) (t : Z)
  : result bool * circuit :=
  match e with
  | QuotaError _ => (Ok false, _force_open c t)
  | _ =>
      if is_non_retryable (cb_classifiers cfg) e then (Ok false, c)
      else
        let c1 := _get_current_state cfg (record_failure cfg c t) t in
        match state c1 with
        | OPEN =>
            (Err (CircuitBreakerOpenError (service_name cfg) (failure_count c1)
                    (last_failure_time c1)), c1)
        | HALF_OPEN => (Ok (attempt <? 1), c1)
        | CLOSED => (Ok (negb (cb_max_attempts cfg <=? attempt)), c1)
        end
  end.

(** A strategy instance with the circuit its service name selects. *)
Definition CircuitBreakerStrategy : Type := breaker_config * circuit.

#[export] Program Instance circuit_breaker_strategy : RetryStrategy CircuitBreakerStrategy := {
  should_retry st attempt e t :=
    let '(r, c) := cb_should_retry st.1 st.2 attempt e t in (r, (st.1, c));
  get_delay_state st t := (st.1, _get_current_state st.1 st.2 t);
  on_retry_state st t := (st.1, _get_current_state st.1 st.2 t);
  record_success st t := (st.1, cb_record_success st.2 t);
  retry_bound st := Nat.max 1 (Z.to_nat (cb_max_attempts st.1))
}.
Next Obligation.
  intros [cfg c] attempt e t Hle. unfold cb_should_retry. simpl in *.
  destruct e; simpl; try done; (destruct (is_non_retryable _ _); [done|]);
    destruct (state (_get_current_state _ _ _)); simpl; try done.
  all: try (destruct (Z.leb_spec (cb_max_attempts cfg) attempt); [done|lia]).
  all: destruct (Z.ltb_spec attempt 1); [lia|done].
Qed.
Next Obligation.
  intros [cfg c] attempt e t. simpl. by destruct (cb_should_retry _ _ _ _ _).
Qed.
Next Obligation. done. Qed.
Next Obligation. done. Qed.

(** ** Lemmas *)

Section loop.
Context {A St : Type} `{!RetryStrategy St} (max_attempts : Z) (func : nat → attempt_script A).

(** What a finished run of the loop says about the attempts. *)
Definition run_ok (attempt : nat) (out : result A * nat * St) : Prop :=
  let '(r, calls, _) := out in
  (attempt < calls)%nat ∧
  (∀ k, (attempt ≤ k < calls - 1)%nat → ∃ e, outcome (func k) = Err e) ∧
  (∀ v, r = Ok v ↔ outcome (func (calls - 1)%nat) = Ok v).

Lemma wrapper_runs fuel attempt (st : St) :
  (retry_bound st < attempt + fuel)%nat →
  (retry_bound st ≤ attempt)%nat ∧ fuel ≠ 0%nat ∨ (attempt < retry_bound st)%nat →
  ∃ r calls st', wrapper max_attempts func fuel attempt st = Some (r, calls, st') ∧
    run_ok attempt (r, calls, st') ∧ (calls ≤ Nat.max (S attempt) (S (retry_bound st)))%nat.
Proof.
  revert attempt st. induction fuel as [|fuel IH]; intros attempt st Hf Hcase; [lia|].
  cbn [wrapper]. destruct (outcome (func attempt)) as [v|e] eqn:Ho.
  { do 3 eexists. split; [done|]. unfold run_ok. replace (S attempt - 1)%nat with attempt by lia.
    rewrite Ho. split; [split_and!; [lia|lia|done]|lia]. }
  pose proof (should_retry_bound st (Z.of_nat attempt) e (t_result (func attempt))) as Hb.
  pose proof (retry_bound_kept st (Z.of_nat attempt) e (t_result (func attempt))) as Hk.
  destruct (should_retry st (Z.of_nat attempt) e (t_result (func attempt))) as [[[]|e'] st1].
  2,3: do 3 eexists; split; [done|]; unfold run_ok; replace (S attempt - 1)%nat with attempt by lia;
       rewrite Ho; split; [split_and!; [lia|lia|done]|lia].
  simpl in Hb, Hk. assert (attempt < retry_bound st)%nat as Hlt.
  { destruct (Nat.lt_ge_cases attempt (retry_bound st)) as [|Hge]; [done|]. destruct Hb; [lia|done]. }
  destruct (IH (S attempt) (on_retry_state (get_delay_state st1 (t_delay (func attempt)))
    (t_retry (func attempt)))) as (r & calls & st' & Hw & (H1 & H2 & H3) & Hc).
  - rewrite retry_bound_on_retry, retry_bound_delay. lia.
  - rewrite retry_bound_on_retry, retry_bound_delay. lia.
  - exists r, calls, st'. split; [done|]. rewrite retry_bound_on_retry, retry_bound_delay in Hc.
    split; [|lia]. split_and!; [lia| |done]. intros k Hk'.
    destruct (decide (k = attempt)) as [->|]; [by eexists|]. apply H2. lia.
Qed.
End loop.

(** ** Theorems *)

(** The retry loop always ends.  Whatever the wrapped function does and
    whatever the clock shows, with either strategy (or any other that keeps the
    interface's promise) the loop finishes after at most one call more than the
    strategy's bound: every call before the last one failed, and the caller gets a
    value exactly when the last call returned it.  The fuel of the model is never
    what ends it. *)
Theorem retry_terminates {A St} `{!RetryStrategy St} max_attempts (func : nat → attempt_script A) (st : St) :
  ∃ r calls st', wrapper max_attempts func (S (retry_bound st)) 0 st = Some (r, calls, st') ∧
    (1 ≤ calls ≤ S (retry_bound st))%nat ∧
    (∀ k, (k < calls - 1)%nat → ∃ e, outcome (func k) = Err e) ∧
    (∀ v, r = Ok v ↔ outcome (func (calls - 1)%nat) = Ok v).
Proof.
  destruct (wrapper_runs max_attempts func (S (retry_bound st)) 0 st)
    as (r & calls & st' & Hw & (H1 & H2 & H3) & Hc); [lia|lia|].
  exists r, calls, st'. split_and!; [done|lia|lia|intros k Hk; apply H2; lia|done].
Qed.

(** Exponential backoff gives up exactly when it says.  If every call fails
    with an error no classifier flags, the function is called [max_attempts + 1]
    times and the caller gets [MaxRetriesExceededError] with that number and the
    last error; a flagged error on attempt [k] is re-raised as it is, after
    [k + 1] calls. *)
Theorem exponential_gives_up {A} (st : ExponentialBackoffStrategy) (func : nat → attempt_script A)
    (err : nat → exn) k :
  0 ≤ eb_max_attempts st → (∀ n, outcome (func n) = Err (err n)) →
  (k ≤ Z.to_nat (eb_max_attempts st))%nat →
  (∀ n, (n < k)%nat → is_non_retryable (eb_classifiers st) (err n) = false) →
  k = Z.to_nat (eb_max_attempts st) ∨ is_non_retryable (eb_classifiers st) (err k) = true →
  wrapper (eb_max_attempts st) func (S (Z.to_nat (eb_max_attempts st))) 0 st =
    Some (Err (if decide (k = Z.to_nat (eb_max_attempts st))
               then MaxRetriesExceededError (eb_max_attempts st + 1) (err k) else err k),
          S k, st).
Proof.
  intros Hmax Hall Hk Hretry Hstop.
  assert (∀ j fuel, (j ≤ k)%nat → (k - j < fuel)%nat →
    wrapper (eb_max_attempts st) func fuel j st =
    Some (Err (if decide (k = Z.to_nat (eb_max_attempts st))
               then MaxRetriesExceededError (eb_max_attempts st + 1) (err k) else err k),
          S k, st)) as Hloop; [|apply Hloop; lia].
  intros j fuel Hj Hf. remember (k - j)%nat as d eqn:Hd. revert j fuel Hj Hf Hd.
  induction d as [|d IH]; intros j [|fuel] Hj Hf Hd; try lia; cbn [wrapper]; rewrite Hall; simpl;
    unfold eb_should_retry.
  - assert (j = k) as -> by lia. destruct (Z.leb_spec (eb_max_attempts st) (Z.of_nat k)).
    + rewrite decide_True by lia. do 4 f_equal. f_equal. lia.
    + destruct Hstop as [->|Hstop]; [lia|]. rewrite Hstop. by rewrite decide_False by lia.
  - destruct (Z.leb_spec (eb_max_attempts st) (Z.of_nat j)); [lia|].
    rewrite Hretry by lia. apply IH; lia.
Qed.

(** The circuit opens exactly at the threshold.  From a closed circuit with no
    failures counted, [n] failures in a row leave it closed with [n] counted while
    [n] is below the threshold, and the failure that reaches the threshold opens
    it; a success in between starts the count again. *)
Theorem circuit_opens_at_threshold cfg c times t :
  state c = CLOSED → failure_count c = 0 → 0 < failure_threshold cfg →
  let c' := foldl (record_failure cfg) c times in
  (Z.of_nat (length times) < failure_threshold cfg →
     state c' = CLOSED ∧ failure_count c' = Z.of_nat (length times) ∧
     failure_count (cb_record_success c' t) = 0) ∧
  (Z.of_nat (length times) = failure_threshold cfg → state c' = OPEN).
Proof.
  intros Hs Hf Hth. cbn zeta.
  assert (∀ times c n, state c = CLOSED → failure_count c = n →
    n + Z.of_nat (length times) < failure_threshold cfg →
    state (foldl (record_failure cfg) c times) = CLOSED ∧
    failure_count (foldl (record_failure cfg) c times) = n + Z.of_nat (length times)) as Hbelow.
  { clear. induction times as [|t times IH]; intros c n Hs Hf Hlt; simpl in *; [split; [done|lia]|].
    destruct (IH (record_failure cfg c t) (n + 1)) as [? ?].
    - unfold record_failure; simpl. rewrite Hs, Hf.
      destruct (Z.leb_spec (failure_threshold cfg) (n + 1)); [lia|]. by rewrite andb_false_r.
    - unfold record_failure; simpl. rewrite Hf. by case_match.
    - lia.
    - split; [done|lia]. }
  split.
  - intros Hlt. destruct (Hbelow times c 0 Hs Hf) as [? ?]; [lia|]. split_and!; [done|lia|].
    unfold cb_record_success. by case_match.
  - intros Heq. destruct times as [|t0 times _] using rev_ind; [simpl in *; lia|].
    rewrite length_app in Heq. simpl in Heq. rewrite foldl_app. simpl.
    destruct (Hbelow times c 0 Hs Hf) as [Hs' Hf']; [lia|].
    unfold record_failure at 1. simpl. rewrite Hs', Hf'.
    destruct (Z.leb_spec (failure_threshold cfg) (0 + Z.of_nat (length times) + 1)); [done|lia].
Qed.

Lemma open_failure_stays_open cfg c t :
  0 < reset_timeout cfg → state c = OPEN →
  _get_current_state cfg (record_failure cfg c t) t = record_failure cfg c t ∧
  state (record_failure cfg c t) = OPEN.
Proof.
  intros Hr Hs. unfold record_failure. simpl. rewrite Hs. simpl.
  unfold _get_current_state. simpl. rewrite ?Hs. split; [|done].
  destruct (Z.leb_spec (reset_timeout cfg) (t - t)); [lia|]. by rewrite andb_false_r.
Qed.

(** One wrapped call on an open circuit: the function is called once, and the
    circuit is open afterwards. *)
Lemma wrapper_open {A} max_attempts (func : nat → attempt_script A) fuel cfg c r calls st' :
  0 < reset_timeout cfg → state c = OPEN →
  wrapper max_attempts func fuel 0 ((cfg, c) : CircuitBreakerStrategy) = Some (r, calls, st') →
  calls = 1%nat ∧ st'.1 = cfg ∧ state st'.2 = OPEN.
Proof.
  intros Hr Hs. destruct fuel as [|fuel]; [done|]. cbn [wrapper].
  destruct (outcome (func 0%nat)) as [v|e].
  { intros [= <- <- <-]. simpl. unfold cb_record_success. simpl. by rewrite Hs. }
  simpl. destruct (open_failure_stays_open cfg c (t_result (func 0%nat)) Hr Hs) as [Hg Ho].
  unfold cb_should_retry. rewrite Hg, Ho.
  destruct e; try (intros [= <- <- <-]; done);
    (destruct (is_non_retryable _ _); intros [= <- <- <-]; done).
Qed.

(** Wrapped calls one after the other on the shared circuit. *)
Fixpoint run_calls {A} (max_attempts : Z) (funcs : list (nat → attempt_script A))
    (st : CircuitBreakerStrategy) : nat * CircuitBreakerStrategy :=
  match funcs with
  | [] => (0%nat, st)
  | func :: funcs' =>
      match wrapper max_attempts func (S (retry_bound st)) 0 st with
      | Some (_, calls, st1) =>
          let '(n, st2) := run_calls max_attempts funcs' st1 in ((calls + n)%nat, st2)
      | None => (0%nat, st)
      end
  end.

(** Through the retry decorator alone an open circuit neither blocks calls nor
    ever recovers.  However many wrapped calls are made, at whatever times and
    with whatever outcomes, each one still calls the function exactly once, and
    the circuit is open after all of them: a failure restarts the reset timeout
    before it is looked at, and a success closes only a half-open circuit. *)
Theorem decorator_open_is_forever {A} max_attempts (funcs : list (nat → attempt_script A)) cfg c :
  0 < reset_timeout cfg → state c = OPEN →
  let '(calls, st') := run_calls max_attempts funcs (cfg, c) in
  calls = length funcs ∧ state st'.2 = OPEN.
Proof.
  intros Hr Hs. revert c Hs. induction funcs as [|func funcs IH]; intros c Hs; [done|].
  cbn [run_calls].
  destruct (wrapper_runs max_attempts func (S (retry_bound ((cfg, c) : CircuitBreakerStrategy)))
    0 ((cfg, c) : CircuitBreakerStrategy)) as (r & calls & [cfg' c'] & Hw & _); [lia|lia|].
  rewrite Hw. apply wrapper_open in Hw as (-> & Hcfg & Hc'); [|done|done]. simpl in Hcfg, Hc'.
  subst cfg'. specialize (IH c' Hc'). destruct (run_calls max_attempts funcs (cfg, c')) as [n st'].
  destruct IH as [-> ?]. done.
Qed.

(** While the reset timeout runs the circuit fails fast, and it lets a trial
    call through exactly from its end: [is_open] answers yes before
    [last_failure_time + reset_timeout] and no from then on, moving the circuit to
    half-open. *)
Theorem open_until_reset cfg c t0 t :
  state c = OPEN → last_failure_time c = Some t0 → t0 ≠ 0 →
  (cb_is_open cfg c t).1 = (t <? t0 + reset_timeout cfg) ∧
  (t0 + reset_timeout cfg ≤ t → state (cb_is_open cfg c t).2 = HALF_OPEN).
Proof.
  intros Hs Hl Hne. unfold cb_is_open, _get_current_state. rewrite Hs, Hl.
  rewrite (proj2 (Z.eqb_neq t0 0)) by done. simpl.
  destruct (Z.leb_spec (reset_timeout cfg) (t - t0)); destruct (Z.ltb_spec t (t0 + reset_timeout cfg));
    simpl; try lia; rewrite ?Hs; split; done || lia.
Qed.

(** A failed trial call does not reopen a half-open circuit.  Asked again
    after the one retry half-open allows, within the half-open timeout, the
    strategy refuses and announces that it opens the circuit, but the circuit
    stays half-open and goes on admitting calls. *)
Theorem failed_trial_stays_half_open cfg c t0 attempt m t :
  state c = HALF_OPEN → half_open_start_time c = Some t0 →
  t - t0 < half_open_timeout cfg → 1 ≤ attempt →
  is_non_retryable (cb_classifiers cfg) (RuntimeError m) = false →
  (cb_should_retry cfg c attempt (RuntimeError m) t).1 = Ok false ∧
  state (cb_should_retry cfg c attempt (RuntimeError m) t).2 = HALF_OPEN ∧
  (cb_is_open cfg (cb_should_retry cfg c attempt (RuntimeError m) t).2 t).1 = false.
Proof.
  intros Hs Hh Hlt Ha Hn. unfold cb_should_retry. rewrite Hn.
  assert (_get_current_state cfg (record_failure cfg c t) t = record_failure cfg c t) as Hg.
  { unfold record_failure. simpl. rewrite Hs. simpl. unfold _get_current_state. simpl.
    rewrite ?Hs, Hh. destruct (Z.leb_spec (half_open_timeout cfg) (t - t0)); [lia|].
    by rewrite andb_false_r. }
  assert (state (record_failure cfg c t) = HALF_OPEN) as Hst
    by (unfold record_failure; simpl; by rewrite Hs).
  rewrite Hg, Hst. unfold cb_is_open. cbn [fst snd]. rewrite Hg, Hst.
  split_and!; [|done|done]. f_equal. apply Z.ltb_ge. lia.
Qed.

(** ** Witnesses *)

Definition sample_breaker : breaker_config := mk_breaker_config "ec2" 2 60 30 3 [].
Definition failing : nat → attempt_script unit :=
  λ n, mk_attempt unit (Err (RuntimeError "down")) (1000 + Z.of_nat n) 1000 1000.

Lemma exponential_gives_up_witness :
  wrapper 3 failing 4 0 (mk_exponential 3 []) =
    Some (Err (MaxRetriesExceededError 4 (RuntimeError "down")), 4%nat, mk_exponential 3 []).
Proof.
  apply (exponential_gives_up (mk_exponential 3 []) failing (λ _, RuntimeError "down") 3);
    [done|done|simpl; lia|done|by left].
Defined.

Lemma circuit_opens_at_threshold_witness :
  state (foldl (record_failure sample_breaker) new_circuit [5; 6]) = OPEN.
Proof.
  apply (circuit_opens_at_threshold sample_breaker new_circuit [5; 6] 7); done.
Defined.

Lemma decorator_open_is_forever_witness :
  let '(calls, st') := run_calls 3 [failing; λ n, mk_attempt unit (Ok ()) 90000 0 0; failing]
                         (sample_breaker, _force_open new_circuit 100) in
  calls = 3%nat ∧ state st'.2 = OPEN.
Proof.
  apply (decorator_open_is_forever 3 [failing; λ n, mk_attempt unit (Ok ()) 90000 0 0; failing]
    sample_breaker (_force_open new_circuit 100)); reflexivity.
Defined.

Lemma open_until_reset_witness :
  (cb_is_open sample_breaker (_force_open new_circuit 100) 159).1 = true.
Proof.
  rewrite (proj1 (open_until_reset sample_breaker (_force_open new_circuit 100) 100 159
    eq_refl eq_refl ltac:(done))). reflexivity.
Defined.

Lemma failed_trial_stays_half_open_witness :
  let c := mk_circuit HALF_OPEN 2 (Some 100) None (Some 200) in
  state (cb_should_retry sample_breaker c 1 (RuntimeError "down") 210).2 = HALF_OPEN.
Proof.
  intros c. apply (failed_trial_stays_half_open sample_breaker c 200 1 "down" 210); done.
Defined.
