(* ===== verification/RWLock.v ===== *)
(** * The reader-writer lock of the storage components

    [ReaderWriterLock] of [orb/infrastructure/storage/components/lock_manager.py]
    as a transition system over a fixed set of threads.  Each condition variable
    has its own mutex, as in the code: [_read_ready] guards the readers' check and
    count, [_write_ready] the writers'.  An action is what one thread does without
    another being able to tell: taking a mutex, evaluating a loop condition,
    changing a counter and leaving.  A thread uses the lock once at a time (the
    mutexes being re-entrant never matters then). *)

From stdpp Require Import base list.
From Stdlib Require Import ZArith Lia.
From S2P Require Import Prelude.
Open Scope Z_scope.

(** Where a thread is in the lock's code. *)
Inductive pc :=
| Idle
| ReadCheck                       (* in acquire_read, holding _read_ready, at the loop test *)
| ReadEnter                       (* the test was false: about to count itself *)
| ReadWait (notified : bool)      (* in _read_ready.wait() *)
| Reading                         (* inside the read section *)
| ReadLeave                       (* in release_read, holding _read_ready *)
| WriteCheck                      (* in acquire_write, holding _write_ready, at the loop test *)
| WriteEnter                      (* the test was false: about to count itself *)
| WriteWait (notified : bool)     (* in _write_ready.wait() *)
| Writing                         (* inside the write section *)
| WriteLeave                      (* in release_write, holding _write_ready *)
| WriteNotify.                    (* counted out, about to take _read_ready and notify *)

#[export] Instance pc_eq_dec : EqDecision pc.
Proof. solve_decision. Defined.

Record lock_state := mk_lock {
  _readers : Z;
  _writers : Z;
  _read_ready : option nat;       (* the thread that holds the mutex *)
  _write_ready : option nat;
  threads : list pc
}.

Inductive action := StartRead | StartWrite | Go | Finish.

(** [notify_all] of one condition: its waiters may go on. *)
Definition notify_readers (p : pc) : pc := match p with ReadWait _ => ReadWait true | _ => p end.
Definition notify_writers (p : pc) : pc := match p with WriteWait _ => WriteWait true | _ => p end.

(** [acquire_read], [release_read], [acquire_write], [release_write], one action at
    a time; [None] when the thread cannot take that action now. *)
Definition act (s : lock_state) (t : nat) (a : action) : option lock_state :=
  let 'mk_lock readers writers rr wr ths := s in
  let goto p := <[t := p]> ths in
  p ← ths !! t;
  match p, a with
  | Idle, StartRead =>
      match rr with None => Some (mk_lock readers writers (Some t) wr (goto ReadCheck)) | _ => None end
  | ReadCheck, Go =>
      if 0 <? writers then Some (mk_lock readers writers None wr (goto (ReadWait false)))
      else Some (mk_lock readers writers rr wr (goto ReadEnter))
  | ReadEnter, Go => Some (mk_lock (readers + 1) writers None wr (goto Reading))
  | ReadWait true, Go =>
      match rr with None => Some (mk_lock readers writers (Some t) wr (goto ReadCheck)) | _ => None end
  | Reading, Finish =>
      match rr with None => Some (mk_lock readers writers (Some t) wr (goto ReadLeave)) | _ => None end
  | ReadLeave, Go =>
      Some (mk_lock (readers - 1) writers None wr
              (if readers - 1 =? 0 then notify_readers <$> goto Idle else goto Idle))
  | Idle, StartWrite =>
      match wr with None => Some (mk_lock readers writers rr (Some t) (goto WriteCheck)) | _ => None end
  | WriteCheck, Go =>
      if (0 <? writers) || (0 <? readers)
      then Some (mk_lock readers writers rr None (goto (WriteWait false)))
      else Some (mk_lock readers writers rr wr (goto WriteEnter))
  | WriteEnter, Go => Some (mk_lock readers (writers + 1) rr None (goto Writing))
  | WriteWait true, Go =>
      match wr with None => Some (mk_lock readers writers rr (Some t) (goto WriteCheck)) | _ => None end
  | Writing, Finish =>
      match wr with None => Some (mk_lock readers writers rr (Some t) (goto WriteLeave)) | _ => None end
  | WriteLeave, Go =>
      Some (mk_lock readers (writers - 1) rr wr (notify_writers <$> goto WriteNotify))
  | WriteNotify, Go =>
      match rr with
      | None => Some (mk_lock readers writers rr None (notify_readers <$> goto Idle))
      | Some _ => None
      end
  | _, _ => None
  end.

Definition initial (n : nat) : lock_state := mk_lock 0 0 None None (replicate n Idle).

(** The states [n] threads can reach. *)
Inductive reachable (n : nat) : lock_state → Prop :=
| reach_init : reachable n (initial n)
| reach_step s t a s' : reachable n s → act s t a = Some s' → reachable n s'.

(** A schedule, for evaluation. *)
Definition run_schedule (s : lock_state) (l : list (nat * action)) : option lock_state :=
  foldl (λ o ta, s ← o; act s ta.1 ta.2) (Some s) l.

Lemma run_schedule_reachable n l s s' :
  reachable n s → run_schedule s l = Some s' → reachable n s'.
Proof.
  unfold run_schedule. revert s. induction l as [|[t a] l IH]; intros s Hs; simpl.
  - by intros [= <-].
  - destruct (act s t a) as [s1|] eqn:Ha; [by apply IH; eapply reach_step|].
    clear. intros H. exfalso. induction l; [done|by apply IHl].
Qed.

(** ** Counting threads *)

Definition count (P : pc → bool) (l : list pc) : Z :=
  foldr (λ p n, (if P p then 1 else 0) + n) 0 l.

Lemma count_insert P l t p q :
  l !! t = Some p →
  count P (<[t := q]> l) = count P l - (if P p then 1 else 0) + (if P q then 1 else 0).
Proof.
  revert t. induction l as [|x l IH]; intros [|t] Ht; simplify_eq/=; [lia|].
  rewrite (IH _ Ht). lia.
Qed.

Lemma count_fmap P f l : (∀ p, P (f p) = P p) → count P (f <$> l) = count P l.
Proof.
  intros Hf. induction l as [|p l IH]; [done|]. rewrite fmap_cons. cbn [count foldr].
  rewrite Hf. f_equal. apply IH.
Qed.

Lemma count_nonneg P l : 0 ≤ count P l.
Proof. induction l as [|p l IH]; simpl; [done|]. destruct (P p); lia. Qed.

(** ** The writers' invariant *)

(** Threads that have counted themselves as writers. *)
Definition writing (p : pc) : bool := match p with Writing | WriteLeave => true | _ => false end.

(** Threads that hold [_write_ready]. *)
Definition holds_write_ready (p : pc) : bool :=
  match p with WriteCheck | WriteEnter | WriteLeave | WriteNotify => true | _ => false end.

Definition inv (s : lock_state) : Prop :=
  (∀ t p, threads s !! t = Some p → holds_write_ready p = true → _write_ready s = Some t) ∧
  _writers s = count writing (threads s) ∧
  (∀ t, threads s !! t = Some WriteEnter → _writers s = 0) ∧
  _writers s ≤ 1.

Lemma inv_initial n : inv (initial n).
Proof.
  unfold inv, initial; simpl. split_and!; try lia.
  - intros t p Hp. apply lookup_replicate in Hp as [-> _]. done.
  - induction n; simpl; auto.
Qed.

(** Changing one thread, then waking some, keeps the first clause when the mutex
    moves as the thread's position says. *)
Lemma holders_update (f : pc → pc) (ths : list pc) t p q (owner owner' : option nat) :
  (∀ p, holds_write_ready (f p) = holds_write_ready p) →
  (∀ t p, ths !! t = Some p → holds_write_ready p = true → owner = Some t) →
  ths !! t = Some p →
  (holds_write_ready q = true → owner' = Some t) →
  (owner' = owner ∨ owner = Some t ∨ owner = None) →
  ∀ t' p', (f <$> <[t := q]> ths) !! t' = Some p' → holds_write_ready p' = true → owner' = Some t'.
Proof.
  intros Hf Hold Ht Hq Hown t' p'. rewrite list_lookup_fmap.
  destruct (decide (t = t')) as [<-|Hne].
  - rewrite list_lookup_insert_eq by (by eapply lookup_lt_Some). simpl. intros [= <-].
    rewrite Hf. apply Hq.
  - rewrite list_lookup_insert_ne by done. intros (p0 & Hp0 & ->)%fmap_Some. rewrite Hf.
    intros Hh. pose proof (Hold _ _ Hp0 Hh) as Ho. destruct Hown as [->|[Ho'|Ho']]; congruence.
Qed.

(** A step of the lock, seen by the writers: thread [t] goes from [p] to [q], some
    waiters are woken, and mutex and count move together. *)
Lemma inv_step r r' w rr rr' wr wr' (ths : list pc) t p q (f : pc → pc) w' :
  inv (mk_lock r w rr wr ths) → ths !! t = Some p →
  (∀ p, holds_write_ready (f p) = holds_write_ready p) → (∀ p, writing (f p) = writing p) →
  (∀ p, f p = WriteEnter ↔ p = WriteEnter) →
  (holds_write_ready q = true → wr' = Some t) → (wr' = wr ∨ wr = Some t ∨ wr = None) →
  w' = w - (if writing p then 1 else 0) + (if writing q then 1 else 0) →
  (q = WriteEnter → w' = 0) → (w' = w ∨ wr = Some t) → w' ≤ 1 →
  inv (mk_lock r' w' rr' wr' (f <$> <[t := q]> ths)).
Proof.
  intros (Hhold & Hcount & Henter & Hle) Ht Hf1 Hf2 Hf3 Hq Hown Hw Hqe Hww Hle'. simpl in *.
  split_and!; simpl; [by eapply holders_update| | |done].
  - rewrite count_fmap by done. rewrite (count_insert _ _ _ _ _ Ht), <- Hcount. lia.
  - intros t' Ht'. rewrite list_lookup_fmap in Ht'.
    destruct (decide (t = t')) as [<-|Hne].
    + rewrite list_lookup_insert_eq in Ht' by (by eapply lookup_lt_Some). simpl in Ht'.
      injection Ht' as Hfq. by apply Hqe, Hf3.
    + rewrite list_lookup_insert_ne in Ht' by done.
      apply fmap_Some in Ht' as (p0 & Hp0 & Hfp0). symmetry in Hfp0. apply Hf3 in Hfp0 as ->.
      destruct Hww as [->|Hown']; [by eapply Henter|].
      pose proof (Hhold _ _ Hp0 eq_refl). congruence.
Qed.

Lemma fmap_id_list (l : list pc) : id <$> l = l.
Proof. induction l; simpl; f_equal; auto. Qed.

Lemma act_inv s t a s' : inv s → act s t a = Some s' → inv s'.
Proof.
  intros Hinv. destruct s as [r w rr wr ths]. unfold act.
  destruct (ths !! t) as [p|] eqn:Ht; [|done]. cbn [mbind option_bind].
  pose proof Hinv as (Hhold & Hcount & Henter & Hle). simpl in *.
  assert (0 ≤ w) as Hw0 by (rewrite Hcount; apply count_nonneg).
  destruct p as [| | |[]| | | | |[]| | |], a; try done.
  all: try (destruct rr; [done|]); try (destruct wr; [done|]).
  all: repeat case_match; intros [= <-].
  all: lazymatch goal with
       | |- inv (mk_lock _ _ _ _ (<[_ := _]> _)) => rewrite <- (fmap_id_list (<[t := _]> ths))
       | _ => idtac
       end.
  all: eapply inv_step; [exact Hinv|exact Ht|..]; simpl.
  all: try (by intros []); try done; try lia.
  all: try (intros _; by eapply Hhold); auto.
  all: try (right; left; by eapply Hhold); try (right; by eapply Hhold).
  all: try (rewrite (Henter _ Ht); lia).
Qed.

Lemma reachable_inv n s : reachable n s → inv s.
Proof. induction 1; [apply inv_initial|by eapply act_inv]. Qed.

Lemma count_two P l t1 t2 p1 p2 :
  P Idle = false → t1 ≠ t2 → l !! t1 = Some p1 → l !! t2 = Some p2 → P p1 = true → P p2 = true → 2 ≤ count P l.
Proof.
  intros Hidle Hne H1 H2 HP1 HP2. pose proof (count_insert P l t1 p1 Idle H1) as C1.
  pose proof (count_insert P (<[t1 := Idle]> l) t2 p2 Idle) as C2.
  rewrite list_lookup_insert_ne in C2 by done. specialize (C2 H2).
  pose proof (count_nonneg P (<[t2 := Idle]> (<[t1 := Idle]> l))).
  rewrite HP1, Hidle in C1. rewrite HP2, Hidle in C2. lia.
Qed.

(** ** Theorems *)

(** Writers exclude each other: in every reachable state of any number of
    threads at most one is inside the write section, and the writer count is 0
    or 1. *)
Theorem writers_exclude n s t1 t2 :
  reachable n s → threads s !! t1 = Some Writing → threads s !! t2 = Some Writing → t1 = t2.
Proof.
  intros (_ & Hc & _ & Hle)%reachable_inv H1 H2. destruct (decide (t1 = t2)) as [|Hne]; [done|].
  pose proof (count_two writing (threads s) t1 t2 Writing Writing eq_refl Hne H1 H2
    eq_refl eq_refl). lia.
Qed.

Lemma writers_exclude_witness :
  ∃ s, run_schedule (initial 2) [(0%nat, StartWrite); (0%nat, Go); (0%nat, Go); (1%nat, StartWrite)]
       = Some s ∧ ∀ t, threads s !! t = Some Writing → t = 0%nat.
Proof.
  eexists. split; [vm_compute; reflexivity|]. intros t Ht.
  refine (writers_exclude 2 _ t 0 _ Ht eq_refl).
  eapply (run_schedule_reachable 2
    [(0%nat, StartWrite); (0%nat, Go); (0%nat, Go); (1%nat, StartWrite)]);
    [apply reach_init|vm_compute; reflexivity].
Defined.

(** Readers and writers do not exclude each other.  The reader's test and the
    writer's test are made under different mutexes, so two threads can both pass
    their tests before either counts itself: a state is reachable in which one
    thread reads while another writes. *)
Theorem reader_writer_overlap :
  ∃ s, reachable 2 s ∧ threads s !! 0%nat = Some Reading ∧ threads s !! 1%nat = Some Writing.
Proof.
  eexists. split; [|split].
  - eapply (run_schedule_reachable 2
      [(0%nat, StartRead); (1%nat, StartWrite); (0%nat, Go); (1%nat, Go); (0%nat, Go); (1%nat, Go)]);
      [apply reach_init|vm_compute; reflexivity].
  - reflexivity.
  - reflexivity.
Qed.

(** A state a thread cannot leave by itself. *)
Definition blocked (s : lock_state) (t : nat) : Prop := ∀ a, act s t a = None.

(** A writer can be left waiting for nobody.  The last reader to leave
    notifies the readers' condition only, so a writer that began to wait while it
    was reading is not woken: a state is reachable with no reader, no writer, both
    mutexes free and every other thread idle, in which the waiting writer cannot
    move. *)
Theorem writer_wakeup_lost :
  ∃ s, reachable 2 s ∧ _readers s = 0 ∧ _writers s = 0 ∧
       _read_ready s = None ∧ _write_ready s = None ∧
       threads s = [Idle; WriteWait false] ∧ blocked s 1.
Proof.
  exists (mk_lock 0 0 None None [Idle; WriteWait false]). split; [|split_and!; try reflexivity].
  - eapply (run_schedule_reachable 2
      [(0%nat, StartRead); (0%nat, Go); (0%nat, Go); (1%nat, StartWrite); (1%nat, Go);
       (0%nat, Finish); (0%nat, Go)]);
      [apply reach_init|vm_compute; reflexivity].
  - by intros [].
Qed.
