(* ===== verification/LoadBalancing.v ===== *)
(** * Load balancing over provider strategies

    [orb/providers/base/strategy/load_balancing]: selection among healthy
    strategies by the configured algorithm, request statistics, passive health.
    An operation is two steps, since operations overlap: the selection with the
    start of the request, and its end.  What the selected provider does is an
    input (the success it reports; an exception counts as a failure).  Response
    times are whole milliseconds and an average is kept as sum and number; the
    random choice and the operation hash are inputs.  Left out because no modelled
    operation reads them: the weights (the weighted algorithms fall back to the
    plain ones), the time of the last health check, and the configuration of
    active health checks and connection limits. *)

From stdpp Require Import base strings list numbers relations.
From Stdlib Require Import ZArith Lia.
From S2P Require Import Prelude.
Open Scope Z_scope.

Inductive LoadBalancingAlgorithm :=
| ROUND_ROBIN | WEIGHTED_ROUND_ROBIN | LEAST_CONNECTIONS | LEAST_RESPONSE_TIME
| RANDOM | WEIGHTED_RANDOM | HASH_BASED | ADAPTIVE.

Record LoadBalancingConfig := mk_lb_config {
  algorithm : LoadBalancingAlgorithm;
  unhealthy_threshold : Z;
  recovery_threshold : Z;
  sticky_sessions : bool;
  session_timeout : Z
}.

(** ** Statistics *)

Record StrategyStats := mk_stats {
  active_connections : Z;
  total_requests : Z;
  successful_requests : Z;
  failed_requests : Z;
  consecutive_failures : Z;
  consecutive_successes : Z;
  is_healthy : bool;
  response_times : list Z;             (* at most ten, oldest first *)
  average_response_time : Z * Z        (* sum and number; 0 over 1 at first *)
}.

Definition stats_eta (s : StrategyStats) : StrategyStats :=
  mk_stats (active_connections s) (total_requests s) (successful_requests s) (failed_requests s)
    (consecutive_failures s) (consecutive_successes s) (is_healthy s) (response_times s)
    (average_response_time s).
#[export] Hint Extern 1 (@Setter StrategyStats _ _) => solve_setter stats_eta : typeclass_instances.

Definition fresh_stats : StrategyStats := mk_stats 0 0 0 0 0 0 true [] (0, 1).

Definition record_request_start (s : StrategyStats) : StrategyStats :=
  s <| active_connections := active_connections s + 1 |>
    <| total_requests := total_requests s + 1 |>.

(** [deque(maxlen=10).append]. *)
Definition push_time (t : Z) (l : list Z) : list Z :=
  let l' := l ++ [t] in drop (length l' - 10) l'.

Definition record_request_end (s : StrategyStats) (success : bool) (response_time_ms : Z)
  : StrategyStats :=
  let times := push_time response_time_ms (response_times s) in
  s <| active_connections := Z.max 0 (active_connections s - 1) |>
    <| successful_requests := if success then successful_requests s + 1 else successful_requests s |>
    <| failed_requests := if success then failed_requests s else failed_requests s + 1 |>
    <| consecutive_successes := if success then consecutive_successes s + 1 else 0 |>
    <| consecutive_failures := if success then 0 else consecutive_failures s + 1 |>
    <| response_times := times |>
    <| average_response_time :=
         match times with [] => average_response_time s
         | _ => (foldr Z.add 0 times, Z.of_nat (length times)) end |>.

Definition reset_stats (_ : StrategyStats) : StrategyStats := fresh_stats.

(** [_update_health_status] on one strategy's statistics. *)
Definition _update_health_status (cfg : LoadBalancingConfig) (s : StrategyStats) (success : bool)
  : StrategyStats :=
  s <| is_healthy :=
         if success then
           if recovery_threshold cfg <=? consecutive_successes s then true else is_healthy s
         else
           if unhealthy_threshold cfg <=? consecutive_failures s then false else is_healthy s |>.

(** ** The balancer *)

Record balancer := mk_balancer {
  config : LoadBalancingConfig;
  _stats : dict StrategyStats;         (* one entry per strategy, in order *)
  _round_robin_index : nat;
  _sessions : dict string;
  _session_timestamps : dict Z
}.

Definition balancer_eta (b : balancer) : balancer :=
  mk_balancer (config b) (_stats b) (_round_robin_index b) (_sessions b) (_session_timestamps b).
#[export] Hint Extern 1 (@Setter balancer _ _) => solve_setter balancer_eta : typeclass_instances.

(** [__init__]: strategies keyed by their type, at least one. *)
Definition init (strategies : list string) (cfg : LoadBalancingConfig) : result balancer :=
  match strategies with
  | [] => Err (ValueError "At least one strategy is required for load balancing")
  | _ => Ok (mk_balancer cfg ((λ s, (s, fresh_stats)) <$> dedup_by id strategies) 0 [] [])
  end.

(** What a selection may draw on besides the balancer. *)
Record operation := mk_operation {
  session_id : option string;
  op_hash : Z;                         (* hash of type and parameters *)
  random_draw : nat;                   (* [random.choice]'s draw, reduced to an index *)
  current_time : Z
}.

(** [_get_session_strategy]: expired sessions are dropped first. *)
Definition _get_session_strategy (b : balancer) (sid : string) (now : Z) : option string * balancer :=
  let expired :=
    dkeys (filter (λ kv, session_timeout (config b) < now - kv.2) (_session_timestamps b)) in
  let b' := b <| _sessions := foldl (λ d k, dpop k d) (_sessions b) expired |>
              <| _session_timestamps := foldl (λ d k, dpop k d) (_session_timestamps b) expired |> in
  (dget sid (_sessions b'), b').

Definition _round_robin_selection (b : balancer) (strategies : list string)
  : option string * balancer :=
  (strategies !! (_round_robin_index b mod length strategies)%nat,
   b <| _round_robin_index := Datatypes.S (_round_robin_index b) |>).

Definition stats_of (b : balancer) (s : string) : StrategyStats :=
  default fresh_stats (dget s (_stats b)).

(** The loops of the two least-loaded selections: the first strategy that beats
    every one before it. *)
Fixpoint first_least {K} (lt : K → K → bool) (key : string → K) (best : option (string * K))
    (strategies : list string) : option string :=
  match strategies with
  | [] => fst <$> best
  | s :: strategies' =>
      let better := match best with None => true | Some (_, k) => lt (key s) k end in
      first_least lt key (if better then Some (s, key s) else best) strategies'
  end.

Definition _least_connections_selection (b : balancer) (strategies : list string) : option string :=
  first_least Z.ltb (λ s, active_connections (stats_of b s)) None strategies.

(** [a/n < b/m] for positive [n] and [m]. *)
Definition average_lt (x y : Z * Z) : bool := x.1 * y.2 <? y.1 * x.2.

Definition _least_response_time_selection (b : balancer) (strategies : list string) : option string :=
  first_least average_lt (λ s, average_response_time (stats_of b s)) None strategies.

Definition _random_selection (strategies : list string) (draw : nat) : option string :=
  strategies !! (draw mod length strategies)%nat.

Definition _hash_based_selection (strategies : list string) (h : Z) : option string :=
  strategies !! Z.to_nat (h mod Z.of_nat (length strategies)).

Definition by_algorithm (b : balancer) (op : operation) (strategies : list string)
  : option string * balancer :=
  match algorithm (config b) with
  | ROUND_ROBIN | WEIGHTED_ROUND_ROBIN => _round_robin_selection b strategies
  | LEAST_CONNECTIONS => (_least_connections_selection b strategies, b)
  | LEAST_RESPONSE_TIME | ADAPTIVE => (_least_response_time_selection b strategies, b)
  | RANDOM | WEIGHTED_RANDOM => (_random_selection strategies (random_draw op), b)
  | HASH_BASED => (_hash_based_selection strategies (op_hash op), b)
  end.

(** The healthy strategies, or all of them when none is. *)
Definition candidates (b : balancer) : list string :=
  match dkeys (filter (λ kv, is_healthy kv.2 = true) (_stats b)) with
  | [] => dkeys (_stats b)
  | healthy => healthy
  end.

Definition _select_strategy (b : balancer) (op : operation) : option string * balancer :=
  match candidates b with
  | [] => (None, b)
  | _ =>
      let '(sticky, b') :=
        match session_id op with
        | Some sid => if sticky_sessions (config b)
                      then _get_session_strategy b sid (current_time op) else (None, b)
        | None => (None, b)
        end in
      match sticky with
      | Some s => if negb (s ≟ EmptyString) && (s ∈? candidates b) then (Some s, b') else by_algorithm b' op (candidates b)
      | None => by_algorithm b' op (candidates b)
      end
  end.

Definition update_stats (b : balancer) (s : string) (f : StrategyStats → StrategyStats) : balancer :=
  match dget s (_stats b) with
  | Some st => b <| _stats := dset s (f st) (_stats b) |>
  | None => b
  end.

(** The first half of [execute_operation]. *)
Definition start_operation (b : balancer) (op : operation) : option string * balancer :=
  match _select_strategy b op with
  | (Some s, b') => (Some s, update_stats b' s record_request_start)
  | (None, b') => (None, b')
  end.

(** The second half, when the selected strategy answered (or raised). *)
Definition end_operation (b : balancer) (s : string) (success : bool) (response_time_ms : Z)
  : balancer :=
  update_stats b s (λ st,
    _update_health_status (config b) (record_request_end st success response_time_ms) success).

Definition healthy_count (b : balancer) : Z :=
  Z.of_nat (length (filter (λ kv, is_healthy kv.2 = true) (_stats b))).

(** [get_health_status]: health and message. *)
Definition get_health_status (b : balancer) : bool * string :=
  let healthy := healthy_count b in
  let total := Z.of_nat (length (_stats b)) in
  let status := if healthy =? 0 then "unhealthy" else if healthy =? total then "healthy"
                else "degraded" in
  (0 <? healthy, status +:+ ": " +:+ fmt healthy +:+ "/" +:+ fmt total +:+ " strategies healthy").

Definition reset_all (b : balancer) : balancer :=
  b <| _stats := (λ kv, (kv.1, reset_stats kv.2)) <$> _stats b |>.

(** ** Lemmas: selection *)

Lemma candidates_cases b :
  (candidates b = dkeys (_stats b) ∧ filter (λ kv, is_healthy kv.2 = true) (_stats b) = []) ∨
  candidates b = dkeys (filter (λ kv, is_healthy kv.2 = true) (_stats b)).
Proof.
  unfold candidates. destruct (filter _ (_stats b)) as [|kv l]; [by left|by right].
Qed.

Lemma candidates_sub b s : s ∈ candidates b → s ∈ dkeys (_stats b).
Proof.
  destruct (candidates_cases b) as [[-> _]| ->]; [done|].
  intros (kv' & -> & [_ Hin]%list_elem_of_filter)%list_elem_of_fmap.
  by apply list_elem_of_fmap_2.
Qed.

Definition some_healthy (b : balancer) : Prop :=
  ∃ h, h ∈ dkeys (_stats b) ∧ is_healthy (stats_of b h) = true.

Lemma candidates_healthy b s :
  dict_wf (_stats b) → some_healthy b → s ∈ candidates b → is_healthy (stats_of b s) = true.
Proof.
  intros Hwf (h & Hh & Hhh). destruct (candidates_cases b) as [[_ Hf]| ->].
  - exfalso. apply list_elem_of_fmap in Hh as ([h' st] & -> & Hin). simpl in *.
    apply (not_elem_of_nil (h', st)). rewrite <- Hf. apply list_elem_of_filter. split; [|done].
    unfold stats_of in Hhh. by rewrite (elem_of_dget _ _ _ Hwf Hin) in Hhh.
  - intros ([s' st] & -> & [Hst Hin]%list_elem_of_filter)%list_elem_of_fmap.
    unfold stats_of. simpl in *. by rewrite (elem_of_dget _ _ _ Hwf Hin).
Qed.

Lemma first_least_spec {K} lt (key : string → K) best l s :
  first_least lt key best l = Some s → (∃ k, best = Some (s, k)) ∨ s ∈ l.
Proof.
  revert best. induction l as [|x l IH]; intros best; simpl.
  - intros ([s' k] & -> & ->)%fmap_Some. eauto.
  - intros [[k Hk]|Hin]%IH; [|by right; right].
    destruct (match best with Some _ => _ | None => _ end).
    + injection Hk as -> _. right. left.
    + eauto.
Qed.

Lemma by_algorithm_elem b op l s b' : by_algorithm b op l = (Some s, b') → s ∈ l.
Proof.
  unfold by_algorithm, _round_robin_selection, _least_connections_selection,
    _least_response_time_selection, _random_selection, _hash_based_selection.
  destruct (algorithm (config b)); intros [= H <-];
    first [by apply list_elem_of_lookup_2 in H
          |by apply first_least_spec in H as [[? ?]|?]].
Qed.

Lemma by_algorithm_keeps b op l s b' :
  by_algorithm b op l = (s, b') → _stats b' = _stats b ∧ _sessions b' = _sessions b ∧ config b' = config b.
Proof. unfold by_algorithm, _round_robin_selection. by destruct (algorithm (config b)); intros [= _ <-]. Qed.

Lemma select_inv b op s b' :
  _select_strategy b op = (Some s, b') →
  s ∈ candidates b ∧ _stats b' = _stats b ∧ config b' = config b.
Proof.
  unfold _select_strategy. destruct (candidates b) as [|c cs] eqn:Hc; [done|]. rewrite <- Hc.
  set (o := match session_id op with Some _ => _ | None => _ end).
  assert (_stats o.2 = _stats b ∧ config o.2 = config b) as [Hs Hcfg]
    by (subst o; destruct (session_id op); [destruct (sticky_sessions _)|]; done).
  destruct o as [sticky b1]. simpl in *.
  assert (∀ s b', by_algorithm b1 op (candidates b) = (Some s, b') →
          s ∈ candidates b ∧ _stats b' = _stats b ∧ config b' = config b) as Halg.
  { intros s0 b0 H. pose proof (by_algorithm_keeps _ _ _ _ _ H) as (-> & _ & ->).
    by apply by_algorithm_elem in H. }
  destruct sticky as [x|]; [|apply Halg].
  destruct (negb _ && _) eqn:Hx; [|apply Halg]. intros [= <- <-].
  apply andb_true_iff in Hx as [_ Hx]. by apply bool_decide_eq_true in Hx.
Qed.

(** ** Histories: operations in flight *)

Record world := mk_world { bal : balancer; in_flight : list string }.

Inductive lb_step : world → world → Prop :=
| lb_start b fl op s b' :
    start_operation b op = (Some s, b') → lb_step (mk_world b fl) (mk_world b' (s :: fl))
| lb_end b fl1 fl2 s success t :
    lb_step (mk_world b (fl1 ++ s :: fl2)) (mk_world (end_operation b s success t) (fl1 ++ fl2)).

Definition flights (s : string) (l : list string) : Z := Z.of_nat (length (filter (λ x, x = s) l)).

Lemma flights_cons s x l : flights s (x :: l) = (if decide (x = s) then 1 else 0) + flights s l.
Proof. unfold flights. rewrite filter_cons. case_decide; simpl; lia. Qed.

Lemma flights_app s l1 l2 : flights s (l1 ++ l2) = flights s l1 + flights s l2.
Proof. unfold flights. rewrite filter_app, length_app. lia. Qed.

(** The statistics of one strategy account for every request it was given. *)
Definition accounted (w : world) : Prop :=
  dict_wf (_stats (bal w)) ∧
  (∀ s, s ∈ in_flight w → s ∈ dkeys (_stats (bal w))) ∧
  ∀ s st, dget s (_stats (bal w)) = Some st →
    active_connections st = flights s (in_flight w) ∧
    total_requests st = successful_requests st + failed_requests st + active_connections st.

Lemma update_stats_get b s f x :
  dget x (_stats (update_stats b s f)) =
  if decide (s = x) then f <$> dget s (_stats b) else dget x (_stats b).
Proof.
  unfold update_stats. destruct (dget s (_stats b)) as [st|] eqn:Hs; simpl.
  - rewrite dget_dset. by case_decide; subst.
  - by case_decide; subst.
Qed.

Lemma update_stats_wf b s f : dict_wf (_stats b) → dict_wf (_stats (update_stats b s f)).
Proof. unfold update_stats. destruct (dget _ _); simpl; auto using dict_wf_dset. Qed.

Lemma update_stats_keys b s f x :
  x ∈ dkeys (_stats (update_stats b s f)) ↔ x ∈ dkeys (_stats b).
Proof.
  rewrite <- !dmem_elem_of. unfold dmem. rewrite !bool_decide_eq_true, update_stats_get.
  case_decide; [subst; by rewrite fmap_is_Some|done].
Qed.

Lemma lb_step_accounted w w' : lb_step w w' → accounted w → accounted w'.
Proof.
  unfold accounted. destruct 1 as [b fl op s b' Hst|b fl1 fl2 s success t]; simpl;
    intros (Hwf & Hin & Hacc).
  - unfold start_operation in Hst. destruct (_select_strategy b op) as [[s0|] b1] eqn:Hsel; [|done].
    injection Hst as <- <-. apply select_inv in Hsel as (Hc & Hs & _). rewrite <- Hs in *.
    split_and!; [by apply update_stats_wf| |].
    + intros x. rewrite update_stats_keys. intros [->|Hx]%elem_of_cons; [|by apply Hin].
      rewrite Hs. by apply candidates_sub.
    + intros x st. rewrite update_stats_get, flights_cons. case_decide as Hx; [subst x|].
      * intros (st0 & Hst0 & ->)%fmap_Some. destruct (Hacc _ _ Hst0). simpl. lia.
      * intros Hst. destruct (Hacc _ _ Hst). lia.
  - assert (s ∈ dkeys (_stats b)) as Hs by (apply Hin, elem_of_app; right; left).
    unfold end_operation. split_and!; [by apply update_stats_wf| |].
    + intros x Hx. rewrite update_stats_keys. apply Hin. apply elem_of_app in Hx as [?|?];
        apply elem_of_app; [by left|right; by right].
    + intros x st. rewrite update_stats_get, flights_app. case_decide as Hx; [subst x|].
      * intros (st0 & Hst0 & ->)%fmap_Some. destruct (Hacc _ _ Hst0) as [Ha Ht].
        rewrite flights_app, flights_cons, decide_True in Ha by done.
        assert (0 ≤ flights s fl1 ∧ 0 ≤ flights s fl2) by (unfold flights; lia).
        simpl. destruct success; simpl; lia.
      * intros Hst. destruct (Hacc _ _ Hst) as [Ha Ht].
        rewrite flights_app, flights_cons, decide_False in Ha by done. lia.
Qed.

Lemma init_accounted strategies cfg b :
  init strategies cfg = Ok b → accounted (mk_world b []) ∧ _stats b ≠ [] ∧ _sessions b = [].
Proof.
  unfold init. destruct strategies as [|x l] eqn:Hl; [done|]. rewrite <- Hl. intros [= <-]. simpl.
  split; [|split; [|done]].
  - split; simpl; [|split].
    + unfold dict_wf, dkeys. rewrite <- list_fmap_compose. apply (dedup_by_NoDup id).
    + by intros s ?%elem_of_nil.
    + intros s st (s' & [= -> ->] & _)%dget_elem_of%list_elem_of_fmap. done.
  - intros H%fmap_nil_inv.
    assert (x ∈ id <$> dedup_by id strategies) as Hx
      by (rewrite elem_of_dedup_by_keys, list_fmap_id, Hl; left).
    rewrite H in Hx. by apply elem_of_nil in Hx.
Qed.

(** Every selection of a balancer that has a strategy yields one. *)
Lemma by_algorithm_total b op l : l ≠ [] → ∃ s b', by_algorithm b op l = (Some s, b').
Proof.
  intros Hl. assert (0 < length l)%nat as Hn by (destruct l; simpl; [done|lia]).
  assert (∀ i, ∃ s, l !! (i mod length l)%nat = Some s) as Hmod.
  { intros i. apply lookup_lt_is_Some, Nat.mod_upper_bound. lia. }
  assert (∀ {K} lt (key : string → K) best l, best ≠ None ∨ l ≠ [] →
    ∃ s, first_least lt key best l = Some s) as Hleast.
  { intros K lt key best l0. revert best. induction l0 as [|x l0 IH]; intros best [Hb|Hb]; simpl.
    - destruct best as [[s k]|]; [by exists s|done].
    - done.
    - apply IH. left. by destruct (match best with Some _ => _ | None => _ end).
    - apply IH. left. destruct best as [[s k]|]; [|done]. by destruct (lt _ _). }
  unfold by_algorithm, _round_robin_selection, _least_connections_selection,
    _least_response_time_selection, _random_selection, _hash_based_selection.
  destruct (algorithm (config b)); try (destruct (Hmod (_round_robin_index b)) as [s ->]; by eauto);
    try (destruct (Hmod (random_draw op)) as [s ->]; by eauto).
  - destruct (Hleast _ Z.ltb (λ s, active_connections (stats_of b s)) None l) as [s ->]; eauto.
  - destruct (Hleast _ average_lt (λ s, average_response_time (stats_of b s)) None l) as [s ->]; eauto.
  - assert (Z.to_nat (op_hash op mod Z.of_nat (length l)) < length l)%nat as Hh.
    { pose proof (Z.mod_pos_bound (op_hash op) (Z.of_nat (length l)) ltac:(lia)). lia. }
    apply lookup_lt_is_Some in Hh as [s ->]. eauto.
  - destruct (Hleast _ average_lt (λ s, average_response_time (stats_of b s)) None l) as [s ->]; eauto.
Qed.

Lemma candidates_nonempty b : _stats b ≠ [] → candidates b ≠ [].
Proof.
  unfold candidates, dkeys. intros H H'. destruct (filter _ (_stats b)); [|done].
  by apply fmap_nil_inv in H'.
Qed.

Lemma select_total b op : _stats b ≠ [] → ∃ s b', _select_strategy b op = (Some s, b').
Proof.
  intros H%candidates_nonempty. unfold _select_strategy. destruct (candidates b) as [|c cs] eqn:Hc; [done|].
  rewrite <- Hc in *. destruct (match session_id op with Some _ => _ | None => _ end) as [sticky b1].
  destruct sticky as [s|]; [destruct (_ && _); [by eauto|]|]; by apply by_algorithm_total.
Qed.

(** Selection never fails and prefers health: with at least one strategy
    registered every algorithm picks a registered one, and as long as one
    strategy is healthy the pick is healthy; selecting changes no statistics. *)
Theorem selection_sound b op :
  dict_wf (_stats b) → _stats b ≠ [] →
  ∃ s b', _select_strategy b op = (Some s, b') ∧ s ∈ dkeys (_stats b) ∧ _stats b' = _stats b ∧
    (some_healthy b → is_healthy (stats_of b s) = true).
Proof.
  intros Hwf Hne. destruct (select_total b op Hne) as (s & b' & Hs). exists s, b'.
  pose proof (select_inv _ _ _ _ Hs) as (Hc & Hst & _).
  split; [done|split; [by apply candidates_sub|split; [done|]]]. intros. by apply candidates_healthy.
Qed.

(** The statistics account for every request: however operations overlap,
    in every state reached from a new balancer a strategy's active connections
    are exactly the operations in flight on it, and its total is the sum of its
    successes, failures and active connections. *)
Theorem statistics_account strategies cfg b w s st :
  init strategies cfg = Ok b → rtc lb_step (mk_world b []) w →
  dget s (_stats (bal w)) = Some st →
  active_connections st = flights s (in_flight w) ∧
  total_requests st = successful_requests st + failed_requests st + active_connections st.
Proof.
  intros (Hacc & _)%init_accounted Hrun. assert (accounted w) as (_ & _ & H).
  { induction Hrun; eauto using lb_step_accounted. }
  apply H.
Qed.

(** ** Round robin *)

(** [n] selections in a row, the operations between them leaving health alone. *)
Fixpoint select_n (n : nat) (b : balancer) (op : operation) : list (option string) :=
  match n with
  | O => []
  | Datatypes.S n' => let '(s, b') := _select_strategy b op in s :: select_n n' b' op
  end.

Lemma candidates_stats b b' : _stats b' = _stats b → candidates b' = candidates b.
Proof. unfold candidates. by intros ->. Qed.

Lemma select_round_robin b op :
  algorithm (config b) = ROUND_ROBIN → session_id op = None → _stats b ≠ [] →
  _select_strategy b op = _round_robin_selection b (candidates b).
Proof.
  intros Ha Hs H%candidates_nonempty. unfold _select_strategy, by_algorithm.
  destruct (candidates b); [done|]. by rewrite Hs, Ha.
Qed.

Lemma select_n_round_robin n b op i :
  algorithm (config b) = ROUND_ROBIN → session_id op = None → _stats b ≠ [] → (i < n)%nat →
  select_n n b op !! i =
    Some (candidates b !! ((_round_robin_index b + i) mod length (candidates b))%nat).
Proof.
  revert b i. induction n as [|n IH]; intros b i Ha Hs Hne Hi; [lia|]. cbn [select_n].
  rewrite (select_round_robin b op Ha Hs Hne). unfold _round_robin_selection.
  destruct i as [|i]; cbn [lookup list_lookup].
  - by rewrite Nat.add_0_r.
  - rewrite IH by (done || lia). rewrite (candidates_stats b) by done. simpl.
    do 3 f_equal. lia.
Qed.

(** Round robin is fair: over as many selections in a row as there are
    candidates, starting at any index, every candidate is picked exactly once. *)
Theorem round_robin_fair b op :
  algorithm (config b) = ROUND_ROBIN → session_id op = None → _stats b ≠ [] →
  select_n (length (candidates b)) b op ≡ₚ Some <$> candidates b.
Proof.
  intros Ha Hs Hne. set (l := candidates b).
  replace (select_n (length l) b op) with (Some <$> rotate (_round_robin_index b) l).
  { unfold rotate. rewrite fmap_app, Permutation_app_comm, <- fmap_app. by rewrite take_drop. }
  assert (length (select_n (length l) b op) = length l) as Hlen.
  { generalize (length l) as n, b. clear. induction n as [|n IH]; intros b; simpl; [done|].
    destruct (_select_strategy b op) as [s b']. simpl. by rewrite IH. }
  apply list_eq. intros i. rewrite list_lookup_fmap. destruct (decide (i < length l)%nat) as [Hi|Hi].
  - rewrite (select_n_round_robin _ _ _ _ Ha Hs Hne Hi), lookup_rotate_r by done. fold l.
    assert (rotate_nat_add (_round_robin_index b) i (length l) =
            (_round_robin_index b + i) mod length l)%nat as ->.
    { unfold rotate_nat_add. rewrite <- Nat2Z.inj_add, <- Nat2Z.inj_mod. apply Nat2Z.id. }
    assert ((_round_robin_index b + i) mod length l < length l)%nat as [x ->]%lookup_lt_is_Some
      by (apply Nat.mod_upper_bound; lia). done.
  - rewrite !lookup_ge_None_2; [done|lia|rewrite length_rotate; lia].
Qed.

(** ** Health and sessions *)

Lemma stats_of_update b s f x :
  s ≠ x → stats_of (update_stats b s f) x = stats_of b x.
Proof. intros. unfold stats_of. by rewrite update_stats_get, decide_False. Qed.

Lemma start_inv b op s b' :
  start_operation b op = (Some s, b') →
  s ∈ candidates b ∧ ∃ b1, _stats b1 = _stats b ∧ b' = update_stats b1 s record_request_start.
Proof.
  unfold start_operation. destruct (_select_strategy b op) as [[s0|] b1] eqn:Hsel; [|done].
  intros [= <- <-]. apply select_inv in Hsel as (Hc & Hs & _). eauto.
Qed.

(** A step taken while some strategy is healthy. *)
Definition healthy_step (w w' : world) : Prop := lb_step w w' ∧ some_healthy (bal w).

(** A strategy that went unhealthy is sidelined for good: as long as another
    strategy stays healthy, it is never selected again and so never reaches the
    recovery threshold, whatever operations run. *)
Theorem unhealthy_sidelined w w' s :
  accounted w → rtc healthy_step w w' →
  is_healthy (stats_of (bal w) s) = false → s ∉ in_flight w →
  is_healthy (stats_of (bal w') s) = false ∧ s ∉ in_flight w'.
Proof.
  intros Hacc Hrun. induction Hrun as [|w w1 w' [Hstep Hsome] _ IH]; [done|].
  intros Hs Hfl. apply IH; [by eapply lb_step_accounted| |]; clear IH;
    destruct Hacc as (Hwf & _ & _); destruct Hstep as [b fl op x b' Hst|b fl1 fl2 x success t]; simpl in *.
  - apply start_inv in Hst as (Hc & b1 & Hb1 & ->). rewrite stats_of_update.
    { unfold stats_of in *. by rewrite Hb1. }
    intros ->. by rewrite (candidates_healthy _ _ Hwf Hsome Hc) in Hs.
  - unfold end_operation. rewrite stats_of_update; [done|]. set_solver.
  - apply start_inv in Hst as (Hc & b1 & Hb1 & ->). apply not_elem_of_cons. split; [|done].
    intros ->. by rewrite (candidates_healthy _ _ Hwf Hsome Hc) in Hs.
  - set_solver.
Qed.

Lemma foldl_dpop_nil {A} ks : foldl (λ (d : dict A) k, dpop k d) [] ks = [].
Proof. by induction ks. Qed.

Lemma select_no_sessions b op :
  _sessions b = [] →
  _sessions (_select_strategy b op).2 = [] ∧
  (_select_strategy b op).1 = (by_algorithm b op (candidates b)).1.
Proof.
  intros Hs. unfold _select_strategy, _get_session_strategy. rewrite Hs, foldl_dpop_nil.
  destruct (candidates b) as [|c cs] eqn:Hc.
  { split; [done|]. unfold by_algorithm, _round_robin_selection, _random_selection,
      _hash_based_selection. by destruct (algorithm (config b)). }
  rewrite <- Hc.
  assert (∀ b1, _sessions b1 = [] → _stats b1 = _stats b → config b1 = config b →
      _round_robin_index b1 = _round_robin_index b →
      _sessions (by_algorithm b1 op (candidates b)).2 = [] ∧
      (by_algorithm b1 op (candidates b)).1 = (by_algorithm b op (candidates b)).1) as Halg.
  { intros b1 H1 H2 H3 H4. unfold by_algorithm, _round_robin_selection,
      _least_connections_selection, _least_response_time_selection, stats_of.
    rewrite H2, H3, H4. by destruct (algorithm (config b)). }
  destruct (session_id op); [destruct (sticky_sessions _)|]; by apply Halg.
Qed.

(** Sticky sessions never stick: in every reachable state no session is
    recorded, so the strategy selected for an operation is the one the algorithm
    picks, whatever session the operation names. *)
Theorem sessions_never_stick strategies cfg b w op :
  init strategies cfg = Ok b → rtc lb_step (mk_world b []) w →
  (_select_strategy (bal w) op).1 = (by_algorithm (bal w) op (candidates (bal w))).1.
Proof.
  intros (_ & _ & H0)%init_accounted Hrun. apply select_no_sessions.
  assert (∀ b0 x f, _sessions (update_stats b0 x f) = _sessions b0) as Hup.
  { intros b0 x f. unfold update_stats. by destruct (dget _ _). }
  change b with (bal (mk_world b [])) in H0. induction Hrun as [|w0 w1 w Hst _ IH]; [done|].
  apply IH. destruct Hst as [b0 fl op0 s b' Hst|]; simpl in *; [|unfold end_operation; by rewrite Hup].
  unfold start_operation in Hst. destruct (select_no_sessions b0 op0 H0) as [Hsel _].
  destruct (_select_strategy b0 op0) as [[s0|] b1]; [|done]. injection Hst as <- <-. by rewrite Hup.
Qed.

(** ** Witnesses *)

Definition w_cfg (a : LoadBalancingAlgorithm) : LoadBalancingConfig := mk_lb_config a 1 2 true 300.
Definition w_op : operation := mk_operation None 7 3 0.
Definition w_bal (a : LoadBalancingAlgorithm) : balancer :=
  mk_balancer (w_cfg a) [("aws", fresh_stats); ("k8s", fresh_stats); ("gcp", fresh_stats)] 0 [] [].

Lemma w_init a : init ["aws"; "k8s"; "aws"; "gcp"] (w_cfg a) = Ok (w_bal a).
Proof. reflexivity. Qed.

(** Two operations started, the first one failed: [aws] is unhealthy and idle. *)
Definition w_after : balancer :=
  end_operation (start_operation (start_operation (w_bal ROUND_ROBIN) w_op).2 w_op).2 "aws" false 25.

Lemma w_run : rtc lb_step (mk_world (w_bal ROUND_ROBIN) []) (mk_world w_after ["k8s"]).
Proof.
  eapply rtc_l; [by apply (lb_start _ _ w_op "aws")|].
  eapply rtc_l; [by apply (lb_start _ _ w_op "k8s")|].
  apply rtc_once. apply (lb_end _ ["k8s"] []).
Qed.

Lemma w_after_accounted : accounted (mk_world w_after ["k8s"]).
Proof.
  assert (∀ w w', rtc lb_step w w' → accounted w → accounted w') as H
    by (induction 1; eauto using lb_step_accounted).
  apply (H _ _ w_run). by destruct (init_accounted _ _ _ (w_init ROUND_ROBIN)).
Qed.

Lemma w_wf : dict_wf (_stats (w_bal LEAST_CONNECTIONS)).
Proof. by apply (bool_decide_unpack _). Qed.

Lemma selection_sound_witness :
  ∃ s b', _select_strategy (w_bal LEAST_CONNECTIONS) w_op = (Some s, b') ∧
    s ∈ dkeys (_stats (w_bal LEAST_CONNECTIONS)) ∧ _stats b' = _stats (w_bal LEAST_CONNECTIONS) ∧
    (some_healthy (w_bal LEAST_CONNECTIONS) → is_healthy (stats_of (w_bal LEAST_CONNECTIONS) s) = true).
Proof. by apply (selection_sound (w_bal LEAST_CONNECTIONS) w_op w_wf). Defined.

Lemma statistics_account_witness :
  active_connections (stats_of w_after "k8s") = 1 ∧
  total_requests (stats_of w_after "k8s") =
    successful_requests (stats_of w_after "k8s") + failed_requests (stats_of w_after "k8s") + 1.
Proof.
  exact (statistics_account _ _ _ _ "k8s" (stats_of w_after "k8s") (w_init ROUND_ROBIN) w_run eq_refl).
Defined.

Lemma round_robin_fair_witness :
  select_n 3 (w_bal ROUND_ROBIN) w_op ≡ₚ [Some "aws"; Some "k8s"; Some "gcp"].
Proof. by apply (round_robin_fair (w_bal ROUND_ROBIN) w_op). Defined.

Lemma unhealthy_sidelined_witness :
  let w' := mk_world (end_operation w_after "k8s" true 4) [] in
  is_healthy (stats_of (bal w') "aws") = false ∧ "aws" ∉ in_flight w'.
Proof.
  apply (unhealthy_sidelined (mk_world w_after ["k8s"])); [apply w_after_accounted| |reflexivity|].
  - apply rtc_once. split; [apply (lb_end _ [] [])|]. exists "k8s".
    split; [right; left|reflexivity].
  - apply (bool_decide_unpack _). reflexivity.
Defined.

Lemma sessions_never_stick_witness :
  (_select_strategy w_after (mk_operation (Some "session-1") 7 3 0)).1 = Some "k8s".
Proof.
  exact (sessions_never_stick _ _ _ _ (mk_operation (Some "session-1") 7 3 0)
           (w_init ROUND_ROBIN) w_run).
Defined.
