(* ===== verification/Verdict.v ===== *)
(** * Capacity verdicts

    Every provider turns what it observes of a request's instances into a
    [ProviderFulfilment]; [FulfilmentStateMachine.apply] trusts it to settle the
    request.  This file holds what the providers' verdict functions share: the
    counting of instances, the contract a verdict keeps ([SoundVerdict]), and what
    the state machine makes of a verdict that keeps it.  The providers' files
    state which of their functions are instances. *)

From stdpp Require Import base strings list sets sorting.
From Stdlib Require Import ZArith Lia.
From S2P Require Import Prelude RequestTypes Diagnostic RequestAggregate FulfilmentSM.
Open Scope Z_scope.

(** ** Counting *)

(** [sum(1 for i in l if p(i))]. *)
Fixpoint tally {A} (p : A → bool) (l : list A) : Z :=
  match l with
  | [] => 0
  | x :: l => if p x then 1 + tally p l else tally p l
  end.

Section tally.
Context {A : Type}.
Implicit Types (p q : A → bool) (l : list A).

Lemma tally_nonneg p l : 0 ≤ tally p l.
Proof. induction l as [|x l IH]; simpl; [lia|]. destruct (p x); lia. Qed.

Lemma tally_le p l : tally p l ≤ Z.of_nat (length l).
Proof. induction l as [|x l IH]; simpl length; [done|]. simpl. destruct (p x); lia. Qed.

Lemma tally_app p l1 l2 : tally p (l1 ++ l2) = tally p l1 + tally p l2.
Proof. induction l1 as [|x l IH]; simpl; [done|]. destruct (p x); lia. Qed.

Lemma tally_perm p l1 l2 : l1 ≡ₚ l2 → tally p l1 = tally p l2.
Proof.
  induction 1; simpl; try congruence; [destruct (p x); lia|destruct (p x), (p y); lia].
Qed.

Lemma tally_none p l : (∀ x, x ∈ l → p x = false) → tally p l = 0.
Proof.
  induction l as [|x l IH]; intros H; simpl; [done|].
  rewrite (H x (list_elem_of_here _ _)). apply IH. intros y Hy. by apply H, list_elem_of_further.
Qed.

Lemma tally_all p l : (∀ x, x ∈ l → p x = true) → tally p l = Z.of_nat (length l).
Proof.
  induction l as [|x l IH]; intros H; simpl; [done|].
  rewrite (H x (list_elem_of_here _ _)), IH; [lia|]. intros y Hy. by apply H, list_elem_of_further.
Qed.

(** Two tallies of things no element is both of. *)
Lemma tally_disjoint p q l :
  (∀ x, x ∈ l → p x = true → q x = false) → tally p l + tally q l ≤ Z.of_nat (length l).
Proof.
  induction l as [|x l IH]; intros H; simpl length; [done|]. simpl.
  assert (tally p l + tally q l ≤ Z.of_nat (length l)).
  { apply IH. intros y Hy. by apply H, list_elem_of_further. }
  specialize (H x (list_elem_of_here _ _)). destruct (p x), (q x); lia || (by specialize (H eq_refl)).
Qed.

Lemma tally_negb p l : tally p l + tally (λ x, negb (p x)) l = Z.of_nat (length l).
Proof. induction l as [|x l IH]; simpl length; [done|]. simpl. destruct (p x); simpl; lia. Qed.

Lemma tally_or p q l :
  (∀ x, x ∈ l → p x = true → q x = false) → tally p l + tally q l = tally (λ x, p x || q x) l.
Proof.
  induction l as [|x l IH]; intros H; simpl; [done|].
  rewrite <- IH by (intros y Hy; by apply H, list_elem_of_further).
  specialize (H x (list_elem_of_here _ _)). destruct (p x); simpl; [rewrite H by done|destruct (q x)]; lia.
Qed.

Lemma tally_ext p q l : (∀ x, x ∈ l → p x = q x) → tally p l = tally q l.
Proof.
  induction l as [|x l IH]; intros H; simpl; [done|].
  rewrite (H x (list_elem_of_here _ _)), IH; [done|]. intros y Hy. by apply H, list_elem_of_further.
Qed.

Lemma tally_fmap {B} (p : A → bool) (f : B → A) (l : list B) :
  tally p (f <$> l) = tally (p ∘ f) l.
Proof. induction l as [|x l IH]; csimpl; [done|]. by rewrite IH. Qed.

Lemma tally_pos p l : 0 < tally p l ↔ ∃ x, x ∈ l ∧ p x = true.
Proof.
  split.
  - induction l as [|x l IH]; simpl; [lia|]. destruct (p x) eqn:Hp; intros H.
    + exists x. split; [apply list_elem_of_here|done].
    + destruct (IH H) as (y & ? & ?). exists y. split; [by apply list_elem_of_further|done].
  - intros (x & Hx & Hp). apply list_elem_of_split in Hx as (l1 & l2 & ->).
    rewrite tally_app. simpl. rewrite Hp. pose proof (tally_nonneg p l1). pose proof (tally_nonneg p l2). lia.
Qed.
End tally.

#[export] Hint Resolve tally_nonneg tally_le : orb.

(** ** The constructor with the counts *)

Definition verdict (state message : string) (target fulfilled running pending failed : Z)
    (final : bool) : ProviderFulfilment :=
  {| pf_state := state; pf_message := message; pf_target_units := Some target;
     pf_fulfilled_units := Some fulfilled; pf_running_count := Some running;
     pf_pending_count := Some pending; pf_failed_count := Some failed;
     pf_final := final; pf_diagnostic := None |}.

(** ** The contract *)

Definition verdict_states : list string := ["fulfilled"; "in_progress"; "partial"; "failed"].

(** What was observed, in the provider's own units: the units asked for, the
    units delivered, and the instances that are running and that are pending. *)
Record observation := mk_obs {
  o_target : Z;
  o_delivered : Z;
  o_running : Z;
  o_pending : Z
}.

(** A verdict that may be acted on: it is one of the four, "fulfilled" is said
    only of a delivered target, "failed" only when nothing runs, "partial" only
    when something does, and the last word only when nothing is pending. *)
Record sound_verdict (o : observation) (f : ProviderFulfilment) : Prop := mk_sound {
  sv_state : pf_state f ∈ verdict_states;
  sv_fulfilled : pf_state f = "fulfilled" → o_target o ≤ o_delivered o;
  sv_failed : pf_state f = "failed" → o_running o = 0;
  sv_partial : pf_state f = "partial" → 0 < o_running o;
  sv_final : pf_final f = true → o_pending o = 0 ∧ pf_state f ≠ "in_progress"
}.

(** A provider's verdict function over its inputs [I], with what it observes of
    them, on the inputs it is meant for. *)
Class SoundVerdict {I : Type} (admits : I → Prop) (observe : I → observation)
    (compute : I → ProviderFulfilment) : Prop :=
  verdict_is_sound : ∀ i, admits i → sound_verdict (observe i) (compute i).

(** Case analysis on the branches of a verdict function, the arithmetic done. *)
Ltac solve_verdict :=
  repeat match goal with
  | H : (_ && _)%bool = true |- _ => apply andb_true_iff in H as [? ?]
  | H : (_ <? _) = true |- _ => apply Z.ltb_lt in H
  | H : (_ <=? _) = true |- _ => apply Z.leb_le in H
  | H : (_ =? _) = true |- _ => apply Z.eqb_eq in H
  | H : (_ <? _) = false |- _ => apply Z.ltb_ge in H
  | H : (_ <=? _) = false |- _ => apply Z.leb_gt in H
  | H : (_ =? _) = false |- _ => apply Z.eqb_neq in H
  end;
  constructor; cbn; (try (intros; discriminate)); (try set_solver);
  intros; (try split); (try done); lia.

(** Every test of the goal decided, as arithmetic. *)
Ltac split_tests :=
  repeat match goal with |- context [if ?b then _ else _] => destruct b eqn:? end;
  repeat match goal with
  | H : _ = _ |- _ =>
      progress (rewrite ?andb_true_iff, ?andb_false_iff, ?orb_true_iff, ?orb_false_iff,
        ?negb_true_iff, ?negb_false_iff, ?Z.ltb_lt, ?Z.ltb_ge, ?Z.leb_le, ?Z.leb_gt, ?Z.eqb_eq,
        ?Z.eqb_neq in H)
  end.

(** ** What the state machine makes of a sound verdict *)

Lemma verdict_apply sm r now f r' b :
  RequestStatus.is_active (Request.status r) = true →
  expired r now = false →
  FulfilmentStateMachine.apply sm r FulfilmentEvent.PROVIDER_VERDICT now (Some f) None None None
    = Ok (r', b) →
  Request.status r' = (FulfilmentStateMachine._target_for_verdict r f now None None).1.1.
Proof.
  intros _ He. rewrite apply_eq, He, andb_false_r, bool_decide_eq_false_2 by done.
  cbn [FulfilmentStateMachine._resolve_target result_bind mbind].
  destruct (FulfilmentStateMachine._target_for_verdict r f now None None) as [[tgt m] d].
  intros Hs. cbn. by apply settle_sound in Hs as (-> & _).
Qed.

(** The status a verdict asks for, by its state. *)
Lemma target_for_verdict_status r f now :
  pf_state f ∈ verdict_states →
  let tgt := (FulfilmentStateMachine._target_for_verdict r f now None None).1.1 in
  (tgt = RequestStatus.COMPLETED ↔ pf_state f = "fulfilled") ∧
  (tgt = RequestStatus.FAILED ↔ pf_state f = "failed") ∧
  (tgt = RequestStatus.IN_PROGRESS ↔ pf_state f = "in_progress") ∧
  (tgt ∈ [RequestStatus.PARTIAL; RequestStatus.PARTIAL_PENDING] ↔ pf_state f = "partial").
Proof.
  intros Hs. unfold FulfilmentStateMachine._target_for_verdict. unfold verdict_states in Hs.
  destruct (pf_state f ≟ "partial") eqn:Hp.
  - apply bool_decide_eq_true in Hp. rewrite Hp.
    assert (∀ tgt, tgt ∈ [RequestStatus.PARTIAL; RequestStatus.PARTIAL_PENDING] →
      (tgt = RequestStatus.COMPLETED ↔ "partial" = "fulfilled") ∧
      (tgt = RequestStatus.FAILED ↔ "partial" = "failed") ∧
      (tgt = RequestStatus.IN_PROGRESS ↔ "partial" = "in_progress") ∧
      (tgt ∈ [RequestStatus.PARTIAL; RequestStatus.PARTIAL_PENDING] ↔ "partial" = "partial")) as H.
    { intros tgt [->|[->|[]%not_elem_of_nil]%elem_of_cons]%elem_of_cons;
        split_and!; split; intros; try discriminate; set_solver. }
    destruct (negb _); [|destruct (pf_final f)]; cbn [fst]; apply H; [set_solver..|].
    destruct (match Request.deadline_at r with None => _ | _ => _ end); set_solver.
  - apply bool_decide_eq_false in Hp.
    repeat (apply elem_of_cons in Hs as [Hs|Hs]); [| |done| |by apply not_elem_of_nil in Hs];
      rewrite Hs; cbn; split_and!; split; intros; try discriminate; try done; set_solver.
Qed.

(** A verdict that settles or parks a live request is always accepted. *)
Lemma verdict_accepted sm r now f :
  RequestStatus.is_active (Request.status r) = true →
  expired r now = false →
  pf_state f ∈ verdict_states → pf_state f ≠ "in_progress" →
  ∃ r' b,
    FulfilmentStateMachine.apply sm r FulfilmentEvent.PROVIDER_VERDICT now (Some f) None None None
      = Ok (r', b).
Proof.
  intros Ha He Hs Hn. rewrite apply_eq, He, andb_false_r, bool_decide_eq_false_2 by done.
  cbn [FulfilmentStateMachine._resolve_target result_bind mbind].
  destruct (target_for_verdict_status r f now Hs) as (H1 & H2 & H3 & H4).
  destruct (FulfilmentStateMachine._target_for_verdict r f now None None) as [[tgt m] d].
  cbn [fst snd] in *. unfold FulfilmentStateMachine.settle.
  case_bool_decide; [destruct d; cbn; eauto|].
  assert (tgt ∈ [RequestStatus.COMPLETED; RequestStatus.FAILED; RequestStatus.PARTIAL;
                 RequestStatus.PARTIAL_PENDING]) as Ht.
  { unfold verdict_states in Hs.
    repeat (apply elem_of_cons in Hs as [Hs|Hs]); [| | | |by apply not_elem_of_nil in Hs].
    - rewrite (proj2 H1 Hs). set_solver.
    - done.
    - specialize (proj2 H4 Hs). set_solver.
    - rewrite (proj2 H2 Hs). set_solver. }
  assert (RequestStatus.can_transition_to (Request.status r) tgt = true) as ->; [|cbn; eauto].
  repeat (apply elem_of_cons in Ht as [->|Ht]); [..|by apply not_elem_of_nil in Ht];
    destruct (Request.status r); first [done | by vm_compute in Ha].
Qed.

(** C30: What a sound verdict may do to a request.  Whatever provider computed it,
    a verdict that keeps the contract, applied to a live request within its
    deadline, completes the request only if the target was delivered, fails it
    only if nothing is running, and settles it as partial only if something is;
    and unless it says "in progress" the state machine accepts it. *)
Theorem sound_verdict_settles {I} admits observe (compute : I → ProviderFulfilment)
    `{!SoundVerdict admits observe compute} sm r now i :
  admits i →
  RequestStatus.is_active (Request.status r) = true →
  expired r now = false →
  match FulfilmentStateMachine.apply sm r FulfilmentEvent.PROVIDER_VERDICT now
          (Some (compute i)) None None None with
  | Ok (r', _) =>
      (Request.status r' = RequestStatus.COMPLETED → o_target (observe i) ≤ o_delivered (observe i)) ∧
      (Request.status r' = RequestStatus.FAILED → o_running (observe i) = 0) ∧
      (Request.status r' ∈ [RequestStatus.PARTIAL; RequestStatus.PARTIAL_PENDING] →
         0 < o_running (observe i)) ∧
      Request.status r' ∈ [RequestStatus.COMPLETED; RequestStatus.FAILED; RequestStatus.PARTIAL;
                           RequestStatus.PARTIAL_PENDING; RequestStatus.IN_PROGRESS]
  | Err _ => pf_state (compute i) = "in_progress"
  end.
Proof.
  intros Hi Ha He. destruct (verdict_is_sound i Hi) as [Hst Hful Hfail Hpart Hfin].
  destruct (FulfilmentStateMachine.apply _ _ _ _ _ _ _ _) as [[r' b]|e] eqn:Hap.
  - rewrite (verdict_apply _ _ _ _ _ _ Ha He Hap).
    destruct (target_for_verdict_status r (compute i) now Hst) as (H1 & H2 & H3 & H4).
    set (tgt := (FulfilmentStateMachine._target_for_verdict _ _ _ _ _).1.1) in *.
    split; [by intros ?%H1%Hful|]. split; [by intros ?%H2%Hfail|]. split; [by intros ?%H4%Hpart|].
    unfold verdict_states in Hst. rewrite !elem_of_cons in Hst.
    destruct Hst as [Hs|[Hs|[Hs|[Hs|[]%not_elem_of_nil]]]];
      [rewrite (proj2 H1 Hs)|rewrite (proj2 H3 Hs)|specialize (proj2 H4 Hs)|rewrite (proj2 H2 Hs)];
      set_solver.
  - destruct (decide (pf_state (compute i) = "in_progress")) as [|Hn]; [done|].
    destruct (verdict_accepted sm r now _ Ha He Hst Hn) as (r' & b & Hok). congruence.
Qed.
