(* ===== verification/AwsVerdict.v ===== *)
(** * AWS capacity verdicts

    [orb/providers/aws/infrastructure/handlers]: the end-of-life classification
    ([shared/instance_lifecycle.py]), the verdicts of [shared/fleet_fulfilment.py],
    of [run_instances/handler.py], [microvm/handler.py], [asg/handler.py] and
    [spot_fleet/handler.py], the AWS wording of [shared/error_classifier.py], and
    the [check_hosts_status] of the three group handlers, which ask AWS about
    each group of the request and combine the answers.

    What AWS answers, and the formatting of instance details, are arguments.  A
    capacity reported as a floating point number is a rational; the code reads it
    only through [int(..)] and comparisons. *)

From stdpp Require Import base strings list sets.
From Stdlib Require Import ZArith QArith Lia.
From S2P Require Import Prelude RequestTypes Diagnostic RequestAggregate FulfilmentSM Verdict.
Open Scope Z_scope.

(** The fields of an instance dict the verdicts read. *)
Record aws_instance := mk_aws_instance {
  ai_instance_id : string;
  ai_status : option string;
  ai_status_reason : option string;
  ai_microvm_state : option string      (* [provider_data["microvm_state"]] *)
}.

Definition has_status (s : string) (i : aws_instance) : bool := ai_status i ≟ Some s.
Definition status_in (l : list string) (i : aws_instance) : bool :=
  match ai_status i with Some s => s ∈? l | None => false end.

(** A [float] that holds an integer, printed. *)
Definition fmt_float (n : Z) : string := fmt n +:+ ".0".

(** ** Endings *)

Definition TEARDOWN_STATUSES : list string := ["shutting-down"; "terminated"; "stopping"; "stopped"].
Definition _ENDING_STATUSES : list string := ["shutting-down"; "terminated"].
Definition _INTENTIONAL_REASON_PREFIXES : list string :=
  ["Client.UserInitiatedShutdown"; "Client.InstanceInitiatedShutdown";
   "Client.UserInitiatedHibernate"; "User initiated"].

Definition is_unknown_ending (i : aws_instance) : bool :=
  status_in _ENDING_STATUSES i && negb (str_truthy (ai_status_reason i)).

Definition is_launch_failure (use_state_reason : bool) (i : aws_instance) : bool :=
  has_status "failed" i
  || (use_state_reason && status_in _ENDING_STATUSES i
      && match ai_status_reason i with
         | Some reason => negb (reason ≟ EmptyString)
                          && negb (existsb (λ p, startswith p reason) _INTENTIONAL_REASON_PREFIXES)
         | None => false
         end).

Definition is_intentional_teardown (use_state_reason : bool) (i : aws_instance) : bool :=
  status_in ["stopping"; "stopped"] i
  || (status_in _ENDING_STATUSES i && negb (is_launch_failure use_state_reason i)
      && negb (is_unknown_ending i)).

(** ** RunInstances *)

(** The counts of [_compute_run_instances_fulfilment]: running, pending, failed
    and torn down; endings without a reason go by whether every requested
    instance exists. *)
Definition run_counts (instances : list aws_instance) (requested_count : Z) : Z * Z * Z * Z :=
  let unknown := tally is_unknown_ending instances in
  let failed := tally (is_launch_failure true) instances in
  let torn := tally (is_intentional_teardown true) instances in
  let '(failed, torn) :=
    if Z.of_nat (length instances) <? requested_count then (failed + unknown, torn)
    else (failed, torn + unknown) in
  (tally (has_status "running") instances, tally (has_status "pending") instances, failed, torn).

Definition _compute_run_instances_fulfilment (instances : list aws_instance) (requested_count : Z)
  : ProviderFulfilment :=
  let '(running, pending, failed, torn) := run_counts instances requested_count in
  if (requested_count <=? running) && (failed =? 0) then
    verdict "fulfilled" ("All " +:+ fmt running +:+ " instance(s) running")
      requested_count running running pending failed false
  else if 0 <? pending then
    verdict "in_progress"
      (fmt running +:+ "/" +:+ fmt requested_count +:+ " running, " +:+ fmt pending +:+ " pending")
      requested_count running running pending failed false
  else if (failed =? 0) && (0 <? torn) && (requested_count <=? running + torn) then
    if running =? 0 then
      verdict "failed" ("All " +:+ fmt torn +:+ " instance(s) were terminated or stopped")
        requested_count 0 running pending failed true
    else
      verdict "fulfilled"
        (fmt running +:+ " instance(s) running, " +:+ fmt torn +:+ " returned or stopped")
        requested_count running running pending failed false
  else if (failed =? Z.of_nat (length instances)) && (0 <? Z.of_nat (length instances)) then
    verdict "failed" ("All " +:+ fmt failed +:+ " instance(s) failed")
      requested_count 0 running pending failed true
  else if 0 <? running then
    verdict "partial" (fmt running +:+ "/" +:+ fmt requested_count +:+ " instance(s) running")
      requested_count running running pending failed true
  else
    verdict "in_progress" "Instances starting" requested_count 0 running pending failed false.

(** ** MicroVM *)

Definition _MICROVM_STATE_MAP : dict string :=
  [("PENDING", "pending"); ("RUNNING", "running"); ("SUSPENDING", "running");
   ("SUSPENDED", "running"); ("TERMINATING", "shutting-down"); ("TERMINATED", "terminated");
   ("FAILED", "terminated")].

(** The fields of [_build_machine_payload] the verdict reads. *)
Definition _build_machine_payload (microvm_id state : string) : aws_instance :=
  {| ai_instance_id := microvm_id;
     ai_status := Some (default "terminated" (dget state _MICROVM_STATE_MAP));
     ai_status_reason := None; ai_microvm_state := Some state |}.

Definition microvm_failed (i : aws_instance) : bool := ai_microvm_state i ≟ Some "FAILED".

Definition _compute_microvm_fulfilment (instances : list aws_instance) (requested_count : Z)
  : ProviderFulfilment :=
  let running := tally (has_status "running") instances in
  let pending := tally (has_status "pending") instances in
  let failed := tally microvm_failed instances in
  let torn := tally (λ i, status_in ["shutting-down"; "terminated"] i && negb (microvm_failed i))
                instances in
  if requested_count <=? running then
    verdict "fulfilled" ("All " +:+ fmt running +:+ " MicroVM(s) running")
      requested_count running running pending failed false
  else if 0 <? pending then
    verdict "in_progress"
      (fmt running +:+ "/" +:+ fmt requested_count +:+ " running, " +:+ fmt pending +:+ " pending")
      requested_count running running pending failed false
  else if (failed =? 0) && (0 <? torn) && (0 <? running) && (requested_count <=? running + torn) then
    verdict "fulfilled" (fmt running +:+ " MicroVM(s) running, " +:+ fmt torn +:+ " terminated")
      requested_count running running pending failed false
  else if (failed + torn =? Z.of_nat (length instances)) && (0 <? Z.of_nat (length instances)) then
    verdict "failed" ("All " +:+ fmt (failed + torn) +:+ " MicroVM(s) terminated")
      requested_count 0 running pending failed true
  else if 0 <? running then
    verdict "partial" (fmt running +:+ "/" +:+ fmt requested_count +:+ " MicroVM(s) running")
      requested_count running running pending failed true
  else
    verdict "in_progress" "MicroVMs starting" requested_count 0 running pending failed false.

(** ** Capacity-unit fleets *)

Definition compute_capacity_based_fulfilment (target_capacity : option Z)
    (fulfilled_capacity running pending failed : Z) (label : string) : ProviderFulfilment :=
  let target_units := default fulfilled_capacity target_capacity in
  let fully := match target_capacity with Some t => t <=? fulfilled_capacity | None => false end in
  if fully && (pending =? 0) && (failed =? 0) then
    verdict "fulfilled"
      (label +:+ " fulfilled: " +:+ fmt running +:+ " instance(s) running (" +:+
       fmt_float fulfilled_capacity +:+ "/" +:+ fmt target_units +:+ " capacity units)")
      target_units fulfilled_capacity running pending failed false
  else if (0 <? failed) && (running =? 0) && (pending =? 0) then
    verdict "failed" (label +:+ " failed: " +:+ fmt failed +:+ " instance(s) failed")
      target_units fulfilled_capacity running pending failed false
  else
    verdict "in_progress"
      (label +:+ ": " +:+ fmt running +:+ " running, " +:+ fmt pending +:+ " pending (" +:+
       fmt_float fulfilled_capacity +:+ "/" +:+ fmt target_units +:+ " capacity units)")
      target_units fulfilled_capacity running pending failed false.

Inductive AWSFleetType := INSTANT | REQUEST | MAINTAIN.
#[global] Instance AWSFleetType_eq_dec : EqDecision AWSFleetType.
Proof. solve_decision. Defined.

(** [AWSFleetType(value)]. *)
Definition AWSFleetType_of (s : string) : result AWSFleetType :=
  if s ≟ "instant" then Ok INSTANT
  else if s ≟ "request" then Ok REQUEST
  else if s ≟ "maintain" then Ok MAINTAIN
  else Err (ValueError (str_repr s +:+ " is not a valid AWSFleetType")).

Definition _capacity_diagnostic (fulfilled target : Z) (now : datetime) : FulfilmentDiagnostic :=
  {| fd_category := DiagnosticCategory.CAPACITY;
     fd_summary := "Partially fulfilled: " +:+ fmt fulfilled +:+ "/" +:+ fmt target +:+ " capacity";
     fd_detail := None; fd_provider_errors := []; fd_occurred_at := now |}.

Definition with_diagnostic (d : option FulfilmentDiagnostic) (f : ProviderFulfilment)
  : ProviderFulfilment :=
  {| pf_state := pf_state f; pf_message := pf_message f; pf_target_units := pf_target_units f;
     pf_fulfilled_units := pf_fulfilled_units f; pf_running_count := pf_running_count f;
     pf_pending_count := pf_pending_count f; pf_failed_count := pf_failed_count f;
     pf_final := pf_final f; pf_diagnostic := d |}.

Definition compute_ec2fleet_fulfilment (fleet_type : option AWSFleetType)
    (instances : list aws_instance) (target_capacity : option Z)
    (fulfilled_capacity requested_count : Z) (now : datetime) : ProviderFulfilment :=
  let running := tally (has_status "running") instances in
  let pending := tally (has_status "pending") instances in
  let failed := tally (has_status "failed") instances in
  let target_units := default requested_count target_capacity in
  if fleet_type ≟ Some INSTANT then
    if (requested_count <=? running) && (failed =? 0) then
      verdict "fulfilled" ("Instant fleet: " +:+ fmt running +:+ " instance(s) running")
        target_units running running pending failed false
    else if 0 <? pending then
      verdict "in_progress"
        ("Instant fleet: " +:+ fmt running +:+ "/" +:+ fmt requested_count +:+ " running, " +:+
         fmt pending +:+ " pending")
        target_units running running pending failed false
    else if 0 <? running then
      with_diagnostic (Some (_capacity_diagnostic running requested_count now))
        (verdict "partial"
           ("Instant fleet: " +:+ fmt running +:+ "/" +:+ fmt requested_count +:+
            " instance(s) running")
           target_units running running pending failed true)
    else match instances with
         | [] => verdict "in_progress" "Instant fleet: waiting for instances" target_units 0 0 0 0 false
         | _ => verdict "failed" "Instant fleet: all instances failed" target_units 0 running pending
                  failed false
         end
  else
    compute_capacity_based_fulfilment target_capacity fulfilled_capacity running pending failed
      "Fleet".

Definition _compute_spot_fleet_fulfilment (instances : list aws_instance)
    (target_capacity : option Z) (fulfilled_capacity : Z) : ProviderFulfilment :=
  compute_capacity_based_fulfilment target_capacity fulfilled_capacity
    (tally (has_status "running") instances) (tally (has_status "pending") instances)
    (tally (has_status "failed") instances) "Spot Fleet".

(** ** Capacity snapshots *)

Record FleetCapacityFulfilment := mk_capacity {
  target_capacity_units : option Z;
  fulfilled_capacity_units : Z;
  provisioned_instance_count : Z;
  fulfillment_complete : bool
}.

(** [int(q)] truncates. *)
Definition int_of (q : Q) : Z := Z.quot (Qnum q) (Zpos (Qden q)).

(** The entry of [DescribeFleets] or [DescribeSpotFleetRequests], as read. *)
Record fleet := mk_fleet {
  fl_type : option string;                  (* [Type or FleetType] *)
  fl_target : option Z;
  fl_fulfilled : option Q;
  fl_instance_ids : list string             (* of an instant fleet *)
}.

Definition fetch_fleet_capacity (f : fleet) (active_instance_count : Z) : FleetCapacityFulfilment :=
  let raw := default 0%Q (fl_fulfilled f) in
  {| target_capacity_units := fl_target f;
     fulfilled_capacity_units := int_of raw;
     provisioned_instance_count := active_instance_count;
     fulfillment_complete :=
       match fl_target f with Some t => Qle_bool (inject_Z t) raw | None => false end |}.
Definition _fetch_ec2_fleet_capacity := fetch_fleet_capacity.
Definition _fetch_spot_fleet_capacity := fetch_fleet_capacity.

Record asg_instance := mk_asg_instance {
  asg_instance_id : string;                 (* [""] for a missing one *)
  lifecycle_state : string;
  weighted_capacity : option Z
}.

Record asg_group := mk_asg_group {
  desired_capacity : option Z;
  asg_instances : list asg_instance
}.

Definition in_service (i : asg_instance) : bool := lifecycle_state i ≟ "InService".

(** [int(inst.get("WeightedCapacity") or 1)]. *)
Definition weight (i : asg_instance) : Z :=
  match weighted_capacity i with Some w => if w =? 0 then 1 else w | None => 1 end.

Definition sum_in_service (l : list asg_instance) : Z :=
  foldr (λ i n, if in_service i then weight i + n else n) 0 l.

Definition _fetch_asg_capacity (g : asg_group) : FleetCapacityFulfilment :=
  let desired := default 0 (desired_capacity g) in
  let weighted := sum_in_service (asg_instances g) in
  {| target_capacity_units := Some desired;
     fulfilled_capacity_units := weighted;
     provisioned_instance_count := tally in_service (asg_instances g);
     fulfillment_complete := (0 <? desired) && (desired <=? weighted) |}.

Definition _compute_asg_fulfilment (desired weighted pending in_service_count : Z)
    (ec2_instances : list aws_instance) : ProviderFulfilment :=
  let failed := tally (has_status "failed") ec2_instances in
  let running := tally (has_status "running") ec2_instances in
  let capacity := fmt weighted +:+ "/" +:+ fmt desired +:+ " weighted capacity)" in
  if (0 <? desired) && (desired <=? weighted) && (pending =? 0) && (failed =? 0)
     && (in_service_count <=? running) then
    verdict "fulfilled"
      ("ASG fulfilled: " +:+ fmt in_service_count +:+ " instance(s) InService (" +:+ capacity)
      desired weighted running pending failed false
  else if (0 <? failed) && (in_service_count =? 0) && (pending =? 0) then
    verdict "failed" ("ASG failed: " +:+ fmt failed +:+ " instance(s) in failure state")
      desired weighted running pending failed false
  else
    verdict "in_progress"
      ("ASG: " +:+ fmt in_service_count +:+ " InService, " +:+ fmt pending +:+ " pending (" +:+
       capacity)
      desired weighted running pending failed false.

(** ** Diagnostics in AWS's words *)

(** [_AWS_SUMMARY_TEMPLATES[category].format(n=n)]. *)
Definition aws_summary (category : DiagnosticCategory.t) (n : Z) : result string :=
  match category with
  | DiagnosticCategory.CAPACITY =>
      Ok ("Insufficient AWS capacity for " +:+ fmt n +:+ " instance type(s)")
  | DiagnosticCategory.AUTH => Ok "AWS authorization denied"
  | DiagnosticCategory.VALIDATION => Ok "AWS request validation failed"
  | DiagnosticCategory.RATE_LIMIT => Ok "AWS throttled the request"
  | DiagnosticCategory.INTERNAL => Ok "AWS provider error"
  | DiagnosticCategory.UNKNOWN => Ok ("AWS returned " +:+ fmt n +:+ " error(s)")
  | DiagnosticCategory.DEADLINE | DiagnosticCategory.CANCELLED =>
      Err (KeyError (DiagnosticCategory.value category))
  end.

Definition classify_aws_errors (errors : list (dict json)) (now : datetime)
  : result FulfilmentDiagnostic :=
  diag ← classify_provider_errors errors now;
  summary ← aws_summary (fd_category diag) (Z.of_nat (length (fd_provider_errors diag)));
  Ok {| fd_category := fd_category diag; fd_summary := summary; fd_detail := fd_detail diag;
        fd_provider_errors := fd_provider_errors diag; fd_occurred_at := fd_occurred_at diag |}.

Definition build_diagnostic_for_errors (fleet_errors : list (dict json)) (now : datetime)
  : result (option FulfilmentDiagnostic) :=
  match fleet_errors with
  | [] => Ok None
  | _ => Some <$> classify_aws_errors fleet_errors now
  end.

(** ** Several groups, one verdict *)

Definition sum_present (values : list (option Z)) : Z := foldr (λ o n, default 0 o + n) 0 values.

Definition _sum_optional_counts (values : list (option Z)) : option Z :=
  if existsb (λ o, negb (o ≟ None)) values then Some (sum_present values) else None.

Definition merge_into (acc : option FulfilmentDiagnostic) (f : ProviderFulfilment)
  : option FulfilmentDiagnostic :=
  match pf_diagnostic f with
  | None => acc
  | Some d => Some match acc with None => d | Some a => merge a d end
  end.

Definition aggregate_fleet_fulfilment (state message : string) (final : bool)
    (contributors : list ProviderFulfilment) (requested_count : Z) : ProviderFulfilment :=
  {| pf_state := state; pf_message := message;
     pf_target_units := Some requested_count;
     pf_fulfilled_units := _sum_optional_counts (pf_fulfilled_units <$> contributors);
     pf_running_count := _sum_optional_counts (pf_running_count <$> contributors);
     pf_pending_count := _sum_optional_counts (pf_pending_count <$> contributors);
     pf_failed_count := _sum_optional_counts (pf_failed_count <$> contributors);
     pf_final := final;
     pf_diagnostic :=
       if state ∈? ["partial"; "failed"] then foldl merge_into None contributors else None |}.

(** [CheckHostsStatusResult]. *)
Definition status_result : Type := list aws_instance * ProviderFulfilment.

(** The loop over the request's resource ids: a group whose check raises is
    logged and skipped. *)
Fixpoint collect (check : string → result status_result) (ids : list string) : list status_result :=
  match ids with
  | [] => []
  | id :: rest =>
      match check id with
      | Ok r => r :: collect check rest
      | Err _ => collect check rest
      end
  end.

Definition any_state (s : string) (fs : list ProviderFulfilment) : bool :=
  existsb (λ f, pf_state f ≟ s) fs.
Definition all_state (s : string) (fs : list ProviderFulfilment) : bool :=
  forallb (λ f, pf_state f ≟ s) fs.

(** [combined_final] of a partial aggregate. *)
Definition partials_final (fs : list ProviderFulfilment) : bool :=
  forallb (λ f, negb (pf_state f ≟ "partial") || pf_final f) fs.

Definition n_groups (fs : list ProviderFulfilment) : string := fmt (Z.of_nat (length fs)).

(** The aggregation of EC2 fleets: waiting comes before failing. *)
Definition combine_ec2_fleets (fs : list ProviderFulfilment) (requested_count : Z)
  : ProviderFulfilment :=
  let '(state, msg, final) :=
    if all_state "fulfilled" fs then ("fulfilled", "All " +:+ n_groups fs +:+ " fleets fulfilled", false)
    else if any_state "in_progress" fs then
      ("in_progress", "One or more fleets still provisioning", false)
    else if any_state "failed" fs then ("failed", "One or more fleets failed", false)
    else if any_state "partial" fs then
      ("partial", "One or more fleets partially fulfilled", partials_final fs)
    else ("in_progress", "Waiting for fleet(s) to fulfil", false) in
  aggregate_fleet_fulfilment state msg final fs requested_count.

(** The aggregation of spot fleets: failing comes first. *)
Definition combine_spot_fleets (fs : list ProviderFulfilment) (requested_count : Z)
  : ProviderFulfilment :=
  let '(state, msg, final) :=
    if all_state "fulfilled" fs then
      ("fulfilled", "All " +:+ n_groups fs +:+ " spot fleets fulfilled", false)
    else if any_state "failed" fs then ("failed", "One or more spot fleets failed", false)
    else if any_state "partial" fs then
      ("partial", "One or more spot fleets partially fulfilled", partials_final fs)
    else ("in_progress", "Waiting for spot fleet(s) to fulfil", false) in
  aggregate_fleet_fulfilment state msg final fs requested_count.

(** The aggregation of auto scaling groups; it carries no counts. *)
Definition combine_asgs (fs : list ProviderFulfilment) : ProviderFulfilment :=
  let '(state, msg) :=
    if all_state "fulfilled" fs then ("fulfilled", "All " +:+ n_groups fs +:+ " ASGs fulfilled")
    else if any_state "failed" fs then ("failed", "One or more ASGs failed")
    else if any_state "partial" fs then ("partial", "One or more ASGs partially fulfilled")
    else ("in_progress", "Waiting for ASG(s) to fulfil") in
  fulfilment state msg false.

(** The common shape of the three [check_hosts_status] after the loop. *)
Definition combine_results (nothing : ProviderFulfilment)
    (combine : list ProviderFulfilment → ProviderFulfilment) (results : list status_result)
  : status_result :=
  match results with
  | [] => ([], nothing)
  | [(instances, f)] => (instances, f)
  | _ => (concat results.*1, combine results.*2)
  end.

(** A verdict with the counts at zero and no units delivered yet known. *)
Definition waiting (message : string) (requested_count : Z) : ProviderFulfilment :=
  {| pf_state := "in_progress"; pf_message := message; pf_target_units := Some requested_count;
     pf_fulfilled_units := None; pf_running_count := Some 0; pf_pending_count := Some 0;
     pf_failed_count := Some 0; pf_final := false; pf_diagnostic := None |}.

(** ** EC2 fleets *)

Section Ec2Fleet.
(** What AWS answers about a fleet: [DescribeFleets], [DescribeFleetInstances],
    and the formatted details of instances. *)
Context (describe : string → result (list fleet)).
Context (active : string → result (list string)).
Context (details : list string → result (list aws_instance)).
Context (convert_client_error : exn → exn).

Record fleet_request := mk_fleet_request {
  fr_resource_ids : list string;
  fr_requested_count : Z;
  fr_fleet_type : option string;            (* [metadata["fleet_type"]] *)
  fr_instance_ids : list string             (* [metadata["instance_ids"]] *)
}.

(** The [except] clauses of [_check_single_fleet_status]. *)
Definition wrap_errors {A} (m : result A) : result A :=
  match m with
  | Ok a => Ok a
  | Err e =>
      if match e with OtherError class _ => class ≟ "ClientError" | _ => false end
      then Err (convert_client_error e)
      else Err (OtherError "AWSInfrastructureError"
                    ("Failed to check EC2 Fleet status: " +:+ exn_str e))
  end.

(** The fleet type of the metadata; an invalid or empty one is as good as none. *)
Definition metadata_fleet_type (r : fleet_request) : option AWSFleetType :=
  match fr_fleet_type r with
  | Some v =>
      if v ≟ EmptyString then None
      else match AWSFleetType_of (str_lower v) with Ok t => Some t | Err _ => None end
  | None => None
  end.

Definition _check_single_fleet_status (fleet_id : string) (r : fleet_request) (now : datetime)
  : result status_result :=
  wrap_errors (
    fleets ← describe fleet_id;
    match fleets with
    | [] => Err (OtherError "AWSEntityNotFoundError" ("Fleet " +:+ fleet_id +:+ " not found"))
    | f :: _ =>
        fleet_type ← match metadata_fleet_type r with
                     | Some t => Ok t
                     | None => AWSFleetType_of (str_lower (or_str (fl_type f) "maintain"))
                     end;
        let capacity := _fetch_ec2_fleet_capacity f 0 in
        let target := target_capacity_units capacity in
        ids ← (if fleet_type ≟ INSTANT
               then Ok (match fr_instance_ids r with [] => fl_instance_ids f | l => l end)
               else active fleet_id);
        let per_fleet_requested := default (fr_requested_count r) target in
        instances ← match ids with [] => Ok [] | _ => details ids end;
        Ok (instances,
            compute_ec2fleet_fulfilment (Some fleet_type) instances target
              (fulfilled_capacity_units capacity) per_fleet_requested now)
    end).

Definition ec2_check_hosts_status (r : fleet_request) (now : datetime) : result status_result :=
  match fr_resource_ids r with
  | [] => Err (OtherError "AWSInfrastructureError" "No Fleet ID found in request")
  | ids =>
      Ok (combine_results (fulfilment "in_progress" "No fleet status available — will retry" false)
            (λ fs, combine_ec2_fleets fs (fr_requested_count r))
            (collect (λ id, _check_single_fleet_status id r now) ids))
  end.
End Ec2Fleet.

(** ** Spot fleets *)

Section SpotFleet.
Context (describe : string → result (list fleet)).
Context (active : string → result (list string)).
Context (details : list string → result (list aws_instance)).

Definition _get_spot_fleet_status (fleet_id : string) (requested_count : Z) : result status_result :=
  fleets ← describe fleet_id;
  match fleets with
  | [] => Ok ([], waiting ("Spot Fleet " +:+ fleet_id +:+ " not yet visible — waiting") requested_count)
  | f :: _ =>
      ids ← active fleet_id;
      let capacity := _fetch_spot_fleet_capacity f (Z.of_nat (length ids)) in
      let target := target_capacity_units capacity in
      let fulfilled := fulfilled_capacity_units capacity in
      let target_units := default requested_count target in
      match ids with
      | [] =>
          let message :=
            if fulfillment_complete capacity then
              "Spot Fleet capacity allocated (" +:+ fmt_float fulfilled +:+ "/" +:+
              fmt target_units +:+ "), instances starting"
            else
              "Spot Fleet waiting for instances (" +:+ fmt_float fulfilled +:+ "/" +:+
              fmt target_units +:+ " capacity units)" in
          Ok ([], verdict "in_progress" message target_units fulfilled 0 0 0 false)
      | _ =>
          instances ← details ids;
          Ok (instances, _compute_spot_fleet_fulfilment instances target fulfilled)
      end
  end.

Definition spot_check_hosts_status (ids : list string) (requested_count : Z) : status_result :=
  match ids with
  | [] => ([], waiting "No Spot Fleet IDs yet — waiting for provisioning" requested_count)
  | _ =>
      combine_results (fulfilment "in_progress" "No Spot Fleet status available — will retry" false)
        (λ fs, combine_spot_fleets fs requested_count)
        (collect (λ id, _get_spot_fleet_status id requested_count) ids)
  end.
End SpotFleet.

(** ** Auto scaling groups *)

Section Asg.
Context (describe : string → result (list asg_group)).
Context (details : list string → result (list aws_instance)).

Definition asg_pending (i : asg_instance) : bool :=
  lifecycle_state i ∈? ["Pending"; "Pending:Wait"; "Pending:Proceed"].

Definition asg_live (i : asg_instance) : bool :=
  negb (asg_instance_id i ≟ EmptyString)
  && negb (lifecycle_state i ∈? ["Terminating"; "Terminated"; "Detaching"; "Detached"]).

Definition _get_asg_status (name : string) (requested_count : Z) : result status_result :=
  groups ← describe name;
  match groups with
  | [] => Ok ([], waiting ("ASG " +:+ name +:+ " not yet visible — waiting") requested_count)
  | g :: _ =>
      let capacity := _fetch_asg_capacity g in
      let ids := asg_instance_id <$> filter (λ i, asg_live i) (asg_instances g) in
      let instances :=
        match ids with
        | [] => []
        | _ => match details ids with Ok l => l | Err _ => [] end
        end in
      Ok (instances,
          _compute_asg_fulfilment (default 0 (target_capacity_units capacity))
            (fulfilled_capacity_units capacity) (tally asg_pending (asg_instances g))
            (provisioned_instance_count capacity) instances)
  end.

Definition asg_check_hosts_status (names : list string) (requested_count : Z) : status_result :=
  match names with
  | [] => ([], waiting "No ASG names yet — waiting for provisioning" requested_count)
  | _ =>
      combine_results (fulfilment "in_progress" "No ASG status available — will retry" false)
        combine_asgs (collect (λ name, _get_asg_status name requested_count) names)
  end.
End Asg.

(** ** The contract, discharged *)

(** The classes of an instance exclude each other. *)
Lemma running_not_pending i : has_status "running" i = true → has_status "pending" i = false.
Proof. unfold has_status. rewrite bool_decide_eq_true, bool_decide_eq_false. congruence. Qed.

Lemma ending_class i :
  is_launch_failure true i = true → is_unknown_ending i = false.
Proof.
  unfold is_launch_failure, is_unknown_ending, has_status, status_in.
  destruct (ai_status i) as [s|]; [|done]. destruct (ai_status_reason i) as [r|]; simpl.
  - destruct (r ≟ EmptyString) eqn:Hr; simpl; [|by rewrite andb_false_r].
    rewrite andb_false_r, orb_false_r, bool_decide_eq_true. intros [= ->]. done.
  - rewrite andb_false_r, orb_false_r, bool_decide_eq_true. intros [= ->]. done.
Qed.

Lemma running_class i :
  has_status "running" i = true →
  is_launch_failure true i || is_unknown_ending i = false ∧ is_intentional_teardown true i = false.
Proof.
  unfold has_status. rewrite bool_decide_eq_true. intros Hs.
  unfold is_launch_failure, is_unknown_ending, is_intentional_teardown, has_status, status_in.
  by rewrite Hs.
Qed.

Section RunInstances.
Implicit Type l : list aws_instance.

Lemma run_failed_or l :
  tally (is_launch_failure true) l + tally is_unknown_ending l =
  tally (λ i, is_launch_failure true i || is_unknown_ending i) l.
Proof. apply tally_or. intros i _. apply ending_class. Qed.

(** Running and failed instances are different ones. *)
Lemma run_counts_bounds l requested running pending failed torn :
  run_counts l requested = (running, pending, failed, torn) →
  0 ≤ running ∧ 0 ≤ pending ∧ 0 ≤ failed ∧ 0 ≤ torn ∧ running + failed ≤ Z.of_nat (length l).
Proof.
  unfold run_counts. pose proof (run_failed_or l) as Hor.
  assert (tally (has_status "running") l + tally (λ i, is_launch_failure true i || is_unknown_ending i) l
          ≤ Z.of_nat (length l)) as Hdis.
  { apply tally_disjoint. intros i _ Hr. by apply running_class in Hr as [? _]. }
  pose proof (tally_nonneg is_unknown_ending l). pose proof (tally_nonneg (is_launch_failure true) l).
  pose proof (tally_nonneg (is_intentional_teardown true) l).
  pose proof (tally_nonneg (has_status "running") l). pose proof (tally_nonneg (has_status "pending") l).
  destruct (_ <? _); intros [= <- <- <- <-]; lia.
Qed.

Definition observe_run (i : list aws_instance * Z) : observation :=
  let '(running, pending, _, torn) := run_counts i.1 i.2 in mk_obs i.2 (running + torn) running pending.

#[global] Instance run_instances_sound :
  SoundVerdict (λ _, True) observe_run (λ i, _compute_run_instances_fulfilment i.1 i.2).
Proof.
  intros [l requested] _. unfold observe_run, _compute_run_instances_fulfilment. cbn [fst snd].
  destruct (run_counts l requested) as [[[running pending] failed] torn] eqn:Hc.
  apply run_counts_bounds in Hc.
  repeat match goal with |- context [if ?b then _ else _] => destruct b eqn:? end; solve_verdict.
Qed.
End RunInstances.

Definition observe_microvm (i : list (string * string) * Z) : observation :=
  let l := (λ v, _build_machine_payload v.1 v.2) <$> i.1 in
  mk_obs i.2
    (tally (has_status "running") l
     + tally (λ i, status_in ["shutting-down"; "terminated"] i && negb (microvm_failed i)) l)
    (tally (has_status "running") l) (tally (has_status "pending") l).

Lemma microvm_running_live id st :
  has_status "running" (_build_machine_payload id st) = true →
  microvm_failed (_build_machine_payload id st)
  || (status_in ["shutting-down"; "terminated"] (_build_machine_payload id st)
      && negb (microvm_failed (_build_machine_payload id st))) = false.
Proof.
  unfold has_status, status_in, microvm_failed. cbn [_build_machine_payload ai_status ai_microvm_state].
  set (mapped := default "terminated" (dget st _MICROVM_STATE_MAP)).
  rewrite bool_decide_eq_true. intros Heq. assert (mapped = "running") as Hm by congruence. rewrite Hm.
  rewrite (bool_decide_eq_false_2 ("running" ∈ _)) by set_solver. simpl. rewrite orb_false_r.
  apply bool_decide_eq_false. intros Hst. assert (st = "FAILED") as -> by congruence.
  by vm_compute in Hm.
Qed.

#[global] Instance microvm_sound :
  SoundVerdict (λ _, True) observe_microvm
    (λ i, _compute_microvm_fulfilment ((λ v, _build_machine_payload v.1 v.2) <$> i.1) i.2).
Proof.
  intros [vms requested] _. unfold observe_microvm, _compute_microvm_fulfilment. cbn [fst snd].
  set (l := _ <$> vms).
  set (torn := λ i, status_in ["shutting-down"; "terminated"] i && negb (microvm_failed i)).
  assert (tally (has_status "running") l + (tally microvm_failed l + tally torn l) ≤ Z.of_nat (length l)) as Hd.
  { rewrite tally_or.
    - apply tally_disjoint. intros i (v & -> & _)%list_elem_of_fmap. apply microvm_running_live.
    - unfold torn. intros i _ ->. by rewrite andb_false_r. }
  pose proof (tally_nonneg (has_status "running") l). pose proof (tally_nonneg (has_status "pending") l).
  pose proof (tally_nonneg microvm_failed l). pose proof (tally_nonneg torn l).
  repeat match goal with |- context [if ?b then _ else _] => destruct b eqn:? end; solve_verdict.
Qed.

Record fleet_input := mk_fleet_input {
  fi_type : option AWSFleetType;
  fi_instances : list aws_instance;
  fi_target : option Z;
  fi_fulfilled : Z;
  fi_requested : Z;
  fi_now : datetime
}.

Definition ec2_verdict (i : fleet_input) : ProviderFulfilment :=
  compute_ec2fleet_fulfilment (fi_type i) (fi_instances i) (fi_target i) (fi_fulfilled i)
    (fi_requested i) (fi_now i).

(** Instant fleets count instances, the others capacity units. *)
Definition observe_ec2 (i : fleet_input) : observation :=
  let running := tally (has_status "running") (fi_instances i) in
  let pending := tally (has_status "pending") (fi_instances i) in
  if fi_type i ≟ Some INSTANT then mk_obs (fi_requested i) running running pending
  else mk_obs (default (fi_fulfilled i) (fi_target i)) (fi_fulfilled i) running pending.

Definition observe_spot (i : fleet_input) : observation :=
  mk_obs (default (fi_fulfilled i) (fi_target i)) (fi_fulfilled i)
    (tally (has_status "running") (fi_instances i)) (tally (has_status "pending") (fi_instances i)).

Lemma capacity_sound target fulfilled running pending failed label :
  0 ≤ running → 0 ≤ pending →
  sound_verdict (mk_obs (default fulfilled target) fulfilled running pending)
    (compute_capacity_based_fulfilment target fulfilled running pending failed label).
Proof.
  intros Hr Hp. unfold compute_capacity_based_fulfilment.
  destruct target as [t|]; cbn [default];
    repeat match goal with |- context [if ?b then _ else _] => destruct b eqn:? end; solve_verdict.
Qed.

#[global] Instance ec2_fleet_sound : SoundVerdict (λ _, True) observe_ec2 ec2_verdict.
Proof.
  intros i _. unfold observe_ec2, ec2_verdict, compute_ec2fleet_fulfilment.
  pose proof (tally_nonneg (has_status "running") (fi_instances i)).
  pose proof (tally_nonneg (has_status "pending") (fi_instances i)).
  destruct (fi_type i ≟ Some INSTANT); [|by apply capacity_sound].
  generalize dependent (tally (has_status "running") (fi_instances i)).
  generalize dependent (tally (has_status "pending") (fi_instances i)).
  generalize (tally (has_status "failed") (fi_instances i)). intros failed pending Hp running Hr.
  repeat match goal with |- context [if ?b then _ else _] => destruct b eqn:? end;
    [solve_verdict..|destruct (fi_instances i)]; solve_verdict.
Qed.

#[global] Instance spot_fleet_sound :
  SoundVerdict (λ _, True) observe_spot
    (λ i, _compute_spot_fleet_fulfilment (fi_instances i) (fi_target i) (fi_fulfilled i)).
Proof. intros i _. apply capacity_sound; apply tally_nonneg. Qed.

(** A group is observed through what it has in service. *)
Definition asg_verdict (i : asg_group * list aws_instance) : ProviderFulfilment :=
  let c := _fetch_asg_capacity i.1 in
  _compute_asg_fulfilment (default 0 (target_capacity_units c)) (fulfilled_capacity_units c)
    (tally asg_pending (asg_instances i.1)) (provisioned_instance_count c) i.2.

Definition observe_asg (i : asg_group * list aws_instance) : observation :=
  mk_obs (default 0 (desired_capacity i.1)) (sum_in_service (asg_instances i.1))
    (tally in_service (asg_instances i.1)) (tally asg_pending (asg_instances i.1)).

#[global] Instance asg_sound : SoundVerdict (λ _, True) observe_asg asg_verdict.
Proof.
  intros [g l] _. unfold observe_asg, asg_verdict, _compute_asg_fulfilment.
  cbn [fst snd target_capacity_units fulfilled_capacity_units provisioned_instance_count
       _fetch_asg_capacity default].
  set (desired := default 0 (desired_capacity g)). set (weighted := sum_in_service _).
  pose proof (tally_nonneg in_service (asg_instances g)).
  pose proof (tally_nonneg asg_pending (asg_instances g)).
  repeat match goal with |- context [if ?b then _ else _] => destruct b eqn:? end; solve_verdict.
Qed.

(** Truncation loses nothing.  AWS reports fulfilled capacity as a fraction
    and the broker keeps its integer part; for a non-negative report the integer
    part reaches the target exactly when the report does, so the verdict, which
    sees only the integer part, agrees with [fulfillment_complete], which was
    computed from the report. *)
Theorem capacity_truncation_exact f n :
  Qle 0 (default 0%Q (fl_fulfilled f)) →
  let c := fetch_fleet_capacity f n in
  fulfillment_complete c = true ↔
  ∃ t, target_capacity_units c = Some t ∧ t ≤ fulfilled_capacity_units c.
Proof.
  intros Hq. unfold fetch_fleet_capacity. cbn.
  set (q := default 0%Q (fl_fulfilled f)) in *. destruct (fl_target f) as [t|].
  2: { split; [done|]. by intros (t & ? & _). }
  rewrite Qle_bool_iff. unfold Qle, inject_Z in *. cbn in *.
  assert (0 ≤ Qnum q) as Hn by lia. unfold int_of.
  rewrite Z.quot_div_nonneg by lia.
  split.
  - intros Hle. exists t. split; [done|]. apply Z.div_le_lower_bound; lia.
  - intros (t' & [= <-] & Hle). pose proof (Z.mul_div_le (Qnum q) (Zpos (Qden q)) ltac:(lia)). nia.
Qed.

(** ** Instances that are all gone *)

Definition gone (i : aws_instance) : bool := status_in ("failed" :: TEARDOWN_STATUSES) i.

Lemma gone_class i :
  gone i = true →
  is_intentional_teardown true i = negb (is_launch_failure true i || is_unknown_ending i).
Proof.
  unfold gone, is_intentional_teardown, is_launch_failure, is_unknown_ending, has_status, status_in.
  destruct (ai_status i) as [s|]; [|done]. intros Hs%bool_decide_eq_true.
  unfold TEARDOWN_STATUSES in Hs. rewrite !elem_of_cons in Hs.
  destruct Hs as [->|[->|[->|[->|[->|[]%not_elem_of_nil]]]]]; simpl; try done;
    by rewrite negb_orb.
Qed.

Lemma gone_counts l requested running pending failed torn :
  (∀ i, i ∈ l → gone i = true) →
  run_counts l requested = (running, pending, failed, torn) →
  running = 0 ∧ pending = 0 ∧ failed + torn = Z.of_nat (length l).
Proof.
  intros Hg. unfold run_counts.
  assert (∀ s, s ∉ "failed" :: TEARDOWN_STATUSES → tally (has_status s) l = 0) as H0.
  { intros s Hs. apply tally_none. intros i Hi. apply bool_decide_eq_false. intros Heq.
    specialize (Hg i Hi). unfold gone, status_in in Hg. rewrite Heq in Hg.
    by apply bool_decide_eq_true in Hg. }
  rewrite !H0 by (unfold TEARDOWN_STATUSES; set_solver).
  assert (tally (is_intentional_teardown true) l
          = tally (λ i, negb (is_launch_failure true i || is_unknown_ending i)) l) as Ht.
  { apply tally_ext. intros i Hi. by apply gone_class, Hg. }
  pose proof (tally_negb (λ i, is_launch_failure true i || is_unknown_ending i) l) as Hn.
  pose proof (run_failed_or l). cbn beta in Hn.
  destruct (_ <? _); intros [= <- <- <- <-]; (split; [done|split; [done|lia]]).
Qed.

(** When a RunInstances request whose instances have all ended is settled.
    The verdict is "failed" when all of them failed, or when all were taken away
    on purpose and they were enough; when some failed and some were taken away,
    or when fewer than requested existed and none failed, it stays "in progress",
    which no later observation of those instances changes. *)
Theorem run_instances_all_gone l requested :
  0 < requested → l ≠ [] → (∀ i, i ∈ l → gone i = true) →
  let '(_, _, failed, torn) := run_counts l requested in
  pf_state (_compute_run_instances_fulfilment l requested) =
    if ((0 <? failed) && (0 <? torn)) || ((failed =? 0) && (torn <? requested))
    then "in_progress" else "failed".
Proof.
  intros Hreq Hl Hg. unfold _compute_run_instances_fulfilment.
  destruct (run_counts l requested) as [[[running pending] failed] torn] eqn:Hc.
  destruct (gone_counts _ _ _ _ _ _ Hg Hc) as (-> & -> & Hsum).
  apply run_counts_bounds in Hc as (_ & _ & Hf & Ht & _).
  assert (0 < Z.of_nat (length l)) as Hlen by (destruct l; [done|simpl; lia]).
  cbn [Z.ltb Z.add Z.compare]. split_tests; try done; exfalso; lia.
Qed.

(** ** Several groups *)

Lemma elem_of_collect check ids r : r ∈ collect check ids ↔ ∃ id, id ∈ ids ∧ check id = Ok r.
Proof.
  induction ids as [|id ids IH]; simpl.
  - split; [by intros ?%not_elem_of_nil|]. by intros (x & ?%not_elem_of_nil & _).
  - destruct (check id) as [r0|e] eqn:Hid.
    + rewrite elem_of_cons, IH. split.
      * intros [->|(x & Hx & ?)]; [exists id|exists x]; rewrite elem_of_cons; auto.
      * intros (x & [->|Hx]%elem_of_cons & Hr); [left; congruence|right; eauto].
    + rewrite IH. split; intros (x & Hx & Hr); exists x; rewrite elem_of_cons in *; [by auto|].
      destruct Hx as [->|]; [congruence|auto].
Qed.

Lemma any_state_spec s fs : any_state s fs = true ↔ ∃ f, f ∈ fs ∧ pf_state f = s.
Proof.
  unfold any_state. rewrite existsb_exists.
  split; intros (f & Hf & Hs); exists f; rewrite list_elem_of_In in *; by rewrite bool_decide_eq_true in *.
Qed.

Lemma all_state_spec s fs : all_state s fs = true ↔ ∀ f, f ∈ fs → pf_state f = s.
Proof.
  unfold all_state. rewrite forallb_forall. split; intros H f Hf.
  - specialize (H f). rewrite bool_decide_eq_true in H. by apply H, list_elem_of_In.
  - apply bool_decide_eq_true, H. by apply list_elem_of_In.
Qed.

(** The three aggregations say "fulfilled" of the same groups. *)
Lemma combined_fulfilled fs n :
  (pf_state (combine_ec2_fleets fs n) = "fulfilled" ↔ all_state "fulfilled" fs = true) ∧
  (pf_state (combine_spot_fleets fs n) = "fulfilled" ↔ all_state "fulfilled" fs = true) ∧
  (pf_state (combine_asgs fs) = "fulfilled" ↔ all_state "fulfilled" fs = true).
Proof.
  unfold combine_ec2_fleets, combine_spot_fleets, combine_asgs.
  destruct (all_state "fulfilled" fs); [done|].
  repeat match goal with |- context [if any_state ?s fs then _ else _] => destruct (any_state s fs) end;
    cbn; split_and!; split; discriminate.
Qed.

Lemma combine_results_fulfilled nothing combine results :
  pf_state nothing ≠ "fulfilled" →
  (∀ fs, pf_state (combine fs) = "fulfilled" ↔ all_state "fulfilled" fs = true) →
  pf_state (combine_results nothing combine results).2 = "fulfilled" ↔
  results ≠ [] ∧ ∀ r, r ∈ results → pf_state r.2 = "fulfilled".
Proof.
  intros Hn Hc. unfold combine_results. destruct results as [|[i f] [|r2 rs]]; cbn [snd].
  - by split; [|intros [? _]].
  - split; [intros Hf; split; [done|]|intros [_ H]; by apply (H (i, f)), list_elem_of_here].
    by intros r ->%list_elem_of_singleton.
  - rewrite Hc, all_state_spec. split.
    + intros H. split; [done|]. intros r Hr. apply H, list_elem_of_fmap. eauto.
    + intros [_ H] x (r & -> & Hr)%list_elem_of_fmap. eauto.
Qed.

(** When a request spread over EC2 fleets is reported fulfilled: exactly when
    at least one fleet could be checked and every fleet that could be checked is
    fulfilled.  A fleet whose check raised has no say. *)
Theorem ec2_fulfilled_iff describe active details convert r now :
  fr_resource_ids r ≠ [] →
  let check id := _check_single_fleet_status describe active details convert id r now in
  ∃ out, ec2_check_hosts_status describe active details convert r now = Ok out ∧
    (pf_state out.2 = "fulfilled" ↔
     (∃ id v, id ∈ fr_resource_ids r ∧ check id = Ok v) ∧
     (∀ id v, id ∈ fr_resource_ids r → check id = Ok v → pf_state v.2 = "fulfilled")).
Proof.
  intros Hids check. unfold ec2_check_hosts_status.
  destruct (fr_resource_ids r) as [|id0 ids] eqn:Hr; [done|]. eexists. split; [done|].
  rewrite combine_results_fulfilled; [|done|intros fs; apply combined_fulfilled].
  split.
  - intros [Hne H]. split; [|intros id v Hid Hv; apply H, elem_of_collect; eauto].
    destruct (collect _ _) as [|v rs] eqn:Hc; [done|].
    assert (v ∈ v :: rs) as Hv by apply list_elem_of_here. rewrite <- Hc in Hv.
    apply elem_of_collect in Hv as (id & ? & ?). eauto.
  - intros [(id & v & Hid & Hv) H]. split.
    + intros Hc. assert (v ∈ collect check (id0 :: ids)) as Hel by (apply elem_of_collect; eauto).
      unfold check in Hel. rewrite Hc in Hel. by apply not_elem_of_nil in Hel.
    + intros v' (id' & ? & ?)%elem_of_collect. eauto.
Qed.

(** The priorities of the EC2 aggregation.  Over fleets whose verdicts are
    among the four, the request is fulfilled when all are, otherwise waits as
    long as any fleet is in progress, otherwise is failed when any failed, and
    only else partial; a partial aggregate is the last word exactly when every
    partial fleet's verdict is. *)
Theorem ec2_aggregation_exact fs n :
  (∀ f, f ∈ fs → pf_state f ∈ verdict_states) →
  let v := combine_ec2_fleets fs n in
  let some s := ∃ f, f ∈ fs ∧ pf_state f = s in
  (pf_state v = "fulfilled" ↔ ∀ f, f ∈ fs → pf_state f = "fulfilled") ∧
  (pf_state v = "in_progress" ↔ some "in_progress") ∧
  (pf_state v = "failed" ↔ some "failed" ∧ ¬ some "in_progress") ∧
  (pf_state v = "partial" ↔ some "partial" ∧ ¬ some "in_progress" ∧ ¬ some "failed") ∧
  (pf_final v = true ↔ pf_state v = "partial" ∧
     ∀ f, f ∈ fs → pf_state f = "partial" → pf_final f = true).
Proof.
  intros Hvalid v some.
  assert (∀ s, any_state s fs = true ↔ some s) as Hany by (intros s; apply any_state_spec).
  assert (∀ s, some s → s ≠ "fulfilled" → all_state "fulfilled" fs = false) as Hmix.
  { intros s (f & Hf & Hs) Hne. apply not_true_iff_false. rewrite all_state_spec. intros H.
    specialize (H f Hf). congruence. }
  assert (partials_final fs = true ↔ ∀ f, f ∈ fs → pf_state f = "partial" → pf_final f = true) as Hpf.
  { unfold partials_final. rewrite forallb_forall. split; intros H f Hf.
    - intros Hp. apply list_elem_of_In, H in Hf. rewrite bool_decide_eq_true_2 in Hf; done.
    - apply list_elem_of_In in Hf. case_bool_decide as Hp; [|done]. by apply H. }
  rewrite <- all_state_spec. subst v. unfold combine_ec2_fleets.
  destruct (all_state "fulfilled" fs) eqn:Hall.
  { assert (∀ s, s ≠ "fulfilled" → ¬ some s) as Hno by (intros s Hne Hs; specialize (Hmix s Hs Hne); congruence).
    cbn. split_and!; split; try done; try (by intros Hs%Hno); try (by intros [Hs%Hno _]). by intros [? _]. }
  destruct (any_state "in_progress" fs) eqn:Hip.
  { apply Hany in Hip. cbn. split_and!; split; intuition discriminate. }
  assert (¬ some "in_progress") as Hnip by (by rewrite <- Hany, Hip).
  destruct (any_state "failed" fs) eqn:Hfl.
  { apply Hany in Hfl. cbn. split_and!; split; intuition discriminate. }
  assert (¬ some "failed") as Hnfl by (by rewrite <- Hany, Hfl).
  destruct (any_state "partial" fs) eqn:Hpa.
  { apply Hany in Hpa. cbn. split_and!; [split; intuition discriminate..|]. rewrite Hpf. tauto. }
  exfalso. assert (all_state "fulfilled" fs = true); [|congruence].
  apply all_state_spec. intros f Hf. specialize (Hvalid f Hf). unfold verdict_states in Hvalid.
  rewrite !elem_of_cons in Hvalid.
  destruct Hvalid as [?|[?|[?|[?|[]%not_elem_of_nil]]]]; [done|exfalso; apply Hnip|..|exfalso; apply Hnfl];
    try (by exists f). exfalso. assert (some "partial") as ?%Hany by (by exists f). congruence.
Qed.

(** The three aggregations disagree.  As soon as one group has failed, spot
    fleets and auto scaling groups report the whole request failed, whatever the
    other groups do, while EC2 fleets wait for a group still in progress. *)
Theorem aggregations_disagree fs n :
  (∃ f, f ∈ fs ∧ pf_state f = "failed") →
  (∃ f, f ∈ fs ∧ pf_state f = "in_progress") →
  pf_state (combine_spot_fleets fs n) = "failed" ∧ pf_state (combine_asgs fs) = "failed" ∧
  pf_state (combine_ec2_fleets fs n) = "in_progress".
Proof.
  intros Hfl Hip.
  assert (all_state "fulfilled" fs = false) as Hall.
  { apply not_true_iff_false. rewrite all_state_spec. destruct Hfl as (f & Hf & Hs). intros H.
    specialize (H f Hf). congruence. }
  apply any_state_spec in Hfl, Hip.
  unfold combine_spot_fleets, combine_asgs, combine_ec2_fleets. by rewrite Hall, Hfl, Hip.
Qed.

(** ** The order of the groups *)

(** Verdicts that differ at most in how their explanation is worded. *)
Definition verdict_equiv (f g : ProviderFulfilment) : Prop :=
  with_diagnostic None f = with_diagnostic None g ∧
  fd_category <$> pf_diagnostic f = fd_category <$> pf_diagnostic g.

#[global] Instance verdict_equiv_equivalence : Equivalence verdict_equiv.
Proof.
  split; [by intros f|by intros f g [? ?]|]. intros f g h [? ?] [? ?]. split; congruence.
Qed.

Definition worse (c d : DiagnosticCategory.t) : DiagnosticCategory.t :=
  if (_severity_index c <=? _severity_index d)%nat then c else d.

Definition worst (a : option DiagnosticCategory.t) (f : ProviderFulfilment) : option DiagnosticCategory.t :=
  match pf_diagnostic f with
  | None => a
  | Some d => Some match a with None => fd_category d | Some c => worse c (fd_category d) end
  end.

Lemma worse_index c d : _severity_index (worse c d) = Nat.min (_severity_index c) (_severity_index d).
Proof. unfold worse. destruct (Nat.leb_spec (_severity_index c) (_severity_index d)); lia. Qed.

Lemma merge_into_category acc f : fd_category <$> merge_into acc f = worst (fd_category <$> acc) f.
Proof.
  unfold merge_into, worst. destruct (pf_diagnostic f) as [d|]; [|done].
  destruct acc as [a|]; simpl; [|done]. f_equal. unfold worse. by case_match.
Qed.

Lemma foldl_merge_category acc fs :
  fd_category <$> foldl merge_into acc fs = foldl worst (fd_category <$> acc) fs.
Proof.
  revert acc. induction fs as [|f fs IH]; intros acc; simpl; [done|]. by rewrite IH, merge_into_category.
Qed.

Lemma worst_comm a f g : worst (worst a f) g = worst (worst a g) f.
Proof.
  unfold worst. destruct (pf_diagnostic f) as [d|], (pf_diagnostic g) as [e|]; try done.
  f_equal. destruct a as [c|]; apply severity_index_inj; rewrite !worse_index; lia.
Qed.

Lemma foldl_worst_perm a fs gs : fs ≡ₚ gs → foldl worst a fs = foldl worst a gs.
Proof.
  intros H. revert a. induction H as [|f fs gs _ IH|f g fs|fs gs hs _ IH1 _ IH2]; intros a; simpl.
  - done.
  - apply IH.
  - by rewrite worst_comm.
  - by rewrite IH1.
Qed.

Lemma sum_optional_perm vs ws : vs ≡ₚ ws → _sum_optional_counts vs = _sum_optional_counts ws.
Proof.
  intros H. unfold _sum_optional_counts.
  assert (sum_present vs = sum_present ws) as ->.
  { unfold sum_present. induction H; simpl; lia. }
  assert (existsb (λ o, negb (o ≟ None)) vs = existsb (λ o, negb (o ≟ None)) ws) as ->; [|done].
  induction H as [|v vs ws _ IH|v w vs|vs ws xs _ IH1 _ IH2]; simpl; [done|by rewrite IH| |congruence].
  rewrite !orb_assoc. f_equal. apply orb_comm.
Qed.

Lemma any_state_perm s fs gs : fs ≡ₚ gs → any_state s fs = any_state s gs.
Proof. intros H. apply eq_true_iff_eq. rewrite !any_state_spec. by setoid_rewrite H. Qed.

Lemma all_state_perm s fs gs : fs ≡ₚ gs → all_state s fs = all_state s gs.
Proof. intros H. apply eq_true_iff_eq. rewrite !all_state_spec. by setoid_rewrite H. Qed.

Lemma partials_final_perm fs gs : fs ≡ₚ gs → partials_final fs = partials_final gs.
Proof.
  intros H. apply eq_true_iff_eq. unfold partials_final. rewrite !forallb_forall.
  split; intros Hf f Hin; apply Hf, list_elem_of_In; apply list_elem_of_In in Hin; by rewrite H in *.
Qed.

#[global] Instance aggregate_proper state msg final :
  Proper ((≡ₚ) ==> (=) ==> verdict_equiv) (aggregate_fleet_fulfilment state msg final).
Proof.
  intros fs gs H n _ <-. unfold aggregate_fleet_fulfilment, verdict_equiv, with_diagnostic. cbn. split.
  - f_equal; apply sum_optional_perm; by rewrite H.
  - case_match; [|done]. rewrite !foldl_merge_category. by apply foldl_worst_perm.
Qed.

#[global] Instance combine_ec2_proper : Proper ((≡ₚ) ==> (=) ==> verdict_equiv) combine_ec2_fleets.
Proof.
  intros fs gs H n _ <-. unfold combine_ec2_fleets, n_groups.
  rewrite (all_state_perm _ _ _ H), !(any_state_perm _ _ _ H), (partials_final_perm _ _ H),
    (Permutation_length H).
  repeat case_match; by rewrite H.
Qed.

#[global] Instance combine_spot_proper : Proper ((≡ₚ) ==> (=) ==> verdict_equiv) combine_spot_fleets.
Proof.
  intros fs gs H n _ <-. unfold combine_spot_fleets, n_groups.
  rewrite (all_state_perm _ _ _ H), !(any_state_perm _ _ _ H), (partials_final_perm _ _ H),
    (Permutation_length H).
  repeat case_match; by rewrite H.
Qed.

Lemma collect_perm check ids ids' : ids ≡ₚ ids' → collect check ids ≡ₚ collect check ids'.
Proof.
  induction 1 as [|i l l' _ IH|i j l|l1 l2 l3 _ IH1 _ IH2]; simpl.
  - done.
  - destruct (check i); by rewrite IH.
  - destruct (check i), (check j); done || apply Permutation_swap.
  - by rewrite IH1.
Qed.

Lemma concat_perm {A} (l l' : list (list A)) : l ≡ₚ l' → concat l ≡ₚ concat l'.
Proof.
  induction 1 as [|x l l' _ IH|x y l|l1 l2 l3 _ IH1 _ IH2]; simpl; [done|by rewrite IH| |by rewrite IH1].
  rewrite !(assoc (++)). by rewrite (Permutation_app_comm y x).
Qed.

(** The order in which a request's groups are listed does not matter.  The
    verdict of a spot fleet request over the same ids in another order is the
    same in state, counts, message, finality and diagnostic category, and the
    instances are the same up to order. *)
Theorem spot_order_irrelevant describe active details ids ids' n :
  ids ≡ₚ ids' →
  let out := spot_check_hosts_status describe active details ids n in
  let out' := spot_check_hosts_status describe active details ids' n in
  out.1 ≡ₚ out'.1 ∧ verdict_equiv out.2 out'.2.
Proof.
  intros H. unfold spot_check_hosts_status.
  destruct ids as [|i ids]; [by apply Permutation_nil_l in H as <-|].
  destruct ids' as [|i' ids']; [by apply Permutation_nil_r in H|].
  set (check := λ id, _get_spot_fleet_status describe active details id n). apply (collect_perm check) in H.
  unfold combine_results.
  destruct (collect check (i :: ids)) as [|r [|r2 rs]].
  - by apply Permutation_nil_l in H as <-.
  - apply Permutation_singleton_l in H as <-. done.
  - destruct (collect check (i' :: ids')) as [|s [|s2 ss]].
    + by apply Permutation_nil_r in H.
    + by apply Permutation_singleton_r in H.
    + destruct r, s. cbn [fst snd]. split; [apply concat_perm|]; by rewrite H.
Qed.

(** ** Capacity without instances *)

(** A fleet that reports its capacity fulfilled but shows no instances.  For
    the same answers of AWS, an EC2 fleet (not instant) is reported fulfilled with
    no instance running, where a spot fleet is reported in progress. *)
Theorem fulfilled_without_instances describe active details convert id r now f rest t :
  describe id = Ok (f :: rest) →
  active id = Ok [] →
  metadata_fleet_type r = Some MAINTAIN →
  fl_target f = Some t →
  t ≤ int_of (default 0%Q (fl_fulfilled f)) →
  (∃ v, _check_single_fleet_status describe active details convert id r now = Ok ([], v) ∧
        pf_state v = "fulfilled" ∧ pf_running_count v = Some 0) ∧
  (∃ v, _get_spot_fleet_status describe active details id (fr_requested_count r) = Ok ([], v) ∧
        pf_state v = "in_progress").
Proof.
  intros Hd Ha Hm Ht Hle. unfold _check_single_fleet_status, _get_spot_fleet_status.
  rewrite Hd, Hm, Ha. cbn. rewrite Ht. split; [|eauto].
  eexists. split; [done|]. unfold compute_ec2fleet_fulfilment. cbn.
  unfold compute_capacity_based_fulfilment. by rewrite (proj2 (Z.leb_le _ _) Hle).
Qed.

(** ** Witnesses *)

Definition inst (id st : string) (reason : option string) : aws_instance :=
  mk_aws_instance id (Some st) reason None.

Definition ten_of_ten : fleet := mk_fleet (Some "maintain") (Some 10) (Some (10 # 1)%Q) [].

Definition demo_request : fleet_request := mk_fleet_request ["f-1"; "f-2"] 20 None [].

(** AWS knows only the second fleet. *)
Definition demo_describe (id : string) : result (list fleet) :=
  if id ≟ "f-2" then Ok [ten_of_ten] else Err (OtherError "ClientError" "throttled").

Definition demo_active (_ : string) : result (list string) := Ok ["i-1"].
Definition demo_details (l : list string) : result (list aws_instance) :=
  Ok ((λ id, inst id "running" None) <$> l).

Lemma capacity_truncation_exact_witness :
  ¬ (10 ≤ fulfilled_capacity_units
            (fetch_fleet_capacity (mk_fleet None (Some 10) (Some (19 # 2)%Q) []) 0)).
Proof.
  pose proof (capacity_truncation_exact (mk_fleet None (Some 10) (Some (19 # 2)%Q) []) 0
    ltac:(discriminate)) as [_ H].
  intros Hle. cbv zeta in H. specialize (H ltac:(exists 10; split; [reflexivity|exact Hle])).
  vm_compute in H. discriminate H.
Defined.

Lemma run_instances_all_gone_witness :
  pf_state (_compute_run_instances_fulfilment
    [inst "i-1" "terminated" (Some "Server.InsufficientInstanceCapacity");
     inst "i-2" "terminated" (Some "Client.UserInitiatedShutdown")] 2) = "in_progress".
Proof.
  apply (run_instances_all_gone
    [inst "i-1" "terminated" (Some "Server.InsufficientInstanceCapacity");
     inst "i-2" "terminated" (Some "Client.UserInitiatedShutdown")] 2); [lia|done|].
  intros i Hi. rewrite !elem_of_cons in Hi.
  destruct Hi as [->|[->|[]%not_elem_of_nil]]; vm_compute; reflexivity.
Defined.

Lemma ec2_fulfilled_iff_witness :
  ∃ out, ec2_check_hosts_status demo_describe demo_active demo_details id demo_request 0 = Ok out ∧
    pf_state out.2 = "fulfilled".
Proof.
  destruct (ec2_fulfilled_iff demo_describe demo_active demo_details id demo_request 0) as (out & Ho & Hs);
    [done|].
  exists out. split; [exact Ho|]. apply Hs. split.
  - exists "f-2". eexists. split; [right; left|]. vm_compute. reflexivity.
  - intros x v Hx. cbn [demo_request fr_resource_ids] in Hx. rewrite !elem_of_cons in Hx.
    destruct Hx as [->|[->|[]%not_elem_of_nil]]; intros Hv; vm_compute in Hv; [discriminate Hv|].
    injection Hv as <-. reflexivity.
Defined.

Lemma ec2_aggregation_exact_witness :
  pf_state (combine_ec2_fleets [fulfilment "failed" "a" false; fulfilment "fulfilled" "b" false] 2)
  = "failed".
Proof.
  destruct (ec2_aggregation_exact [fulfilment "failed" "a" false; fulfilment "fulfilled" "b" false] 2)
    as (_ & _ & H & _).
  - intros f Hf. rewrite !elem_of_cons in Hf.
    destruct Hf as [->|[->|[]%not_elem_of_nil]]; apply (bool_decide_unpack _); vm_compute; exact I.
  - apply H. split.
    + eexists. split; [left|reflexivity].
    + intros (f & Hf & Hs). rewrite !elem_of_cons in Hf.
      destruct Hf as [->|[->|[]%not_elem_of_nil]]; discriminate Hs.
Defined.

Lemma aggregations_disagree_witness :
  pf_state (combine_spot_fleets [fulfilment "failed" "a" false; fulfilment "in_progress" "b" false] 2)
  = "failed".
Proof.
  apply (aggregations_disagree [fulfilment "failed" "a" false; fulfilment "in_progress" "b" false] 2);
    [exists (fulfilment "failed" "a" false)|exists (fulfilment "in_progress" "b" false)];
    (split; [|reflexivity]); [left|right; left].
Defined.

Lemma spot_order_irrelevant_witness :
  verdict_equiv
    (spot_check_hosts_status demo_describe demo_active demo_details ["f-1"; "f-2"] 20).2
    (spot_check_hosts_status demo_describe demo_active demo_details ["f-2"; "f-1"] 20).2.
Proof.
  apply (spot_order_irrelevant demo_describe demo_active demo_details ["f-1"; "f-2"] ["f-2"; "f-1"] 20).
  apply Permutation_swap.
Defined.

Lemma fulfilled_without_instances_witness :
  ∃ v, _check_single_fleet_status demo_describe (λ _, Ok []) demo_details id "f-2"
         (mk_fleet_request ["f-2"] 10 (Some "maintain") []) 0 = Ok ([], v) ∧
       pf_state v = "fulfilled" ∧ pf_running_count v = Some 0.
Proof.
  apply (fulfilled_without_instances demo_describe (λ _, Ok []) demo_details id "f-2"
    (mk_fleet_request ["f-2"] 10 (Some "maintain") []) 0 ten_of_ten [] 10);
    [vm_compute; reflexivity..|vm_compute; discriminate].
Defined.

Lemma sound_verdict_settles_witness :
  match FulfilmentStateMachine.apply (FulfilmentStateMachine.init 60) sample
          FulfilmentEvent.PROVIDER_VERDICT 40
          (Some (_compute_run_instances_fulfilment [inst "i-1" "running" None] 2)) None None None with
  | Ok (r', _) => Request.status r' ≠ RequestStatus.COMPLETED
  | Err _ => False
  end.
Proof.
  pose proof (sound_verdict_settles (λ _, True) observe_run
    (λ i, _compute_run_instances_fulfilment i.1 i.2) (FulfilmentStateMachine.init 60) sample 40
    ([inst "i-1" "running" None], 2) I eq_refl eq_refl) as H.
  cbn [fst snd] in H. revert H. destruct (FulfilmentStateMachine.apply _ _ _ _ _ _ _ _) as [[r' b]|e].
  - intros [H _] Hc. specialize (H Hc). vm_compute in H. by apply H.
  - vm_compute. discriminate.
Defined.
