(* ===== verification/CloudVerdict.v ===== *)
(** * Azure, GCP and OCI capacity verdicts

    [_build_provider_fulfilment] of Azure's [resource_metadata_service.py] and of
    GCP's [inventory_service.py], and the verdict part of OCI's
    [get_instance_status] ([oci_compute_handler.py]), with the shortfall summary
    of Azure.  An instance is its status text; a missing one is [""]. *)

From stdpp Require Import base strings list sets.
From Stdlib Require Import ZArith Lia.
From S2P Require Import Prelude RequestTypes Diagnostic RequestAggregate FulfilmentSM Verdict.
Open Scope Z_scope.

(** A verdict without instance counts. *)
Definition unit_verdict (state message : string) (target : option Z) (fulfilled : Z)
  : ProviderFulfilment :=
  {| pf_state := state; pf_message := message; pf_target_units := target;
     pf_fulfilled_units := Some fulfilled; pf_running_count := None; pf_pending_count := None;
     pf_failed_count := None; pf_final := false; pf_diagnostic := None |}.

Module Azure.
Definition _RUNNING_STATES : list string := ["running"].
Definition _PENDING_STATES : list string := ["pending"; "creating"; "starting"; "updating"; "unknown"].
Definition _FAILED_STATES : list string := ["failed"; "terminated"].

Definition in_states (states : list string) (s : string) : bool := str_lower s ∈? states.
Definition _count_statuses (instances : list string) (states : list string) : Z :=
  tally (in_states states) instances.

(** [metadata["fleet_capacity_fulfilment"]] when it is a dict: a unit that is not
    an integer is [None]. *)
Record capacity := mk_capacity {
  cap_target : option Z;
  cap_fulfilled : option Z;
  cap_state : string
}.

Record input := mk_input {
  has_fleet_errors : bool;                    (* [fleet_errors] is not empty *)
  in_capacity : option capacity;
  in_instances : list string;
  in_target : option Z
}.

Definition of_target (prefix : string) (running : Z) (target : option Z) (without : string) : string :=
  match target with
  | Some t => prefix +:+ fmt running +:+ "/" +:+ fmt t
  | None => without
  end.

(** The verdict from the observed statuses. *)
Definition by_statuses (i : input) : ProviderFulfilment :=
  let running := _count_statuses (in_instances i) _RUNNING_STATES in
  let pending := _count_statuses (in_instances i) _PENDING_STATES in
  let failed := _count_statuses (in_instances i) _FAILED_STATES in
  let target := in_target i in
  if has_fleet_errors i && (running =? 0) then
    unit_verdict "failed" "Azure provisioning failed before capacity became available" target running
  else if match target with Some t => (0 <? t) && (t <=? running) | None => false end
          && (failed =? 0) then
    unit_verdict "fulfilled" (of_target "Azure instances running: " running target EmptyString)
      target running
  else if (0 <? failed) && (pending =? 0) then
    unit_verdict (if 0 <? running then "partial" else "failed")
      (of_target "Azure instance shortfall: " running target
         ("Azure instance failure: " +:+ fmt running +:+ " running")) target running
  else
    unit_verdict "in_progress"
      (of_target "Azure instances provisioning: " running target
         ("Azure instances provisioning: " +:+ fmt running +:+ " running")) target running.

Definition _build_provider_fulfilment (i : input) : ProviderFulfilment :=
  match in_capacity i with
  | Some (mk_capacity (Some target) (Some fulfilled) state) =>
      let share := fmt fulfilled +:+ "/" +:+ fmt target in
      if (target <=? fulfilled) && (0 <? target) && negb (has_fleet_errors i) then
        unit_verdict "fulfilled" ("Azure capacity fulfilled: " +:+ share) (Some target) fulfilled
      else if (str_lower state ≟ "failed") || has_fleet_errors i then
        unit_verdict (if 0 <? fulfilled then "partial" else "failed")
          ("Azure capacity shortfall: " +:+ share) (Some target) fulfilled
      else
        unit_verdict "in_progress" ("Azure capacity provisioning: " +:+ share) (Some target) fulfilled
  | _ => by_statuses i
  end.

(** What the verdict is about: the scale set's units when known, else instances. *)
Definition observe (i : input) : observation :=
  let running := _count_statuses (in_instances i) _RUNNING_STATES in
  let pending := _count_statuses (in_instances i) _PENDING_STATES in
  match in_capacity i with
  | Some (mk_capacity (Some target) (Some fulfilled) _) => mk_obs target fulfilled fulfilled pending
  | _ => mk_obs (default running (in_target i)) running running pending
  end.

Definition admits (i : input) : Prop :=
  match in_capacity i with
  | Some c => match cap_fulfilled c with Some n => 0 ≤ n | None => True end
  | None => True
  end.

#[global] Instance azure_sound : SoundVerdict admits observe _build_provider_fulfilment.
Proof.
  intros i Hi. unfold admits, observe, _build_provider_fulfilment in *.
  assert (sound_verdict
    (mk_obs (default (_count_statuses (in_instances i) _RUNNING_STATES) (in_target i))
       (_count_statuses (in_instances i) _RUNNING_STATES)
       (_count_statuses (in_instances i) _RUNNING_STATES)
       (_count_statuses (in_instances i) _PENDING_STATES)) (by_statuses i)) as Hst.
  { unfold by_statuses.
    assert (0 ≤ _count_statuses (in_instances i) _RUNNING_STATES) by apply tally_nonneg.
    destruct (in_target i) as [t|]; cbn [default];
      repeat match goal with |- context [if ?b then _ else _] => destruct b eqn:? end; solve_verdict. }
  destruct (in_capacity i) as [[[t|] [n|] st]|]; try done. cbn in Hi.
  repeat match goal with |- context [if ?b then _ else _] => destruct b eqn:? end; solve_verdict.
Qed.

(** [augment_shortfall_metadata]: the missing units and the distinct causes, when
    there is anything to say. *)
Definition augment_shortfall_metadata (capacity_units : option (Z * Z)) (error_codes : list string)
  : option (Z * list string) :=
  match capacity_units with
  | None => None
  | Some (target, fulfilled) =>
      if (target <=? fulfilled) && bool_decide (error_codes = []) then None
      else Some (Z.max (target - fulfilled) 0,
                 dedup_by id ((λ c, if c ≟ EmptyString then "Unknown" else c) <$> error_codes))
  end.
End Azure.

Module Gcp.
Definition failed_states : list string := ["failed"; "stopped"; "terminated"].

Definition _build_provider_fulfilment (instances : list string) (requested_count : option Z)
  : ProviderFulfilment :=
  let total := Z.of_nat (length instances) in
  let target := default total requested_count in
  let running := tally (λ s, s ≟ "running") instances in
  let failed := tally (λ s, s ∈? failed_states) instances in
  let pending := Z.max (total - running - failed) 0 in
  if target =? 0 then verdict "fulfilled" "No instances requested" 0 0 0 0 0 false
  else if target <=? running then
    verdict "fulfilled" ("All " +:+ fmt target +:+ " GCP instances are running")
      target running running pending failed false
  else if negb (failed =? 0) && (running =? 0) && (pending =? 0) then
    verdict "failed"
      ("GCP provisioning failed for " +:+ fmt failed +:+ "/" +:+ fmt target +:+ " instances")
      target running running pending failed false
  else if negb (failed =? 0) && negb (running =? 0) then
    verdict "partial"
      ("GCP provisioned " +:+ fmt running +:+ "/" +:+ fmt target +:+ " instances with " +:+
       fmt failed +:+ " failed")
      target running running pending failed false
  else
    verdict "in_progress"
      ("GCP provisioning in progress: " +:+ fmt running +:+ "/" +:+ fmt target +:+
       " instances running")
      target running running pending failed false.

Definition observe (i : list string * option Z) : observation :=
  let running := tally (λ s, s ≟ "running") i.1 in
  mk_obs (default (Z.of_nat (length i.1)) i.2) running running
    (Z.max (Z.of_nat (length i.1) - running - tally (λ s, s ∈? failed_states) i.1) 0).

#[global] Instance gcp_sound :
  SoundVerdict (λ _, True) observe (λ i, _build_provider_fulfilment i.1 i.2).
Proof.
  intros [l requested] _. unfold observe, _build_provider_fulfilment. cbn [fst snd].
  pose proof (tally_nonneg (λ s, s ≟ "running") l). cbn beta in *.
  repeat match goal with |- context [if ?b then _ else _] => destruct b eqn:? end;
    repeat match goal with H : (_ && _)%bool = true |- _ => apply andb_true_iff in H as [? ?] end;
    rewrite ?negb_true_iff in *; solve_verdict.
Qed.
End Gcp.

Module Oci.
(** The domain status of a lifecycle state. *)
Definition lifecycle_map : dict string :=
  [("RUNNING", "running"); ("PROVISIONING", "pending"); ("STARTING", "pending");
   ("STOPPING", "stopping"); ("STOPPED", "stopped"); ("TERMINATING", "shutting-down");
   ("TERMINATED", "terminated")].
Definition status_of (lifecycle_state : string) : string :=
  default "unknown" (dget lifecycle_state lifecycle_map).

Definition failed_states : list string := ["stopped"; "terminated"; "failed"].

(** The verdict of [get_instance_status]; a return counts terminated instances. *)
Definition status_fulfilment (is_return : bool) (statuses : list string) (target : Z)
  : ProviderFulfilment :=
  let running := tally (λ s, s ≟ "running") statuses in
  let failed := tally (λ s, s ∈? failed_states) statuses in
  let pending := Z.max (target - running - failed) 0 in
  if is_return then
    let terminated := tally (λ s, s ≟ "terminated") statuses in
    verdict (if target <=? terminated then "fulfilled" else "in_progress")
      ("OCI: " +:+ fmt terminated +:+ "/" +:+ fmt target +:+ " instances terminated")
      target terminated running (Z.max (target - terminated) 0) 0 false
  else
    let state :=
      if target <=? running then "fulfilled"
      else if negb (failed =? 0) && (pending =? 0) then
        (if running =? 0 then "failed" else "partial")
      else "in_progress" in
    verdict state ("OCI: " +:+ fmt running +:+ "/" +:+ fmt target +:+ " instances running")
      target running running pending failed false.

Record input := mk_input {
  in_return : bool;
  in_statuses : list string;
  in_target : Z
}.

Definition observe (i : input) : observation :=
  let running := tally (λ s, s ≟ "running") (in_statuses i) in
  let terminated := tally (λ s, s ≟ "terminated") (in_statuses i) in
  let failed := tally (λ s, s ∈? failed_states) (in_statuses i) in
  if in_return i then mk_obs (in_target i) terminated running (Z.max (in_target i - terminated) 0)
  else mk_obs (in_target i) running running (Z.max (in_target i - running - failed) 0).

#[global] Instance oci_sound :
  SoundVerdict (λ _, True) observe (λ i, status_fulfilment (in_return i) (in_statuses i) (in_target i)).
Proof.
  intros [ret l target] _. unfold observe, status_fulfilment. cbn [in_return in_statuses in_target].
  pose proof (tally_nonneg (λ s, s ≟ "running") l). cbn beta in *.
  destruct ret;
    repeat match goal with |- context [if ?b then _ else _] => destruct b eqn:? end; solve_verdict.
Qed.
End Oci.

(** ** The same fleet, three clouds *)

(** Stopped machines are judged differently.  When every instance of a
    request is stopped, and there are at least as many as requested, GCP and OCI
    report the request failed (a settled state), Azure reports it in progress. *)
Theorem stopped_instances_verdicts n target :
  0 < target ≤ Z.of_nat n →
  let l := replicate n "stopped" in
  pf_state (Gcp._build_provider_fulfilment l (Some target)) = "failed" ∧
  pf_state (Oci.status_fulfilment false l target) = "failed" ∧
  pf_state (Azure._build_provider_fulfilment (Azure.mk_input false None l (Some target))) = "in_progress".
Proof.
  intros Ht l.
  assert (∀ p : string → bool, p "stopped" = false → tally p l = 0) as H0.
  { intros p Hp. apply tally_none. by intros x [-> _]%elem_of_replicate. }
  assert (∀ p : string → bool, p "stopped" = true → tally p l = Z.of_nat n) as H1.
  { intros p Hp. rewrite (tally_all p); [subst l; by rewrite length_replicate|].
    by intros x [-> _]%elem_of_replicate. }
  unfold Gcp._build_provider_fulfilment, Oci.status_fulfilment, Azure._build_provider_fulfilment,
    Azure.by_statuses, Azure._count_statuses. cbn [Azure.in_capacity Azure.in_instances Azure.in_target
    Azure.has_fleet_errors default id].
  rewrite !(H0 (λ s, s ≟ "running")), !(H1 (λ s, s ∈? Gcp.failed_states)),
    !(H1 (λ s, s ∈? Oci.failed_states)), !(H0 (Azure.in_states _)) by done.
  assert (length l = n) as -> by (subst l; apply length_replicate).
  split; [|split].
  - split_tests; try done; exfalso; lia.
  - cbn [verdict pf_state]. split_tests; try done; exfalso; lia.
  - cbn [andb]. split_tests; try done; exfalso; lia.
Qed.

Lemma stopped_instances_verdicts_witness :
  pf_state (Gcp._build_provider_fulfilment ["stopped"; "stopped"] (Some 2)) = "failed".
Proof. apply (stopped_instances_verdicts 2 2). lia. Defined.
