(* ===== verification/K8sPod.v ===== *)
(** * Kubernetes pods as broker instances

    [orb/providers/k8s/utilities/pod_state.py] (phase, readiness and container
    states to an instance status), [.../handlers/shared/pod_state_translator.py]
    (a pod, or a cached snapshot of one, to an instance), and the two translators
    that fill the cache: [K8sWatcher._pod_to_state] of [watch/watcher.py] and
    [_pod_to_state] of [reconciliation/startup_reconciler.py].

    A pod is the part of the SDK object the code reads; an absent list is the
    empty one (every reader writes [or []]) and an absent restart count is 0.
    The text of a timestamp is kept up to parsing: which of the two renderings of
    which instant, or some other text.  Node enrichment keeps the node's fields as
    they are; the vCPU number read off its CPU capacity is left out. *)

From stdpp Require Import base strings list sets.
From Stdlib Require Import Ascii ZArith Lia.
From S2P Require Import Prelude.
Open Scope Z_scope.

(** ** Timestamps as text *)

Inductive time_text :=
| IsoT (t : Z)                (* [t.isoformat()] *)
| IsoSpace (t : Z)            (* [str(t)]: a space for the [T] *)
| OtherText (s : string).     (* anything [fromisoformat] refuses *)

(** ** The SDK's objects *)

Record condition := mk_condition {
  cond_type : option string;
  cond_status : option string;
  cond_reason : option string;
  cond_message : option string
}.

(** [state.terminated], [state.waiting] and [last_state.terminated] of a
    container; [None] where the SDK has [None]. *)
Record container_status := mk_container_status {
  restart_count : Z;
  has_state : bool;                             (* [state is not None] *)
  terminated_reason : option (option string);
  waiting_reason : option (option string);
  last_exit_code : option (option Z)
}.

Record pod := mk_pod {
  pod_name : string;
  pod_labels : dict string;
  pod_namespace : option string;
  pod_phase : option string;
  pod_ip : option string;
  host_ip : option string;
  start_time : option Z;
  conditions : list condition;
  container_statuses : list container_status;
  init_container_statuses : list container_status;
  node_name : option string;
  container_images : list (option string);
  restart_policy : option string
}.

(** ** pod_state.py *)

Definition _CONTROLLER_RESPAWNS_SUCCEEDED : list string := ["Deployment"; "StatefulSet"].

Definition FATAL_WAITING_REASONS : list string :=
  ["InvalidImageName"; "ImagePullBackOff"; "ErrImagePull"; "CreateContainerConfigError";
   "CreateContainerError"; "CrashLoopBackOff"].

Definition is_pod_ready (conds : list condition) : bool :=
  existsb (λ c, (cond_type c ≟ Some "Ready") && (cond_status c ≟ Some "True")) conds.

Definition pod_status_string (phase : option string) (ready : bool) (provider_api : option string)
  : string :=
  if phase ≟ Some "Running" then (if ready then "running" else "starting")
  else if phase ≟ Some "Succeeded" then
    match provider_api with
    | Some api => if api ∈? _CONTROLLER_RESPAWNS_SUCCEEDED then "running" else "terminated"
    | None => "terminated"
    end
  else if phase ≟ Some "Failed" then "failed"
  else "pending".

(** A reason that is present and not empty. *)
Definition truthy_reason (o : option (option string)) : option string :=
  match o with
  | Some (Some r) => if r ≟ EmptyString then None else Some r
  | _ => None
  end.

(** One main container's reason: terminated first, then waiting. *)
Definition container_reason (cs : container_status) : option string :=
  if has_state cs then
    match truthy_reason (terminated_reason cs) with
    | Some r => Some r
    | None => truthy_reason (waiting_reason cs)
    end
  else None.

(** One init container's reason, only when it is fatal. *)
Definition init_reason (cs : container_status) : option string :=
  if has_state cs then
    match truthy_reason (waiting_reason cs) with
    | Some r => if r ∈? FATAL_WAITING_REASONS then Some r else None
    | None => None
    end
  else None.

Definition scheduling_reason (c : condition) : option string :=
  if (cond_type c ≟ Some "PodScheduled") && (cond_status c ≟ Some "False")
  then truthy_reason (Some (cond_reason c)) else None.

(** The first [Some] along a list. *)
Fixpoint first_some {A B} (f : A → option B) (l : list A) : option B :=
  match l with
  | [] => None
  | x :: l' => match f x with Some b => Some b | None => first_some f l' end
  end.

Definition extract_status_reason (css : list container_status) (conds : list condition)
    (inits : list container_status) : option string :=
  match first_some container_reason css with
  | Some r => Some r
  | None =>
      match first_some init_reason inits with
      | Some r => Some r
      | None => first_some scheduling_reason conds
      end
  end.

Definition is_fatal_waiting_reason (reason : option string) : bool :=
  match reason with
  | Some r => negb (r ≟ EmptyString) && (r ∈? FATAL_WAITING_REASONS)
  | None => false
  end.

Definition _CRASH_RESTART_THRESHOLD : Z := 2.

Definition crashing (skip_restart_count : bool) (cs : container_status) : bool :=
  (has_state cs && (waiting_reason cs ≟ Some (Some "CrashLoopBackOff")))
  || (negb skip_restart_count && (_CRASH_RESTART_THRESHOLD <=? restart_count cs)
      && match last_exit_code cs with Some (Some c) => negb (c =? 0) | _ => false end).

Definition is_crash_loop_or_repeated_failure (css : list container_status)
    (policy : option string) : bool :=
  existsb (crashing (policy ≟ Some "OnFailure")) css.

(** ** Instances *)

Record node_state := mk_node {
  node_instance_type : string;
  node_capacity_type : string;
  node_region : string;
  node_zone : string;
  node_cpu : string
}.

(** The part of [provider_data] that varies. *)
Record pod_data := mk_pod_data {
  pd_namespace : string;
  pd_node_name : option string;
  pd_host_ip : option string;
  pd_phase : option string;
  pd_ready : bool;
  pd_restart_count : Z;
  pd_disrupted : option (string * string);
  pd_node : option node_state;
  pd_unschedulable_reason : option string;
  pd_timed_out : bool
}.

Record instance := mk_instance {
  instance_id : string;
  status : string;
  status_reason : option string;
  private_ip : option string;
  private_dns_name : option string;
  launch_time : option time_text;
  instance_type : string;
  image_id : option string;
  tags : dict string;
  price_type : option string;
  provider_api : string;
  provider_data : pod_data
}.

Definition pod_data_eta (d : pod_data) : pod_data :=
  mk_pod_data (pd_namespace d) (pd_node_name d) (pd_host_ip d) (pd_phase d) (pd_ready d)
    (pd_restart_count d) (pd_disrupted d) (pd_node d) (pd_unschedulable_reason d) (pd_timed_out d).
#[export] Hint Extern 1 (@Setter pod_data _ _) => solve_setter pod_data_eta : typeclass_instances.

Definition instance_eta (i : instance) : instance :=
  mk_instance (instance_id i) (status i) (status_reason i) (private_ip i) (private_dns_name i)
    (launch_time i) (instance_type i) (image_id i) (tags i) (price_type i) (provider_api i)
    (provider_data i).
#[export] Hint Extern 1 (@Setter instance _ _) => solve_setter instance_eta : typeclass_instances.

Definition _pod_private_dns_name (ip : option string) (namespace : string) : option string :=
  match ip with
  | Some ip =>
      if (ip ≟ EmptyString) || (namespace ≟ EmptyString) then None
      else Some (str_replace_char "."%char "-"%char ip +:+ "." +:+ namespace +:+ ".pod.cluster.local")
  | None => None
  end.

(** The first [DisruptionTarget=True] condition, its reason and message. *)
Definition disruption (conds : list condition) : option (string * string) :=
  first_some (λ c,
    if (cond_type c ≟ Some "DisruptionTarget") && (cond_status c ≟ Some "True")
    then Some (default EmptyString (cond_reason c), default EmptyString (cond_message c))
    else None) conds.

Definition primary_image (images : list (option string)) : option string :=
  match images with
  | im :: _ => truthy_reason (Some im)
  | [] => None
  end.

Definition total_restarts (css : list container_status) : Z := foldr (λ c n, restart_count c + n) 0 css.

(** [x or None] on a string. *)
Definition or_none (s : string) : option string := if s ≟ EmptyString then None else Some s.

Section Translate.
Context (node_state_cache : string → option node_state).

Definition node_of (n : option string) : option node_state :=
  match n with
  | Some n => if n ≟ EmptyString then None else node_state_cache n
  | None => None
  end.

(** The two escalations to ["failed"] both translators of live pods apply. *)
Definition escalate (status : string) (reason : option string) (p : pod)
  : string * option string :=
  let status1 :=
    if (status ∈? ["pending"; "starting"]) && is_fatal_waiting_reason reason
    then "failed" else status in
  if (status1 ∈? ["running"; "starting"; "pending"])
     && is_crash_loop_or_repeated_failure (container_statuses p) (restart_policy p)
  then ("failed", match reason with None => Some "CrashLoopBackOff" | r => r end)
  else (status1, reason).

Definition instance_dict_for_pod (p : pod) (namespace api : string) : instance :=
  let ready := is_pod_ready (conditions p) in
  let '(st, reason) :=
    escalate (pod_status_string (pod_phase p) ready (Some api))
      (extract_status_reason (container_statuses p) (conditions p) (init_container_statuses p)) p in
  let reason :=
    if (pod_phase p ≟ Some "Succeeded") && negb (st ≟ "running") && (reason ≟ None)
    then Some "Container completed successfully" else reason in
  let node := node_of (node_name p) in
  {| instance_id := pod_name p; status := st; status_reason := reason;
     private_ip := pod_ip p;
     private_dns_name := _pod_private_dns_name (pod_ip p) namespace;
     launch_time := IsoT <$> start_time p;
     instance_type :=
       or_str (n ← node; or_none (node_instance_type n)) ("k8s/" +:+ api);
     image_id := primary_image (container_images p);
     tags := pod_labels p;
     price_type := n ← node; or_none (node_capacity_type n);
     provider_api := api;
     provider_data :=
       {| pd_namespace := namespace; pd_node_name := node_name p; pd_host_ip := host_ip p;
          pd_phase := pod_phase p; pd_ready := ready;
          pd_restart_count := total_restarts (container_statuses p);
          pd_disrupted := disruption (conditions p); pd_node := node;
          pd_unschedulable_reason := None; pd_timed_out := false |} |}.

(** ** Cached snapshots *)

Record PodState := mk_pod_state {
  ps_request_id : string;
  ps_pod_name : string;
  ps_namespace : string;
  ps_status : string;
  ps_phase : option string;
  ps_ready : bool;
  ps_pod_ip : option string;
  ps_host_ip : option string;
  ps_node_name : option string;
  ps_status_reason : option string;
  ps_start_time : option time_text;
  ps_labels : dict string;
  ps_deleted : bool;
  ps_last_updated : Z;
  ps_disrupted : option (string * string);
  ps_restart_count : Z;
  ps_image_id : option string
}.

Definition instance_dict_for_state (s : PodState) (api : string) : instance :=
  let node := node_of (ps_node_name s) in
  {| instance_id := ps_pod_name s; status := ps_status s; status_reason := ps_status_reason s;
     private_ip := ps_pod_ip s;
     private_dns_name := _pod_private_dns_name (ps_pod_ip s) (ps_namespace s);
     launch_time := ps_start_time s;
     instance_type :=
       or_str (n ← node; or_none (node_instance_type n)) ("k8s/" +:+ api);
     image_id := i ← ps_image_id s; or_none i;
     tags := ps_labels s;
     price_type := n ← node; or_none (node_capacity_type n);
     provider_api := api;
     provider_data :=
       {| pd_namespace := ps_namespace s; pd_node_name := ps_node_name s;
          pd_host_ip := ps_host_ip s; pd_phase := ps_phase s; pd_ready := ps_ready s;
          pd_restart_count := ps_restart_count s; pd_disrupted := ps_disrupted s; pd_node := node;
          pd_unschedulable_reason := None; pd_timed_out := false |} |}.

(** [K8sWatcher._pod_to_state]: the provider API is read off a label, and the
    init containers are not looked at. *)
Definition watcher_pod_to_state (api_label : string) (p : pod) (request_id namespace : string)
    (deleted : bool) : PodState :=
  let ready := is_pod_ready (conditions p) in
  let '(st, reason) :=
    escalate (pod_status_string (pod_phase p) ready (dget api_label (pod_labels p)))
      (extract_status_reason (container_statuses p) (conditions p) []) p in
  {| ps_request_id := request_id; ps_pod_name := pod_name p; ps_namespace := namespace;
     ps_status := st; ps_phase := pod_phase p; ps_ready := ready;
     ps_pod_ip := pod_ip p; ps_host_ip := host_ip p; ps_node_name := node_name p;
     ps_status_reason := reason; ps_start_time := IsoSpace <$> start_time p;
     ps_labels := pod_labels p; ps_deleted := deleted; ps_last_updated := 0;
     ps_disrupted := disruption (conditions p);
     ps_restart_count := total_restarts (container_statuses p);
     ps_image_id := primary_image (container_images p) |}.

(** [_pod_to_state] of the startup reconciler: the plain status, nothing
    escalated, and the fields added to [PodState] later left at their defaults. *)
Definition reconciler_pod_to_state (p : pod) (request_id namespace : string) : PodState :=
  let ready := is_pod_ready (conditions p) in
  {| ps_request_id := request_id; ps_pod_name := pod_name p; ps_namespace := namespace;
     ps_status := pod_status_string (pod_phase p) ready (dget "orb.io/provider-api" (pod_labels p));
     ps_phase := pod_phase p; ps_ready := ready;
     ps_pod_ip := pod_ip p; ps_host_ip := host_ip p; ps_node_name := node_name p;
     ps_status_reason := extract_status_reason (container_statuses p) (conditions p) [];
     ps_start_time := IsoSpace <$> start_time p;
     ps_labels := pod_labels p; ps_deleted := false; ps_last_updated := 0;
     ps_disrupted := None; ps_restart_count := 0; ps_image_id := None |}.
End Translate.

(** ** Lemmas *)

Lemma init_reason_fatal inits r :
  first_some init_reason inits = Some r → is_fatal_waiting_reason (Some r) = true.
Proof.
  induction inits as [|cs inits IH]; simpl; [done|].
  destruct (init_reason cs) as [r'|] eqn:Hr; [|done]. intros [= <-]. revert Hr. unfold init_reason, truthy_reason.
  destruct (has_state cs); [|done]. destruct (waiting_reason cs) as [[w|]|]; try done.
  case_bool_decide; [done|]. case_bool_decide; [|done]. intros [= <-].
  unfold is_fatal_waiting_reason. by rewrite bool_decide_eq_false_2, bool_decide_eq_true_2.
Qed.

Lemma primary_image_or_none images : (i ← primary_image images; or_none i) = primary_image images.
Proof.
  destruct images as [|[i|] l]; try done. simpl. unfold or_none. case_bool_decide as H; [done|].
  simpl. by rewrite bool_decide_eq_false_2.
Qed.

(** Escalating changes the status only to ["failed"]. *)
Lemma escalate_status s reason p :
  (escalate s reason p).1 = s ∨ (escalate s reason p).1 = "failed".
Proof. unfold escalate. repeat case_match; simpl; auto. Qed.

(** Escalating keeps a reason that is there. *)
Lemma escalate_reason s r p : (escalate s (Some r) p).2 = Some r.
Proof. unfold escalate. repeat case_match; done. Qed.

(** When a pod's status reads ["failed"] off its base status and reason. *)
Definition escalates (s : string) (reason : option string) (p : pod) : bool :=
  ((s ∈? ["pending"; "starting"]) && is_fatal_waiting_reason reason)
  || ((s ∈? ["running"; "starting"; "pending"])
      && is_crash_loop_or_repeated_failure (container_statuses p) (restart_policy p)).

Lemma escalate_spec s reason p :
  (escalate s reason p).1 = if escalates s reason p then "failed" else s.
Proof.
  unfold escalate, escalates. destruct ((s ∈? ["pending"; "starting"]) && _) eqn:H1; simpl; [done|].
  by destruct (bool_decide (s ∈ ["running"; "starting"; "pending"]) && _).
Qed.

Section Agreement.
Context (node_state_cache : string → option node_state) (api_label api rid ns : string) (p : pod).
Hypothesis Hlabel : dget api_label (pod_labels p) = Some api.

(** The status before the escalations, the same on both paths. *)
Definition base_status : string :=
  pod_status_string (pod_phase p) (is_pod_ready (conditions p)) (Some api).

Definition listed : instance := instance_dict_for_pod node_state_cache p ns api.
Definition cached : instance :=
  instance_dict_for_state node_state_cache (watcher_pod_to_state api_label p rid ns false) api.

Lemma listed_status :
  status listed =
  if escalates base_status (extract_status_reason (container_statuses p) (conditions p)
       (init_container_statuses p)) p then "failed" else base_status.
Proof.
  unfold listed, instance_dict_for_pod. rewrite <- escalate_spec. fold base_status.
  by destruct (escalate base_status _ p).
Qed.

Lemma cached_status :
  status cached =
  if escalates base_status (extract_status_reason (container_statuses p) (conditions p) []) p
  then "failed" else base_status.
Proof.
  unfold cached, watcher_pod_to_state. rewrite Hlabel, <- escalate_spec. fold base_status.
  by destruct (escalate base_status _ p).
Qed.

(** The reason the list path adds for a pod that ran to completion. *)
Definition completed_reason : bool :=
  (pod_phase p ≟ Some "Succeeded") && negb (status listed ≟ "running")
  && (status_reason cached ≟ None).

Lemma paths_agree :
  first_some init_reason (init_container_statuses p) = None →
  listed = cached <| launch_time := IsoT <$> start_time p |>
                  <| status_reason := if completed_reason then Some "Container completed successfully"
                                      else status_reason cached |>.
Proof.
  intros Hinit. unfold completed_reason, listed, cached, instance_dict_for_pod,
    instance_dict_for_state, watcher_pod_to_state, extract_status_reason.
  rewrite Hlabel, Hinit. cbn [first_some].
  destruct (escalate _ _ p) as [st reason]. cbn. by rewrite primary_image_or_none.
Qed.
End Agreement.

(** ** Theorems *)

(** The two read paths agree.  For a pod none of whose init containers waits
    with a fatal reason, and that carries its provider API as its label, the
    instance built from the watcher's cached snapshot is the one built from the
    listed pod, field by field, except that the start time is rendered with a
    space instead of a [T], and that the list path words a missing reason of a
    pod that ran to completion. *)
Theorem list_and_cache_agree nodes api_label api rid ns p :
  dget api_label (pod_labels p) = Some api →
  first_some init_reason (init_container_statuses p) = None →
  let i := instance_dict_for_pod nodes p ns api in
  let j := instance_dict_for_state nodes (watcher_pod_to_state api_label p rid ns false) api in
  launch_time j = IsoSpace <$> start_time p ∧
  i = j <| launch_time := IsoT <$> start_time p |>
        <| status_reason :=
             if (pod_phase p ≟ Some "Succeeded") && negb (status i ≟ "running")
                && (status_reason j ≟ None)
             then Some "Container completed successfully" else status_reason j |>.
Proof.
  intros Hlabel Hinit. split.
  - unfold watcher_pod_to_state. by destruct (escalate _ _ p).
  - exact (paths_agree nodes api_label api rid ns p Hlabel Hinit).
Qed.

(** Exactly when the watcher's cache hides a failure.  The two read paths
    disagree on a pod's status exactly when the pod is pending or starting, no
    main container gives a reason, an init container waits with a fatal reason,
    the scheduling condition has no fatal reason and no container crash-loops;
    then the list path reports it failed and the cache path still in flight. *)
Theorem cache_hides_init_failure nodes api_label api rid ns p :
  dget api_label (pod_labels p) = Some api →
  let i := instance_dict_for_pod nodes p ns api in
  let j := instance_dict_for_state nodes (watcher_pod_to_state api_label p rid ns false) api in
  (status i ≠ status j ↔
     pod_status_string (pod_phase p) (is_pod_ready (conditions p)) (Some api)
       ∈ ["pending"; "starting"] ∧
     first_some container_reason (container_statuses p) = None ∧
     is_Some (first_some init_reason (init_container_statuses p)) ∧
     is_fatal_waiting_reason (first_some scheduling_reason (conditions p)) = false ∧
     is_crash_loop_or_repeated_failure (container_statuses p) (restart_policy p) = false) ∧
  (status i ≠ status j → status i = "failed" ∧ status j ∈ ["pending"; "starting"]).
Proof.
  intros Hlabel i j.
  assert (status i = _) as Hi by apply (listed_status nodes api ns p).
  assert (status j = _) as Hj by apply (cached_status nodes api_label api rid ns p Hlabel).
  fold (base_status api p). rewrite Hi, Hj. clear Hi Hj i j. unfold extract_status_reason.
  destruct (first_some container_reason (container_statuses p)) as [r|].
  { split; [split; [done|by intros (_ & ? & _)]|done]. }
  destruct (first_some init_reason (init_container_statuses p)) as [r|] eqn:Hr.
  2: { split; [split; [done|by intros (_ & _ & [? ?] & _)]|done]. }
  apply init_reason_fatal in Hr. cbn [first_some]. unfold escalates. rewrite Hr, andb_true_r.
  destruct (decide (base_status api p ∈ ["pending"; "starting"])) as [Hb|Hb].
  - rewrite (bool_decide_eq_true_2 _ Hb). cbn [orb andb].
    rewrite (bool_decide_eq_true_2 (base_status api p ∈ ["running"; "starting"; "pending"]))
      by set_solver.
    destruct (is_fatal_waiting_reason (first_some scheduling_reason (conditions p))), (is_crash_loop_or_repeated_failure _ _); simpl;
      try (split; [split; [done|by intros (_ & _ & _ & ? & ?)]|done]).
    split; [|by intros _; split; [done|exact Hb]]. split; [by eauto 6|]. intros _ Heq. rewrite <- Heq in Hb. set_solver.
  - rewrite (bool_decide_eq_false_2 _ Hb). simpl.
    split; [split; [done|by intros (? & _)]|done].
Qed.

(** What the startup reconciler loses.  The entry it puts in the cache differs
    in status from the watcher's for the same pod exactly when the watcher
    escalates the pod to failed (a fatal waiting reason or a crash loop); the
    reconciler then reports it running, starting or pending. *)
Theorem reconciler_hides_failures p rid ns :
  let w := watcher_pod_to_state "orb.io/provider-api" p rid ns false in
  let r := reconciler_pod_to_state p rid ns in
  (ps_status w ≠ ps_status r ↔ escalates (ps_status r) (ps_status_reason r) p = true) ∧
  (ps_status w ≠ ps_status r →
     ps_status w = "failed" ∧ ps_status r ∈ ["running"; "starting"; "pending"]).
Proof.
  intros w r.
  assert (ps_status w = if escalates (ps_status r) (ps_status_reason r) p then "failed"
                        else ps_status r) as ->.
  { subst w r. unfold watcher_pod_to_state. rewrite <- escalate_spec. cbn.
    by destruct (escalate _ _ p). }
  destruct (escalates (ps_status r) (ps_status_reason r) p) eqn:He; [|done].
  assert (ps_status r ∈ ["running"; "starting"; "pending"]) as Hin.
  { unfold escalates in He. apply orb_true_iff in He as [He|He];
      apply andb_true_iff in He as [He%bool_decide_eq_true _]; set_solver. }
  split; [|done]. split; [done|]. intros _ Heq. rewrite <- Heq in Hin. set_solver.
Qed.

(** ** Witnesses *)

Definition sample_pod (phase : string) (init : list container_status) : pod :=
  {| pod_name := "web-1"; pod_labels := [("orb.io/provider-api", "Pod"); ("orb.io/request-id", "req-1")];
     pod_namespace := Some "default"; pod_phase := Some phase; pod_ip := Some "10.0.0.5";
     host_ip := None; start_time := Some 1000; conditions := []; container_statuses := [];
     init_container_statuses := init; node_name := None; container_images := [Some "app:1"];
     restart_policy := Some "Never" |}.

Definition pulling_init : container_status := mk_container_status 0 true None (Some (Some "ErrImagePull")) None.

Lemma list_and_cache_agree_witness :
  let p := sample_pod "Succeeded" [] in
  let i := instance_dict_for_pod (λ _, None) p "default" "Pod" in
  status_reason i = Some "Container completed successfully" ∧ launch_time i = Some (IsoT 1000).
Proof.
  pose proof (list_and_cache_agree (λ _, None) "orb.io/provider-api" "Pod" "req-1" "default"
    (sample_pod "Succeeded" []) eq_refl eq_refl) as [_ H].
  cbv zeta in *. rewrite H. split; reflexivity.
Defined.

Lemma cache_hides_init_failure_witness :
  let p := sample_pod "Pending" [pulling_init] in
  status (instance_dict_for_pod (λ _, None) p "default" "Pod") ≠
  status (instance_dict_for_state (λ _, None)
            (watcher_pod_to_state "orb.io/provider-api" p "req-1" "default" false) "Pod").
Proof.
  apply (cache_hides_init_failure (λ _, None) "orb.io/provider-api" "Pod" "req-1" "default"
    (sample_pod "Pending" [pulling_init]) eq_refl).
  split; [left|]. split; [reflexivity|]. split; [by eexists|]. split; reflexivity.
Defined.
