(* ===== verification/K8sCache.v ===== *)
(** * The watcher's pod cache

    [PodStateCache] of [orb/providers/k8s/watch/pod_state_cache.py] and its
    writers: the watch stream ([K8sWatcher._handle_event]) and the periodic
    resync ([K8sWatcher._relist_snapshot]) of [watch/watcher.py].

    Each method of the cache runs under its lock and is one step; what is not
    under one lock is several.  The resync is modelled twice: as the code reads,
    one function, and as a process whose steps interleave with watch events.
    A reading of the monotonic clock is an argument. *)

From stdpp Require Import base gmap strings list sets relations.
From Stdlib Require Import ZArith Lia.
From S2P Require Import Prelude K8sPod.
Open Scope Z_scope.

(** ** The cache *)

Abbreviation key := (string * string)%type.       (* request id, pod name *)

Record PodStateCache := mk_cache {
  _states : gmap key PodState;
  _by_request : gmap string (gset string)
}.

Definition pod_state_eta (s : PodState) : PodState :=
  mk_pod_state (ps_request_id s) (ps_pod_name s) (ps_namespace s) (ps_status s) (ps_phase s)
    (ps_ready s) (ps_pod_ip s) (ps_host_ip s) (ps_node_name s) (ps_status_reason s)
    (ps_start_time s) (ps_labels s) (ps_deleted s) (ps_last_updated s) (ps_disrupted s)
    (ps_restart_count s) (ps_image_id s).
#[export] Hint Extern 1 (@Setter PodState _ _) => solve_setter pod_state_eta : typeclass_instances.

Definition empty_cache : PodStateCache := mk_cache ∅ ∅.

Definition key_of (s : PodState) : key := (ps_request_id s, ps_pod_name s).

Definition bucket (c : PodStateCache) (rid : string) : gset string :=
  default ∅ (_by_request c !! rid).

(** [upsert]: the entry is stamped with the cache's own clock reading. *)
Definition stamp (now : Z) (s : PodState) : PodState := s <| ps_last_updated := now |>.

Definition upsert (now : Z) (s : PodState) (c : PodStateCache) : PodStateCache :=
  mk_cache (<[key_of s := stamp now s]> (_states c))
           (<[ps_request_id s := {[ps_pod_name s]} ∪ bucket c (ps_request_id s)]> (_by_request c)).

(** The test of [upsert_if_not_newer], made under the lock; the upsert that
    follows takes the lock again. *)
Definition not_newer (s : PodState) (captured_before : Z) (c : PodStateCache) : bool :=
  match _states c !! key_of s with
  | Some existing => negb (captured_before <? ps_last_updated existing)
  | None => true
  end.

Definition upsert_if_not_newer (now : Z) (s : PodState) (captured_before : Z) (c : PodStateCache)
  : bool * PodStateCache :=
  if not_newer s captured_before c then (true, upsert now s c) else (false, c).

(** The bucket without a name; an empty bucket is removed. *)
Definition drop_name (rid name : string) (m : gmap string (gset string)) : gmap string (gset string) :=
  match m !! rid with
  | Some b => let b' := b ∖ {[name]} in
              if decide (b' = ∅) then delete rid m else <[rid := b']> m
  | None => m
  end.

Definition delete_entry (rid name : string) (c : PodStateCache) : PodStateCache :=
  mk_cache (delete (rid, name) (_states c)) (drop_name rid name (_by_request c)).

Definition clear (_ : PodStateCache) : PodStateCache := empty_cache.

(** [get]: [None] when the request is unknown; a name without an entry would be
    a [KeyError]. *)
Definition get (rid : string) (c : PodStateCache) : result (option (list PodState)) :=
  match _by_request c !! rid with
  | None => Ok None
  | Some b =>
      Some <$> mapM_result (λ name,
        match _states c !! (rid, name) with
        | Some s => Ok s
        | None => Err (KeyError name)
        end) (elements b)
  end.

Definition all_states (c : PodStateCache) : list PodState := (map_to_list (_states c)).*2.

Definition size (c : PodStateCache) : nat := Datatypes.length (all_states c).

(** The loop of [mark_stale] over the names of a request: an entry older than
    the cutoff is dropped, a name without an entry is forgotten. *)
Definition mark_one (rid : string) (cutoff : Z) (acc : list PodState * gmap key PodState * gset string)
    (name : string) : list PodState * gmap key PodState * gset string :=
  let '(dropped, states, b) := acc in
  match states !! (rid, name) with
  | None => (dropped, states, b ∖ {[name]})
  | Some s =>
      if ps_last_updated s <? cutoff
      then (dropped ++ [s], delete (rid, name) states, b ∖ {[name]})
      else acc
  end.

Definition mark_stale (now : Z) (rid : string) (threshold : Z) (c : PodStateCache)
  : list PodState * PodStateCache :=
  let cutoff := now - Z.max threshold 0 in
  match _by_request c !! rid with
  | None => ([], c)
  | Some b =>
      let '(dropped, states, b') := foldl (mark_one rid cutoff) ([], _states c, b) (elements b) in
      (dropped, mk_cache states
                  (if decide (b' = ∅) then delete rid (_by_request c)
                   else <[rid := b']> (_by_request c)))
  end.

(** ** The watch stream *)

Record watcher := mk_watcher {
  w_namespace : option string;        (* [None] watches the whole cluster *)
  w_request_id_label : string;
  w_provider_api_label : string
}.

(** The cache key of a pod the watcher takes notice of. *)
Definition pod_key (w : watcher) (p : pod) : option key :=
  if pod_name p ≟ EmptyString then None
  else match dget (w_request_id_label w) (pod_labels p) with
       | Some rid => if rid ≟ EmptyString then None else Some (rid, pod_name p)
       | None => None
       end.

Definition namespace_of (w : watcher) (p : pod) : string :=
  or_str (pod_namespace p) (or_str (w_namespace w) EmptyString).

Definition state_of (w : watcher) (p : pod) (rid : string) (deleted : bool) : PodState :=
  watcher_pod_to_state (w_provider_api_label w) p rid (namespace_of w p) deleted.

Inductive event_type := ADDED | MODIFIED | DELETED.

(** [_handle_event].  The deletion is preceded by an upsert of the final
    snapshot; the two are separate steps for a reader. *)
Definition _handle_event (w : watcher) (now : Z) (e : event_type) (p : pod) (c : PodStateCache)
  : PodStateCache :=
  match pod_key w p with
  | None => c
  | Some (rid, name) =>
      match e with
      | DELETED => delete_entry rid name (upsert now (state_of w p rid true) c)
      | _ => upsert now (state_of w p rid false) c
      end
  end.

(** ** The resync *)

(** One pod of the LIST. *)
Definition relist_one (w : watcher) (captured : Z) (acc : PodStateCache * gset key)
    (pod_at : pod * Z) : PodStateCache * gset key :=
  let '(c, seen) := acc in
  let '(p, now) := pod_at in
  match pod_key w p with
  | None => acc
  | Some (rid, name) =>
      ((upsert_if_not_newer now (state_of w p rid false) captured c).2, {[(rid, name)]} ∪ seen)
  end.

(** The guards of the eviction loop. *)
Definition evictable (w : watcher) (captured : Z) (pre seen : gset key) (s : PodState) : bool :=
  negb (ps_deleted s)
  && negb (bool_decide (key_of s ∈ seen))
  && (match w_namespace w with None => true | Some ns => ps_namespace s ≟ ns end)
  && bool_decide (key_of s ∈ pre)
  && negb (captured <? ps_last_updated s).

Definition evict_all (w : watcher) (captured : Z) (pre seen : gset key) (snapshot : list PodState)
    (c : PodStateCache) : PodStateCache :=
  foldl (λ c s, if evictable w captured pre seen s
                then delete_entry (ps_request_id s) (ps_pod_name s) c else c) c snapshot.

Definition cache_keys (c : PodStateCache) : gset key := list_to_set (key_of <$> all_states c).

(** [_relist_snapshot] with nothing else running: the clock reading taken
    before, and the listed pods with the reading each upsert takes. *)
Definition _relist_snapshot (w : watcher) (evict_absent : bool) (captured : Z)
    (pods : list (pod * Z)) (c : PodStateCache) : PodStateCache :=
  let pre := if evict_absent then cache_keys c else ∅ in
  let '(c1, seen) := foldl (relist_one w captured) (c, ∅) pods in
  if evict_absent then evict_all w captured pre seen (all_states c1) c1 else c1.

(** ** The resync as a process *)

Inductive phase :=
| Idle
| Listing (captured : Z) (pre : gset key)
| Upserting (captured : Z) (pre seen : gset key) (rest : list pod)
| Checked (captured : Z) (pre seen : gset key) (p : pod) (rid : string) (rest : list pod)
| Evicting (captured : Z) (pre seen : gset key) (todo : list PodState).

Record world := mk_world { cache : PodStateCache; clock : Z; at_phase : phase }.

Section Process.
Context (w : watcher).

(** The steps of one resync; the LIST returns whatever the cluster answers. *)
Inductive resync_step : world → world → Prop :=
| rs_start c t now :
    t ≤ now → resync_step (mk_world c t Idle) (mk_world c now (Listing now (cache_keys c)))
| rs_list c t now cap pre pods :
    t ≤ now →
    resync_step (mk_world c t (Listing cap pre)) (mk_world c now (Upserting cap pre ∅ pods))
| rs_skip c t now cap pre seen p rest :
    t ≤ now → pod_key w p = None →
    resync_step (mk_world c t (Upserting cap pre seen (p :: rest)))
                (mk_world c now (Upserting cap pre seen rest))
| rs_newer c t now cap pre seen p rest rid name :
    t ≤ now → pod_key w p = Some (rid, name) → not_newer (state_of w p rid false) cap c = false →
    resync_step (mk_world c t (Upserting cap pre seen (p :: rest)))
                (mk_world c now (Upserting cap pre ({[(rid, name)]} ∪ seen) rest))
| rs_check c t now cap pre seen p rest rid name :
    t ≤ now → pod_key w p = Some (rid, name) → not_newer (state_of w p rid false) cap c = true →
    resync_step (mk_world c t (Upserting cap pre seen (p :: rest)))
                (mk_world c now (Checked cap pre ({[(rid, name)]} ∪ seen) p rid rest))
| rs_write c t now cap pre seen p rid rest :
    t ≤ now →
    resync_step (mk_world c t (Checked cap pre seen p rid rest))
                (mk_world (upsert now (state_of w p rid false) c) now (Upserting cap pre seen rest))
| rs_snapshot c t now cap pre seen :
    t ≤ now →
    resync_step (mk_world c t (Upserting cap pre seen []))
                (mk_world c now (Evicting cap pre seen (all_states c)))
| rs_evict c t now cap pre seen s todo :
    t ≤ now →
    resync_step (mk_world c t (Evicting cap pre seen (s :: todo)))
                (mk_world (evict_all w cap pre seen [s] c) now (Evicting cap pre seen todo))
| rs_done c t now cap pre seen :
    t ≤ now → resync_step (mk_world c t (Evicting cap pre seen [])) (mk_world c now Idle).

(** A watch event. *)
Inductive watch_step : world → world → Prop :=
| ws_event c t now ph e p :
    t ≤ now → watch_step (mk_world c t ph) (mk_world (_handle_event w now e p c) now ph).

(** What runs side by side in the code: the two tasks, and readers that drop
    stale entries. *)
Inductive step : world → world → Prop :=
| st_resync a b : resync_step a b → step a b
| st_watch a b : watch_step a b → step a b
| st_stale c t now ph rid threshold :
    t ≤ now → step (mk_world c t ph) (mk_world (mark_stale now rid threshold c).2 now ph).

Definition mid_action (ph : phase) : Prop :=
  match ph with Checked _ _ _ _ _ _ | Evicting _ _ _ _ => True | _ => False end.

(** Runs in which no watch event falls between a test of the resync and the
    write the test was made for. *)
Inductive quiet_step : world → world → Prop :=
| q_resync a b : resync_step a b → quiet_step a b
| q_watch a b : watch_step a b → ¬ mid_action (at_phase a) → quiet_step a b.

Definition captured_at (ph : phase) : option Z :=
  match ph with
  | Idle => None
  | Listing cap _ | Upserting cap _ _ _ | Checked cap _ _ _ _ _ | Evicting cap _ _ _ => Some cap
  end.
End Process.

(** ** The index *)

(** The index and the entries agree, entries sit under their own key, and no
    bucket is empty. *)
Definition cache_wf (c : PodStateCache) : Prop :=
  (∀ k s, _states c !! k = Some s → key_of s = k) ∧
  (∀ r n, is_Some (_states c !! (r, n)) ↔ n ∈ bucket c r) ∧
  (∀ r b, _by_request c !! r = Some b → b ≠ ∅).

Lemma bucket_drop rid name m r :
  default ∅ (drop_name rid name m !! r) =
  (if decide (r = rid) then default ∅ (m !! r) ∖ {[name]} else default ∅ (m !! r) : gset string).
Proof.
  unfold drop_name. destruct (m !! rid) as [b|] eqn:Hm.
  - case_decide as Hb; case_decide as Hr; subst; rewrite ?lookup_delete_eq, ?lookup_insert_eq,
      ?lookup_delete_ne, ?lookup_insert_ne, ?Hm by done; simpl; done.
  - case_decide; subst; rewrite ?Hm; simpl; set_solver.
Qed.

Lemma drop_name_nonempty rid name m r b :
  (∀ r b, m !! r = Some b → b ≠ ∅) → drop_name rid name m !! r = Some b → b ≠ ∅.
Proof.
  intros Hm. unfold drop_name. destruct (m !! rid) as [b0|] eqn:H0; [|apply Hm].
  case_decide as Hb.
  - rewrite lookup_delete_Some. intros [_ ?]. eauto.
  - rewrite lookup_insert_Some. intros [[_ <-]|[_ ?]]; eauto.
Qed.

Lemma empty_cache_wf : cache_wf empty_cache.
Proof.
  unfold empty_cache. split; [|split]; cbn [_states _by_request].
  - intros k s. by rewrite lookup_empty.
  - intros r n. unfold bucket. cbn [_by_request]. rewrite !lookup_empty. simpl.
    split; [intros []; done|set_solver].
  - intros r b. by rewrite lookup_empty.
Qed.

Lemma upsert_wf now s c : cache_wf c → cache_wf (upsert now s c).
Proof.
  intros (H1 & H2 & H3). split; [|split]; simpl.
  - intros k x. rewrite lookup_insert_Some. intros [[<- <-]|[_ ?]]; [done|eauto].
  - intros r n. rewrite lookup_insert_is_Some. unfold bucket. simpl. unfold key_of.
    destruct (decide (r = ps_request_id s)) as [->|Hr].
    + rewrite lookup_insert_eq. simpl. rewrite elem_of_union, elem_of_singleton, <- H2.
      destruct (decide (n = ps_pod_name s)) as [->|Hn]; [tauto|].
      split; [intros [[=]|[_ ?]]; [congruence|by right]|].
      intros [?|?]; [done|right; split; [congruence|done]].
    + rewrite lookup_insert_ne by done. fold (bucket c r). rewrite <- H2.
      split; [intros [[=]|[_ ?]]; [congruence|done]|]. intros ?. right. split; [congruence|done].
  - intros r b. rewrite lookup_insert_Some. intros [[_ <-]|[_ ?]]; [set_solver|eauto].
Qed.

Lemma delete_entry_wf rid name c : cache_wf c → cache_wf (delete_entry rid name c).
Proof.
  intros (H1 & H2 & H3). split; [|split]; simpl.
  - intros k x. rewrite lookup_delete_Some. intros [_ ?]. eauto.
  - intros r n. rewrite lookup_delete_is_Some. unfold bucket. simpl. rewrite bucket_drop.
    fold (bucket c r). case_decide as Hr.
    + subst. rewrite elem_of_difference, elem_of_singleton, <- H2.
      split; intros [? ?]; (split; [first [done|congruence]|first [done|congruence]]).
    + rewrite <- H2. split; [tauto|]. intros ?. split; [congruence|done].
  - intros r b. by apply drop_name_nonempty.
Qed.

#[export] Hint Resolve empty_cache_wf upsert_wf delete_entry_wf : orb.

Lemma mark_fold rid cutoff l d0 st0 b0 d st b :
  foldl (mark_one rid cutoff) (d0, st0, b0) l = (d, st, b) →
  (∀ n, is_Some (st0 !! (rid, n)) ↔ n ∈ b0) →
  (∀ k s, st !! k = Some s ↔
     st0 !! k = Some s ∧ ¬ (k.1 = rid ∧ k.2 ∈ l ∧ ps_last_updated s < cutoff)) ∧
  (∀ n, is_Some (st !! (rid, n)) ↔ n ∈ b).
Proof.
  revert d0 st0 b0. induction l as [|n l IH]; intros d0 st0 b0; simpl.
  { intros [= _ <- <-] H. split; [|done]. intros k s. set_solver. }
  intros Hf Hb. destruct (st0 !! (rid, n)) as [s0|] eqn:Hn.
  - destruct (Z.ltb_spec (ps_last_updated s0) cutoff) as [Hlt|Hge].
    + apply IH in Hf as [Hst Hbb].
      * split; [|done]. intros k s. rewrite Hst, lookup_delete_Some, elem_of_cons.
        destruct (decide (k = (rid, n))) as [->|Hk]; simpl.
        -- rewrite Hn. split; [intros [[? _] _]; done|].
           intros [[= <-] Hnot]. destruct Hnot. auto.
        -- split.
           ++ intros [[_ Hs] Hnot]. split; [done|]. intros (Hr & Hin & Hl). apply Hnot.
              split; [done|]. split; [|done]. destruct Hin as [Heq|]; [|done].
              destruct k; simpl in *; congruence.
           ++ intros [Hs Hnot]. split; [split; [congruence|done]|]. intros (Hr & Hin & Hl).
              apply Hnot. auto.
      * intros m. rewrite lookup_delete_is_Some, elem_of_difference, elem_of_singleton, <- Hb.
        split; intros [? ?]; (split; [first [done|congruence]|first [done|congruence]]).
    + apply IH in Hf as [Hst Hbb]; [|done]. split; [|done]. intros k s. rewrite Hst, elem_of_cons.
      split; intros [Hs H]; (split; [done|]); intros (Hr & Hin & ?); apply H; split_and?; try done.
      * destruct Hin as [Heq|]; [|done]. destruct k; simpl in *; subst. rewrite Hn in Hs.
        injection Hs as <-. lia.
      * by right.
  - apply IH in Hf as [Hst Hbb].
    + split; [|done]. intros k s. rewrite Hst, elem_of_cons.
      split; intros [Hs H]; (split; [done|]); intros (Hr & Hin & ?); apply H; split_and?; try done.
      * destruct Hin as [Heq|]; [|done]. destruct k; simpl in *; subst. by rewrite Hn in Hs.
      * by right.
    + intros m. rewrite elem_of_difference, elem_of_singleton, <- Hb. split; [|tauto].
      intros [? Hm]. split; [by eexists|]. intros ->. by rewrite Hn in Hm.
Qed.

Lemma mark_stale_states now rid threshold c k s :
  cache_wf c →
  _states (mark_stale now rid threshold c).2 !! k = Some s ↔
  _states c !! k = Some s ∧ (k.1 = rid → now - Z.max threshold 0 ≤ ps_last_updated s).
Proof.
  intros (H1 & H2 & H3). unfold mark_stale. destruct (_by_request c !! rid) as [b|] eqn:Hb.
  - destruct (foldl _ _ _) as [[d st] b'] eqn:Hf. apply mark_fold in Hf as [Hst _].
    2: { intros n. rewrite H2. unfold bucket. by rewrite Hb. }
    simpl. rewrite Hst. split; intros [Hs H]; (split; [done|]).
    + intros Hr. destruct (Z.le_gt_cases (now - Z.max threshold 0) (ps_last_updated s)); [done|].
      exfalso. apply H. split; [done|]. split; [|lia]. apply elem_of_elements.
      assert (is_Some (_states c !! k)) as Hk by eauto. destruct k as [r n]. simpl in *. subst.
      apply H2 in Hk. unfold bucket in Hk. by rewrite Hb in Hk.
    + intros (Hr & _ & ?). specialize (H Hr). lia.
  - simpl. split; [|by intros [? _]]. intros Hs. split; [done|]. intros Hr.
    assert (is_Some (_states c !! k)) as Hk by eauto. destruct k as [r n]. simpl in *. subst.
    apply H2 in Hk. unfold bucket in Hk. rewrite Hb in Hk. simpl in Hk. set_solver.
Qed.

Lemma mark_stale_wf now rid threshold c : cache_wf c → cache_wf (mark_stale now rid threshold c).2.
Proof.
  intros Hwf. pose proof (mark_stale_states now rid threshold c) as Hst. revert Hst.
  pose proof Hwf as (H1 & H2 & H3). unfold mark_stale.
  destruct (_by_request c !! rid) as [b|] eqn:Hb; [|done].
  destruct (foldl _ _ _) as [[d st] b'] eqn:Hf. apply mark_fold in Hf as [Hf1 Hf2].
  2: { intros n. rewrite H2. unfold bucket. by rewrite Hb. }
  simpl. intros Hst. split; [|split]; simpl.
  - intros k s [? _]%Hst; eauto.
  - intros r n. destruct (decide (r = rid)) as [->|Hr].
    + rewrite Hf2. unfold bucket. simpl. case_decide as He.
      * rewrite lookup_delete_eq. simpl. rewrite He. done.
      * by rewrite lookup_insert_eq.
    + unfold bucket. simpl. trans (is_Some (_states c !! (r, n))).
      { split; intros [s Hs]; exists s; [by apply Hst in Hs as [? _]|].
        apply Hst; [done|]. by split. }
      rewrite H2. unfold bucket.
      case_decide; [rewrite lookup_delete_ne by done|rewrite lookup_insert_ne by done]; done.
  - intros r b0. case_decide as He.
    + rewrite lookup_delete_Some. intros [_ ?]. eauto.
    + rewrite lookup_insert_Some. intros [[_ <-]|[_ ?]]; eauto.
Qed.

#[export] Hint Resolve mark_stale_wf : orb.

(** ** Reading the cache *)

Lemma get_spec rid c :
  cache_wf c →
  match get rid c with
  | Ok None => ∀ n, _states c !! (rid, n) = None
  | Ok (Some l) => l ≠ [] ∧ ∀ s, s ∈ l ↔ ∃ n, _states c !! (rid, n) = Some s
  | Err _ => False
  end.
Proof.
  intros (H1 & H2 & H3). unfold get. destruct (_by_request c !! rid) as [b|] eqn:Hb.
  2: { intros n. apply eq_None_not_Some. rewrite H2. unfold bucket. rewrite Hb. simpl. set_solver. }
  assert (∀ n, n ∈ b ↔ is_Some (_states c !! (rid, n))) as Hin.
  { intros n. rewrite H2. unfold bucket. by rewrite Hb. }
  destruct (mapM_result_total (λ name, match _states c !! (rid, name) with
      | Some s => Ok s | None => Err (KeyError name) end) (elements b)) as [ys Hys].
  { intros n [s ->]%elem_of_elements%Hin. by eexists. }
  rewrite Hys. simpl. apply mapM_result_Forall2 in Hys. split.
  - intros ->. apply Forall2_nil_inv_r in Hys. by apply H3 in Hb; apply elements_empty_iff in Hys; set_solver.
  - intros s. split.
    + intros [i Hi]%list_elem_of_lookup. destruct (Forall2_lookup_r _ _ _ i s Hys Hi) as (n & Hn & Hns).
      exists n. simpl in Hns. destruct (_states c !! (rid, n)); congruence.
    + intros [n Hn]. assert (n ∈ elements b) as Hel by (apply elem_of_elements, Hin; eauto).
      apply list_elem_of_lookup in Hel as [i Hi].
      destruct (Forall2_lookup_l _ _ _ i n Hys Hi) as (y & Hy & Hny). simpl in Hny.
      rewrite Hn in Hny. apply list_elem_of_lookup. exists i. congruence.
Qed.

Lemma handle_event_wf w now e p c : cache_wf c → cache_wf (_handle_event w now e p c).
Proof. intros. unfold _handle_event. destruct (pod_key w p) as [[r n]|]; [destruct e|]; auto with orb. Qed.

Lemma evict_all_wf w cap pre seen l c : cache_wf c → cache_wf (evict_all w cap pre seen l c).
Proof.
  unfold evict_all. revert c. induction l as [|s l IH]; intros c Hc; simpl; [done|].
  apply IH. destruct (evictable _ _ _ _ s); auto with orb.
Qed.

#[export] Hint Resolve handle_event_wf evict_all_wf : orb.

Lemma step_wf w a b : step w a b → cache_wf (cache a) → cache_wf (cache b).
Proof. destruct 1 as [a b H|a b H|]; [destruct H|destruct H|]; cbn [cache]; auto with orb. Qed.

Lemma run_wf w t a : rtc (step w) (mk_world empty_cache t Idle) a → cache_wf (cache a).
Proof.
  intros Hrun. assert (cache_wf (cache (mk_world empty_cache t Idle))) as H0 by apply empty_cache_wf.
  revert H0. induction Hrun; eauto using step_wf.
Qed.


(** The empty list is never answered.  It would say that the request is known and
    has no pods; every removal drops an empty bucket, so such a request is answered
    as unknown. *)
Theorem empty_list_never_answered w t a rid :
  rtc (step w) (mk_world empty_cache t Idle) a → get rid (cache a) ≠ Ok (Some []).
Proof.
  intros Hrun%run_wf Hg. pose proof (get_spec rid _ Hrun) as H. rewrite Hg in H. by destruct H.
Qed.

(** ** The resync against the watch stream *)

Lemma key_of_state w p rid b : key_of (state_of w p rid b) = (rid, pod_name p).
Proof. unfold state_of, watcher_pod_to_state. by destruct (escalate _ _ _). Qed.

Lemma pod_key_name w p rid name : pod_key w p = Some (rid, name) → name = pod_name p.
Proof.
  unfold pod_key. destruct (pod_name p ≟ _); [done|]. destruct (dget _ _) as [r|]; [|done].
  destruct (r ≟ _); [done|]. congruence.
Qed.

(** What the tests of the resync found still holds when the write is made. *)
Definition tests_hold (w : watcher) (a : world) : Prop :=
  match at_phase a with
  | Checked cap _ _ p rid _ => not_newer (state_of w p rid false) cap (cache a) = true
  | Evicting _ _ _ todo =>
      ∀ s, s ∈ todo → _states (cache a) !! key_of s = None ∨ _states (cache a) !! key_of s = Some s
  | _ => True
  end.

Lemma all_states_lookup c s :
  cache_wf c → s ∈ all_states c ↔ _states c !! key_of s = Some s.
Proof.
  intros (H1 & _). unfold all_states. rewrite list_elem_of_fmap. split.
  - intros ([k x] & -> & Hk%elem_of_map_to_list). simpl. by rewrite (H1 _ _ Hk).
  - intros Hs. exists (key_of s, s). by rewrite elem_of_map_to_list.
Qed.

Lemma resync_step_tests w a b :
  cache_wf (cache a) → tests_hold w a → resync_step w a b → tests_hold w b.
Proof.
  intros Hwf Ht. destruct 1; unfold tests_hold in *; cbn [at_phase cache] in *; try done.
  - intros s Hs%all_states_lookup; [by right|done].
  - intros x Hx. specialize (Ht x (list_elem_of_further _ _ _ Hx)). simpl.
    destruct (evictable _ _ _ _ s); [|done]. simpl.
    destruct (decide (key_of x = key_of s)) as [->|Hne].
    + left. apply lookup_delete_eq.
    + rewrite lookup_delete_ne by (intros He; by apply Hne). done.
Qed.

Lemma quiet_invariant w a b :
  rtc (quiet_step w) a b → cache_wf (cache a) → tests_hold w a → cache_wf (cache b) ∧ tests_hold w b.
Proof.
  induction 1 as [a|a b d Hstep _ IH]; [done|]. intros Hwf Ht. apply IH; destruct Hstep as [a b Hr|a b Hw Hm].
  - eapply step_wf; [by apply st_resync|done].
  - eapply step_wf; [by apply st_watch|done].
  - by eapply resync_step_tests.
  - destruct Hw. unfold tests_hold. simpl in *. by destruct ph.
Qed.

(** A resync leaves newer watch events in place.  In every run in which no
    watch event falls between one of the resync's tests and the write made on it,
    an entry that is newer than the moment the resync read its clock is the same
    before and after each step of the resync. *)
Theorem resync_keeps_newer w t a b cap k s :
  rtc (quiet_step w) (mk_world empty_cache t Idle) a →
  resync_step w a b →
  captured_at (at_phase a) = Some cap →
  _states (cache a) !! k = Some s →
  cap < ps_last_updated s →
  _states (cache b) !! k = Some s.
Proof.
  intros Hrun Hstep Hcap Hk Hnew.
  destruct (quiet_invariant _ _ _ Hrun) as [Hwf Ht]; [apply empty_cache_wf|done|].
  destruct Hstep; unfold tests_hold in Ht; simpl in *; simplify_eq; try done.
  - rewrite lookup_insert_ne; [done|]. intros <-. unfold not_newer in Ht. rewrite Hk in Ht.
    apply negb_true_iff, Z.ltb_ge in Ht. lia.
  - destruct (evictable _ _ _ _ s0) eqn:He; [|done]. simpl.
    rewrite lookup_delete_ne; [done|]. intros Heq.
    unfold evictable in He. apply andb_prop in He as [_ He]. apply negb_true_iff, Z.ltb_ge in He.
    destruct (Ht s0 (list_elem_of_here _ _)) as [Hn|Hn]; fold (key_of s0) in Heq;
      rewrite Heq, Hk in Hn; [done|]. injection Hn as ->. lia.
Qed.

Lemma evict_all_lookup w cap pre seen l c k :
  _states (evict_all w cap pre seen l c) !! k =
  if decide (Exists (λ s, key_of s = k ∧ evictable w cap pre seen s = true) l) then None
  else _states c !! k.
Proof.
  unfold evict_all. revert c. induction l as [|s l IH]; intros c; cbn [foldl].
  { rewrite decide_False; [done|]. intros H; inversion H. }
  rewrite IH. destruct (evictable w cap pre seen s) eqn:He; cbn [delete_entry _states]; change (ps_request_id s, ps_pod_name s) with (key_of s).
  - destruct (decide (key_of s = k)) as [<-|Hk].
    + rewrite (decide_True (P := Exists _ (s :: l))) by (by apply Exists_cons_hd).
      case_decide; [done|]. apply lookup_delete_eq.
    + rewrite lookup_delete_ne by done. apply decide_ext. rewrite List.Exists_cons. tauto.
  - apply decide_ext. rewrite List.Exists_cons, He. split; [auto|]. intros [[_ ?]|?]; done.
Qed.

(** The entries a LIST writes, by key. *)
Fixpoint listed (w : watcher) (pods : list (pod * Z)) : list (key * PodState) :=
  match pods with
  | [] => []
  | (p, now) :: rest =>
      match pod_key w p with
      | Some (rid, name) => ((rid, name), stamp now (state_of w p rid false)) :: listed w rest
      | None => listed w rest
      end
  end.

Definition in_scope (w : watcher) (s : PodState) : bool :=
  match w_namespace w with None => true | Some ns => ps_namespace s ≟ ns end.

Lemma relist_fold w cap pods c seen :
  NoDup (listed w pods).*1 →
  (∀ k s, k ∈ (listed w pods).*1 → _states c !! k = Some s → ps_last_updated s ≤ cap) →
  cache_wf c →
  let '(c1, seen1) := foldl (relist_one w cap) (c, seen) pods in
  cache_wf c1 ∧
  seen1 = list_to_set (listed w pods).*1 ∪ seen ∧
  (∀ k s, (k, s) ∈ listed w pods → _states c1 !! k = Some s) ∧
  (∀ k, k ∉ (listed w pods).*1 → _states c1 !! k = _states c !! k).
Proof.
  revert c seen. induction pods as [|[p now] pods IH]; intros c seen Hnd Hold Hwf; simpl.
  { split; [done|]. split; [set_solver|]. split; [set_solver|done]. }
  cbn [listed relist_one] in *.
  destruct (pod_key w p) as [[rid name]|] eqn:Hp; cbn [fmap list_fmap fst list_to_set] in *.
  2: { by apply IH. }
  apply NoDup_cons in Hnd as [Hni Hnd]. pose proof (pod_key_name _ _ _ _ Hp) as Hn.
  assert (key_of (state_of w p rid false) = (rid, name)) as Hk by (by rewrite key_of_state, Hn).
  assert (not_newer (state_of w p rid false) cap c = true) as Hnn.
  { unfold not_newer. rewrite Hk. destruct (_states c !! (rid, name)) as [s|] eqn:Hs; [|done].
       apply negb_true_iff, Z.ltb_ge. eapply Hold; [|done]. apply list_elem_of_here. }
  unfold upsert_if_not_newer. rewrite Hnn. cbn [snd]. specialize (IH (upsert now (state_of w p rid false) c) ({[(rid, name)]} ∪ seen) Hnd).
  destruct (foldl _ _ pods) as [c1 seen1]. destruct IH as (H1 & H2 & H3 & H4).
  { intros k s Hin. cbn [upsert _states]. rewrite Hk, lookup_insert_ne by (intros <-; done).
    apply Hold. by apply list_elem_of_further. }
  { by apply upsert_wf. }
  split; [done|]. split; [rewrite H2; set_solver|]. split.
  - intros k s [[= -> ->]|Hin]%elem_of_cons; [|auto]. rewrite (H4 _ Hni). cbn [upsert _states]. rewrite Hk.
    apply lookup_insert_eq.
  - intros k [Hne Hni']%not_elem_of_cons. rewrite (H4 _ Hni'). cbn [upsert _states]. rewrite Hk.
    by apply lookup_insert_ne.
Qed.

(** A resync that nothing interferes with makes the cache equal to the LIST.
    Every listed pod's entry is the one built from the LIST, every other entry in
    the scope of the LIST is gone, and entries outside the scope are kept. *)
Theorem resync_heals w cap pods c :
  cache_wf c →
  (∀ k s, _states c !! k = Some s → ps_last_updated s ≤ cap ∧ ps_deleted s = false) →
  NoDup (listed w pods).*1 →
  let c' := _relist_snapshot w true cap pods c in
  (∀ k s, (k, s) ∈ listed w pods → _states c' !! k = Some s) ∧
  (∀ k, k ∉ (listed w pods).*1 →
     _states c' !! k = s ← _states c !! k; if in_scope w s then None else Some s).
Proof.
  intros Hwf Hold Hnd. unfold _relist_snapshot.
  pose proof (relist_fold w cap pods c ∅ Hnd) as Hf.
  destruct (foldl _ _ pods) as [c1 seen1]. destruct Hf as (H1 & H2 & H3 & H4); [|done|].
  { intros k s _ Hs. by apply Hold in Hs as [? _]. }
  rewrite union_empty_r_L in H2. subst seen1. cbn zeta. split.
  - intros k s Hin. rewrite evict_all_lookup, decide_False; [by apply H3|].
    rewrite list.Exists_exists. intros (x & Hx & <- & He). unfold evictable in He.
    rewrite (bool_decide_eq_true_2 (key_of x ∈ list_to_set _)) in He.
    + by rewrite andb_false_r in He.
    + apply elem_of_list_to_set, list_elem_of_fmap. by exists (key_of x, s).
  - intros k Hk. rewrite evict_all_lookup, H4 by done.
    destruct (_states c !! k) as [s|] eqn:Hs; simpl; [|by case_decide].
    pose proof Hwf as (Hkey & _). pose proof (Hkey _ _ Hs) as Hks.
    destruct (Hold _ _ Hs) as [Hle Hdel].
    assert (evictable w cap (cache_keys c) (list_to_set (listed w pods).*1) s = in_scope w s) as He.
    { unfold evictable, in_scope. rewrite Hdel, Hks.
      rewrite (bool_decide_eq_false_2 (k ∈ list_to_set _)) by (by rewrite elem_of_list_to_set).
      rewrite bool_decide_eq_true_2, (proj2 (Z.ltb_ge _ _) Hle), !andb_true_r; [done|].
      unfold cache_keys. apply elem_of_list_to_set, list_elem_of_fmap. exists s.
      split; [done|]. apply all_states_lookup; [done|]. by rewrite Hks. }
    destruct (in_scope w s) eqn:Hsc.
    + rewrite decide_True; [done|]. rewrite list.Exists_exists. exists s. split; [|done].
      apply all_states_lookup; [done|]. by rewrite Hks, H4.
    + rewrite decide_False; [done|]. rewrite list.Exists_exists. intros (x & Hx & Hkx & Hex).
      apply all_states_lookup in Hx; [|done]. rewrite Hkx, H4, Hs in Hx by done.
      injection Hx as ->. congruence.
Qed.

Lemma evict_run w cap pre seen todo c t :
  rtc (resync_step w) (mk_world c t (Evicting cap pre seen todo))
    (mk_world (evict_all w cap pre seen todo c) t Idle).
Proof.
  revert c. induction todo as [|s todo IH]; intros c.
  - apply rtc_once. by constructor.
  - eapply rtc_l; [by constructor|]. apply IH.
Qed.

Lemma upsert_lookup now w p rid name b c :
  pod_key w p = Some (rid, name) →
  _states (upsert now (state_of w p rid b) c) !! (rid, name) = Some (stamp now (state_of w p rid b)).
Proof.
  intros Hp. cbn [upsert _states]. rewrite key_of_state, (pod_key_name _ _ _ _ Hp).
  apply lookup_insert_eq.
Qed.

(** A deletion seen by the watch while the LIST is in flight is undone.
    Whatever the cache held, there is a run, with no event between a test and its
    write, in which the watch removes the pod after the resync read its clock and
    the resync then puts it back, as alive, and ends with it in the cache. *)
Theorem deleted_pod_resurrected w c t p rid name :
  pod_key w p = Some (rid, name) →
  ∃ a b,
    rtc (quiet_step w) (mk_world c t Idle) a ∧
    captured_at (at_phase a) = Some t ∧ t < clock a ∧
    _states (cache a) !! (rid, name) = None ∧
    rtc (resync_step w) a b ∧ at_phase b = Idle ∧
    _states (cache b) !! (rid, name) = Some (stamp (t + 1) (state_of w p rid false)).
Proof.
  intros Hp. set (c1 := _handle_event w (t + 1) DELETED p c).
  assert (_states c1 !! (rid, name) = None) as Hc1.
  { unfold c1, _handle_event. rewrite Hp. apply lookup_delete_eq. }
  exists (mk_world c1 (t + 1) (Upserting t (cache_keys c) ∅ [p])).
  eexists. split; [|split; [done|split; [simpl; lia|split; [exact Hc1|split]]]].
  - eapply rtc_l; [apply q_resync, (rs_start w c t t); lia|].
    eapply rtc_l; [apply q_resync, (rs_list w c t t t _ [p]); lia|].
    apply rtc_once. apply q_watch; [constructor; lia|simpl; auto].
  - eapply rtc_l; [apply (rs_check w) with (now := t + 1); [lia|exact Hp|]|].
    { unfold not_newer. rewrite key_of_state, <- (pod_key_name _ _ _ _ Hp). by rewrite Hc1. }
    eapply rtc_l; [apply (rs_write w) with (now := t + 1); lia|].
    eapply rtc_l; [apply (rs_snapshot w) with (now := t + 1); lia|]. apply evict_run.
  - split; [done|]. cbn [cache]. rewrite evict_all_lookup, decide_False; [by apply upsert_lookup|].
    rewrite list.Exists_exists. intros (x & _ & Hx & He). unfold evictable in He.
    rewrite Hx, bool_decide_eq_true_2 in He by set_solver. by rewrite andb_false_r in He.
Qed.

(** The test of [upsert_if_not_newer] does not protect the write.  Whatever
    not-newer entry the cache holds for a pod, a watch event for it can arrive
    between the test and the write, and the write then replaces it by the older
    data of the LIST, with a fresher time stamp. *)
Theorem newer_event_overwritten w c t p p' rid name :
  pod_key w p = Some (rid, name) →
  pod_key w p' = Some (rid, name) →
  (∀ s, _states c !! (rid, name) = Some s → ps_last_updated s ≤ t) →
  ∃ a b,
    rtc (step w) (mk_world c t Idle) a ∧ resync_step w a b ∧
    captured_at (at_phase a) = Some t ∧
    _states (cache a) !! (rid, name) = Some (stamp (t + 1) (state_of w p' rid false)) ∧
    _states (cache b) !! (rid, name) = Some (stamp (t + 2) (state_of w p rid false)).
Proof.
  intros Hp Hp' Hold.
  exists (mk_world (_handle_event w (t + 1) MODIFIED p' c) (t + 1)
            (Checked t (cache_keys c) ({[(rid, name)]} ∪ ∅) p rid [])).
  eexists. split; [|split; [apply (rs_write w) with (now := t + 2); lia|split; [done|split]]].
  - eapply rtc_l; [apply st_resync, (rs_start w c t t); lia|].
    eapply rtc_l; [apply st_resync, (rs_list w c t t t _ [p]); lia|].
    eapply rtc_l; [apply st_resync, (rs_check w) with (now := t); [lia|exact Hp|]|].
    { unfold not_newer. rewrite key_of_state, <- (pod_key_name _ _ _ _ Hp).
      destruct (_states c !! (rid, name)) as [s|] eqn:Hs; [|done].
      apply negb_true_iff, Z.ltb_ge. by apply Hold. }
    apply rtc_once, st_watch. constructor. lia.
  - cbn [cache]. unfold _handle_event. rewrite Hp'. by apply upsert_lookup.
  - cbn [cache]. by apply upsert_lookup.
Qed.

(** ** Witnesses *)

Definition demo_watcher : watcher := mk_watcher (Some "default") "orb.io/request-id" "orb.io/provider-api".


Lemma resync_keeps_newer_witness :
  let c := _handle_event demo_watcher 5 ADDED (sample_pod "Running" []) empty_cache in
  let s := stamp 5 (state_of demo_watcher (sample_pod "Running" []) "req-1" false) in
  _states c !! ("req-1", "web-1") = Some s.
Proof.
  intros c s.
  apply (resync_keeps_newer demo_watcher 0
    (mk_world c 5 (Upserting 3 (cache_keys empty_cache) ∅ [sample_pod "Pending" []]))
    (mk_world c 6 (Upserting 3 (cache_keys empty_cache) ({[("req-1", "web-1")]} ∪ ∅) [])) 3).
  - eapply rtc_l; [apply q_resync, (rs_start demo_watcher _ 0 3); lia|].
    eapply rtc_l; [apply q_resync, (rs_list demo_watcher _ 3 4 3 _ [sample_pod "Pending" []]); lia|].
    apply rtc_once, q_watch; [constructor; lia|simpl; auto].
  - eapply (rs_newer demo_watcher); [lia|reflexivity|vm_compute; reflexivity].
  - reflexivity.
  - vm_compute. reflexivity.
  - simpl. lia.
Defined.

Lemma resync_heals_witness :
  let c := _handle_event demo_watcher 5 ADDED (sample_pod "Running" []) empty_cache in
  _states (_relist_snapshot demo_watcher true 7 [] c) !! ("req-1", "web-1") = None.
Proof.
  intros c. destruct (resync_heals demo_watcher 7 [] c) as [_ H].
  - apply handle_event_wf, empty_cache_wf.
  - intros k s. unfold c, _handle_event.
    rewrite (eq_refl : pod_key demo_watcher (sample_pod "Running" []) = Some ("req-1", "web-1")).
    cbn [upsert _states]. intros [[_ <-]|[_ Hs]]%lookup_insert_Some; [vm_compute; by split|].
    cbn in Hs. by rewrite lookup_empty in Hs.
  - constructor.
  - rewrite H by (simpl; set_solver). vm_compute. reflexivity.
Defined.

Lemma deleted_pod_resurrected_witness :
  ∃ a b, rtc (quiet_step demo_watcher) (mk_world empty_cache 0 Idle) a ∧
    _states (cache a) !! ("req-1", "web-1") = None ∧
    rtc (resync_step demo_watcher) a b ∧ is_Some (_states (cache b) !! ("req-1", "web-1")).
Proof.
  destruct (deleted_pod_resurrected demo_watcher empty_cache 0 (sample_pod "Running" [])
    "req-1" "web-1" eq_refl) as (a & b & H1 & _ & _ & H2 & H3 & _ & H4).
  exists a, b. rewrite H4. eauto.
Defined.

Lemma newer_event_overwritten_witness :
  ∃ a b, rtc (step demo_watcher) (mk_world empty_cache 0 Idle) a ∧ resync_step demo_watcher a b ∧
    ps_phase <$> (_states (cache a) !! ("req-1", "web-1")) = Some (Some "Failed") ∧
    ps_phase <$> (_states (cache b) !! ("req-1", "web-1")) = Some (Some "Running").
Proof.
  destruct (newer_event_overwritten demo_watcher empty_cache 0 (sample_pod "Running" [])
    (sample_pod "Failed" []) "req-1" "web-1" eq_refl eq_refl) as (a & b & H1 & H2 & _ & H3 & H4).
  { intros s. cbn. by rewrite lookup_empty. }
  exists a, b. rewrite H3, H4. split; [done|]. split; [done|]. split; reflexivity.
Defined.
