(* ===== verification/K8sStatus.v ===== *)
(** * Kubernetes status resolvers

    The read path of [orb/providers/k8s]: the rewriting of pods stuck in Pending
    ([reconciliation/timeout_gc.py]), the cache-first read and the timeout hook of
    [infrastructure/handlers/base_handler.py], the verdicts of [pod_status.py],
    [deployment_status.py], [statefulset_status.py] and [job_status.py], and the
    cached reads of the workload's controller in the last three.

    What the API server answers is an argument.  A controller's status field that
    is absent, or not an integer, is [None]. *)

From stdpp Require Import base gmap strings list sets relations.
From Stdlib Require Import ZArith Lia.
From S2P Require Import Prelude RequestTypes Diagnostic RequestAggregate FulfilmentSM Verdict K8sPod K8sCache.
Open Scope Z_scope.

(** ** Pods stuck in Pending *)

Definition _UNSCHEDULABLE_REASON_DEFAULT : string := "Unschedulable".

Definition _parse_iso_timestamp (t : time_text) : option datetime :=
  match t with IsoT t | IsoSpace t => Some t | OtherText _ => None end.

Definition is_pod_timed_out (pod_timeout_seconds : Z) (now : datetime) (i : instance) : bool :=
  (status i ∈? ["pending"; "starting"])
  && match launch_time i ≫= _parse_iso_timestamp with
     | Some pod_start => seconds pod_timeout_seconds <=? now - pod_start
     | None => false
     end.

Definition _rewrite_timed_out_instance (i : instance) : instance :=
  let reason := or_str (status_reason i) _UNSCHEDULABLE_REASON_DEFAULT in
  i <| status := "terminated" |> <| status_reason := Some reason |>
    <| provider_data := provider_data i <| pd_unschedulable_reason := Some reason |>
                                        <| pd_timed_out := true |> |>.

Definition apply_pod_timeout (pod_timeout_seconds : Z) (now : datetime) (instances : list instance)
  : list instance :=
  if (pod_timeout_seconds <=? 0) || bool_decide (instances = []) then instances
  else (λ i, if is_pod_timed_out pod_timeout_seconds now i
             then _rewrite_timed_out_instance i else i) <$> instances.

Record pod_config := mk_pod_config {
  pod_timeout_seconds : Z;
  delete_timed_out_pods : bool;
  cfg_namespace : string;
  stale_cache_timeout_seconds : Z;
  controller_status_cache_ttl_seconds : Z
}.

(** The pods whose deletion is scheduled: name, namespace and reason of each
    instance newly marked in this pass. *)
Definition _schedule_timed_out_pod_deletions (cfg : pod_config) (original rewritten : list instance)
  : list (string * string * string) :=
  let already := instance_id <$> filter (λ i, pd_timed_out (provider_data i) = true) original in
  omap (λ i,
    let d := provider_data i in
    if negb (pd_timed_out d) then None
    else if instance_id i ∈? already then None
    else if instance_id i ≟ EmptyString then None
    else Some (instance_id i,
               (if pd_namespace d ≟ EmptyString then cfg_namespace cfg else pd_namespace d),
               or_str (or_opt_str (pd_unschedulable_reason d) (status_reason i)) "Unschedulable"))
    rewritten.

(** The rewritten instances and the deletions, when an event loop is running. *)
Definition apply_pod_timeouts (cfg : pod_config) (loop_running : bool) (now : datetime)
    (instances : list instance) : list instance * list (string * string * string) :=
  let rewritten := apply_pod_timeout (pod_timeout_seconds cfg) now instances in
  (rewritten,
   if delete_timed_out_pods cfg && loop_running
   then _schedule_timed_out_pod_deletions cfg instances rewritten else []).

(** ** Counting pods *)

Definition is_running (i : instance) : bool := status i ≟ "running".
Definition is_pending (i : instance) : bool := status i ∈? ["pending"; "starting"].
Definition is_failed (i : instance) : bool := status i ≟ "failed".
Definition is_terminated (i : instance) : bool := status i ≟ "terminated".

(** ** Bare pods *)

Definition pod_compute_fulfilment (instances : list instance) (requested_count : Z)
  : ProviderFulfilment :=
  let running := tally is_running instances in
  let pending := tally is_pending instances in
  let failed := tally is_failed instances in
  let succeeded := tally is_terminated instances in
  let effective := running + succeeded in
  if (requested_count <=? effective) && (failed =? 0) && (0 <? requested_count) then
    verdict "fulfilled"
      (if (0 <? succeeded) && (running =? 0) then
         "All " +:+ fmt succeeded +:+ " pod(s) completed successfully"
       else if 0 <? succeeded then
         fmt running +:+ " running, " +:+ fmt succeeded +:+ " completed (" +:+ fmt effective +:+
         "/" +:+ fmt requested_count +:+ ")"
       else "All " +:+ fmt running +:+ " pod(s) running")
      requested_count effective effective pending failed false
  else if 0 <? pending then
    verdict "in_progress"
      (fmt running +:+ "/" +:+ fmt requested_count +:+ " running, " +:+ fmt pending +:+ " pending")
      requested_count running running pending failed false
  else if (0 <? failed) && (failed =? Z.of_nat (length instances)) && (0 <? Z.of_nat (length instances))
  then verdict "failed" ("All " +:+ fmt failed +:+ " pod(s) failed")
         requested_count 0 running pending failed false
  else if 0 <? running then
    verdict "partial" (fmt running +:+ "/" +:+ fmt requested_count +:+ " pod(s) running")
      requested_count running running pending failed false
  else verdict "in_progress" "Pods starting" requested_count 0 running pending failed false.

(** ** Deployments and stateful sets *)

(** The controller's view; every field may be missing. *)
Record workload_view := mk_view {
  wv_available_replicas : option Z;         (* deployments *)
  wv_current_replicas : option Z;           (* stateful sets *)
  wv_ready_replicas : option Z;
  wv_updated_replicas : option Z;
  wv_replicas : option Z;
  wv_conditions : list condition
}.

Definition empty_view : workload_view := mk_view None None None None None [].

(** The SDK's workload object: its status, if any, and the replicas its spec
    asks for. *)
Record workload := mk_workload {
  wl_status : option workload_view;
  wl_spec_replicas : option Z
}.

(** [read_deployment_status] and [read_statefulset_status]: an answer that cannot
    be read is an empty view. *)
Definition read_deployment_status (answer : result workload) : workload_view :=
  match answer with
  | Err _ => empty_view
  | Ok w => match wl_status w with
            | None => empty_view
            | Some s => mk_view (wv_available_replicas s) None (wv_ready_replicas s)
                          (wv_updated_replicas s) (wl_spec_replicas w) (wv_conditions s)
            end
  end.

Definition read_statefulset_status (answer : result workload) : workload_view :=
  match answer with
  | Err _ => empty_view
  | Ok w => match wl_status w with
            | None => empty_view
            | Some s => mk_view None (wv_current_replicas s) (wv_ready_replicas s)
                          (wv_updated_replicas s) (wl_spec_replicas w) (wv_conditions s)
            end
  end.

Definition compute_workload_fulfilment (kind : string) (instances : list instance)
    (requested_count : Z) (view : workload_view) : ProviderFulfilment :=
  let running := tally is_running instances in
  let pending := tally is_pending instances in
  let failed := tally is_failed instances in
  let ready := default running (wv_ready_replicas view) in
  if (requested_count <=? ready) && (failed =? 0) && (0 <? requested_count) then
    verdict "fulfilled"
      (kind +:+ " ready: " +:+ fmt ready +:+ "/" +:+ fmt requested_count +:+ " replicas")
      requested_count ready ready pending failed false
  else if 0 <? pending then
    verdict "in_progress"
      (kind +:+ " scaling up: " +:+ fmt ready +:+ "/" +:+ fmt requested_count +:+ " ready, " +:+
       fmt pending +:+ " pending")
      requested_count ready ready pending failed false
  else if (0 <? failed) && (failed =? Z.of_nat (length instances)) && (0 <? Z.of_nat (length instances))
  then verdict "failed" ("All " +:+ fmt failed +:+ " replica pod(s) failed")
         requested_count 0 ready pending failed false
  else if (0 <? failed) && (pending =? 0) && (ready =? 0) then
    verdict "failed"
      (kind +:+ " not progressing: " +:+ fmt failed +:+
       " pod(s) failed, none pending or ready (partial cache view possible)")
      requested_count 0 0 0 failed false
  else if 0 <? ready then
    verdict "partial" (kind +:+ " partial: " +:+ fmt ready +:+ "/" +:+ fmt requested_count +:+ " ready")
      requested_count ready ready pending failed false
  else verdict "in_progress" (kind +:+ " starting") requested_count 0 ready pending failed false.

Definition deployment_compute_fulfilment := compute_workload_fulfilment "Deployment".
Definition statefulset_compute_fulfilment := compute_workload_fulfilment "StatefulSet".

(** ** Jobs *)

Record job_view := mk_job_view {
  jv_active : option Z;
  jv_succeeded : option Z;
  jv_failed : option Z;
  jv_conditions : list condition
}.

Definition empty_job_view : job_view := mk_job_view None None None [].

Definition read_job_status (answer : result (option job_view)) : job_view :=
  match answer with Ok (Some s) => s | _ => empty_job_view end.

Definition condition_true (ty : string) (c : condition) : bool :=
  (cond_type c ≟ Some ty) && (cond_status c ≟ Some "True").

Definition _is_terminal (v : job_view) : bool :=
  existsb (λ c, condition_true "Complete" c || condition_true "Failed" c) (jv_conditions v).

(** The loop over the conditions: the first terminal one decides. *)
Fixpoint job_condition_verdict (v : job_view) (requested_count : Z) (conds : list condition)
  : option ProviderFulfilment :=
  match conds with
  | [] => None
  | c :: rest =>
      let target := Z.max requested_count 0 in
      if condition_true "Complete" c then
        let succeeded := default target (jv_succeeded v) in
        Some (verdict "fulfilled"
                ("Job complete: " +:+ fmt succeeded +:+ "/" +:+ fmt target +:+ " succeeded")
                target succeeded succeeded 0 (default 0 (jv_failed v)) false)
      else if condition_true "Failed" c then
        let succeeded := default 0 (jv_succeeded v) in
        Some (verdict "failed" ("Job failed: " +:+ default "None" (cond_reason c))
                target succeeded succeeded 0 (default 0 (jv_failed v)) false)
      else job_condition_verdict v requested_count rest
  end.

Definition job_compute_fulfilment (instances : list instance) (requested_count : Z) (v : job_view)
  : ProviderFulfilment :=
  match job_condition_verdict v requested_count (jv_conditions v) with
  | Some f => f
  | None =>
      let running := default (tally is_running instances) (jv_succeeded v) in
      let failed := default (tally is_failed instances) (jv_failed v) in
      let pending := Z.max (match jv_active v with
                            | Some active => active - running
                            | None => tally is_pending instances
                            end) 0 in
      if (requested_count <=? running) && (failed =? 0) && (0 <? requested_count) then
        verdict "fulfilled"
          ("Job complete: " +:+ fmt running +:+ "/" +:+ fmt requested_count +:+ " succeeded")
          requested_count running running pending failed false
      else if (0 <? pending)
              || (match jv_active v with Some active => 0 <? active | None => false end
                  && (running <? requested_count)) then
        verdict "in_progress"
          ("Job running: " +:+ fmt running +:+ "/" +:+ fmt requested_count +:+ " succeeded, " +:+
           fmt pending +:+ " active")
          requested_count running running pending failed false
      else if (0 <? failed) && (running =? 0) && (0 <? requested_count) then
        verdict "failed" ("All " +:+ fmt failed +:+ " pod(s) failed")
          requested_count 0 0 pending failed false
      else if 0 <? running then
        verdict "partial"
          ("Job partial: " +:+ fmt running +:+ "/" +:+ fmt requested_count +:+ " succeeded")
          requested_count running running pending failed false
      else verdict "in_progress" "Job starting" requested_count 0 running pending failed false
  end.

(** ** The read path *)

Section ReadPath.
Context (node_state_cache : string → option node_state).
Context (cfg : pod_config).
Context (api : string).                       (* [PROVIDER_API] *)

(** [_read_from_cache]: the instances, when the cache can answer, and the cache
    without the stale entries.  [alive] is the watcher's report, if there is one. *)
Definition _read_from_cache (now_mono : Z) (alive : option bool) (rid : string)
    (cache : option PodStateCache) : result (option (list instance) * option PodStateCache) :=
  match cache with
  | None => Ok (None, None)
  | Some c =>
      if alive ≟ Some false then Ok (None, Some c)
      else
        let c' := (mark_stale now_mono rid (stale_cache_timeout_seconds cfg) c).2 in
        match get rid c' with
        | Err e => Err e
        | Ok None => Ok (None, Some c')
        | Ok (Some states) =>
            Ok (Some ((λ s, instance_dict_for_state node_state_cache s api) <$> states), Some c')
        end
  end.

Definition list_failed (e : exn) (requested_count : Z) : ProviderFulfilment :=
  {| pf_state := "in_progress";
     pf_message := "Kubernetes list failed (will retry): " +:+ exn_str e;
     pf_target_units := Some requested_count; pf_fulfilled_units := None;
     pf_running_count := Some 0; pf_pending_count := Some 0; pf_failed_count := Some 0;
     pf_final := false; pf_diagnostic := None |}.

(** [check_hosts_status] of the four resolvers: the cached pods or else the
    listed ones, the stuck ones rewritten, and the verdict on them. *)
Definition resolve_status (compute : list instance → ProviderFulfilment)
    (loop_running : bool) (now : datetime) (namespace : string)
    (cached : option (list instance)) (listed : result (list pod)) (requested_count : Z)
  : list instance * ProviderFulfilment :=
  match cached with
  | Some l =>
      let instances := (apply_pod_timeouts cfg loop_running now l).1 in (instances, compute instances)
  | None =>
      match listed with
      | Err e => ([], list_failed e requested_count)
      | Ok pods =>
          let instances :=
            (apply_pod_timeouts cfg loop_running now
               ((λ p, instance_dict_for_pod node_state_cache p namespace api) <$> pods)).1 in
          (instances, compute instances)
      end
  end.

Definition pod_check_hosts_status loop_running now namespace cached listed requested_count :=
  resolve_status (λ l, pod_compute_fulfilment l requested_count) loop_running now namespace
    cached listed requested_count.

Definition deployment_check_hosts_status view loop_running now namespace cached listed requested_count :=
  resolve_status (λ l, deployment_compute_fulfilment l requested_count view) loop_running now namespace
    cached listed requested_count.

Definition statefulset_check_hosts_status view loop_running now namespace cached listed requested_count :=
  resolve_status (λ l, statefulset_compute_fulfilment l requested_count view) loop_running now namespace
    cached listed requested_count.

Definition job_check_hosts_status view loop_running now namespace cached listed requested_count :=
  resolve_status (λ l, job_compute_fulfilment l requested_count view) loop_running now namespace
    cached listed requested_count.
End ReadPath.

(** ** The controller caches

    The lookup and the store hold the lock; the read of the API server between
    them does not. *)

Record centry := mk_centry {
  ce_view : workload_view;
  ce_ts : Z;                                  (* when the read began *)
  ce_requested : Z
}.

Abbreviation ckey := (string * string)%type.  (* namespace, workload name *)
Abbreviation controller_cache := (gmap ckey centry).

(** The entry a lookup may serve. *)
Definition cache_hit (ttl now : Z) (requested_count : Z) (e : centry) : bool :=
  (ce_requested e =? requested_count)
  && match wv_ready_replicas (ce_view e) with Some n => ce_requested e <=? n | None => false end
  && (now - ce_ts e <? ttl).

Definition cache_lookup (ttl now requested_count : Z) (k : ckey) (m : controller_cache)
  : option workload_view :=
  match m !! k with
  | Some e => if cache_hit ttl now requested_count e then Some (ce_view e) else None
  | None => None
  end.

(** The store never replaces an entry that is as new. *)
Definition cache_store (k : ckey) (e : centry) (m : controller_cache) : controller_cache :=
  match m !! k with
  | Some old => if ce_ts old <? ce_ts e then <[k := e]> m else m
  | None => <[k := e]> m
  end.

(** [_get_cached_deployment_status] and [_get_cached_statefulset_status] with
    nothing else running: [read] is the view the API server gives. *)
Definition _get_cached_status (ttl now fetch_ts requested_count : Z) (k : ckey)
    (read : workload_view) (m : controller_cache) : workload_view * controller_cache :=
  if ttl <=? 0 then (read, m)
  else match cache_lookup ttl now requested_count k m with
       | Some v => (v, m)
       | None => (read, cache_store k (mk_centry read fetch_ts requested_count) m)
       end.

(** The job's cache has no replica count: an entry is served when its view is
    terminal. *)
Definition _get_cached_job_status (ttl now fetch_ts : Z) (k : ckey) (read : job_view)
    (m : gmap ckey (job_view * Z)) : job_view * gmap ckey (job_view * Z) :=
  if ttl <=? 0 then (read, m)
  else
    let served := '(v, ts) ← m !! k;
                  if _is_terminal v && (now - ts <? ttl) then Some v else None in
    match served with
    | Some v => (v, m)
    | None =>
        (read,
         match m !! k with
         | Some (_, old) => if old <? fetch_ts then <[k := (read, fetch_ts)]> m else m
         | None => <[k := (read, fetch_ts)]> m
         end)
    end.

(** Several callers at once.  A caller that misses begins a read; reads finish in
    any order, each with a view of the controller taken after it began. *)
Record cworld := mk_cworld {
  cw_cache : controller_cache;
  cw_clock : Z;
  cw_reads : list (ckey * Z * Z);             (* key, begun at, requested count *)
  cw_served : list (ckey * workload_view)
}.

Inductive cstep (ttl : Z) : cworld → cworld → Prop :=
| cs_hit m t now reads served k requested v :
    t ≤ now → cache_lookup ttl now requested k m = Some v →
    cstep ttl (mk_cworld m t reads served) (mk_cworld m now reads ((k, v) :: served))
| cs_miss m t now reads served k requested :
    t ≤ now → cache_lookup ttl now requested k m = None →
    cstep ttl (mk_cworld m t reads served) (mk_cworld m now ((k, now, requested) :: reads) served)
| cs_finish m t now reads1 reads2 served k began requested view :
    t ≤ now →
    cstep ttl (mk_cworld m t (reads1 ++ (k, began, requested) :: reads2) served)
      (mk_cworld (cache_store k (mk_centry view began requested) m) now (reads1 ++ reads2)
         ((k, view) :: served)).

(** ** Timed-out pods *)

Lemma timed_out_pending t now i : is_pod_timed_out t now i = true → is_pending i = true.
Proof. unfold is_pod_timed_out. by intros [? _]%andb_true_iff. Qed.

Lemma rewritten_status i : status (_rewrite_timed_out_instance i) = "terminated".
Proof. done. Qed.

Lemma apply_pod_timeout_map t now l :
  0 < t →
  apply_pod_timeout t now l =
  (λ i, if is_pod_timed_out t now i then _rewrite_timed_out_instance i else i) <$> l.
Proof.
  intros Ht. unfold apply_pod_timeout. rewrite (proj2 (Z.leb_gt t 0) Ht). simpl.
  by destruct l.
Qed.

Lemma all_timed_out_statuses t now l :
  0 < t → (∀ i, i ∈ l → is_pod_timed_out t now i = true) →
  ∀ i, i ∈ apply_pod_timeout t now l → status i = "terminated".
Proof.
  intros Ht Hl i. rewrite apply_pod_timeout_map by done.
  intros (j & -> & Hj)%list_elem_of_fmap. by rewrite Hl.
Qed.

Lemma apply_pod_timeout_length t now l : length (apply_pod_timeout t now l) = length l.
Proof. unfold apply_pod_timeout. case_match; [done|]. apply length_fmap. Qed.

(** Pods that never started complete their request.  When at least as many
    bare pods as were requested have all been stuck in Pending past the timeout,
    the verdict is "fulfilled", with every stuck pod counted as delivered and the
    message saying they completed successfully; and the state machine, given this
    verdict for a live request, settles it as COMPLETED. *)
Theorem stuck_pods_complete_request nodes cfg api loop_running now ns l listed requested sm r now' :
  0 < pod_timeout_seconds cfg →
  0 < requested ≤ Z.of_nat (length l) →
  (∀ i, i ∈ l → is_pod_timed_out (pod_timeout_seconds cfg) now i = true) →
  RequestStatus.is_active (Request.status r) = true →
  expired r now' = false →
  let v := (pod_check_hosts_status nodes cfg api loop_running now ns (Some l) listed requested).2 in
  pf_state v = "fulfilled" ∧ pf_fulfilled_units v = Some (Z.of_nat (length l)) ∧
  pf_message v = "All " +:+ fmt (Z.of_nat (length l)) +:+ " pod(s) completed successfully" ∧
  ∃ r' b,
    FulfilmentStateMachine.apply sm r FulfilmentEvent.PROVIDER_VERDICT now' (Some v) None None None
      = Ok (r', b) ∧ Request.status r' = RequestStatus.COMPLETED.
Proof.
  intros Ht Hreq Hl Ha He v.
  set (l' := apply_pod_timeout (pod_timeout_seconds cfg) now l).
  assert (∀ i, i ∈ l' → status i = "terminated") as Hterm by (by apply (all_timed_out_statuses _ _ _ Ht Hl)).
  assert (length l' = length l) as Hlen by apply apply_pod_timeout_length.
  assert (∀ p, (∀ i, status i = "terminated" → p i = false) → tally p l' = 0) as H0.
  { intros p Hp. apply tally_none. intros i Hi. by apply Hp, Hterm. }
  assert (v = pod_compute_fulfilment l' requested) as Hv by done.
  unfold pod_compute_fulfilment in Hv.
  rewrite (H0 is_running), (H0 is_failed), (H0 is_pending) in Hv
    by (intros i Hi; unfold is_running, is_failed, is_pending; by rewrite Hi).
  rewrite (tally_all is_terminated) in Hv
    by (intros i Hi; unfold is_terminated; by rewrite (Hterm i Hi)).
  rewrite Hlen, Z.add_0_l in Hv.
  rewrite (proj2 (Z.leb_le requested _)), (proj2 (Z.ltb_lt 0 requested)),
    (proj2 (Z.ltb_lt 0 (Z.of_nat (length l)))) in Hv by lia. cbn [andb Z.eqb] in Hv.
  assert (pf_state v = "fulfilled") as Hs by (by rewrite Hv).
  split; [done|]. split; [by rewrite Hv|]. split; [by rewrite Hv|].
  destruct (verdict_accepted sm r now' v Ha He) as (r' & b & Hap); [rewrite Hs; set_solver|by rewrite Hs|].
  exists r', b. split; [done|]. rewrite (verdict_apply _ _ _ _ _ _ Ha He Hap).
  apply target_for_verdict_status; [rewrite Hs; set_solver|done].
Qed.

(** What a deployment makes of the same pods: nothing runs, waits or failed, and
    it starts for ever. *)
Lemma stuck_deployment_starts t now l requested view :
  0 < t → 0 < requested → (∀ i, i ∈ l → is_pod_timed_out t now i = true) →
  default 0 (wv_ready_replicas view) = 0 →
  pf_state (deployment_compute_fulfilment (apply_pod_timeout t now l) requested view) = "in_progress".
Proof.
  intros Ht Hreq Hl Hready.
  assert (∀ p, (∀ i, status i = "terminated" → p i = false) →
               tally p (apply_pod_timeout t now l) = 0) as H0.
  { intros p Hp. apply tally_none. intros i Hi. apply Hp. exact (all_timed_out_statuses _ _ _ Ht Hl i Hi). }
  unfold deployment_compute_fulfilment, compute_workload_fulfilment.
  rewrite (H0 is_running), (H0 is_failed), (H0 is_pending)
    by (intros i Hi; unfold is_running, is_failed, is_pending; by rewrite Hi).
  rewrite Hready. rewrite (proj2 (Z.leb_gt requested 0)) by lia. done.
Qed.

(** The timeout pass schedules the deletion of every stuck pod, every time.
    The instances read from the cache never carry the mark of an earlier pass, so
    on each poll with an event loop the pods deleted are exactly the named ones
    that are timed out; none is skipped as already scheduled. *)
Theorem deletions_every_poll nodes cfg api now states :
  0 < pod_timeout_seconds cfg → delete_timed_out_pods cfg = true →
  let l := (λ s, instance_dict_for_state nodes s api) <$> states in
  (λ d, d.1.1) <$> (apply_pod_timeouts cfg true now l).2 =
  instance_id <$> filter (λ i, is_pod_timed_out (pod_timeout_seconds cfg) now i = true ∧
                               instance_id i ≠ EmptyString) l.
Proof.
  intros Ht Hd l. unfold apply_pod_timeouts. rewrite Hd. cbn [andb snd].
  rewrite apply_pod_timeout_map by done. unfold _schedule_timed_out_pod_deletions.
  assert (∀ i, i ∈ l → pd_timed_out (provider_data i) = false) as Hnew.
  { by intros i (s & -> & _)%list_elem_of_fmap. }
  assert (filter (λ i, pd_timed_out (provider_data i) = true) l = []) as ->.
  { clear -Hnew. induction l as [|i l IH]; [done|]. rewrite filter_cons_False.
    - apply IH. intros j Hj. by apply Hnew, list_elem_of_further.
    - rewrite Hnew; [done|apply list_elem_of_here]. }
  cbn [fmap list_fmap]. clearbody l. induction l as [|i l IH]; [done|].
  specialize (IH (λ j Hj, Hnew j (list_elem_of_further _ _ _ Hj))).
  specialize (Hnew i (list_elem_of_here _ _)).
  cbn [fmap list_fmap omap list_omap]. destruct (is_pod_timed_out _ now i) eqn:Hi.
  - rewrite bool_decide_eq_false_2 by apply not_elem_of_nil.
    change (pd_timed_out (provider_data (_rewrite_timed_out_instance i))) with true.
    change (instance_id (_rewrite_timed_out_instance i)) with (instance_id i). cbn [negb].
    destruct (instance_id i ≟ EmptyString) eqn:He.
    + apply bool_decide_eq_true in He. rewrite filter_cons_False by (intros [_ ?]; done). apply IH.
    + apply bool_decide_eq_false in He. rewrite filter_cons_True by done.
      cbn [fmap list_fmap fst snd]. by f_equal.
  - rewrite Hnew. cbn [negb]. rewrite filter_cons_False; [apply IH|]. rewrite Hi. by intros [? _].
Qed.

(** ** The contract *)

Lemma running_not_failed i : is_running i = true → is_failed i = false.
Proof. unfold is_running, is_failed. rewrite bool_decide_eq_true, bool_decide_eq_false. congruence. Qed.

Lemma failed_bound l : tally is_running l + tally is_failed l ≤ Z.of_nat (length l).
Proof. apply tally_disjoint. intros i _. apply running_not_failed. Qed.

(** Bare pods: a completed pod was delivered, a timed-out one was not. *)
Definition completed (i : instance) : bool := is_terminated i && negb (pd_timed_out (provider_data i)).

Definition observe_pods (i : list instance * Z) : observation :=
  mk_obs i.2 (tally is_running i.1 + tally completed i.1) (tally is_running i.1) (tally is_pending i.1).

#[global] Instance pod_status_sound :
  SoundVerdict (λ i, ∀ x, x ∈ i.1 → pd_timed_out (provider_data x) = false) observe_pods
    (λ i, pod_compute_fulfilment i.1 i.2).
Proof.
  intros [l requested] Hl. unfold observe_pods, pod_compute_fulfilment. cbn [fst snd] in *.
  assert (tally completed l = tally is_terminated l) as ->.
  { apply tally_ext. intros i Hi. unfold completed. by rewrite (Hl i Hi), andb_true_r. }
  pose proof (failed_bound l). pose proof (tally_nonneg is_running l).
  pose proof (tally_nonneg is_pending l). pose proof (tally_nonneg is_terminated l).
  repeat match goal with |- context [if ?b then _ else _] => destruct b eqn:? end; solve_verdict.
Qed.

(** Workloads are observed through their controller.  The verdict is only to be
    trusted when the pods do not contradict it: a ready replica is not one of
    pods that all failed. *)
Record workload_input := mk_workload_input {
  wi_kind : string;
  wi_instances : list instance;
  wi_requested : Z;
  wi_view : workload_view
}.

Definition ready_of (i : workload_input) : Z :=
  default (tally is_running (wi_instances i)) (wv_ready_replicas (wi_view i)).

Definition observe_workload (i : workload_input) : observation :=
  mk_obs (wi_requested i) (ready_of i) (ready_of i) (tally is_pending (wi_instances i)).

Definition pods_agree (i : workload_input) : Prop :=
  0 ≤ ready_of i ∧ (0 < ready_of i → tally is_failed (wi_instances i) < Z.of_nat (length (wi_instances i))).

#[global] Instance workload_status_sound :
  SoundVerdict pods_agree observe_workload
    (λ i, compute_workload_fulfilment (wi_kind i) (wi_instances i) (wi_requested i) (wi_view i)).
Proof.
  intros [kind l requested view] [Hnn Hag]. unfold observe_workload, compute_workload_fulfilment.
  unfold ready_of in *. cbn [wi_kind wi_instances wi_requested wi_view] in *.
  set (ready := default _ _) in *.
  pose proof (tally_nonneg is_pending l).
  repeat match goal with |- context [if ?b then _ else _] => destruct b eqn:? end; solve_verdict.
Qed.

(** The controller's word is not final.  The resolver of deployments and
    stateful sets says it follows the controller's ready count; but one failed pod
    in the list keeps the request from being fulfilled however many replicas are
    ready, and when all the listed pods have failed the verdict is "failed", with
    the ready replicas reported as running. *)
Theorem controller_overruled kind l requested view n :
  wv_ready_replicas view = Some n →
  (∃ i, i ∈ l ∧ is_failed i = true) →
  let v := compute_workload_fulfilment kind l requested view in
  pf_state v ≠ "fulfilled" ∧
  ((∀ i, i ∈ l → is_failed i = true) → pf_state v = "failed" ∧ pf_running_count v = Some n).
Proof.
  intros Hn Hf v.
  assert (0 < tally is_failed l) as Hpos by (by apply tally_pos).
  subst v. unfold compute_workload_fulfilment. rewrite Hn. cbn [default].
  assert ((tally is_failed l =? 0) = false) as -> by (apply Z.eqb_neq; lia).
  rewrite andb_false_r. cbn [andb]. split.
  - repeat match goal with |- context [if ?b then _ else _] => destruct b end; discriminate.
  - intros Hall. rewrite (tally_all is_failed l Hall) in *.
    rewrite (tally_none is_pending).
    + cbn. rewrite (proj2 (Z.ltb_lt _ _) Hpos), Z.eqb_refl. done.
    + intros i Hi. specialize (Hall i Hi). unfold is_failed, is_pending in *.
      apply bool_decide_eq_true in Hall. rewrite Hall. done.
Qed.

(** What the resolvers read from the pod cache.  With a live watcher, the
    read never raises, and its instances are exactly the request's entries that
    are not older than the staleness limit; it declines (and the pods are listed
    instead) only when there are none of them.  A single stale entry is silently
    missing from the answer. *)
Theorem read_from_cache_exact nodes cfg api now_mono alive rid c :
  cache_wf c → alive ≠ Some false →
  let fresh s := (∃ n, _states c !! (rid, n) = Some s) ∧
                 now_mono - Z.max (stale_cache_timeout_seconds cfg) 0 ≤ ps_last_updated s in
  ∃ answer c',
    _read_from_cache nodes cfg api now_mono alive rid (Some c) = Ok (answer, Some c') ∧
    match answer with
    | None => ¬ ∃ s, fresh s
    | Some l => l ≠ [] ∧ ∀ i, i ∈ l ↔ ∃ s, fresh s ∧ i = instance_dict_for_state nodes s api
    end.
Proof.
  intros Hwf Halive fresh. unfold _read_from_cache. rewrite bool_decide_eq_false_2 by done.
  set (c' := (mark_stale now_mono rid (stale_cache_timeout_seconds cfg) c).2).
  assert (∀ s, (∃ n, _states c' !! (rid, n) = Some s) ↔ fresh s) as Hst.
  { intros s. unfold fresh, c'. setoid_rewrite mark_stale_states; [|done]. cbn [fst].
    split; [intros (n & Hs & Hle); eauto|intros [[n Hs] Hle]; eauto]. }
  pose proof (get_spec rid c' (mark_stale_wf _ _ _ _ Hwf)) as Hget.
  destruct (get rid c') as [[l|]|e]; [..|done].
  - destruct Hget as [Hne Hl]. do 2 eexists. split; [done|]. cbn. split.
    + by intros ->%fmap_nil_inv.
    + intros i. rewrite list_elem_of_fmap. split.
      * intros (s & -> & Hs). exists s. split; [|done]. by apply Hst, Hl.
      * intros (s & Hs & ->). exists s. split; [done|]. by apply Hl, Hst.
  - do 2 eexists. split; [done|]. cbn. intros [s Hs]. apply Hst in Hs as [n Hs].
    by rewrite Hget in Hs.
Qed.

(** ** The controller caches *)

Lemma cache_store_monotone k e m k0 e0 :
  m !! k0 = Some e0 → ∃ e1, cache_store k e m !! k0 = Some e1 ∧ ce_ts e0 ≤ ce_ts e1.
Proof.
  intros H0. unfold cache_store. destruct (decide (k0 = k)) as [->|Hne].
  - rewrite H0. destruct (Z.ltb_spec (ce_ts e0) (ce_ts e)); eexists;
      rewrite ?lookup_insert_eq; (split; [done|lia]).
  - exists e0. split; [|lia].
    destruct (m !! k); [destruct (_ <? _)|]; rewrite ?lookup_insert_ne; done.
Qed.

(** The controller cache under concurrent callers.  However reads overlap, a
    workload's entry is only ever replaced by one whose read began later; and a
    view is served from the cache only if it is younger than the time to live, was
    stored for the same replica count, and showed all the replicas ready. *)
Theorem controller_cache_fresh ttl a b k :
  rtc (cstep ttl) a b →
  (∀ e, cw_cache a !! k = Some e →
     ∃ e', cw_cache b !! k = Some e' ∧ ce_ts e ≤ ce_ts e') ∧
  (∀ now requested v, cache_lookup ttl now requested k (cw_cache b) = Some v →
     ∃ e n, cw_cache b !! k = Some e ∧ ce_view e = v ∧ ce_requested e = requested ∧
            now - ce_ts e < ttl ∧ wv_ready_replicas v = Some n ∧ requested ≤ n).
Proof.
  intros Hrun. split.
  - induction Hrun as [a|a b d Hstep _ IH]; intros e He; [exists e; split; [done|lia]|].
    assert (∃ e', cw_cache b !! k = Some e' ∧ ce_ts e ≤ ce_ts e') as (e1 & He1 & Hle).
    { destruct Hstep; simpl in *; [exists e; split; [done|lia]..|]. by apply cache_store_monotone. }
    destruct (IH e1 He1) as (e2 & He2 & Hle2). exists e2. split; [done|lia].
  - intros now requested v. unfold cache_lookup. destruct (cw_cache b !! k) as [e|]; [|done].
    unfold cache_hit. destruct (wv_ready_replicas (ce_view e)) as [n|] eqn:Hn.
    2: { by rewrite andb_false_r. }
    destruct (ce_requested e =? requested) eqn:H1; [|done].
    destruct (ce_requested e <=? n) eqn:H2; [|done].
    destruct (now - ce_ts e <? ttl) eqn:H3; [|done]. intros [= <-].
    apply Z.eqb_eq in H1. apply Z.leb_le in H2. apply Z.ltb_lt in H3.
    exists e, n. split_and!; try done. lia.
Qed.

(** ** Jobs *)

Lemma job_condition_terminal v requested conds :
  is_Some (job_condition_verdict v requested conds) ↔
  existsb (λ c, condition_true "Complete" c || condition_true "Failed" c) conds = true.
Proof.
  induction conds as [|c conds IH]; simpl.
  - split; [by intros []|done].
  - destruct (condition_true "Complete" c); [by split; [|eauto]|].
    destruct (condition_true "Failed" c); [by split; [|eauto]|]. exact IH.
Qed.

(** A finished job's verdict is fixed.  The views the job cache serves are
    exactly those with a terminal condition, and for such a view the verdict is
    "fulfilled" or "failed" and does not depend on the pods. *)
Theorem job_terminal_verdict v requested l :
  _is_terminal v = true →
  (pf_state (job_compute_fulfilment l requested v) = "fulfilled" ∨
   pf_state (job_compute_fulfilment l requested v) = "failed") ∧
  ∀ l', job_compute_fulfilment l' requested v = job_compute_fulfilment l requested v.
Proof.
  intros Ht. unfold job_compute_fulfilment.
  destruct (proj2 (job_condition_terminal v requested _) Ht) as [f Hf]. rewrite Hf.
  split; [|done]. revert Hf. generalize (jv_conditions v) as conds.
  induction conds as [|c conds IH]; simpl; [done|].
  destruct (condition_true "Complete" c); [intros [= <-]; by left|].
  destruct (condition_true "Failed" c); [intros [= <-]; by right|]. exact IH.
Qed.

(** ** Witnesses *)

Definition demo_config : pod_config := mk_pod_config 300 true "default" 60 5.

(** The instance of a pod that has been pending since instant 1000. *)
Definition pending_instance : instance :=
  instance_dict_for_pod (λ _, None) (sample_pod "Pending" []) "default" "Pod".

Lemma stuck_pods_complete_request_witness :
  pf_state (pod_check_hosts_status (λ _, None) demo_config "Pod" false 400000000 "default"
              (Some [pending_instance]) (Ok []) 1).2 = "fulfilled".
Proof.
  apply (stuck_pods_complete_request (λ _, None) demo_config "Pod" false 400000000 "default"
    [pending_instance] (Ok []) 1 (FulfilmentStateMachine.init 60) sample 40).
  - reflexivity.
  - simpl. lia.
  - intros i ->%list_elem_of_singleton. vm_compute. reflexivity.
  - reflexivity.
  - reflexivity.
Defined.

Lemma deletions_every_poll_witness :
  (λ d, d.1.1) <$> (apply_pod_timeouts demo_config true 400000000
     [instance_dict_for_state (λ _, None) (state_of demo_watcher (sample_pod "Pending" []) "req-1" false)
        "Pod"]).2 = ["web-1"].
Proof.
  etrans; [exact (deletions_every_poll (λ _, None) demo_config "Pod" 400000000
    [state_of demo_watcher (sample_pod "Pending" []) "req-1" false] eq_refl eq_refl)|].
  vm_compute. reflexivity.
Defined.

Lemma controller_overruled_witness :
  pf_state (compute_workload_fulfilment "Deployment"
    [pending_instance <| status := "failed" |>; pending_instance <| status := "running" |>] 1
    (mk_view None None (Some 1) None None [])) ≠ "fulfilled".
Proof.
  apply (controller_overruled "Deployment"
    [pending_instance <| status := "failed" |>; pending_instance <| status := "running" |>] 1
    (mk_view None None (Some 1) None None []) 1 eq_refl).
  eexists. split; [left|reflexivity].
Defined.

Lemma read_from_cache_exact_witness :
  ∃ answer c', _read_from_cache (λ _, None) demo_config "Pod" 100 (Some true) "req-1"
      (Some (_handle_event demo_watcher 5 ADDED (sample_pod "Running" []) empty_cache))
    = Ok (answer, c') ∧ answer = None.
Proof.
  destruct (read_from_cache_exact (λ _, None) demo_config "Pod" 100 (Some true) "req-1"
    (_handle_event demo_watcher 5 ADDED (sample_pod "Running" []) empty_cache)) as (ans & c' & H & _).
  - apply handle_event_wf, empty_cache_wf.
  - discriminate.
  - exists ans, (Some c'). split; [exact H|]. vm_compute in H. by injection H as <- _.
Defined.

Lemma controller_cache_fresh_witness :
  let v := mk_view None None (Some 3) None None [] in
  let m := cache_store ("default", "web") (mk_centry v 10 3) ∅ in
  ∃ e n, m !! ("default", "web") = Some e ∧ ce_view e = v ∧ ce_requested e = 3 ∧
         12 - ce_ts e < 5 ∧ wv_ready_replicas v = Some n ∧ 3 ≤ n.
Proof.
  intros v m.
  destruct (controller_cache_fresh 5 (mk_cworld ∅ 0 [] [])
    (mk_cworld m 11 [] [(("default", "web"), v)]) ("default", "web")) as [_ H].
  - eapply rtc_l; [apply (cs_miss 5) with (now := 10) (k := ("default", "web")) (requested := 3);
      [lia|reflexivity]|].
    apply rtc_once. apply (cs_finish 5 ∅ 10 11 [] []). lia.
  - apply (H 12 3 v). vm_compute. reflexivity.
Defined.

Lemma job_terminal_verdict_witness :
  pf_state (job_compute_fulfilment [] 2
    (mk_job_view (Some 1) (Some 1) None [mk_condition (Some "Failed") (Some "True") None None])) = "failed".
Proof.
  destruct (job_terminal_verdict
    (mk_job_view (Some 1) (Some 1) None [mk_condition (Some "Failed") (Some "True") None None]) 2 []
    eq_refl) as [[H|H] _]; [vm_compute in H; discriminate H|exact H].
Defined.
