(* ===== verification/Pagination.v ===== *)
(** * Keyset pagination

    [orb/domain/base/pagination.py]: the text a row sorts by, sort orders, and
    the page cut from a listing held in memory.  A page is addressed by the
    position of the last row of the page before it.

    Text is compared as [String.compare] does, which is Python's order on the
    strings modelled here.  A row is whatever the caller lists, with the value of
    its sort attribute and its id. *)

From stdpp Require Import base strings list sets sorting.
From Stdlib Require Import Ascii ZArith Lia.
From S2P Require Import Prelude.

(** ** The text a value sorts by *)

Inductive sort_value :=
| SNone
| SEnum (value : string)
| SDatetime (t : datetime)
| SOther (text : string).                     (* [str(value)] *)

Definition utc_suffix : string := "+00:00".

(** [text.endswith("+00:00")] and the cut. *)
Fixpoint strip_utc (s : string) : option string :=
  if s ≟ utc_suffix then Some EmptyString
  else match s with
       | EmptyString => None
       | String c s' => String c <$> strip_utc s'
       end.

Definition sort_text (json_datetimes : bool) (v : sort_value) : string :=
  match v with
  | SNone => EmptyString
  | SEnum value => value
  | SDatetime t =>
      let text := isoformat t in
      if json_datetimes then
        match strip_utc text with Some p => p +:+ "Z" | None => text end
      else text
  | SOther text => text
  end.

(** ** Sort orders *)

Record SortSpec := mk_spec { attr : string; descending : bool }.

Fixpoint lstrip_signs (s : string) : string :=
  match s with
  | String c s' => if (c ≟ "-"%char) || (c ≟ "+"%char) then lstrip_signs s' else s
  | EmptyString => s
  end.

Definition SortSpec_parse (sort : option string) : option SortSpec :=
  match sort with
  | None => None
  | Some text =>
      let a := lstrip_signs text in
      if a ≟ EmptyString then None else Some (mk_spec a (startswith "-" text))
  end.

Definition SortSpec_str (s : SortSpec) : string :=
  (if descending s then "-" else "") +:+ attr s.

(** ** Positions *)

Abbreviation Position := (string * string)%type.   (* sort text, row id *)

Definition pos_leb (p q : Position) : bool :=
  match String.compare p.1 q.1 with
  | Lt => true
  | Gt => false
  | Eq => String.leb p.2 q.2
  end.

Definition pos_ltb (p q : Position) : bool := negb (pos_leb q p).

(** The order of a listing, and of the rows after a position in it. *)
Definition spec_leb (s : SortSpec) (p q : Position) : bool :=
  if descending s then pos_leb q p else pos_leb p q.
Definition spec_ltb (s : SortSpec) (p q : Position) : bool :=
  if descending s then pos_ltb q p else pos_ltb p q.

(** ** Pages *)

Record PageSlice (A : Type) := mk_page {
  items : list A;
  positions : list Position;
  has_more : bool
}.
Arguments mk_page {A}.
Arguments items {A}.
Arguments positions {A}.
Arguments has_more {A}.

Definition next_position {A} (p : PageSlice A) : option Position :=
  if has_more p then last (positions p) else None.

Section Paginate.
Context {A : Type}.
Context (attr_of : A → string → sort_value).       (* [getattr(item, attr, "")] *)
Context (id_of : A → string).
Context (json_datetimes : bool).
Context (spec : SortSpec).

Definition row_position (item : A) : Position :=
  (sort_text json_datetimes (attr_of item (attr spec)), id_of item).

(** [sorted(.., key=position, reverse=descending)]. *)
Definition ordered (rows : list A) : list A :=
  sorted_by (λ x y, spec_leb spec (row_position x) (row_position y)) rows.

(** A limit is an integer; a negative one cuts like zero. *)
Definition paginate_in_memory (rows : list A) (after : option Position) (limit : option Z)
    (skip : nat) : PageSlice A :=
  let keyed := ordered rows in
  let keyed := match after with
               | Some p => filter (λ x, spec_ltb spec p (row_position x) = true) keyed
               | None => keyed
               end in
  let keyed := drop skip keyed in
  let '(more, keyed) :=
    match limit with
    | Some n => ((n <? Z.of_nat (length keyed))%Z, take (Z.to_nat (Z.max n 0)) keyed)
    | None => (false, keyed)
    end in
  mk_page keyed (row_position <$> keyed) more.

(** A client that follows the pages of an unchanging listing. *)
Fixpoint walk (fuel : nat) (rows : list A) (limit : Z) (after : option Position) : list A :=
  let p := paginate_in_memory rows after (Some limit) 0 in
  items p ++ match next_position p, fuel with
             | Some pos, S fuel' => walk fuel' rows limit (Some pos)
             | _, _ => []
             end.

(** A client that follows the pages while the listing changes: the listing each
    request sees, the rows collected and whether the last page was reached. *)
Fixpoint walk_changing (tables : list (list A)) (limit : Z) (after : option Position)
  : list A * bool :=
  match tables with
  | [] => ([], false)
  | rows :: rest =>
      let p := paginate_in_memory rows after (Some limit) 0 in
      match next_position p with
      | None => (items p, true)
      | Some pos => let '(l, finished) := walk_changing rest limit (Some pos) in
                    (items p ++ l, finished)
      end
  end.
End Paginate.

(** ** The order is total *)

Lemma string_leb_total s t : String.leb s t = true ∨ String.leb t s = true.
Proof.
  unfold String.leb. rewrite (String.compare_antisym t s). destruct (String.compare s t); simpl; auto.
Qed.

Lemma string_leb_antisym s t : String.leb s t = true → String.leb t s = true → s = t.
Proof.
  unfold String.leb. rewrite (String.compare_antisym t s).
  destruct (String.compare s t) eqn:H; simpl; try done. intros _ _. by apply String.compare_eq_iff.
Qed.

Lemma string_compare_refl s : String.compare s s = Eq.
Proof. induction s as [|c s IH]; simpl; [done|]. unfold Ascii.compare. by rewrite N.compare_refl. Qed.

Lemma string_compare_lt_trans s t u :
  String.compare s t = Lt → String.compare t u = Lt → String.compare s u = Lt.
Proof.
  intros H1 H2.
  assert (String.leb s u = true) as H.
  { apply (string_leb_trans s t u); unfold String.leb; by rewrite ?H1, ?H2. }
  unfold String.leb in H. destruct (String.compare s u) eqn:Hsu; [|done..].
  apply String.compare_eq_iff in Hsu as ->. rewrite String.compare_antisym, H1 in H2. done.
Qed.

Lemma pos_leb_total p q : pos_leb p q = true ∨ pos_leb q p = true.
Proof.
  unfold pos_leb. rewrite (String.compare_antisym q.1 p.1).
  destruct (String.compare p.1 q.1); simpl; auto. apply string_leb_total.
Qed.

Lemma pos_leb_trans p q r : pos_leb p q = true → pos_leb q r = true → pos_leb p r = true.
Proof.
  unfold pos_leb. destruct (String.compare p.1 q.1) eqn:H1, (String.compare q.1 r.1) eqn:H2; try done.
  - apply String.compare_eq_iff in H1, H2. rewrite H1, H2, string_compare_refl. apply string_leb_trans.
  - apply String.compare_eq_iff in H1. by rewrite H1, H2.
  - apply String.compare_eq_iff in H2. by rewrite <- H2, H1.
  - by rewrite (string_compare_lt_trans _ _ _ H1 H2).
Qed.

Lemma pos_leb_antisym p q : pos_leb p q = true → pos_leb q p = true → p = q.
Proof.
  unfold pos_leb. rewrite (String.compare_antisym q.1 p.1).
  destruct (String.compare p.1 q.1) eqn:H; simpl; try done. intros H1 H2.
  apply String.compare_eq_iff in H. destruct p, q; simpl in *. f_equal; [done|].
  by apply string_leb_antisym.
Qed.

Section SpecOrder.
Context (s : SortSpec).

Lemma spec_leb_total p q : spec_leb s p q = true ∨ spec_leb s q p = true.
Proof. unfold spec_leb. destruct (descending s); apply pos_leb_total. Qed.

Lemma spec_leb_trans p q r : spec_leb s p q = true → spec_leb s q r = true → spec_leb s p r = true.
Proof. unfold spec_leb. destruct (descending s); intros; eauto using pos_leb_trans. Qed.

Lemma spec_ltb_leb p q : spec_ltb s p q = negb (spec_leb s q p).
Proof. unfold spec_ltb, spec_leb, pos_ltb. by destruct (descending s). Qed.

Lemma spec_ltb_iff p q : spec_ltb s p q = true ↔ spec_leb s p q = true ∧ p ≠ q.
Proof.
  rewrite spec_ltb_leb, negb_true_iff. split.
  - intros H. destruct (spec_leb_total p q) as [Hl|Hl]; [|congruence]. split; [done|].
    intros ->. congruence.
  - intros [Hl Hne]. apply not_true_iff_false. intros Hl'. apply Hne.
    unfold spec_leb in *. destruct (descending s); by apply pos_leb_antisym.
Qed.

Lemma spec_ltb_trans p q r : spec_ltb s p q = true → spec_ltb s q r = true → spec_ltb s p r = true.
Proof.
  rewrite !spec_ltb_iff. intros [H1 N1] [H2 N2]. split; [by eapply spec_leb_trans|].
  intros ->. apply N2. unfold spec_leb in *. destruct (descending s); by apply pos_leb_antisym.
Qed.

Lemma spec_ltb_irrefl p : spec_ltb s p p = false.
Proof. apply not_true_iff_false. rewrite spec_ltb_iff. by intros [_ ?]. Qed.
End SpecOrder.

(** ** Pages of a listing *)

Section Pages.
Context {A : Type}.
Context (attr_of : A → string → sort_value).
Context (id_of : A → string).
Context (jd : bool).
Context (spec : SortSpec).
Local Abbreviation pos := (row_position attr_of id_of jd spec).
Local Abbreviation ordered := (ordered attr_of id_of jd spec).
Local Abbreviation paginate := (paginate_in_memory attr_of id_of jd spec).

Definition precedes (x y : A) : Prop := spec_ltb spec (pos x) (pos y) = true.

(** The rows of an ordered listing after a position. *)
Definition rest_after (after : option Position) (l : list A) : list A :=
  match after with
  | Some p => filter (λ x, spec_ltb spec p (pos x) = true) l
  | None => l
  end.

Definition beyond (after : option Position) (x : A) : Prop :=
  match after with Some p => spec_ltb spec p (pos x) = true | None => True end.

Lemma elem_of_rest_after after l x : x ∈ rest_after after l ↔ x ∈ l ∧ beyond after x.
Proof.
  unfold rest_after, beyond. destruct after; [rewrite list_elem_of_filter|]; tauto.
Qed.

Lemma ordered_sorted rows : NoDup (pos <$> rows) → StronglySorted precedes (ordered rows).
Proof.
  intros Hnd. assert (NoDup (pos <$> ordered rows)) as Hnd'.
  { unfold Pagination.ordered. by rewrite (sorted_by_perm _ rows). }
  pose proof (sorted_by_sorted (λ x y, spec_leb spec (pos x) (pos y))
    (λ x y, spec_leb_total _ _ _) (λ x y z, spec_leb_trans _ _ _ _) rows) as Hs.
  fold (ordered rows) in Hs. revert Hnd'. induction Hs as [|x l Hl IH Hx]; [constructor|].
  cbn [fmap list_fmap]. intros [Hni Hnd']%NoDup_cons. constructor; [by apply IH|].
  rewrite Forall_forall in *. intros y Hy. apply spec_ltb_iff. split; [by apply Hx|].
  intros Heq. apply Hni. rewrite Heq. by apply list_elem_of_fmap_2.
Qed.

Lemma filter_sorted P `{∀ x, Decision (P x)} l :
  StronglySorted precedes l → StronglySorted precedes (filter P l).
Proof.
  induction 1 as [|x l Hl IH Hx]; [constructor|]. rewrite filter_cons. case_decide; [|done].
  constructor; [done|]. rewrite Forall_forall in *. intros y [_ Hy]%list_elem_of_filter. auto.
Qed.

Lemma rest_after_sorted after l : StronglySorted precedes l → StronglySorted precedes (rest_after after l).
Proof. destruct after; [apply filter_sorted|done]. Qed.

Lemma filter_nothing P `{∀ x, Decision (P x)} (l : list A) : (∀ x, x ∈ l → ¬ P x) → filter P l = [].
Proof.
  induction l as [|x l IH]; intros Hl; [done|]. rewrite filter_cons_False.
  - apply IH. intros y Hy. by apply Hl, list_elem_of_further.
  - apply Hl, list_elem_of_here.
Qed.

Lemma filter_everything P `{∀ x, Decision (P x)} (l : list A) : (∀ x, x ∈ l → P x) → filter P l = l.
Proof.
  induction l as [|x l IH]; intros Hl; [done|]. rewrite filter_cons_True, IH; [done|..].
  - intros y Hy. by apply Hl, list_elem_of_further.
  - apply Hl, list_elem_of_here.
Qed.

Lemma StronglySorted_app_inv l1 l2 :
  StronglySorted precedes (l1 ++ l2) → ∀ x y, x ∈ l1 → y ∈ l2 → precedes x y.
Proof.
  induction l1 as [|z l1 IH]; simpl; intros Hs x y; [by intros ?%not_elem_of_nil|].
  inversion Hs as [|? ? Hs' Hz]; subst. intros [->|Hx]%elem_of_cons Hy; [|eauto].
  rewrite Forall_forall in Hz. apply Hz, elem_of_app. by right.
Qed.

Lemma StronglySorted_prefix l1 l2 : StronglySorted precedes (l1 ++ l2) → StronglySorted precedes l1.
Proof.
  induction l1 as [|x l1 IH]; simpl; intros Hs; [constructor|].
  inversion Hs as [|? ? Hs' Hx]; subst. constructor; [by apply IH|].
  rewrite Forall_app in Hx. tauto.
Qed.

Lemma StronglySorted_join l1 l2 :
  StronglySorted precedes l1 → StronglySorted precedes l2 →
  (∀ x y, x ∈ l1 → y ∈ l2 → precedes x y) → StronglySorted precedes (l1 ++ l2).
Proof.
  intros H1 H2 H. induction H1 as [|x l1 Hs IH Hx]; simpl; [done|]. constructor.
  - apply IH. intros y z Hy. by apply H, list_elem_of_further.
  - apply Forall_app. split; [done|]. rewrite Forall_forall. intros z. apply H, list_elem_of_here.
Qed.

Lemma elem_of_take (n : nat) (l : list A) x : x ∈ take n l → x ∈ l.
Proof. intros Hx. rewrite <- (take_drop n l). apply elem_of_app. by left. Qed.

Lemma elem_of_ordered rows x : x ∈ ordered rows ↔ x ∈ rows.
Proof. unfold Pagination.ordered. by rewrite sorted_by_perm. Qed.

(** What is after the last row of a prefix is the rest. *)
Lemma rest_after_split after l1 x l2 l :
  StronglySorted precedes l →
  rest_after after l = l1 ++ x :: l2 →
  rest_after (Some (pos x)) l = l2.
Proof.
  intros Hs Heq. assert (rest_after (Some (pos x)) l = rest_after (Some (pos x)) (rest_after after l)) as ->.
  { assert (beyond after x) as Hx.
    { eapply elem_of_rest_after. rewrite Heq. apply elem_of_app. right. apply list_elem_of_here. }
    destruct after as [p|]; [|done]. simpl in *. rewrite list_filter_filter.
    apply list_filter_iff. intros y. split; [|by intros [? _]]. intros Hy. split; [done|].
    by eapply spec_ltb_trans. }
  apply (rest_after_sorted after) in Hs. rewrite Heq in *. simpl.
  rewrite filter_app, filter_nothing, filter_cons_False, filter_everything; [done|..].
  - intros y Hy. assert (StronglySorted precedes ((l1 ++ [x]) ++ l2)) as Hs'.
    { by rewrite <- (assoc (++)). }
    apply (StronglySorted_app_inv _ _ Hs' x y); [|done]. apply elem_of_app. right.
    apply list_elem_of_here.
  - by rewrite spec_ltb_irrefl.
  - intros y Hy Hlt. pose proof (StronglySorted_app_inv _ _ Hs y x Hy (list_elem_of_here _ _)) as Hyx.
    pose proof (spec_ltb_trans _ _ _ _ Hlt Hyx) as Hc. by rewrite spec_ltb_irrefl in Hc.
Qed.

(** A page, its successor, and what is left. *)
Lemma page_spec_skip rows after (n skip : nat) :
  (0 < n)%nat →
  let r := drop skip (rest_after after (ordered rows)) in
  let p := paginate rows after (Some (Z.of_nat n)) skip in
  items p = take n r ∧
  match next_position p with
  | None => (length r <= n)%nat
  | Some q => ∃ l1 x, take n r = l1 ++ [x] ∧ q = pos x ∧ (n < length r)%nat
  end.
Proof.
  intros Hn r p.
  assert (p = mk_page (take n r) (pos <$> take n r) (Z.of_nat n <? Z.of_nat (length r))%Z) as ->.
  { subst p r. unfold paginate_in_memory, rest_after. rewrite Z.max_l, Nat2Z.id by lia.
    by destruct after. }
  split; [done|]. unfold next_position. cbn [has_more positions].
  destruct (Z.ltb_spec (Z.of_nat n) (Z.of_nat (length r))); [|lia].
  destruct (exists_last (l := take n r)) as (l1 & x & Htake).
  { intros Hnil. assert (length (take n r) = 0%nat) as Hl by (by rewrite Hnil).
    rewrite length_take in Hl. lia. }
  rewrite Htake, fmap_app. cbn [fmap list_fmap]. rewrite last_snoc. exists l1, x. split; [done|]. split; [done|lia].
Qed.

Lemma page_spec rows after (n : nat) :
  (0 < n)%nat →
  let r := rest_after after (ordered rows) in
  let p := paginate rows after (Some (Z.of_nat n)) 0 in
  items p = take n r ∧
  match next_position p with
  | None => (length r <= n)%nat
  | Some q => ∃ l1 x, take n r = l1 ++ [x] ∧ q = pos x ∧ (n < length r)%nat
  end.
Proof. intros Hn. pose proof (page_spec_skip rows after n 0 Hn) as H. by rewrite drop_0 in H. Qed.

(** The rows after the last one of a page are those the page left out. *)
Lemma rest_after_page rows after (n skip : nat) l1 x :
  NoDup (pos <$> rows) →
  take n (drop skip (rest_after after (ordered rows))) = l1 ++ [x] →
  rest_after (Some (pos x)) (ordered rows) = drop n (drop skip (rest_after after (ordered rows))).
Proof.
  intros Hnd Ht. eapply (rest_after_split after (take skip (rest_after after (ordered rows)) ++ l1));
    [by apply ordered_sorted|].
  rewrite <- (take_drop skip (rest_after after (ordered rows))) at 1.
  rewrite <- (take_drop n (drop skip _)) at 1. rewrite Ht. by rewrite <- !(assoc (++)).
Qed.

Lemma walk_rest rows (n : nat) fuel after :
  (0 < n)%nat → NoDup (pos <$> rows) →
  (length (rest_after after (ordered rows)) <= fuel)%nat →
  walk attr_of id_of jd spec fuel rows (Z.of_nat n) after = rest_after after (ordered rows).
Proof.
  intros Hn Hnd. revert after. induction fuel as [|fuel IH]; intros after Hlen; cbn [walk];
    destruct (page_spec rows after n Hn) as [-> Hnext];
    destruct (next_position _) as [q|].
  - destruct Hnext as (_ & _ & _ & _ & ?). lia.
  - by rewrite app_nil_r, take_ge.
  - destruct Hnext as (l1 & x & Ht & -> & Hmore).
    pose proof (rest_after_page rows after n 0 l1 x Hnd) as Hrest. rewrite drop_0 in Hrest.
    specialize (Hrest Ht).
    rewrite IH.
    + rewrite Hrest. apply take_drop.
    + rewrite Hrest, length_drop. lia.
  - by rewrite app_nil_r, take_ge.
Qed.

(** Following the pages reads the listing.  For a listing whose rows have
    distinct positions, and any positive page size, a client that follows the
    cursors collects exactly the rows, in order, each once, and stops: the pages
    are as many as needed (one step of fuel per row is enough). *)
Theorem walk_complete rows (n fuel : nat) :
  (0 < n)%nat → NoDup (pos <$> rows) → (length rows <= fuel)%nat →
  walk attr_of id_of jd spec fuel rows (Z.of_nat n) None = ordered rows ∧
  ordered rows ≡ₚ rows ∧ StronglySorted precedes (ordered rows).
Proof.
  intros Hn Hnd Hf. split; [|split].
  - rewrite walk_rest; [done|done|done|]. simpl. unfold Pagination.ordered.
    by rewrite (Permutation_length (sorted_by_perm _ rows)).
  - apply sorted_by_perm.
  - by apply ordered_sorted.
Qed.

Lemma walk_changing_spec tables (n : nat) after :
  (0 < n)%nat → (∀ t, t ∈ tables → NoDup (pos <$> t)) →
  let '(l, finished) := walk_changing attr_of id_of jd spec tables (Z.of_nat n) after in
  StronglySorted precedes l ∧ (∀ x, x ∈ l → beyond after x ∧ ∃ t, t ∈ tables ∧ x ∈ t) ∧
  (finished = true → ∀ x, (∀ t, t ∈ tables → x ∈ t) → beyond after x → x ∈ l).
Proof.
  intros Hn. revert after. induction tables as [|rows rest IH]; intros after Hnd.
  { split; [constructor|]. split; [by intros x ?%not_elem_of_nil|done]. }
  cbn [walk_changing]. destruct (page_spec rows after n Hn) as [-> Hnext].
  set (r := rest_after after (ordered rows)) in *.
  assert (StronglySorted precedes (take n r ++ drop n r)) as Hr.
  { rewrite take_drop. apply rest_after_sorted, ordered_sorted, Hnd, list_elem_of_here. }
  assert (∀ x, x ∈ r ↔ x ∈ rows ∧ beyond after x) as Hin.
  { intros x. unfold r. by rewrite elem_of_rest_after, elem_of_ordered. }
  destruct (next_position _) as [q|].
  - destruct Hnext as (l1 & x & Ht & -> & Hmore).
    specialize (IH (Some (pos x)) (λ t Ht, Hnd t (list_elem_of_further _ _ _ Ht))).
    destruct (walk_changing _ _ _ _ rest _ _) as [l finished]. destruct IH as (H1 & H2 & H3).
    assert (x ∈ take n r) as Hx by (rewrite Ht; apply elem_of_app; right; apply list_elem_of_here).
    assert (∀ y, y ∈ take n r → y = x ∨ precedes y x) as Hle.
    { intros y Hy. apply StronglySorted_prefix in Hr. rewrite Ht in Hy, Hr.
      apply elem_of_app in Hy as [Hy|Hy%list_elem_of_singleton]; [right|by left].
      by eapply StronglySorted_app_inv; [exact Hr| |apply list_elem_of_here]. }
    split; [|split].
    + apply StronglySorted_join; [by eapply StronglySorted_prefix|done|].
      intros y z Hy Hz. destruct (H2 z Hz) as [Hb _].
      destruct (Hle y Hy) as [->|Hyx]; [done|by eapply spec_ltb_trans].
    + intros y [Hy|Hy]%elem_of_app.
      * apply elem_of_take, Hin in Hy as [? ?]. split; [done|]. exists rows. by rewrite elem_of_cons; auto.
      * destruct (H2 y Hy) as [Hb (t & ? & ?)]. split; [|exists t; rewrite elem_of_cons; auto].
        apply elem_of_take, Hin in Hx as [_ Hbx]. destruct after as [p|]; [|done].
        simpl in *. by eapply spec_ltb_trans.
    + intros Hfin y Hall Hb. apply elem_of_app.
      assert (y ∈ take n r ++ drop n r) as [Hy|Hy]%elem_of_app; [|by left|right].
      { rewrite take_drop. apply Hin. split; [apply Hall, list_elem_of_here|done]. }
      apply (H3 Hfin); [intros t Ht'; by apply Hall, list_elem_of_further|].
      by apply (StronglySorted_app_inv _ _ Hr x y).
  - rewrite take_drop in Hr. rewrite take_ge by done. split; [done|]. split.
    + intros x [? ?]%Hin. split; [done|]. exists rows. rewrite elem_of_cons; auto.
    + intros _ x Hall Hb. apply Hin. split; [apply Hall, list_elem_of_here|done].
Qed.

(** C37: Changes between pages neither repeat nor hide rows.  However rows are
    inserted and deleted between the requests of a walk, the rows collected come
    in strictly increasing order, so none is seen twice, and each was in a listing
    some request saw; and a walk that reaches the last page has collected every
    row that was there throughout. *)
Theorem walk_stable tables (n : nat) :
  (0 < n)%nat → (∀ t, t ∈ tables → NoDup (pos <$> t)) →
  let '(l, finished) := walk_changing attr_of id_of jd spec tables (Z.of_nat n) None in
  StronglySorted precedes l ∧ NoDup (pos <$> l) ∧ (∀ x, x ∈ l → ∃ t, t ∈ tables ∧ x ∈ t) ∧
  (finished = true → ∀ x, (∀ t, t ∈ tables → x ∈ t) → x ∈ l).
Proof.
  intros Hn Hnd. pose proof (walk_changing_spec tables n None Hn Hnd) as H.
  destruct (walk_changing _ _ _ _ _ _ _) as [l finished]. destruct H as (H1 & H2 & H3).
  split; [done|]. split; [|split].
  - clear -H1. induction H1 as [|x l Hs IH Hx]; [constructor|]. cbn [fmap list_fmap].
    apply NoDup_cons. split; [|done]. intros (y & Heq & Hy)%list_elem_of_fmap.
    rewrite Forall_forall in Hx. specialize (Hx y Hy). unfold precedes in Hx.
    by rewrite Heq, spec_ltb_irrefl in Hx.
  - intros x Hx. by apply H2 in Hx as [_ ?].
  - intros Hf x Hall. by apply H3.
Qed.
End Pages.

(** ** Sort orders as text *)

(** A sort order survives its text: parsing the text of an order whose
    attribute is not empty and has no leading sign gives the order back. *)
Theorem sort_spec_roundtrip s :
  attr s ≠ EmptyString → lstrip_signs (attr s) = attr s →
  SortSpec_parse (Some (SortSpec_str s)) = Some s.
Proof.
  destruct s as [a d]. cbn [attr]. intros Hne Hsign. unfold SortSpec_parse, SortSpec_str.
  cbn [attr descending].
  assert (lstrip_signs ((if d then "-" else "") +:+ a) = a) as -> by (by destruct d).
  rewrite bool_decide_eq_false_2 by done. do 2 f_equal. destruct d; [by destruct a|].
  destruct a as [|c a]; [done|]. unfold startswith. simpl.
  destruct (Ascii.ascii_dec "-" c) as [<-|]; [|by destruct (_ : {_ = _} + {_ ≠ _})].
  simpl in Hsign. exfalso. clear -Hsign.
  assert (∀ b, String.length (lstrip_signs b) ≤ String.length b)%nat as Hl.
  { induction b as [|x b IH]; simpl; [done|]. destruct (_ || _); simpl; lia. }
  specialize (Hl a). rewrite Hsign in Hl. simpl in Hl. lia.
Qed.

(** ** Datetimes as sort text *)

Lemma compare_append p s t : String.compare (p +:+ s) (p +:+ t) = String.compare s t.
Proof.
  induction p as [|c p IH]; [done|]. rewrite !append_cons. simpl. unfold Ascii.compare.
  by rewrite N.compare_refl.
Qed.

Lemma strip_utc_app p : strip_utc (p +:+ utc_suffix) = Some p.
Proof.
  induction p as [|c p IH]; [done|]. rewrite append_cons. cbn [strip_utc].
  rewrite bool_decide_eq_false_2; [by rewrite IH|].
  intros Heq. apply (f_equal String.length) in Heq. simpl in Heq. rewrite length_append in Heq.
  simpl in Heq. lia.
Qed.

(** A whole second and an instant within it have the same text up to the
    fraction. *)
Lemma isoformat_within t us :
  (t mod 1000000 = 0)%Z → (0 < us < 1000000)%Z →
  ∃ p, isoformat t = p +:+ utc_suffix ∧ isoformat (t + us) = p +:+ ("." +:+ pad 6 us +:+ utc_suffix).
Proof.
  intros Ht Hus. unfold isoformat.
  assert ((t + us) / seconds 86400 = t / seconds 86400)%Z as ->.
  { unfold seconds. Z.to_euclidean_division_equations. lia. }
  assert ((t + us) mod seconds 86400 = t mod seconds 86400 + us)%Z as ->.
  { unfold seconds. Z.to_euclidean_division_equations. lia. }
  set (d := (t mod seconds 86400)%Z).
  assert (d mod 1000000 = 0)%Z as Hd.
  { unfold d, seconds. Z.to_euclidean_division_equations. lia. }
  assert ((d + us) / 1000000 = d / 1000000)%Z as -> by (Z.to_euclidean_division_equations; lia).
  assert ((d + us) mod 1000000 = us)%Z as -> by (Z.to_euclidean_division_equations; lia).
  rewrite Hd. destruct (civil_from_days _) as [[y m] dd].
  rewrite (proj2 (Z.eqb_neq us 0)) by lia. cbn [Z.eqb].
  set (sec := (d / 1000000)%Z).
  exists (pad 4 y +:+ "-" +:+ pad 2 m +:+ "-" +:+ pad 2 dd +:+ "T" +:+ pad 2 (sec / 3600) +:+ ":" +:+
          pad 2 ((sec / 60) mod 60) +:+ ":" +:+ pad 2 (sec mod 60)).
  by rewrite !append_assoc.
Qed.

(** How a whole second sorts among the instants within it.  In the storage
    form of requests (offset written out) it comes before them, in time order; in
    the form of machines (offset written [Z]) it comes after all of them, so
    there text order is not the order in time. *)
Theorem whole_second_sorts t us :
  (t mod 1000000 = 0)%Z → (0 < us < 1000000)%Z →
  String.compare (sort_text false (SDatetime t)) (sort_text false (SDatetime (t + us))) = Lt ∧
  String.compare (sort_text true (SDatetime (t + us))) (sort_text true (SDatetime t)) = Lt.
Proof.
  intros Ht Hus. destruct (isoformat_within t us Ht Hus) as (p & H1 & H2). cbn [sort_text].
  rewrite H2, <- !append_assoc, (append_assoc p "." (pad 6 us)), H1. rewrite !strip_utc_app. split.
  - rewrite !append_assoc, compare_append. reflexivity.
  - rewrite !append_assoc, compare_append. reflexivity.
Qed.

(** ** Witnesses *)

Definition demo_rows : list (string * string) := [("b", "2"); ("a", "1"); ("a", "3")].
Definition demo_attr (r : string * string) (_ : string) : sort_value := SOther r.1.

Lemma walk_complete_witness :
  walk demo_attr snd false (mk_spec "name" true) 3 demo_rows 2 None = [("b", "2"); ("a", "3"); ("a", "1")].
Proof.
  etrans; [apply (walk_complete demo_attr snd false (mk_spec "name" true) demo_rows 2 3)|].
  - lia.
  - apply (bool_decide_unpack _). vm_compute. exact I.
  - simpl. lia.
  - vm_compute. reflexivity.
Defined.

Lemma walk_stable_witness :
  let '(l, finished) := walk_changing demo_attr snd false (mk_spec "name" false)
      [demo_rows; [("b", "2"); ("a", "0"); ("a", "3"); ("c", "4")]; [("b", "2"); ("c", "4")]] (Z.of_nat 2) None in
  finished = true ∧ ("b", "2") ∈ l.
Proof.
  pose proof (walk_stable demo_attr snd false (mk_spec "name" false)
    [demo_rows; [("b", "2"); ("a", "0"); ("a", "3"); ("c", "4")]; [("b", "2"); ("c", "4")]] 2
    ltac:(lia)) as H.
  destruct (walk_changing _ _ _ _ _ _ _) as [l finished] eqn:Hw.
  vm_compute in Hw. injection Hw as <- <-. split; [reflexivity|].
  destruct H as (_ & _ & _ & H).
  - intros t Ht. rewrite !elem_of_cons in Ht.
    destruct Ht as [->|[->|[->|[]%not_elem_of_nil]]]; apply (bool_decide_unpack _); vm_compute; exact I.
  - apply H; [reflexivity|]. intros t Ht. rewrite !elem_of_cons in Ht.
    destruct Ht as [->|[->|[->|[]%not_elem_of_nil]]]; apply (bool_decide_unpack _); vm_compute; exact I.
Defined.

Lemma sort_spec_roundtrip_witness :
  SortSpec_parse (Some "-created_at") = Some (mk_spec "created_at" true).
Proof. apply (sort_spec_roundtrip (mk_spec "created_at" true)); [discriminate|reflexivity]. Defined.

Lemma whole_second_sorts_witness :
  String.compare (sort_text true (SDatetime 5000001)) (sort_text true (SDatetime 5000000)) = Lt.
Proof. apply (whole_second_sorts 5000000 1); [reflexivity|lia]. Defined.
