(* ===== verification/Provisioning.v ===== *)
(** * Provisioning a request

    [orb/application/services/provisioning_writes.py] (saving a request that is
    being provisioned without losing what others wrote meanwhile) and
    [provisioning_orchestration_service.py] (one dispatch to the provider, the
    retry loop around it, and the sweep of requests left active by a crash).

    The provider's replies, the readings of the clock and the interference of
    other writers are arguments.  Which exception classes the dispatch tells apart
    is kept by class name; the attributes some exceptions carry are a function of
    the exception.  Seconds are integers. *)

From stdpp Require Import base gmap strings list sets.
From Stdlib Require Import ZArith Lia.
From S2P Require Import Prelude RequestTypes Diagnostic RequestAggregate FulfilmentSM.
From S2P Require Import MachineAggregate StatusService StatusManagement.
Open Scope Z_scope.

(** ** Writing over a row others may have changed *)

(** [list(dict.fromkeys([*first, *second]))]. *)
Definition _union (first second : list string) : list string := dedup_by id (first ++ second).

(** [a or b] on timestamps: an instant is always true. *)
Definition or_time (a b : option datetime) : option datetime :=
  match a with Some t => Some t | None => b end.

(** The request rebuilt on the stored row.  When the row settled meanwhile its
    outcome fields are kept, and the events queued by the create flow dropped. *)
Definition apply_onto_stored (request : Request.t) (stored : option Request.t) : Request.t :=
  match stored with
  | None => request
  | Some st =>
      let outcome {A} (field : Request.t → A) : A :=
        if RequestStatus.is_terminal (Request.status st) then field st else field request in
      {| Request.request_id := Request.request_id request;
         Request.request_type := Request.request_type request;
         Request.provider_type := Request.provider_type request;
         Request.provider_name := Request.provider_name request;
         Request.template_id := Request.template_id request;
         Request.requested_count := Request.requested_count request;
         Request.desired_capacity := Request.desired_capacity request;
         Request.provider_api := Request.provider_api request;
         Request.resource_ids := _union (Request.resource_ids st) (Request.resource_ids request);
         Request.machine_ids := _union (Request.machine_ids st) (Request.machine_ids request);
         Request.status := outcome Request.status;
         Request.status_message := outcome Request.status_message;
         Request.successful_count := outcome Request.successful_count;
         Request.failed_count := outcome Request.failed_count;
         Request.started_at := Request.started_at request;
         Request.completed_at := outcome Request.completed_at;
         Request.first_status_check :=
           or_time (Request.first_status_check st) (Request.first_status_check request);
         Request.last_status_check :=
           or_time (Request.last_status_check st) (Request.last_status_check request);
         Request.deadline_at := or_time (Request.deadline_at st) (Request.deadline_at request);
         Request.partial_since := outcome Request.partial_since;
         Request.last_transition_at := outcome Request.last_transition_at;
         Request.fulfilment_diagnostic := outcome Request.fulfilment_diagnostic;
         Request.metadata := dmerge (Request.metadata st) (Request.metadata request);
         Request.error_details := outcome Request.error_details;
         Request.provider_data := dmerge (Request.provider_data st) (Request.provider_data request);
         Request.version := Request.version st + 1;
         Request.created_at := Request.created_at request;
         Request.persisted_revision := Request.persisted_revision st;
         Request.domain_events :=
           if RequestStatus.is_terminal (Request.status st) then []
           else Request.domain_events request |}
  end.

Section Saves.
Context {S : Type} `{!RequestStore S}.

(** One read, merge and save per attempt; a conflict on the last one is raised. *)
Fixpoint save_loop (request : Request.t) (attempts : nat) (env : list (S → S)) (s : S)
  : result Request.t * S :=
  match attempts with
  | O => (Err (OtherError "AssertionError" "unreachable"), s)
  | Datatypes.S attempts' =>
      let stored := rs_get s (Request.request_id request) in
      let merged := apply_onto_stored request stored in
      let read_at := match stored with Some st => Request.version st | None => Request.version request end in
      match rs_save (interfere env s) read_at merged with
      | (Ok _, s') => (Ok merged, s')
      | (Err (ConcurrencyError i v), s') =>
          match attempts' with
          | O => (Err (ConcurrencyError i v), s')
          | _ => save_loop request attempts' (tail env) s'
          end
      | (Err e, s') => (Err e, s')
      end
  end.

Definition save_provisioning_state (request : Request.t) (env : list (S → S)) (s : S)
  : result Request.t * S :=
  save_loop request _WRITE_ATTEMPTS env s.

(** ** The checkpoints *)

Context (sm : FulfilmentStateMachine.t).

(** [self._state_machine.apply(.., RESOURCES_CREATED, ..)]. *)
Definition resources_created (r : Request.t) (now : datetime) (message : option string)
  : result Request.t :=
  fst <$> FulfilmentStateMachine.apply sm r FulfilmentEvent.RESOURCES_CREATED now None None message None.

Definition persist (request : Request.t) (updated : result Request.t) (env : list (S → S)) (s : S)
  : Request.t * bool * S :=
  match updated with
  | Err _ => (request, false, s)
  | Ok u => match save_provisioning_state u env s with
            | (Ok saved, s') => (saved, true, s')
            | (Err _, s') => (request, false, s')
            end
  end.

Definition _persist_resource_ids_checkpoint (request : Request.t) (new_resource_ids : list string)
    (now : datetime) (env : list (S → S)) (s : S) : Request.t * bool * S :=
  let updated := foldl Request.add_resource_id request new_resource_ids in
  persist request
    (if Request.status updated ≟ RequestStatus.PENDING then resources_created updated now None
     else Ok updated) env s.

Definition _persist_acquiring (request : Request.t) (now : datetime) (env : list (S → S)) (s : S)
  : Request.t * bool * S :=
  persist request
    (if Request.status request ≟ RequestStatus.PENDING
     then resources_created request now (Some "Partial fulfillment, retrying") else Ok request) env s.
End Saves.

(** ** One dispatch *)

(** A result of one attempt, with the fields the loop looks at. *)
Record attempt_result := mk_attempt {
  ar_result : ProvisioningResult;
  ar_fulfilled_count : Z;
  ar_outcome : option OperationOutcome;
  ar_counts_as_provider_failure : bool
}.

(** The provider's [OperationResult]. *)
Record reply := mk_reply {
  rp_success : bool;
  rp_resource_ids : list string;
  rp_instance_ids : list string;
  rp_instances : list json;
  rp_provider_data : dict json;               (* the legacy sub-key of [data] *)
  rp_metadata : dict json;
  rp_routing_info : dict json;
  rp_error_message : option string
}.

(** What the breaker of the provider is told. *)
Inductive breaker_event := RecordSuccess | RecordFailure.

(** [setdefault] of every legacy key. *)
Definition add_defaults (d extra : dict json) : dict json :=
  foldl (λ acc kv, if dmem kv.1 acc then acc else dset kv.1 kv.2 acc) d extra.

Definition failed_attempt (data : dict json) (message : option string)
    (fields : option string * option string * option string * option string) (counts : bool)
  : attempt_result :=
  let '(code, text, rid, source) := fields in
  {| ar_result :=
       {| success := false; resource_ids := []; machine_ids := []; instances := [];
          provider_data := data; error_message := message;
          is_final := derived_final (Some Failed) true;
          provider_error_code := code; provider_error_message := text;
          provider_request_id := rid; error_source := source |};
     ar_fulfilled_count := 0; ar_outcome := Some Failed; ar_counts_as_provider_failure := counts |}.

Definition no_fields : option string * option string * option string * option string :=
  (None, None, None, None).

(** The exception is of the class. *)
Definition raised (class : string) (e : exn) : bool :=
  match e with OtherError c _ => c ≟ class | _ => false end.

Section Dispatch.
(** [_extract_provider_error_fields]. *)
Context (fields_of : exn → option string * option string * option string * option string).
Context (dispatch_timeout_seconds : Z).

Definition successful_attempt (r : reply) : attempt_result :=
  let metadata := add_defaults (rp_metadata r) (rp_provider_data r) in
  let async := truthy (dget_default "requires_async_polling" metadata (JBool false)) in
  let constrained := truthy (dget_default "capacity_constrained" metadata (JBool false)) in
  let merged := dset "capacity_constrained" (JBool constrained)
                  (dmerge metadata (rp_routing_info r)) in
  let outcome := if async then Accepted else Completed in
  {| ar_result :=
       {| success := true; resource_ids := rp_resource_ids r; machine_ids := rp_instance_ids r;
          instances := rp_instances r; provider_data := merged; error_message := None;
          is_final := derived_final (Some outcome) true;
          provider_error_code := None; provider_error_message := None;
          provider_request_id := None; error_source := None |};
     ar_fulfilled_count := Z.of_nat (length (rp_instances r));
     ar_outcome := Some outcome; ar_counts_as_provider_failure := true |}.

(** [_dispatch_single_attempt]: only an open circuit is raised.  The second
    component is what the breaker is told. *)
Definition _dispatch_single_attempt (answer : result reply)
  : result (attempt_result * list breaker_event) :=
  match answer with
  | Ok r =>
      if rp_success r then Ok (successful_attempt r, [RecordSuccess])
      else Ok (failed_attempt (rp_metadata r) (rp_error_message r) no_fields true, [])
  | Err (CircuitBreakerOpenError n c t) => Err (CircuitBreakerOpenError n c t)
  | Err (QuotaError m) =>
      Ok (failed_attempt [] (Some ("Quota exceeded: " +:+ m)) (fields_of (QuotaError m)) true, [])
  | Err e =>
      if raised "TimeoutError" e then
        Ok (failed_attempt []
              (Some ("Dispatch timed out after " +:+ fmt dispatch_timeout_seconds +:+ "s"))
              no_fields true, [])
      else if raised "ProviderNotReadyError" e then
        Ok (failed_attempt [] (Some ("Provider not ready: " +:+ exn_str e)) no_fields false, [])
      else if raised "OperationNotSupportedError" e then
        Ok (failed_attempt [] (Some ("Operation not supported: " +:+ exn_str e)) no_fields false, [])
      else
        Ok (failed_attempt [] (Some ("Provisioning failed: " +:+ exn_str e)) (fields_of e) true, [])
  end.
End Dispatch.

(** ** The loop *)

Record fulfilment_config := mk_fulfilment_config {
  max_retries : Z;
  timeout_seconds : Z;
  batch_size : Z
}.

Section Loop.
Context {S : Type} `{!RequestStore S} (sm : FulfilmentStateMachine.t).
Context (config : fulfilment_config).

(** The readings of the clock in an attempt, and the interference with its two
    writes. *)
Record tick := mk_tick {
  tk_check : datetime;
  tk_started : datetime;
  tk_completed : datetime;
  tk_write : datetime;
  tk_env_checkpoint : list (S → S);
  tk_env_acquiring : list (S → S)
}.

Context (ticks : Z → tick).                    (* by attempt number *)
Context (dispatch : Z → Request.t → Z → result (attempt_result * list breaker_event)).

Record loop_state := mk_loop {
  ls_request : Request.t;
  ls_remaining : Z;
  ls_attempt : Z;
  ls_zeros : Z;                                (* [consecutive_zero_fulfillments] *)
  ls_resource_ids : list string;
  ls_machine_ids : list string;
  ls_instances : list json;
  ls_provider_data : dict json;
  ls_last : option attempt_result;
  ls_breaker : list breaker_event;
  ls_asked : list Z;                           (* what each dispatch asked for *)
  ls_store : S
}.

Definition loop_eta (l : loop_state) : loop_state :=
  mk_loop (ls_request l) (ls_remaining l) (ls_attempt l) (ls_zeros l) (ls_resource_ids l)
    (ls_machine_ids l) (ls_instances l) (ls_provider_data l) (ls_last l) (ls_breaker l) (ls_asked l)
    (ls_store l).
#[local] Hint Extern 1 (@Setter loop_state _ _) => solve_setter loop_eta : typeclass_instances.

Definition attempt_record (n count : Z) (a : attempt_result) (t : tick) : json :=
  JDict [("attempt", JInt n); ("requested", JInt count);
         ("fulfilled", JInt (ar_fulfilled_count a));
         ("resource_ids", JList (JStr <$> resource_ids (ar_result a)));
         ("started_at", JStr (isoformat (tk_started t)));
         ("completed_at", JStr (isoformat (tk_completed t)))].

(** [list(request.metadata.get("fulfillment_attempts", []))]. *)
Definition attempts_so_far (r : Request.t) : list json :=
  match dget "fulfillment_attempts" (Request.metadata r) with Some (JList l) => l | _ => [] end.

(** The loop goes on, ends, or raises. *)
Inductive turn :=
| Again (l : loop_state)
| Break (l : loop_state)
| Raised (e : exn) (l : loop_state).

(** The result is added up; [ls_zeros] counts successes in a row that brought
    nothing. *)
Definition accumulate (a : attempt_result) (l : loop_state) : loop_state :=
  let res := ar_result a in
  {| ls_request := ls_request l;
     ls_remaining := ls_remaining l - ar_fulfilled_count a;
     ls_attempt := ls_attempt l;
     ls_zeros := if (ar_fulfilled_count a =? 0) && success res then ls_zeros l + 1 else 0;
     ls_resource_ids := ls_resource_ids l ++ resource_ids res;
     ls_machine_ids := ls_machine_ids l ++ machine_ids res;
     ls_instances := ls_instances l ++ instances res;
     ls_provider_data := dmerge (ls_provider_data l) (provider_data res);
     ls_last := Some a; ls_breaker := ls_breaker l; ls_asked := ls_asked l;
     ls_store := ls_store l |}.

(** The audit trail. *)
Definition log_attempt (n count : Z) (a : attempt_result) (t : tick) (l : loop_state) : loop_state :=
  l <| ls_request := Request.update_metadata (ls_request l)
         [("fulfillment_attempts",
           JList (attempts_so_far (ls_request l) ++ [attempt_record n count a t]))] |>.

Definition note_failure (a : attempt_result) (l : loop_state) : loop_state :=
  if ar_counts_as_provider_failure a
  then l <| ls_breaker := ls_breaker l ++ [RecordFailure] |> else l.

Definition written (r : Request.t * bool * S) (l : loop_state) : loop_state :=
  l <| ls_request := r.1.1 |> <| ls_store := r.2 |>.

Definition checkpoint (a : attempt_result) (t : tick) (l : loop_state) : loop_state :=
  match resource_ids (ar_result a) with
  | [] => l
  | rids => written (_persist_resource_ids_checkpoint sm (ls_request l) rids (tk_write t)
                       (tk_env_checkpoint t) (ls_store l)) l
  end.

(** The end of a turn with a success that was not merely accepted. *)
Definition conclude (a : attempt_result) (t : tick) (l : loop_state) : turn :=
  if (0 <? ls_remaining l) && negb (is_final (ar_result a)) then
    Again (written (_persist_acquiring sm (ls_request l) (tk_write t) (tk_env_acquiring t)
                      (ls_store l)) l)
  else if is_final (ar_result a) then Break l
  else Again l.

(** What the loop does with the result of an attempt. *)
Definition after_dispatch (n count : Z) (a : attempt_result) (t : tick) (l : loop_state) : turn :=
  let l := accumulate a l in
  if 3 <=? ls_zeros l then Break l
  else
    let l := log_attempt n count a t l in
    if negb (success (ar_result a)) then Break (note_failure a l)
    else
      let l := checkpoint a t l in
      match ar_outcome a with
      | Some Accepted => Break l
      | _ => conclude a t l
      end.

(** The start of an attempt: its number is stamped on the request. *)
Definition begin_attempt (n count : Z) (l : loop_state) : loop_state :=
  {| ls_request := Request.update_metadata (ls_request l) [("provisioning_attempt", JInt n)];
     ls_remaining := ls_remaining l; ls_attempt := n; ls_zeros := ls_zeros l;
     ls_resource_ids := ls_resource_ids l; ls_machine_ids := ls_machine_ids l;
     ls_instances := ls_instances l; ls_provider_data := ls_provider_data l;
     ls_last := ls_last l; ls_breaker := ls_breaker l; ls_asked := ls_asked l ++ [count];
     ls_store := ls_store l |}.

Definition tell_breaker (events : list breaker_event) (l : loop_state) : loop_state :=
  l <| ls_breaker := ls_breaker l ++ events |>.

(** One turn of the [while]. *)
Definition one_turn (started_at : datetime) (l : loop_state) : turn :=
  if negb ((0 <? ls_remaining l) && (ls_attempt l <=? max_retries config)) then Break l
  else
    let n := ls_attempt l + 1 in
    let t := ticks n in
    if seconds (timeout_seconds config) <=? tk_check t - started_at then Break l
    else
      let count := Z.min (ls_remaining l) (batch_size config) in
      let l := begin_attempt n count l in
      match dispatch n (ls_request l) count with
      | Err (CircuitBreakerOpenError _ _ _) => Break (tell_breaker [RecordFailure] l)
      | Err e => Raised e l
      | Ok (a, events) => after_dispatch n count a t (tell_breaker events l)
      end.

Fixpoint provisioning_loop (fuel : nat) (started_at : datetime) (l : loop_state) : turn :=
  match one_turn started_at l with
  | Again l' => match fuel with
                | O => Again l'
                | Datatypes.S fuel' => provisioning_loop fuel' started_at l'
                end
  | t => t
  end.

Definition initial (request : Request.t) (s : S) : loop_state :=
  mk_loop request (Request.requested_count request) 0 0 [] [] [] [] None [] [] s.

(** The result returned to the caller. *)
Definition provisioning_result (l : loop_state) : ProvisioningResult :=
  {| success := match ls_last l with Some a => success (ar_result a) | None => false end;
     resource_ids := ls_resource_ids l; machine_ids := ls_machine_ids l;
     instances := ls_instances l; provider_data := ls_provider_data l;
     error_message := match ls_last l with
                      | Some a => error_message (ar_result a)
                      | None => Some "No provisioning attempted"
                      end;
     is_final := match ls_last l with Some a => is_final (ar_result a) | None => true end;
     provider_error_code := None; provider_error_message := None;
     provider_request_id := None; error_source := None |}.

(** [execute_provisioning]: one turn more than the retries is fuel enough. *)
Definition loop_fuel : nat := Z.to_nat (max_retries config + 1).

Definition execute_provisioning (request : Request.t) (started_at : datetime) (s : S)
  : result (ProvisioningResult * loop_state) :=
  match provisioning_loop loop_fuel started_at (initial request s) with
  | Again l | Break l => Ok (provisioning_result l, l)
  | Raised e _ => Err e
  end.
End Loop.

Arguments mk_tick {S}.
Arguments mk_loop {S}.
Arguments Again {S}.
Arguments Break {S}.
Arguments Raised {S}.

(** ** Requests left active *)

Definition _SWEEPABLE_STATUSES : list RequestStatus.t :=
  [RequestStatus.ACQUIRING; RequestStatus.IN_PROGRESS; RequestStatus.PARTIAL_PENDING].

Definition _is_expired (now timeout_seconds : Z) (r : Request.t) : bool :=
  match Request.deadline_at r with
  | Some d => d <=? now
  | None => match Request.created_at r with
            | Some c => c <? now - seconds timeout_seconds
            | None => false
            end
  end.

(** The request saved for an expired one: swept by the state machine, else
    forced to FAILED. *)
Definition recovered (sm : FulfilmentStateMachine.t) (now : datetime) (r : Request.t)
  : result Request.t :=
  '(swept, is_new) ← FulfilmentStateMachine.apply sm r FulfilmentEvent.DEADLINE_SWEEP now None None
                       None None;
  if RequestStatus.is_terminal (Request.status swept) && is_new then Ok swept
  else Request.update_status r RequestStatus.FAILED
         (Some "Request abandoned in active state (timeout exceeded)") true now.

(** [recover_stuck_acquiring_requests] over the requests found by status; a
    request whose save is refused is skipped.  The result counts the saved ones. *)
Fixpoint recover_all {S} `{!RequestStore S} (sm : FulfilmentStateMachine.t) (now : datetime)
    (expired : list Request.t) (s : S) : Z * S :=
  match expired with
  | [] => (0, s)
  | r :: rest =>
      match recovered sm now r with
      | Err _ => recover_all sm now rest s
      | Ok u => match rs_save s (Request.version r) u with
                | (Ok _, s') => let '(n, s2) := recover_all sm now rest s' in (n + 1, s2)
                | (Err _, s') => recover_all sm now rest s'
                end
      end
  end.

Definition recover_stuck_acquiring_requests {S} `{!RequestStore S} (sm : FulfilmentStateMachine.t)
    (now timeout_seconds : Z) (active : list Request.t) (s : S) : Z * S :=
  recover_all sm now (filter (λ r, _is_expired now timeout_seconds r = true) active) s.

(** ** The loop is bounded *)

Section LoopLemmas.
Context {S : Type} `{!RequestStore S} (sm : FulfilmentStateMachine.t) (config : fulfilment_config).
Context (ticks : Z → tick (S := S)).
Context (dispatch : Z → Request.t → Z → result (attempt_result * list breaker_event)).
Local Abbreviation one_turn := (one_turn sm config ticks dispatch).
Local Abbreviation provisioning_loop := (provisioning_loop sm config ticks dispatch).

Definition turn_state (t : turn (S := S)) : loop_state :=
  match t with Again l | Break l | Raised _ l => l end.

(** What a step leaves alone: the number of attempts and what they asked for. *)
Definition same_asked (l l' : loop_state (S := S)) : Prop :=
  ls_attempt l' = ls_attempt l ∧ ls_asked l' = ls_asked l.

Lemma checkpoint_frame a t l :
  same_asked l (checkpoint sm a t l) ∧ ls_remaining (checkpoint sm a t l) = ls_remaining l ∧
  ls_last (checkpoint sm a t l) = ls_last l.
Proof. unfold checkpoint. by destruct (resource_ids _). Qed.

Lemma conclude_frame a t l :
  let l' := turn_state (conclude sm a t l) in
  same_asked l l' ∧ ls_remaining l' = ls_remaining l ∧ ls_last l' = ls_last l.
Proof. unfold conclude. destruct (_ && _); [done|]. by destruct (is_final _). Qed.

Lemma note_failure_frame a l :
  same_asked l (note_failure a l) ∧ ls_remaining (note_failure a l) = ls_remaining l ∧
  ls_last (note_failure a l) = ls_last l.
Proof. unfold note_failure. by destruct (ar_counts_as_provider_failure a). Qed.

Lemma after_dispatch_frame n count a t l :
  let l' := turn_state (after_dispatch sm n count a t l) in
  same_asked l l' ∧ ls_remaining l' = ls_remaining l - ar_fulfilled_count a ∧ ls_last l' = Some a.
Proof.
  unfold after_dispatch. cbn zeta. destruct (3 <=? _); [done|].
  set (l1 := log_attempt n count a t (accumulate a l)).
  assert (∀ l', same_asked l1 l' ∧ ls_remaining l' = ls_remaining l1 ∧ ls_last l' = ls_last l1 →
    same_asked l l' ∧ ls_remaining l' = ls_remaining l - ar_fulfilled_count a ∧ ls_last l' = Some a) as Hl.
  { intros l' ([E1 E2] & -> & ->). split; [split; [rewrite E1|rewrite E2]|]; done. }
  destruct (negb (success _)); [apply Hl, note_failure_frame|].
  destruct (checkpoint_frame a t l1) as ([C1 C2] & C3 & C4). set (l2 := checkpoint sm a t l1) in *.
  destruct (conclude_frame a t l2) as ([H1 H2] & H3 & H4).
  destruct (ar_outcome a) as [[]|]; apply Hl; cbn [turn_state];
    (split; [split; congruence|split; congruence]).
Qed.

Context (Hdispatch : ∀ n r c a ev, dispatch n r c = Ok (a, ev) → 0 ≤ ar_fulfilled_count a).

(** The counts are within what was left and within a batch. *)
Definition asked_ok (total : Z) (l : loop_state (S := S)) : Prop :=
  Z.of_nat (length (ls_asked l)) = ls_attempt l ∧ ls_remaining l ≤ total ∧
  ∀ c, c ∈ ls_asked l → c ≤ batch_size config ∧ c ≤ total.

Lemma begin_attempt_asked total l :
  asked_ok total l → 
  asked_ok total (begin_attempt (ls_attempt l + 1) (Z.min (ls_remaining l) (batch_size config)) l).
Proof.
  intros (Hlen & Hrem & Hall). split; [|split; [done|]]; cbn [begin_attempt ls_asked ls_attempt].
  - rewrite length_app. simpl. lia.
  - intros c [Hc|Hc%list_elem_of_singleton]%elem_of_app; [by apply Hall|]. lia.
Qed.

Lemma one_turn_asked total started l :
  asked_ok total l →
  asked_ok total (turn_state (one_turn started l)) ∧
  match one_turn started l with
  | Again l' => ls_attempt l' = ls_attempt l + 1 ∧ ls_attempt l ≤ max_retries config
  | Break l' | Raised _ l' => ls_attempt l' = ls_attempt l ∨
      ls_attempt l' = ls_attempt l + 1 ∧ ls_attempt l ≤ max_retries config
  end.
Proof.
  intros Hl. unfold Provisioning.one_turn.
  destruct (negb _) eqn:Hg; [by split; [|left]|].
  apply negb_false_iff, andb_true_iff in Hg as [Hr Hm]. apply Z.ltb_lt in Hr. apply Z.leb_le in Hm.
  destruct (_ <=? tk_check _ - _); [by split; [|left]|]. cbn zeta.
  pose proof (begin_attempt_asked total l Hl) as Hb.
  set (count := Z.min _ _) in *. set (l0 := begin_attempt _ _ _) in *.
  destruct (dispatch _ _ count) as [[a ev]|e] eqn:Hd.
  - destruct (after_dispatch_frame (ls_attempt l + 1) count a (ticks (ls_attempt l + 1)) (tell_breaker ev l0))
      as ([Ha Hk] & Hr' & _).
    set (t := after_dispatch _ _ _ _ _ _) in *. destruct Hb as (B1 & B2 & B3).
    change (ls_attempt (tell_breaker ev l0)) with (ls_attempt l + 1) in Ha.
    change (ls_asked (tell_breaker ev l0)) with (ls_asked l0) in Hk.
    change (ls_remaining (tell_breaker ev l0)) with (ls_remaining l0) in Hr'.
    specialize (Hdispatch _ _ _ _ _ Hd).
    split; [split; [by rewrite Hk, Ha|split; [lia|by rewrite Hk]]|].
    destruct t; cbn [turn_state] in Ha; auto.
  - destruct e; (split; [exact Hb|right; split; [done|exact Hm]]).
Qed.

Lemma loop_bounded total started fuel l :
  asked_ok total l → ls_attempt l + Z.of_nat fuel = max_retries config + 1 →
  asked_ok total (turn_state (provisioning_loop fuel started l)) ∧
  ls_attempt (turn_state (provisioning_loop fuel started l)) ≤ max_retries config + 1 ∧
  (∀ l', provisioning_loop fuel started l ≠ Again l').
Proof.
  revert l. induction fuel as [|fuel IH]; intros l Hok Hf; cbn [Provisioning.provisioning_loop];
    destruct (one_turn_asked total started l Hok) as [Hok' Ht];
    destruct (one_turn started l) as [l'|l'|e l']; cbn [turn_state] in *.
  2-3: split; [done|]; split; [lia|done].
  3-4: split; [done|]; split; [lia|done].
  - lia.
  - apply IH; [done|lia].
Qed.
End LoopLemmas.

(** C29: The retry loop is bounded and never asks for too much.  Whatever the
    provider replies (reporting no negative counts), provisioning returns or
    raises what the dispatch raised, after at most one attempt more than the
    retries; every attempt asks for at most a batch and at most what was
    requested. *)
Theorem provisioning_bounded {S} `{!RequestStore S} sm config (ticks : Z → tick (S := S)) dispatch
    request started (s : S) :
  (∀ n r c a ev, dispatch n r c = Ok (a, ev) → 0 ≤ ar_fulfilled_count a) →
  0 ≤ max_retries config →
  match execute_provisioning sm config ticks dispatch request started s with
  | Ok (_, l) =>
      Z.of_nat (length (ls_asked l)) ≤ max_retries config + 1 ∧
      ∀ c, c ∈ ls_asked l → c ≤ batch_size config ∧ c ≤ Request.requested_count request
  | Err e => ∃ n r c, dispatch n r c = Err e
  end.
Proof.
  intros Hd Hm. unfold execute_provisioning.
  destruct (loop_bounded sm config ticks dispatch Hd (Request.requested_count request) started
    (loop_fuel config) (initial request s)) as ((H1 & _ & H3) & Hle & Hna).
  { split; [done|]. split; [done|]. by intros c ?%not_elem_of_nil. }
  { unfold loop_fuel, initial. cbn [ls_attempt]. lia. }
  destruct (provisioning_loop _ _ _ _ _ _ _) as [l|l|e l] eqn:Hl; cbn [turn_state] in *;
    [by destruct (Hna l)|split; [lia|done]|].
  clear -Hl. revert Hl. generalize (initial request s) as l0. generalize (loop_fuel config) as fuel.
  induction fuel as [|fuel IH]; intros l0; cbn [provisioning_loop];
    destruct (one_turn _ _ _ _ _ l0) as [l'|l'|e' l'] eqn:Ht; try done; try (by apply IH);
    intros [= -> ->]; revert Ht; unfold one_turn;
    (destruct (negb _); [done|]); (destruct (_ <=? _); [done|]);
    match goal with |- context [dispatch ?n ?r ?c] => destruct (dispatch n r c) as [[a ev]|e0] eqn:Hd end;
    try (unfold after_dispatch, conclude; repeat case_match; done);
    intros Heq; do 3 eexists; rewrite Hd; destruct e0; congruence.
Qed.

(** ** What the loop does with the dispatch it has *)

Lemma failed_attempt_fails d m f c : success (ar_result (failed_attempt d m f c)) = false.
Proof. by destruct f as [[[? ?] ?] ?]. Qed.

(** A dispatch fails, is accepted, or is final; it raises only an open circuit. *)
Lemma dispatch_cases fields timeout answer :
  match _dispatch_single_attempt fields timeout answer with
  | Ok (a, _) => success (ar_result a) = false ∨ ar_outcome a = Some Accepted ∨
                 is_final (ar_result a) = true
  | Err e => ∃ n c t, e = CircuitBreakerOpenError n c t
  end.
Proof.
  unfold _dispatch_single_attempt. destruct answer as [r|e].
  - destruct (rp_success r); [|left; apply failed_attempt_fails]. right. cbn.
    destruct (truthy _); auto.
  - destruct e; try (by do 3 eexists); cbn [raised];
      repeat match goal with |- context [if ?b then _ else _] => destruct b end;
      left; apply failed_attempt_fails.
Qed.

(** Every result of the dispatch ends the loop. *)
Lemma dispatch_ends_loop {S} `{!RequestStore S} sm fields timeout answer a ev n count (t : tick (S := S)) l :
  _dispatch_single_attempt fields timeout answer = Ok (a, ev) →
  ∃ l', after_dispatch sm n count a t l = Break l'.
Proof.
  intros Hd. unfold after_dispatch. cbn zeta. destruct (3 <=? _); [by eexists|].
  pose proof (dispatch_cases fields timeout answer) as Hc. rewrite Hd in Hc.
  destruct Hc as [->|[->|Hfin]].
  - by eexists.
  - destruct (negb _); by eexists.
  - destruct (negb _); [by eexists|]. unfold conclude. rewrite Hfin, andb_false_r.
    destruct (ar_outcome a) as [[]|]; by eexists.
Qed.

(** The top-up loop never tops up.  Whatever the provider replies, a request
    is dispatched at most once; with an answer within the time limit it is
    dispatched exactly once, for at most one batch.  So a request for more than a
    batch is never asked for in full: what is beyond the batch is not requested. *)
Theorem provisioning_asks_once {S} `{!RequestStore S} sm config (ticks : Z → tick (S := S)) fields
    timeout answers request started (s : S) :
  0 ≤ max_retries config → 0 < Request.requested_count request →
  tk_check (ticks 1) - started < seconds (timeout_seconds config) →
  ∃ res l,
    execute_provisioning sm config ticks
      (λ n _ _, _dispatch_single_attempt fields timeout (answers n)) request started s = Ok (res, l) ∧
    ls_asked l = [Z.min (Request.requested_count request) (batch_size config)].
Proof.
  intros Hm Hreq Ht. unfold execute_provisioning.
  assert (∃ l, one_turn sm config ticks (λ n _ _, _dispatch_single_attempt fields timeout (answers n))
      started (initial request s) = Break l ∧
      ls_asked l = [Z.min (Request.requested_count request) (batch_size config)]) as (l & Hl & Hasked).
  { unfold one_turn. cbn [initial ls_remaining ls_attempt].
    rewrite (proj2 (Z.ltb_lt 0 _) Hreq), (proj2 (Z.leb_le 0 _) Hm). cbn [andb negb]. cbn zeta.
    change (0 + 1) with 1. rewrite (proj2 (Z.leb_gt _ _) Ht).
    set (l0 := begin_attempt _ _ _).
    destruct (_dispatch_single_attempt fields timeout (answers 1)) as [[a ev]|e] eqn:Hd.
    - destruct (dispatch_ends_loop sm fields timeout _ a ev 1
        (Z.min (Request.requested_count request) (batch_size config)) (ticks 1) (tell_breaker ev l0) Hd)
        as [l' Hl'].
      exists l'. split; [done|].
      destruct (after_dispatch_frame sm 1 (Z.min (Request.requested_count request) (batch_size config)) a
        (ticks 1) (tell_breaker ev l0)) as ([_ Hk] & _). rewrite Hl' in Hk. cbn [turn_state] in Hk.
      by rewrite Hk.
    - pose proof (dispatch_cases fields timeout (answers 1)) as Hc. rewrite Hd in Hc.
      destruct Hc as (x & y & z & ->). by eexists. }
  assert (provisioning_loop sm config ticks (λ n _ _, _dispatch_single_attempt fields timeout (answers n))
    (loop_fuel config) started (initial request s) = Break l) as ->.
  { destruct (loop_fuel config); cbn [provisioning_loop]; by rewrite Hl. }
  eauto.
Qed.

(** The provider's own error does not reach the caller.  Whatever error code,
    message, request id and source the last attempt recorded, the result of
    provisioning carries none of them. *)
Theorem provider_error_dropped {S} `{!RequestStore S} sm config (ticks : Z → tick (S := S)) dispatch
    request started (s : S) res l :
  execute_provisioning sm config ticks dispatch request started s = Ok (res, l) →
  provider_error_code res = None ∧ provider_error_message res = None ∧
  provider_request_id res = None ∧ error_source res = None ∧
  error_message res = match ls_last l with
                      | Some a => error_message (ar_result a)
                      | None => Some "No provisioning attempted"
                      end.
Proof.
  unfold execute_provisioning. destruct (provisioning_loop _ _ _ _ _ _ _); by intros [= <- <-].
Qed.

(** ** Saving over concurrent writes *)

Section SaveLemmas.
Context {S : Type} `{!RequestStore S}.

(** One merge, as a change of the status service's loop. *)
Definition merge_change (request current : Request.t) : change_result :=
  if decide (Request.request_id current = Request.request_id request)
  then Save (apply_onto_stored request (Some current)) else Return request.

Lemma merge_change_keeps_id request : keeps_id (merge_change request).
Proof. intros cur u. unfold merge_change. case_decide as Hc; [|done]. by intros [= <-]. Qed.

(** The rest of the system does not delete the row. *)
Definition keeps_row (i : string) (f : S → S) : Prop :=
  ∀ s, is_Some (rs_get s i) → is_Some (rs_get (f s) i).

(** While the row is there, the save is the read-change-save loop of the status
    service. *)
Lemma save_loop_eq request n env (s : S) :
  Forall env_ok env → Forall (keeps_row (Request.request_id request)) env → rs_ok s →
  is_Some (rs_get s (Request.request_id request)) →
  save_loop request (Datatypes.S n) env s =
  write_loop request request (merge_change request) (Datatypes.S n) env s.
Proof.
  revert env s. induction n as [|n IH]; intros env s He Hk Hok [cur Hcur];
    pose proof (rs_get_id _ _ _ Hok Hcur) as Hid;
    (assert (Request.request_id (apply_onto_stored request (Some cur)) = Request.request_id cur) as Hmid
      by (by rewrite Hid));
    destruct (interfere_ok env s He Hok) as [Hok' _];
    cbn [save_loop write_loop]; rewrite Hcur; unfold merge_change; rewrite decide_True by done;
    change (apply_onto_stored request (Some cur) <| Request.version := Request.version cur + 1 |>)
      with (apply_onto_stored request (Some cur));
    destruct (attempt_cases request cur _ env s He Hok Hcur Hmid) as [Hg|(i & v & Hsv)].
  all: try (destruct (save_at_read request cur _ _ Hok' Hg Hmid) as (s1 & Hsv & _)).
  all: change (apply_onto_stored request (Some cur) <| Request.version := Request.version cur + 1 |>)
      with (apply_onto_stored request (Some cur)) in Hsv; rewrite Hsv; try done.
  apply IH; [by destruct He; simpl|by destruct Hk; simpl|done|].
  unfold interfere. destruct Hk as [|f env' Hf _]; simpl; [by eexists|]. apply Hf. by eexists.
Qed.

Lemma after_keeps_row i k env (s : S) :
  Forall (keeps_row i) env → is_Some (rs_get s i) → is_Some (rs_get (after k env s) i).
Proof.
  revert env s. induction k as [|k IH]; intros env s Hk Hrow; [done|].
  destruct Hk as [|f env Hf Hk]; [done|]. apply (IH env (f s) Hk). by apply Hf.
Qed.

Lemma elem_of_union_ids l1 l2 x : x ∈ _union l1 l2 ↔ x ∈ l1 ∨ x ∈ l2.
Proof.
  unfold _union. pose proof (elem_of_dedup_by_keys (λ y : string, y) (l1 ++ l2) x) as H.
  rewrite !list_fmap_id in H. rewrite <- elem_of_app. exact H.
Qed.
End SaveLemmas.

(** The fields that say how a request stands or ended. *)
Definition outcome_of (r : Request.t) :=
  (Request.status r, Request.status_message r, (Request.successful_count r, Request.failed_count r),
   (Request.completed_at r, Request.partial_since r, Request.last_transition_at r),
   (Request.fulfilment_diagnostic r, Request.error_details r)).

(** C28: A save of the create flow loses nothing.  However other writers change
    the row between the read and the save, a save that returns has the effect of
    one merge at a single moment: the row then stored has every resource and
    machine id of both sides, the next version, the create flow's metadata and the
    stored ones where it has none, and the stored deadline when there is one.  A row
    that was settled meanwhile keeps its whole outcome (status, message, counts,
    completion and transition times, diagnostic and error details); any other takes
    the create flow's.  Other rows are untouched.  The other writers do not delete
    the row and raise its version when they change it. *)
Theorem provisioning_save_merges {S} `{!RequestStore S} request env (s : S) r s' :
  Forall env_ok env → Forall (keeps_row (Request.request_id request)) env → rs_ok s →
  is_Some (rs_get s (Request.request_id request)) →
  save_provisioning_state request env s = (Ok r, s') →
  ∃ k cur row,
    rs_get (after k env s) (Request.request_id request) = Some cur ∧
    rs_get s' (Request.request_id request) = Some row ∧
    (∀ j, j ≠ Request.request_id request → rs_get s' j = rs_get (after k env s) j) ∧
    Request.version row = Request.version cur + 1 ∧
    (∀ x, x ∈ Request.resource_ids row ↔
          x ∈ Request.resource_ids cur ∨ x ∈ Request.resource_ids request) ∧
    (∀ x, x ∈ Request.machine_ids row ↔
          x ∈ Request.machine_ids cur ∨ x ∈ Request.machine_ids request) ∧
    (dict_wf (Request.metadata request) → ∀ x, dget x (Request.metadata row) =
       match dget x (Request.metadata request) with
       | Some v => Some v
       | None => dget x (Request.metadata cur)
       end) ∧
    (is_Some (Request.deadline_at cur) → Request.deadline_at row = Request.deadline_at cur) ∧
    outcome_of row = (if RequestStatus.is_terminal (Request.status cur)
                      then outcome_of cur else outcome_of request).
Proof.
  intros He Hk Hok Hrow. unfold save_provisioning_state, _WRITE_ATTEMPTS.
  rewrite save_loop_eq by done.
  intros (k & Hokk & Ha)%write_loop_atomic; [|apply merge_change_keeps_id|done|done].
  destruct (after_keeps_row _ k env s Hk Hrow) as [cur Hcur].
  unfold atomic_write in Ha. rewrite Hcur in Ha. unfold merge_change in Ha.
  rewrite decide_True in Ha by (by eapply rs_get_id).
  destruct Ha as [_ Hget]. exists k, cur. eexists. split; [done|].
  rewrite Hget, decide_True by done. split; [done|].
  split; [intros j Hj; by rewrite Hget, decide_False by done|]. split; [done|].
  split; [apply elem_of_union_ids|]. split; [apply elem_of_union_ids|]. split_and!.
  - intros Hwf x. cbn. rewrite dget_dmerge by done. by destruct (dget x (Request.metadata request)).
  - intros [t Ht]. cbn. by rewrite Ht.
  - cbn. by destruct (RequestStatus.is_terminal (Request.status cur)).
Qed.

(** ** The recovery sweep *)

Lemma recovered_terminal sm now r :
  ∃ u, recovered sm now r = Ok u ∧ RequestStatus.is_terminal (Request.status u) = true ∧
       Request.request_id u = Request.request_id r ∧
       (expired r now = false → Request.status u = RequestStatus.FAILED) ∧
       (expired r now = true → u = deadline_transition r now).
Proof.
  unfold recovered. rewrite apply_eq. cbn [overrides_deadline].
  rewrite (bool_decide_eq_true_2 (FulfilmentEvent.DEADLINE_SWEEP = FulfilmentEvent.DEADLINE_SWEEP)) by done.
  assert (overrides_deadline FulfilmentEvent.DEADLINE_SWEEP = false) as -> by done.
  cbn [negb andb]. destruct (expired r now) eqn:He; cbn [result_bind mbind].
  - rewrite deadline_transition_terminal. eexists. split; [done|].
    split; [apply deadline_transition_terminal|]. split; [|done].
    apply mutates_id. left. apply deadline_transition_mutates.
  - rewrite andb_false_r. eexists. split; [done|]. done.
Qed.

Lemma recover_all_spec {S} `{!RequestStore S} sm now l (s : S) :
  rs_ok s → NoDup (Request.request_id <$> l) →
  (∀ r, r ∈ l → rs_get s (Request.request_id r) = Some r) →
  ∃ s', recover_all sm now l s = (Z.of_nat (length l), s') ∧ rs_ok s' ∧
    (∀ r, r ∈ l → ∃ u, rs_get s' (Request.request_id r) = Some u ∧
        RequestStatus.is_terminal (Request.status u) = true ∧
        (expired r now = false → Request.status u = RequestStatus.FAILED)) ∧
    (∀ i, i ∉ Request.request_id <$> l → rs_get s' i = rs_get s i).
Proof.
  revert s. induction l as [|r l IH]; intros s Hok Hnd Hin; cbn [recover_all].
  { exists s. split; [done|]. split; [done|]. split; [by intros r ?%not_elem_of_nil|done]. }
  cbn [fmap list_fmap] in Hnd. apply NoDup_cons in Hnd as [Hni Hnd].
  destruct (recovered_terminal sm now r) as (u & -> & Hterm & Hid & Hforced & _).
  pose proof (Hin r (list_elem_of_here _ _)) as Hr.
  destruct (rs_save_current s (Request.version r) u r Hok) as (s1 & -> & Hok1 & Hget); [by rewrite Hid|done|].
  destruct (IH s1 Hok1 Hnd) as (s' & -> & Hok' & H1 & H2).
  { intros x Hx. rewrite Hget, decide_False; [by apply Hin, list_elem_of_further|].
    rewrite Hid. intros Heq. apply Hni. rewrite Heq. by apply list_elem_of_fmap_2. }
  exists s'. split; [f_equal; simpl; lia|]. split; [done|]. split.
  - intros x [->|Hx]%elem_of_cons; [|by apply H1]. rewrite H2 by done.
    rewrite Hget, Hid, decide_True by done. eexists. split; [done|]. done.
  - intros i [Hi1 Hi2]%not_elem_of_cons. rewrite H2 by done. rewrite Hget, decide_False; [done|].
    rewrite Hid. congruence.
Qed.

(** The recovery scan ends every abandoned request.  Of the active requests it
    reads from the store, each whose deadline has passed (or, without a deadline,
    that is older than the limit) is stored in a terminal status (FAILED unless the
    state machine's own sweep settles it) and counted, and every other request in
    the store is left as it was. *)
Theorem recovery_settles {S} `{!RequestStore S} sm now timeout active (s : S) :
  rs_ok s → NoDup (Request.request_id <$> active) →
  (∀ r, r ∈ active → rs_get s (Request.request_id r) = Some r) →
  let abandoned := filter (λ r, _is_expired now timeout r = true) active in
  ∃ s', recover_stuck_acquiring_requests sm now timeout active s = (Z.of_nat (length abandoned), s') ∧
    (∀ r, r ∈ active → _is_expired now timeout r = true →
       ∃ u, rs_get s' (Request.request_id r) = Some u ∧
            RequestStatus.is_terminal (Request.status u) = true) ∧
    (∀ i, i ∉ Request.request_id <$> abandoned → rs_get s' i = rs_get s i).
Proof.
  intros Hok Hnd Hin abandoned. unfold recover_stuck_acquiring_requests. fold abandoned.
  destruct (recover_all_spec sm now abandoned s Hok) as (s' & Hr & _ & H1 & H2).
  - eapply sublist_NoDup; [exact Hnd|]. apply fmap_sublist, sublist_filter.
  - intros r [_ Hr]%list_elem_of_filter. by apply Hin.
  - exists s'. split; [done|]. split; [|done]. intros r Hr' He.
    destruct (H1 r) as (u & ? & ? & _); [by apply list_elem_of_filter|]. eauto.
Qed.

(** ** Witnesses *)

Definition demo_store : gmap string Request.t := {[ "req-1" := sample ]}.
Definition demo_tick : tick (S := gmap string Request.t) := mk_tick 0 0 0 0 [] [].
Definition demo_config : fulfilment_config := mk_fulfilment_config 3 300 1.
Definition full_reply : reply := mk_reply true [] ["m1"] [JNull] [] [] [] None.

Lemma demo_store_ok : rs_ok demo_store.
Proof. intros i r. unfold demo_store. intros [<- <-]%lookup_singleton_Some. reflexivity. Qed.

Lemma provisioning_asks_once_witness :
  ∃ res l, execute_provisioning (FulfilmentStateMachine.init 60) demo_config (λ _, demo_tick)
      (λ _ _ _, _dispatch_single_attempt (λ _, no_fields) 300 (Ok full_reply)) sample 0 demo_store
    = Ok (res, l) ∧ ls_asked l = [1].
Proof.
  apply (provisioning_asks_once (FulfilmentStateMachine.init 60) demo_config (λ _, demo_tick)
    (λ _, no_fields) 300 (λ _, Ok full_reply) sample 0 demo_store); vm_compute; congruence.
Defined.

Lemma provisioning_bounded_witness :
  match execute_provisioning (FulfilmentStateMachine.init 60) demo_config (λ _, demo_tick)
      (λ _ _ _, _dispatch_single_attempt (λ _, no_fields) 300 (Ok full_reply)) sample 0 demo_store with
  | Ok (_, l) => Z.of_nat (length (ls_asked l)) ≤ 4
  | Err _ => False
  end.
Proof.
  pose proof (provisioning_bounded (FulfilmentStateMachine.init 60) demo_config (λ _, demo_tick)
    (λ _ _ _, _dispatch_single_attempt (λ _, no_fields) 300 (Ok full_reply)) sample 0 demo_store) as H.
  destruct (execute_provisioning _ _ _ _ _ _ _) as [[res l]|e].
  - apply H; [|vm_compute; discriminate]. intros _ _ _ a ev [= <- _]. vm_compute. discriminate.
  - destruct H as (_ & _ & _ & H); [|vm_compute; discriminate|discriminate H].
    intros _ _ _ a ev [= <- _]. vm_compute. discriminate.
Defined.

Lemma provider_error_dropped_witness :
  ∃ res l, execute_provisioning (FulfilmentStateMachine.init 60) demo_config (λ _, demo_tick)
      (λ _ _ _, _dispatch_single_attempt (λ _, (Some "Denied", None, None, None)) 300
                  (Err (ValueError "no"))) sample 0 demo_store = Ok (res, l) ∧
    provider_error_code res = None ∧
    (ls_last l ≫= λ a, provider_error_code (ar_result a)) = Some "Denied".
Proof.
  destruct (execute_provisioning (FulfilmentStateMachine.init 60) demo_config (λ _, demo_tick)
      (λ _ _ _, _dispatch_single_attempt (λ _, (Some "Denied", None, None, None)) 300
                  (Err (ValueError "no"))) sample 0 demo_store) as [[res l]|e] eqn:He.
  - exists res, l. split; [reflexivity|]. split.
    + exact (proj1 (provider_error_dropped _ _ _ _ _ _ _ _ _ He)).
    + vm_compute in He. by injection He as _ <-.
  - vm_compute in He. discriminate He.
Defined.

Lemma provisioning_save_merges_witness :
  ∃ row, rs_get (save_provisioning_state sample [] demo_store).2 "req-1" = Some row ∧
    Request.version row = Request.version sample + 1.
Proof.
  destruct (save_provisioning_state sample [] demo_store) as [[r|e] s'] eqn:Hs.
  - destruct (provisioning_save_merges sample [] demo_store r s') as (k & cur & row & H1 & H2 & _ & H3 & _);
      [constructor|constructor|apply demo_store_ok|by eexists|exact Hs|].
    exists row. split; [exact H2|]. rewrite H3. unfold after in H1. rewrite take_nil in H1.
    vm_compute in H1. by injection H1 as <-.
  - vm_compute in Hs. discriminate Hs.
Defined.

Lemma recovery_settles_witness :
  (recover_stuck_acquiring_requests (FulfilmentStateMachine.init 60) 60 3600 [sample] demo_store).1 = 1.
Proof.
  destruct (recovery_settles (FulfilmentStateMachine.init 60) 60 3600 [sample] demo_store)
    as (s' & -> & _); [apply demo_store_ok| | |vm_compute; reflexivity].
  - apply NoDup_singleton.
  - by intros r ->%list_elem_of_singleton.
Defined.
