(* ===== verification/ProviderStrategy.v ===== *)
(** * What provider strategies exchange

    [orb/providers/base/strategy/provider_strategy.py] and
    [orb/domain/base/operations.py]: operations, results and health reports, shared
    by the fallback and composite strategies.  Durations are [json] values, which
    no modelled code looks at. *)

From stdpp Require Import base strings list.
From Stdlib Require Import ZArith.
From S2P Require Import Prelude.
Open Scope Z_scope.

Inductive OperationType :=
| CREATE_INSTANCES | TERMINATE_INSTANCES | GET_INSTANCE_STATUS | DESCRIBE_RESOURCE_INSTANCES
| VALIDATE_TEMPLATE | GET_AVAILABLE_TEMPLATES | HEALTH_CHECK | RESOLVE_IMAGE | START_INSTANCES
| STOP_INSTANCES | CLEANUP_MACHINE_RESOURCES | GET_MACHINE_HEALTH | TAG_INSTANCES.

#[export] Instance OperationType_eq_dec : EqDecision OperationType.
Proof. solve_decision. Defined.

(** An operation: its type, and the text the interpreter gives an f-string for
    it (which differs between Python versions). *)
Record ProviderOperation := mk_operation {
  operation_type : OperationType;
  operation_text : string
}.

Record ProviderResult := mk_provider_result {
  pr_success : bool;
  pr_data : json;
  pr_error_message : option string;
  pr_error_code : option string;
  pr_metadata : dict json;
  pr_routing_info : option (dict json)
}.

Definition provider_result_eta (r : ProviderResult) : ProviderResult :=
  mk_provider_result (pr_success r) (pr_data r) (pr_error_message r) (pr_error_code r)
    (pr_metadata r) (pr_routing_info r).
#[export] Hint Extern 1 (@Setter ProviderResult _ _) => solve_setter provider_result_eta : typeclass_instances.

(** [error_message_required_on_failure]. *)
Definition result_valid (r : ProviderResult) : bool := pr_success r || str_truthy (pr_error_message r).

Definition success_result (data : json) (metadata : dict json) : ProviderResult :=
  mk_provider_result true data None None metadata None.

(** The messages the modelled code passes are never empty, so the validator
    accepts them. *)
Definition error_result (error_message error_code : string) (metadata : dict json) : ProviderResult :=
  mk_provider_result false JNull (Some error_message) (Some error_code) metadata None.

Record ProviderHealthStatus := mk_health {
  hs_is_healthy : bool;
  hs_status_message : string;
  hs_error_details : option (dict json)
}.

Definition healthy (message : string) : ProviderHealthStatus := mk_health true message None.
Definition unhealthy (message : string) (details : dict json) : ProviderHealthStatus :=
  mk_health false message (Some details).

(** How many answers hold, an exception counting as no. *)
Definition count_ok {A} (p : A → bool) (l : list (result A)) : Z :=
  foldr (λ o n, match o with Ok a => if p a then n + 1 else n | Err _ => n end) 0 l.

Lemma count_ok_bounds {A} (p : A → bool) l : 0 ≤ count_ok p l ≤ Z.of_nat (length l).
Proof.
  induction l as [|o l IH]; cbn [count_ok foldr length]; [lia|]. fold (count_ok p l).
  destruct o as [a|e]; [destruct (p a)|]; lia.
Qed.
