(* ===== verification/Fallback.v ===== *)
(** * The fallback strategy

    [orb/providers/base/strategy/fallback_strategy.py]: a primary strategy and its
    fallbacks in order of priority, four modes, a circuit breaker of its own.

    The strategies' answers are an argument, which may depend on the calls made so
    far; an answer may be the cancellation of the task, which [except Exception] lets
    through.  (That a cancellation may also arrive in the pause between two retries is
    not modelled.)  Clock readings are arguments.  An operation in circuit-breaker mode is
    written as the pieces between two [await]s, because it holds a thread lock over
    all of them; [Loop] runs several such operations on one event loop. *)

From stdpp Require Import base strings list relations.
From Stdlib Require Import ZArith Lia.
From S2P Require Import Prelude ProviderStrategy.
Open Scope Z_scope.

Inductive FallbackMode := IMMEDIATE | CIRCUIT_BREAKER | RETRY_THEN_FALLBACK | HEALTH_BASED.
Inductive CircuitState := CLOSED | OPEN | HALF_OPEN.

#[export] Instance FallbackMode_eq_dec : EqDecision FallbackMode.
Proof. solve_decision. Defined.
#[export] Instance CircuitState_eq_dec : EqDecision CircuitState.
Proof. solve_decision. Defined.

Definition mode_value (m : FallbackMode) : string :=
  match m with
  | IMMEDIATE => "immediate"
  | CIRCUIT_BREAKER => "circuit_breaker"
  | RETRY_THEN_FALLBACK => "retry_then_fallback"
  | HEALTH_BASED => "health_based"
  end.

Definition circuit_value (c : CircuitState) : string :=
  match c with CLOSED => "closed" | OPEN => "open" | HALF_OPEN => "half_open" end.

Record FallbackConfig := mk_fallback_config {
  mode : FallbackMode;
  max_retries : Z;
  retry_delay_seconds : Z;
  circuit_breaker_threshold : Z;
  circuit_breaker_timeout_seconds : Z;
  health_check_interval_seconds : Z;
  enable_graceful_degradation : bool
}.

(** [__post_init__]. *)
Definition validate_config (c : FallbackConfig) : result FallbackConfig :=
  if max_retries c <? 0 then Err (ValueError "max_retries must be non-negative")
  else if retry_delay_seconds c <? 0 then Err (ValueError "retry_delay_seconds must be non-negative")
  else if circuit_breaker_threshold c <? 1 then
    Err (ValueError "circuit_breaker_threshold must be at least 1")
  else if circuit_breaker_timeout_seconds c <=? 0 then
    Err (ValueError "circuit_breaker_timeout_seconds must be positive")
  else Ok c.

Record CircuitBreakerState := mk_circuit {
  cb_state : CircuitState;
  failure_count : Z;
  last_failure_time : option Z;
  last_success_time : option Z;
  cb_total_requests : Z;
  cb_successful_requests : Z
}.

Definition circuit_eta (c : CircuitBreakerState) : CircuitBreakerState :=
  mk_circuit (cb_state c) (failure_count c) (last_failure_time c) (last_success_time c)
    (cb_total_requests c) (cb_successful_requests c).
#[export] Hint Extern 1 (@Setter CircuitBreakerState _ _) => solve_setter circuit_eta : typeclass_instances.

Definition fresh_circuit : CircuitBreakerState := mk_circuit CLOSED 0 None None 0 0.

Definition record_success (now : Z) (c : CircuitBreakerState) : CircuitBreakerState :=
  mk_circuit (cb_state c) 0 (last_failure_time c) (Some now)
    (cb_total_requests c + 1) (cb_successful_requests c + 1).

Definition record_failure (now : Z) (c : CircuitBreakerState) : CircuitBreakerState :=
  mk_circuit (cb_state c) (failure_count c + 1) (Some now) (last_success_time c)
    (cb_total_requests c + 1) (cb_successful_requests c).

(** The strategies: the primary, and the fallbacks by position. *)
Inductive who := Primary | Backup (i : nat).

#[export] Instance who_eq_dec : EqDecision who.
Proof. solve_decision. Defined.

Record fallback := mk_fallback {
  _initialized : bool;
  _circuit_state : CircuitBreakerState;
  _last_health_check : Z;
  _primary_healthy : bool;
  _current_strategy : who
}.

Definition fallback_eta (s : fallback) : fallback :=
  mk_fallback (_initialized s) (_circuit_state s) (_last_health_check s) (_primary_healthy s)
    (_current_strategy s).
#[export] Hint Extern 1 (@Setter fallback _ _) => solve_setter fallback_eta : typeclass_instances.

(** [__init__], which refuses an empty list of fallbacks. *)
Definition init (n_fallbacks : nat) (config : FallbackConfig) : result fallback :=
  match n_fallbacks with
  | O => Err (ValueError "At least one fallback strategy is required")
  | S _ => c ← validate_config config; Ok (mk_fallback false fresh_circuit 0 true Primary)
  end.

(** [initialize]: for each strategy, whether it is initialised already and what
    its [initialize] would answer. *)
Definition initialize (strategies : list (result bool)) (s : fallback) : bool * fallback :=
  if _initialized s then (true, s)
  else let ok := 0 <? count_ok id strategies in (ok, s <| _initialized := ok |>).

(** [cleanup]: a primary that raises leaves the strategy initialised. *)
Definition cleanup (primary : result unit) (s : fallback) : fallback :=
  match primary with Ok _ => s <| _initialized := false |> | Err _ => s end.

Section Execute.
Context (config : FallbackConfig).
Context (n_fallbacks : nat).
Context (provider_type : who → string).
(** The answer of a strategy, given the calls already made in this operation. *)
Context (answer : list who → who → result ProviderResult).
Context (op : ProviderOperation).

Definition backups : list who := Backup <$> seq 0 n_fallbacks.

(** An operation's outcome: the result or the cancellation, the state, the calls made. *)
Abbreviation outcome := (result ProviderResult * fallback * list who)%type.

Definition _graceful_degradation (last_error : string) : ProviderResult :=
  let metadata := [("degraded", JBool true); ("last_error", JStr last_error)] in
  if operation_type op ≟ HEALTH_CHECK then
    success_result (JDict [("is_healthy", JBool false); ("status", JStr "degraded");
                           ("message", JStr "All providers failed")]) metadata
  else if operation_type op ≟ GET_AVAILABLE_TEMPLATES then
    success_result (JDict [("templates", JList []);
                           ("message", JStr "No templates available - all providers failed")]) metadata
  else error_result ("Operation not available in degraded mode: " +:+ operation_text op)
         "DEGRADED_MODE" metadata.

Definition all_failed (last_error : option string) : ProviderResult :=
  if enable_graceful_degradation config then _graceful_degradation (or_str last_error "Unknown error")
  else error_result ("All fallback strategies failed. Last error: " +:+ default "None" last_error)
         "ALL_STRATEGIES_FAILED" [("attempted_strategies", JInt (Z.of_nat n_fallbacks + 1))].

(** The loop of [_execute_fallback_chain] over the fallbacks that remain. *)
Fixpoint chain (hist : list who) (ws : list who) (last_error : option string) (s : fallback) : outcome :=
  match ws with
  | [] => (Ok (all_failed last_error), s, hist)
  | w :: ws' =>
      match answer hist w with
      | Ok r => if pr_success r then (Ok r, s <| _current_strategy := w |>, hist ++ [w])
                else chain (hist ++ [w]) ws' (pr_error_message r) s
      | Err e => if is_cancelled e then (Err e, s, hist ++ [w])
                 else chain (hist ++ [w]) ws' (Some (exn_str e)) s
      end
  end.

Definition _execute_fallback_chain (hist : list who) (s : fallback) : outcome :=
  chain hist backups None s.

(** The pieces of [_execute_with_circuit_breaker].  Up to the first [await]:
    whether the primary is asked, and the state in which it is. *)
Definition check_circuit (now : Z) (s : fallback) : bool * fallback :=
  let c := _circuit_state s in
  match cb_state c with
  | OPEN =>
      if match last_failure_time c with
         | Some t => negb (t =? 0) && (circuit_breaker_timeout_seconds config <=? now - t)
         | None => false
         end
      then (true, s <| _circuit_state := c <| cb_state := HALF_OPEN |> |>)
      else (false, s)
  | _ => (true, s)
  end.

(** After the primary's answer: [None] sends the operation to the fallbacks. *)
Definition primary_succeeded (now : Z) (s : fallback) : fallback :=
  let c := record_success now (_circuit_state s) in
  s <| _circuit_state := match cb_state c with HALF_OPEN => c <| cb_state := CLOSED |> | _ => c end |>
    <| _current_strategy := Primary |>.

Definition primary_failed (now : Z) (s : fallback) : fallback :=
  let c := record_failure now (_circuit_state s) in
  s <| _circuit_state := if circuit_breaker_threshold config <=? failure_count c
                         then c <| cb_state := OPEN |> else c |>.

Definition after_primary (now : Z) (a : result ProviderResult) (s : fallback)
  : option (result ProviderResult) * fallback :=
  match a with
  | Ok r => if pr_success r then (Some (Ok r), primary_succeeded now s) else (None, primary_failed now s)
  | Err e => if is_cancelled e then (Some (Err e), s) else (None, primary_failed now s)
  end.

Definition _execute_with_circuit_breaker (now later : Z) (s : fallback) : outcome :=
  let '(ask, s) := check_circuit now s in
  if ask then
    match after_primary later (answer [] Primary) s with
    | (Some r, s) => (r, s, [Primary])
    | (None, s) => _execute_fallback_chain [Primary] s
    end
  else _execute_fallback_chain [] s.

(** The loop of [_execute_with_retry_fallback]; [left] attempts remain. *)
Fixpoint retry_primary (hist : list who) (left : nat) : option (result ProviderResult) * list who :=
  match left with
  | O => (None, hist)
  | S left' =>
      match answer hist Primary with
      | Ok r => if pr_success r then (Some (Ok r), hist ++ [Primary])
                else retry_primary (hist ++ [Primary]) left'
      | Err e => if is_cancelled e then (Some (Err e), hist ++ [Primary])
                 else retry_primary (hist ++ [Primary]) left'
      end
  end.

Definition _execute_with_retry_fallback (s : fallback) : outcome :=
  match retry_primary [] (Z.to_nat (max_retries config + 1)) with
  | (Some (Ok r), hist) => (Ok r, s <| _current_strategy := Primary |>, hist)
  | (Some (Err e), hist) => (Err e, s, hist)
  | (None, hist) => _execute_fallback_chain hist s
  end.

Definition _execute_health_based (s : fallback) : outcome :=
  if _primary_healthy s then
    match answer [] Primary with
    | Ok r => if pr_success r then (Ok r, s <| _current_strategy := Primary |>, [Primary])
              else _execute_fallback_chain [Primary] (s <| _primary_healthy := false |>)
    | Err e => if is_cancelled e then (Err e, s, [Primary])
               else _execute_fallback_chain [Primary] (s <| _primary_healthy := false |>)
    end
  else _execute_fallback_chain [] s.

Definition _execute_immediate_fallback (s : fallback) : outcome :=
  match answer [] Primary with
  | Ok r => if pr_success r then (Ok r, s <| _current_strategy := Primary |>, [Primary])
            else _execute_fallback_chain [Primary] s
  | Err e => if is_cancelled e then (Err e, s, [Primary]) else _execute_fallback_chain [Primary] s
  end.

(** [health] is what the primary's [check_health] says, if it is asked. *)
Definition _update_health_status (now : Z) (health : result bool) (s : fallback) : fallback :=
  if health_check_interval_seconds config <=? now - _last_health_check s then
    s <| _primary_healthy := match health with Ok b => b | Err _ => false end |>
      <| _last_health_check := now |>
  else s.

Definition with_routing (elapsed : json) (s : fallback) (r : ProviderResult) : ProviderResult :=
  r <| pr_routing_info := Some [("fallback_mode", JStr (mode_value (mode config)));
                                ("total_execution_time_ms", elapsed);
                                ("active_strategy", JStr (provider_type (_current_strategy s)));
                                ("circuit_state", JStr (circuit_value (cb_state (_circuit_state s))))] |>.

(** The readings of the clock: at the health check, at the circuit check, when
    the primary has answered, and the whole time. *)
Record readings := mk_readings { t_health : Z; t_check : Z; t_record : Z; t_elapsed : json }.

(** [execute_operation]; nothing in it raises but a cancellation, so the handler
    around it, which does not catch that, is never reached. *)
Definition execute_operation (t : readings) (health : result bool) (s : fallback) : outcome :=
  if negb (_initialized s) then
    (Ok (error_result "Fallback strategy not initialized" "NOT_INITIALIZED" []), s, [])
  else
    let s := _update_health_status (t_health t) health s in
    let '(r, s, calls) :=
      match mode config with
      | CIRCUIT_BREAKER => _execute_with_circuit_breaker (t_check t) (t_record t) s
      | RETRY_THEN_FALLBACK => _execute_with_retry_fallback s
      | HEALTH_BASED => _execute_health_based s
      | IMMEDIATE => _execute_immediate_fallback s
      end in
    (with_routing (t_elapsed t) s <$> r, s, calls).
End Execute.

(** [check_health]: the report on the primary and on each fallback. *)
Definition check_health (primary : result bool) (fallbacks : list (result bool)) (details : dict json)
  : ProviderHealthStatus :=
  let up := count_ok id fallbacks in
  let total := Z.of_nat (length fallbacks) in
  if match primary with Ok b => b | Err _ => false end then
    healthy ("Fallback strategy healthy - Primary operational, " +:+ fmt up +:+ "/" +:+ fmt total
             +:+ " fallbacks ready")
  else if 0 <? up then
    healthy ("Fallback strategy degraded - Primary down, " +:+ fmt up +:+ "/" +:+ fmt total
             +:+ " fallbacks available")
  else unhealthy ("Fallback strategy unhealthy - Primary and all " +:+ fmt total
                  +:+ " fallbacks unavailable") details.

(** ** Several operations on one event loop

    Each task is an [_execute_with_circuit_breaker].  The thread lock it takes is
    held over its [await]s.  A task that finds the lock taken blocks in [acquire],
    and with it the thread that runs the loop. *)

Inductive task :=
| NotStarted
| AtPrimary                                               (* awaits the primary *)
| AtBackup (hist : list who) (w : who) (rest : list who)  (* awaits [w] in the chain *)
| Done (r : result ProviderResult) (calls : list who).

Record loop := mk_loop {
  lp_shared : fallback;
  lp_lock : option nat;          (* the task that holds the lock *)
  lp_blocked : option nat;       (* the task in whose [acquire] the thread waits *)
  lp_tasks : list task
}.

Definition awaiting (t : task) : bool :=
  match t with AtPrimary | AtBackup _ _ _ => true | _ => false end.

Section Loop.
Context (config : FallbackConfig).
Context (n_fallbacks : nat).
Context (answer : nat → list who → who → result ProviderResult).    (* per task *)
Context (op : nat → ProviderOperation).

(** The next [await] of the chain, after the calls [hist]. *)
Definition to_chain (i : nat) (hist ws : list who) (last_error : option string) : task :=
  match ws with
  | [] => Done (Ok (all_failed config n_fallbacks (op i) last_error)) hist
  | w :: rest => AtBackup hist w rest
  end.

Definition enter (i : nat) (now : Z) (s : fallback) : task * fallback :=
  let '(ask, s) := check_circuit config now s in
  (if ask then AtPrimary else to_chain i [] (backups n_fallbacks) None, s).

Definition resume (i : nat) (now : Z) (t : task) (s : fallback) : task * fallback :=
  match t with
  | AtPrimary =>
      match after_primary config now (answer i [] Primary) s with
      | (Some r, s) => (Done r [Primary], s)
      | (None, s) => (to_chain i [Primary] (backups n_fallbacks) None, s)
      end
  | AtBackup hist w rest =>
      match answer i hist w with
      | Ok r => if pr_success r then (Done (Ok r) (hist ++ [w]), s <| _current_strategy := w |>)
                else (to_chain i (hist ++ [w]) rest (pr_error_message r), s)
      | Err e => if is_cancelled e then (Done (Err e) (hist ++ [w]), s)
                 else (to_chain i (hist ++ [w]) rest (Some (exn_str e)), s)
      end
  | _ => (t, s)
  end.

(** The lock after a piece of task [i] that ended in [t]. *)
Definition held_by (i : nat) (t : task) : option nat := if awaiting t then Some i else None.

Inductive step : loop → loop → Prop :=
| step_start s ts i now t s' :
    ts !! i = Some NotStarted → enter i now s = (t, s') →
    step (mk_loop s None None ts) (mk_loop s' (held_by i t) None (<[i := t]> ts))
| step_block s ts i j :
    ts !! i = Some NotStarted →
    step (mk_loop s (Some j) None ts) (mk_loop s (Some j) (Some i) ts)
| step_acquire s ts i now t s' :
    ts !! i = Some NotStarted → enter i now s = (t, s') →
    step (mk_loop s None (Some i) ts) (mk_loop s' (held_by i t) None (<[i := t]> ts))
| step_resume s ts i now t t' s' lock :
    ts !! i = Some t → awaiting t = true → resume i now t s = (t', s') →
    step (mk_loop s lock None ts) (mk_loop s' (held_by i t') None (<[i := t']> ts)).

Definition start (s : fallback) (k : nat) : loop := mk_loop s None None (replicate k NotStarted).

Definition stuck (l : loop) : Prop := ∀ l', ¬ step l l'.
Definition all_done (l : loop) : Prop := ∀ i t, lp_tasks l !! i = Some t → ∃ r calls, t = Done r calls.
End Loop.

(** ** The plan: a reference for all modes *)

(** The strategies in the order in which they are to be tried. *)
Definition plan (config : FallbackConfig) (n_fallbacks : nat) (now : Z) (s : fallback) : list who :=
  let tail := backups n_fallbacks in
  match mode config with
  | IMMEDIATE => Primary :: tail
  | CIRCUIT_BREAKER => if (check_circuit config now s).1 then Primary :: tail else tail
  | RETRY_THEN_FALLBACK => replicate (Z.to_nat (max_retries config + 1)) Primary ++ tail
  | HEALTH_BASED => if _primary_healthy s then Primary :: tail else tail
  end.

Inductive attempted :=
| Answered (w : who) (r : ProviderResult) (calls : list who)
| AllFailed (calls : list who) (last_error : option string)
| Interrupted (calls : list who) (e : exn).

(** Try each in turn: the first success, or the last error, unless the task is
    cancelled meanwhile. *)
Fixpoint attempt (answer : list who → who → result ProviderResult) (hist ws : list who)
    (last_error : option string) : attempted :=
  match ws with
  | [] => AllFailed hist last_error
  | w :: ws' =>
      match answer hist w with
      | Ok r => if pr_success r then Answered w r (hist ++ [w])
                else attempt answer (hist ++ [w]) ws' (pr_error_message r)
      | Err e => if is_cancelled e then Interrupted (hist ++ [w]) e
                 else attempt answer (hist ++ [w]) ws' (Some (exn_str e))
      end
  end.

Section Plan.
Context (config : FallbackConfig) (n_fallbacks : nat).
Context (answer : list who → who → result ProviderResult) (op : ProviderOperation).

Lemma chain_attempt hist ws le s :
  chain config n_fallbacks answer op hist ws le s =
  match attempt answer hist ws le with
  | Answered w r calls => (Ok r, s <| _current_strategy := w |>, calls)
  | AllFailed calls le' => (Ok (all_failed config n_fallbacks op le'), s, calls)
  | Interrupted calls e => (Err e, s, calls)
  end.
Proof.
  revert hist le. induction ws as [|w ws IH]; intros hist le; cbn [chain attempt]; [done|].
  destruct (answer hist w) as [r|e]; [destruct (pr_success r)|destruct (is_cancelled e)]; done || apply IH.
Qed.

Lemma attempt_app hist ws1 ws2 le :
  attempt answer hist (ws1 ++ ws2) le =
  match attempt answer hist ws1 le with
  | AllFailed calls le' => attempt answer calls ws2 le'
  | ended => ended
  end.
Proof.
  revert hist le. induction ws1 as [|w ws IH]; intros hist le; cbn [attempt app]; [done|].
  destruct (answer hist w) as [r|e]; [destruct (pr_success r)|destruct (is_cancelled e)]; done || apply IH.
Qed.

(** The error from before does not matter once something is tried. *)
Lemma attempt_error hist ws le le' : ws ≠ [] → attempt answer hist ws le = attempt answer hist ws le'.
Proof. destruct ws; [done|by intros _]. Qed.

Lemma attempt_calls hist ws le :
  match attempt answer hist ws le with
  | Answered w r calls =>
      pr_success r = true ∧
      ∃ ws1 ws2, ws = ws1 ++ w :: ws2 ∧ calls = hist ++ ws1 ++ [w] ∧ answer (hist ++ ws1) w = Ok r
  | AllFailed calls _ => calls = hist ++ ws
  | Interrupted calls e =>
      is_cancelled e = true ∧
      ∃ ws1 w ws2, ws = ws1 ++ w :: ws2 ∧ calls = hist ++ ws1 ++ [w] ∧ answer (hist ++ ws1) w = Err e
  end.
Proof.
  revert hist le. induction ws as [|w ws IH]; intros hist le; cbn [attempt]; [by rewrite app_nil_r|].
  assert (Hrec : ∀ le', match attempt answer (hist ++ [w]) ws le' with
    | Answered w0 r calls => pr_success r = true ∧ ∃ ws1 ws2, w :: ws = ws1 ++ w0 :: ws2 ∧
        calls = hist ++ ws1 ++ [w0] ∧ answer (hist ++ ws1) w0 = Ok r
    | AllFailed calls _ => calls = hist ++ w :: ws
    | Interrupted calls e => is_cancelled e = true ∧ ∃ ws1 w0 ws2, w :: ws = ws1 ++ w0 :: ws2 ∧
        calls = hist ++ ws1 ++ [w0] ∧ answer (hist ++ ws1) w0 = Err e
    end).
  { intros le'. specialize (IH (hist ++ [w]) le').
    destruct (attempt _ _ _ _) as [w0 r calls|calls e|calls e].
    - destruct IH as (Hr & ws1 & ws2 & -> & -> & Ha). split; [done|].
      exists (w :: ws1), ws2. by rewrite <-app_assoc in Ha |- *.
    - by rewrite IH, <-app_assoc.
    - destruct IH as (Hr & ws1 & w0 & ws2 & -> & -> & Ha). split; [done|].
      exists (w :: ws1), w0, ws2. by rewrite <-app_assoc in Ha |- *. }
  destruct (answer hist w) as [r|e] eqn:Ha; [destruct (pr_success r) eqn:Hr|destruct (is_cancelled e) eqn:Hr];
    try apply Hrec.
  - split; [done|]. exists [], ws. by rewrite app_nil_r.
  - split; [done|]. exists [], w, ws. by rewrite app_nil_r.
Qed.

Lemma retry_attempt hist n le :
  match retry_primary answer hist n with
  | (Some (Ok r), calls) => attempt answer hist (replicate n Primary) le = Answered Primary r calls
  | (Some (Err e), calls) => attempt answer hist (replicate n Primary) le = Interrupted calls e
  | (None, calls) => ∃ e, attempt answer hist (replicate n Primary) le = AllFailed calls e
  end.
Proof.
  revert hist le. induction n as [|n IH]; intros hist le; cbn [retry_primary replicate attempt]; [by eexists|].
  destruct (answer hist Primary) as [r|e]; [destruct (pr_success r)|destruct (is_cancelled e)];
    done || apply IH.
Qed.
End Plan.

(** ** What an operation does *)

(** The outcome [o] of trying [ws] after the calls [hist], from a state whose
    current strategy is [cur]. *)
Definition follows config n answer op (hist ws : list who) (cur : who)
    (o : result ProviderResult * fallback * list who) : Prop :=
  match attempt answer hist ws None with
  | Answered w r calls => o.1.1 = Ok r ∧ _current_strategy o.1.2 = w ∧ o.2 = calls
  | AllFailed calls e => o.1.1 = Ok (all_failed config n op e) ∧ _current_strategy o.1.2 = cur ∧ o.2 = calls
  | Interrupted calls e => o.1.1 = Err e ∧ _current_strategy o.1.2 = cur ∧ o.2 = calls
  end.

Section Follows.
Context (config : FallbackConfig) (n : nat).
Context (answer : list who → who → result ProviderResult) (op : ProviderOperation).
Context (Hn : (0 < n)%nat).

Lemma backups_nonempty : backups n ≠ [].
Proof using Hn. unfold backups. destruct n; [lia|done]. Qed.

Lemma chain_follows hist s :
  follows config n answer op hist (backups n) (_current_strategy s)
    (_execute_fallback_chain config n answer op hist s).
Proof.
  unfold follows, _execute_fallback_chain. rewrite chain_attempt. by destruct (attempt _ _ _ _).
Qed.

(** The primary's answer, then the fallbacks. *)
Lemma primary_follows (won lost : fallback) cur o :
  (∀ r, answer [] Primary = Ok r → pr_success r = true →
     o = (Ok r, won, [Primary]) ∧ _current_strategy won = Primary) →
  (∀ e, answer [] Primary = Err e → is_cancelled e = true →
     o.1.1 = Err e ∧ _current_strategy o.1.2 = cur ∧ o.2 = [Primary]) →
  ((∀ r, answer [] Primary = Ok r → pr_success r = false) →
   (∀ e, answer [] Primary = Err e → is_cancelled e = false) →
     o = _execute_fallback_chain config n answer op [Primary] lost ∧ _current_strategy lost = cur) →
  follows config n answer op [] (Primary :: backups n) cur o.
Proof using Hn.
  intros Hwon Hint Hlost. unfold follows. cbn [attempt app].
  assert (Hc : (∀ r, answer [] Primary = Ok r → pr_success r = false) →
    (∀ e, answer [] Primary = Err e → is_cancelled e = false) →
    ∀ le, match attempt answer [Primary] (backups n) le with
    | Answered w r calls => o.1.1 = Ok r ∧ _current_strategy o.1.2 = w ∧ o.2 = calls
    | AllFailed calls e => o.1.1 = Ok (all_failed config n op e) ∧ _current_strategy o.1.2 = cur ∧ o.2 = calls
    | Interrupted calls e => o.1.1 = Err e ∧ _current_strategy o.1.2 = cur ∧ o.2 = calls
    end).
  { intros H H' le. destruct (Hlost H H') as [-> <-].
    rewrite (attempt_error answer _ _ le None backups_nonempty). apply chain_follows. }
  destruct (answer [] Primary) as [r|e].
  - destruct (pr_success r) eqn:Hr; [destruct (Hwon r eq_refl Hr) as [-> ?]; done|].
    apply Hc; [by intros r' [= <-]|done].
  - destruct (is_cancelled e) eqn:He; [by apply Hint|]. apply Hc; [done|]. by intros e' [= <-].
Qed.

Lemma breaker_follows now later s :
  follows config n answer op []
    (if (check_circuit config now s).1 then Primary :: backups n else backups n)
    (_current_strategy s) (_execute_with_circuit_breaker config n answer op now later s).
Proof using Hn.
  unfold _execute_with_circuit_breaker.
  assert (Hcur : _current_strategy (check_circuit config now s).2 = _current_strategy s)
    by (unfold check_circuit; split_ifs; done).
  destruct (check_circuit config now s) as [[] s1]; cbn [fst snd] in *.
  - apply (primary_follows (primary_succeeded later s1) (primary_failed config later s1)).
    + intros r Ha Hr. unfold after_primary. by rewrite Ha, Hr.
    + intros e Ha He. unfold after_primary. by rewrite Ha, He.
    + intros Hf Hg. rewrite <-Hcur. split; [|done]. unfold after_primary.
      destruct (answer [] Primary) as [r|e]; [by rewrite (Hf r eq_refl)|by rewrite (Hg e eq_refl)].
  - rewrite <-Hcur. apply chain_follows.
Qed.

Lemma retry_follows s :
  follows config n answer op []
    (replicate (Z.to_nat (max_retries config + 1)) Primary ++ backups n)
    (_current_strategy s) (_execute_with_retry_fallback config n answer op s).
Proof using Hn.
  unfold follows, _execute_with_retry_fallback.
  rewrite attempt_app.
  pose proof (retry_attempt answer [] (Z.to_nat (max_retries config + 1)) None) as Hr.
  destruct (retry_primary _ _ _) as [[[r|e]|] calls]; [by rewrite Hr|by rewrite Hr|].
  destruct Hr as [e ->]. rewrite (attempt_error answer _ _ e None backups_nonempty).
  apply chain_follows.
Qed.

Lemma health_follows s :
  follows config n answer op [] (if _primary_healthy s then Primary :: backups n else backups n)
    (_current_strategy s) (_execute_health_based config n answer op s).
Proof using Hn.
  unfold _execute_health_based. destruct (_primary_healthy s); [|apply chain_follows].
  apply (primary_follows (s <| _current_strategy := Primary |>) (s <| _primary_healthy := false |>)).
  - intros r Ha Hr. by rewrite Ha, Hr.
  - intros e Ha He. by rewrite Ha, He.
  - intros Hf Hg. split; [|done].
    destruct (answer [] Primary) as [r|e]; [by rewrite (Hf r eq_refl)|by rewrite (Hg e eq_refl)].
Qed.

Lemma immediate_follows s :
  follows config n answer op [] (Primary :: backups n) (_current_strategy s)
    (_execute_immediate_fallback config n answer op s).
Proof using Hn.
  unfold _execute_immediate_fallback.
  apply (primary_follows (s <| _current_strategy := Primary |>) s).
  - intros r Ha Hr. by rewrite Ha, Hr.
  - intros e Ha He. by rewrite Ha, He.
  - intros Hf Hg. split; [|done].
    destruct (answer [] Primary) as [r|e]; [by rewrite (Hf r eq_refl)|by rewrite (Hg e eq_refl)].
Qed.
End Follows.

(** C39: Every mode of the fallback strategy does what its plan says: the
    strategies of the plan are called in order, each only after the ones before it
    failed; the first success is the result and its strategy becomes the current
    one; when all fail, the whole plan was tried, the last error is what the
    degraded or failed result reports, and the current strategy stays.  When the task
    is cancelled during a call, the cancellation is raised at once: no further
    strategy is called and the current strategy stays. *)
Theorem fallback_refines_plan config n types answer op t health s :
  (0 < n)%nat → _initialized s = true →
  let ws := plan config n (t_check t) (_update_health_status config (t_health t) health s) in
  let '(res, s', calls) := execute_operation config n types answer op t health s in
  match attempt answer [] ws None with
  | Answered w r calls' =>
      res = Ok (with_routing config types (t_elapsed t) s' r) ∧ _current_strategy s' = w ∧
      calls = calls' ∧ calls `prefix_of` ws
  | AllFailed calls' e =>
      res = Ok (with_routing config types (t_elapsed t) s' (all_failed config n op e)) ∧
      _current_strategy s' = _current_strategy s ∧ calls = ws
  | Interrupted calls' e =>
      res = Err e ∧ is_cancelled e = true ∧ _current_strategy s' = _current_strategy s ∧
      calls = calls' ∧ calls `prefix_of` ws
  end.
Proof.
  intros Hn Hi ws. unfold execute_operation. rewrite Hi. cbn [negb].
  set (s1 := _update_health_status config (t_health t) health s) in *.
  assert (Hcur : _current_strategy s1 = _current_strategy s)
    by (unfold s1, _update_health_status; split_ifs; done).
  set (o := match mode config with IMMEDIATE => _ | _ => _ end).
  assert (Hf : follows config n answer op [] ws (_current_strategy s) o).
  { unfold o, ws, plan. rewrite <-Hcur. destruct (mode config).
    - by apply immediate_follows.
    - by apply breaker_follows.
    - by apply retry_follows.
    - by apply health_follows. }
  destruct o as [[r s'] calls]. unfold follows in Hf. pose proof (attempt_calls answer [] ws None) as Hc.
  destruct (attempt answer [] ws None) as [w r' calls'|calls' e|calls' e]; cbn in Hf; destruct Hf as (-> & ? & ->).
  - destruct Hc as (_ & ws1 & ws2 & Hws & -> & _). do 3 (split; [done|]).
    exists ws2. cbn [app]. by rewrite <-app_assoc.
  - by subst calls'.
  - destruct Hc as (Hcan & ws1 & w & ws2 & Hws & -> & _). do 4 (split; [done|]).
    exists ws2. cbn [app]. by rewrite <-app_assoc.
Qed.

(** ** The circuit over a history of operations *)

Definition circuit_ok (config : FallbackConfig) (c : CircuitBreakerState) : Prop :=
  0 ≤ failure_count c ∧ 0 ≤ cb_successful_requests c ∧
  failure_count c + cb_successful_requests c ≤ cb_total_requests c ∧
  match cb_state c with
  | CLOSED => failure_count c < circuit_breaker_threshold config
  | OPEN => circuit_breaker_threshold config ≤ failure_count c ∧ is_Some (last_failure_time c)
  | HALF_OPEN => circuit_breaker_threshold config ≤ failure_count c ∧ is_Some (last_failure_time c)
  end.

(** One operation of a history: the answers, the operation, the times, the health. *)
Record event := mk_event {
  ev_answer : list who → who → result ProviderResult;
  ev_op : ProviderOperation;
  ev_times : readings;
  ev_health : result bool
}.

Definition perform config n types (s : fallback) (e : event) : fallback :=
  (execute_operation config n types (ev_answer e) (ev_op e) (ev_times e) (ev_health e) s).1.2.

Lemma chain_circuit config n answer op hist s :
  _circuit_state (_execute_fallback_chain config n answer op hist s).1.2 = _circuit_state s.
Proof.
  unfold _execute_fallback_chain. rewrite chain_attempt. by destruct (attempt _ _ _ _).
Qed.

Definition primary_won (answer : list who → who → result ProviderResult) : bool :=
  match answer [] Primary with Ok r => pr_success r | Err _ => false end.

Lemma primary_won_spec answer :
  primary_won answer = true ↔ ∃ r, answer [] Primary = Ok r ∧ pr_success r = true.
Proof. unfold primary_won. destruct (answer [] Primary); naive_solver. Qed.

(** The task was cancelled while the primary was asked. *)
Definition primary_cut (answer : list who → who → result ProviderResult) : bool :=
  match answer [] Primary with Ok _ => false | Err e => is_cancelled e end.

Lemma won_not_cut answer : primary_won answer = true → primary_cut answer = false.
Proof. unfold primary_won, primary_cut. by destruct (answer [] Primary). Qed.

(** The breaker after an operation, from the pieces. *)
Lemma breaker_circuit config n answer op now later s :
  _circuit_state (_execute_with_circuit_breaker config n answer op now later s).1.2 =
  let '(ask, s1) := check_circuit config now s in
  _circuit_state (if ask then if primary_cut answer then s1
                              else if primary_won answer then primary_succeeded later s1
                              else primary_failed config later s1
                  else s1).
Proof.
  unfold _execute_with_circuit_breaker, after_primary, primary_won, primary_cut.
  destruct (check_circuit config now s) as [[] s1]; [|apply chain_circuit].
  destruct (answer [] Primary) as [r|e]; [destruct (pr_success r); [done|]|destruct (is_cancelled e); [done|]];
    apply chain_circuit.
Qed.

Lemma breaker_calls config n answer op now later s :
  Primary ∈ (_execute_with_circuit_breaker config n answer op now later s).2
  ↔ (check_circuit config now s).1 = true.
Proof.
  assert (Hb : Primary ∉ backups n).
  { unfold backups. intros [i [? _]]%list_elem_of_fmap. done. }
  assert (Hchain : ∀ hist s, Primary ∈ (_execute_fallback_chain config n answer op hist s).2
                             ↔ Primary ∈ hist).
  { intros hist s'. unfold _execute_fallback_chain. rewrite chain_attempt.
    pose proof (attempt_calls answer hist (backups n) None) as Hc.
    destruct (attempt _ _ _ _) as [w r calls|calls e|calls e]; cbn.
    - destruct Hc as (_ & ws1 & ws2 & Hws & -> & _). rewrite Hws in Hb. set_solver.
    - subst calls. set_solver.
    - destruct Hc as (_ & ws1 & w & ws2 & Hws & -> & _). rewrite Hws in Hb. set_solver. }
  unfold _execute_with_circuit_breaker, after_primary.
  destruct (check_circuit config now s) as [[] s1]; cbn [fst].
  - destruct (answer [] Primary) as [r|e]; [destruct (pr_success r)|destruct (is_cancelled e)];
      cbn; rewrite ?Hchain; set_solver.
  - rewrite Hchain. set_solver.
Qed.

Lemma breaker_keeps_ok config n answer op now later s :
  1 ≤ circuit_breaker_threshold config →
  circuit_ok config (_circuit_state s) →
  circuit_ok config
    (_circuit_state (_execute_with_circuit_breaker config n answer op now later s).1.2).
Proof.
  intros Hth Hok. rewrite breaker_circuit. unfold check_circuit.
  destruct s as [ini [st fc lf ls tot suc] lh ph cur]; unfold circuit_ok in *; cbn in Hok.
  destruct st; cbn -[Z.leb]; [|destruct lf as [t|]; [destruct (_ && _)|]|];
    cbn -[Z.leb]; try (destruct (primary_cut answer)); try (destruct (primary_won answer)); cbn -[Z.leb];
    try (destruct (circuit_breaker_threshold config <=? fc + 1) eqn:Hle;
         cbn -[Z.leb]; first [apply Z.leb_le in Hle|apply Z.leb_gt in Hle]);
    split_and?; try lia; try (by eexists); tauto.
Qed.

(** Through any history of operations, whatever the strategies answer and
    whatever the clock says, the breaker is consistent between operations: it is
    closed only while fewer failures than the threshold came in a row, open or (after
    a trial that was cancelled) half-open only when as many did and with a recorded
    failure time, and the counters never exceed the number of requests. *)
Theorem circuit_history config n types s0 evs :
  init n config = Ok s0 →
  circuit_ok config (_circuit_state (foldl (perform config n types) (s0 <| _initialized := true |>) evs)).
Proof.
  intros Hs0.
  assert (1 ≤ circuit_breaker_threshold config ∧ circuit_ok config (_circuit_state s0)) as [Hth Hok].
  { unfold init in Hs0. destruct n; [done|]. unfold validate_config in Hs0. cbn in Hs0.
    destruct (_ <? 0); [done|]. destruct (_ <? 0); [done|].
    destruct (_ <? 1) eqn:Hth; [done|]. apply Z.ltb_ge in Hth. destruct (_ <=? 0); [done|].
    injection Hs0 as <-. unfold circuit_ok. cbn. lia. }
  assert (Hok' : circuit_ok config (_circuit_state (s0 <| _initialized := true |>))) by done.
  revert Hok'. generalize (s0 <| _initialized := true |>). clear Hs0 Hok s0.
  induction evs as [|e evs IH]; intros s Hok; [done|]. apply IH. clear IH.
  unfold perform, execute_operation. destruct (_initialized s); cbn [negb]; [|done].
  set (s1 := _update_health_status _ _ _ _).
  assert (Hok1 : circuit_ok config (_circuit_state s1))
    by (unfold s1, _update_health_status; split_ifs; done).
  clearbody s1. clear Hok s.
  assert (Hsame : ∀ o : result ProviderResult * fallback * list who, _circuit_state o.1.2 = _circuit_state s1 →
    circuit_ok config (_circuit_state o.1.2)) by (intros o ->; done).
  assert (Hroute : ∀ o : result ProviderResult * fallback * list who,
    circuit_ok config (_circuit_state o.1.2) →
    circuit_ok config (_circuit_state
      (let '(r, s, calls) := o in (with_routing config types (t_elapsed (ev_times e)) s <$> r, s, calls)).1.2))
    by (intros [[r s'] calls]; done).
  apply Hroute. destruct (mode config).
  - apply Hsame. unfold _execute_immediate_fallback.
    destruct (ev_answer e [] Primary) as [r|e'];
      [destruct (pr_success r); [done|]|destruct (is_cancelled e'); [done|]]; apply chain_circuit.
  - by apply breaker_keeps_ok.
  - apply Hsame. unfold _execute_with_retry_fallback.
    destruct (retry_primary _ _ _) as [[[r|e']|] calls]; [done|done|apply chain_circuit].
  - apply Hsame. unfold _execute_health_based. destruct (_primary_healthy s1); [|apply chain_circuit].
    destruct (ev_answer e [] Primary) as [r|e'];
      [destruct (pr_success r); [done|]|destruct (is_cancelled e'); [done|]]; by rewrite chain_circuit.
Qed.

(** The breaker protects the primary and lets it come back: while it is open and
    the timeout has not passed, an operation does not call the primary and leaves
    the breaker alone; once it has passed, the primary is tried, a success closes
    the breaker, a failure keeps it open with a new failure time and a cancellation
    leaves it half-open; while closed or half-open the primary is tried, and the
    breaker opens exactly when its failure is the last one the threshold allows. *)
Theorem breaker_cycle config n answer op now later s :
  circuit_ok config (_circuit_state s) →
  let c := _circuit_state s in
  let '(res, s', calls) := _execute_with_circuit_breaker config n answer op now later s in
  let c' := _circuit_state s' in
  let won := primary_won answer = true in
  let lost := primary_won answer = false ∧ primary_cut answer = false in
  match cb_state c, last_failure_time c with
  | OPEN, Some t =>
      if (negb (t =? 0) && (circuit_breaker_timeout_seconds config <=? now - t))%bool then
        Primary ∈ calls ∧ (cb_state c' = CLOSED ↔ won) ∧
        (cb_state c' = OPEN ↔ lost) ∧ (lost → last_failure_time c' = Some later)
      else (Primary ∉ calls) ∧ c' = c
  | _, _ =>
      Primary ∈ calls ∧
      (cb_state c' = OPEN ↔ (lost ∧ circuit_breaker_threshold config ≤ failure_count c + 1))
  end.
Proof.
  intros Hok. pose proof (breaker_circuit config n answer op now later s) as Hc.
  pose proof (breaker_calls config n answer op now later s) as Hcalls.
  destruct (_execute_with_circuit_breaker _ _ _ _ _ _ _) as [[res s'] calls].
  cbn [fst snd] in *. cbn zeta. rewrite Hc. clear Hc. revert Hcalls.
  unfold check_circuit. destruct s as [ini [st fc lf ls tot suc] lh ph cur]; unfold circuit_ok in Hok.
  cbn -[Z.leb] in *.
  destruct st; cbn -[Z.leb];
    [|destruct lf as [t|]; [|by destruct Hok as (_ & _ & _ & _ & ? & ?)]|];
    [|destruct (_ && _)|]; cbn -[Z.leb]; intros ->;
    pose proof (won_not_cut answer) as Hwc; destruct (primary_cut answer), (primary_won answer);
    try (by specialize (Hwc eq_refl)); cbn -[Z.leb];
    try (destruct (circuit_breaker_threshold config <=? fc + 1) eqn:Hle; cbn -[Z.leb];
         first [apply Z.leb_le in Hle|apply Z.leb_gt in Hle]);
    split_and?; try done; try (split; intros; try done; lia); by intros [? ?].
Qed.

(** ** The event loop *)

Section LoopLemmas.
Context (config : FallbackConfig) (n : nat).
Context (answer : nat → list who → who → result ProviderResult) (op : nat → ProviderOperation).

Local Abbreviation step := (step config n answer op).
Local Abbreviation stuck := (stuck config n answer op).

(** The lock is held exactly by the one task that awaits, and a blocked thread
    sits in a task that has not started. *)
Definition loop_ok (l : loop) : Prop :=
  (∀ i t, lp_tasks l !! i = Some t → awaiting t = true → lp_lock l = Some i) ∧
  (∀ i, lp_lock l = Some i → ∃ t, lp_tasks l !! i = Some t ∧ awaiting t = true) ∧
  (∀ i, lp_blocked l = Some i → lp_tasks l !! i = Some NotStarted ∧ is_Some (lp_lock l)).

Lemma loop_ok_piece s ts lock i t t' :
  loop_ok (mk_loop s lock None ts) → ts !! i = Some t →
  lock = None ∨ lock = Some i →
  ∀ s', loop_ok (mk_loop s' (held_by i t') None (<[i := t']> ts)).
Proof.
  intros (H1 & H2 & _) Hi Hlock s'. pose proof (lookup_lt_Some _ _ _ Hi) as Hlt.
  unfold loop_ok, held_by in *; cbn in *. split_and!.
  - intros j u Hj Hu. destruct (decide (j = i)) as [->|Hne].
    + rewrite list_lookup_insert_eq in Hj by done. injection Hj as <-. by rewrite Hu.
    + rewrite list_lookup_insert_ne in Hj by done. specialize (H1 _ _ Hj Hu). naive_solver.
  - intros j Hj. destruct (awaiting t') eqn:Ht'; [injection Hj as <-|done].
    exists t'. by rewrite list_lookup_insert_eq.
  - done.
Qed.

Lemma loop_ok_step l l' : loop_ok l → step l l' → loop_ok l'.
Proof.
  intros Hok Hs. destruct Hs as [s ts i now t s' Hi _|s ts i j Hi|s ts i now t s' Hi _|s ts i now t t' s' lock Hi Ht _].
  - eapply loop_ok_piece; eauto.
  - destruct Hok as (H1 & H2 & _). unfold loop_ok in *; cbn in *. split_and!; [done..|].
    intros k [= <-]. by split; [|eexists].
  - destruct Hok as (_ & _ & H3). specialize (H3 i eq_refl) as [_ [? ?]]. done.
  - eapply loop_ok_piece; eauto. right. destruct Hok as (H1 & _). exact (H1 _ _ Hi Ht).
Qed.

Lemma loop_ok_run s k l : rtc step (start s k) l → loop_ok l.
Proof.
  intros Hr.
  assert (H0 : loop_ok (start s k)).
  { unfold loop_ok, start; cbn. split_and!; [|done..].
    intros i t [-> _]%lookup_replicate. done. }
  revert H0. induction Hr as [|a b c Hab _ IH]; [done|]. intros Ha. by apply IH, (loop_ok_step a).
Qed.

(** A thread that waits for the lock waits forever. *)
Lemma blocked_stuck l i : loop_ok l → lp_blocked l = Some i → stuck l.
Proof.
  intros (_ & _ & H3) Hb l' Hs. destruct (H3 i Hb) as [_ [j Hj]].
  destruct Hs; cbn in *; congruence.
Qed.
End LoopLemmas.

(** The chain of a task that runs alone. *)
Lemma chain_alone config n answer op i hist ws le s r s' calls ts :
  chain config n (answer i) (op i) hist ws le s = (r, s', calls) →
  (i < length ts)%nat →
  rtc (step config n answer op)
    (mk_loop s (held_by i (to_chain config n op i hist ws le)) None (<[i := to_chain config n op i hist ws le]> ts))
    (mk_loop s' None None (<[i := Done r calls]> ts)).
Proof.
  intros Hc Hi. revert hist le Hc. induction ws as [|w ws IH]; intros hist le; cbn [chain to_chain].
  { by intros [= <- <- <-]. }
  intros Hc.
  assert (Hone : ∀ t2 s2, resume config n answer op i 0 (AtBackup hist w ws) s = (t2, s2) →
    step config n answer op
      (mk_loop s (Some i) None (<[i := AtBackup hist w ws]> ts)) (mk_loop s2 (held_by i t2) None (<[i := t2]> ts))).
  { intros t2 s2 Hr. rewrite <-(list_insert_insert_eq ts i t2 (AtBackup hist w ws)).
    eapply step_resume; [by apply list_lookup_insert_eq|done|done]. }
  cbn [resume] in Hone. destruct (answer i hist w) as [r1|e].
  - destruct (pr_success r1).
    + injection Hc as <- <- <-. apply rtc_once. exact (Hone _ _ eq_refl).
    + eapply rtc_l; [exact (Hone _ _ eq_refl)|]. by apply IH.
  - destruct (is_cancelled e).
    + injection Hc as <- <- <-. apply rtc_once. exact (Hone _ _ eq_refl).
    + eapply rtc_l; [exact (Hone _ _ eq_refl)|]. by apply IH.
Qed.

(** An operation in circuit-breaker mode that has the event loop to itself ends,
    with the result, the state and the calls of [_execute_with_circuit_breaker]. *)
Theorem operation_alone_completes config n answer op now later s r s' calls :
  _execute_with_circuit_breaker config n (answer 0%nat) (op 0%nat) now later s = (r, s', calls) →
  rtc (step config n answer op) (start s 1) (mk_loop s' None None [Done r calls]).
Proof.
  unfold _execute_with_circuit_breaker. intros Hex.
  destruct (check_circuit config now s) as [[] s1] eqn:Hk.
  - eapply rtc_l.
    { apply (step_start config n answer op s [NotStarted] 0 now AtPrimary s1 eq_refl).
      unfold enter. by rewrite Hk. }
    cbn [held_by awaiting]. destruct (after_primary config later (answer 0%nat [] Primary) s1) as [[r1|] s2] eqn:Ha.
    + injection Hex as <- <- <-. apply rtc_once.
      apply (step_resume config n answer op s1 [AtPrimary] 0 later AtPrimary (Done r1 [Primary]) s2); [done..|].
      cbn [resume]. by rewrite Ha.
    + eapply rtc_l.
      { apply (step_resume config n answer op s1 [AtPrimary] 0 later AtPrimary
                 (to_chain config n op 0 [Primary] (backups n) None) s2); [done..|].
        cbn [resume]. by rewrite Ha. }
      apply (chain_alone config n answer op 0 [Primary] (backups n) None s2 r s' calls [AtPrimary] Hex).
      cbn. lia.
  - eapply rtc_l.
    { apply (step_start config n answer op s [NotStarted] 0 now (to_chain config n op 0 [] (backups n) None) s1 eq_refl).
      unfold enter. by rewrite Hk. }
    apply (chain_alone config n answer op 0 [] (backups n) None s1 r s' calls [NotStarted] Hex). cbn. lia.
Qed.

(** Two operations in circuit-breaker mode on one event loop can block it for
    good: the breaker's thread lock is held while the primary is awaited, a second
    operation waits for it in the thread that would have to resume the first, and
    no further step is possible, whatever the strategies answer.  It is the only way
    the loop can get stuck before every operation is done. *)
Theorem breaker_blocks_loop config n answer op s k :
  (2 ≤ k)%nat → cb_state (_circuit_state s) = CLOSED →
  (∃ l, rtc (step config n answer op) (start s k) l ∧ stuck config n answer op l ∧ ¬ all_done l) ∧
  (∀ l, rtc (step config n answer op) (start s k) l → stuck config n answer op l →
     all_done l ∨
     ∃ i j t, lp_blocked l = Some i ∧ lp_lock l = Some j ∧ lp_tasks l !! j = Some t ∧ awaiting t = true).
Proof.
  intros Hk Hc. split.
  - assert (H0 : replicate k NotStarted !! 0%nat = Some NotStarted) by (apply lookup_replicate_2; lia).
    assert (H1 : <[0%nat := AtPrimary]> (replicate k NotStarted) !! 1%nat = Some NotStarted).
    { rewrite list_lookup_insert_ne by done. apply lookup_replicate_2. lia. }
    exists (mk_loop s (Some 0%nat) (Some 1%nat) (<[0%nat := AtPrimary]> (replicate k NotStarted))).
    assert (Hrun : rtc (step config n answer op) (start s k)
      (mk_loop s (Some 0%nat) (Some 1%nat) (<[0%nat := AtPrimary]> (replicate k NotStarted)))).
    { eapply rtc_l; [|apply rtc_once].
      - apply (step_start config n answer op s _ 0 0 AtPrimary s H0).
        unfold enter, check_circuit. by rewrite Hc.
      - by apply step_block. }
    split; [done|]. split; [by eapply blocked_stuck; [apply (loop_ok_run _ _ _ _ _ _ _ Hrun)|]|].
    intros Hd. destruct (Hd 1%nat NotStarted H1) as (? & ? & ?). done.
  - intros l Hr Hst. destruct (loop_ok_run _ _ _ _ _ _ _ Hr) as (H1 & H2 & H3).
    destruct l as [s' lock [i|] ts]; cbn in *.
    + right. destruct (H3 i eq_refl) as [_ [j ->]]. destruct (H2 j eq_refl) as (t & ? & ?). by exists i, j, t.
    + left. intros i t Hi. cbn in Hi. destruct t as [| | |r calls]; [exfalso..|by eauto].
      * destruct lock as [j|]; [by eapply Hst, step_block|].
        destruct (enter config n op i 0 s') as [t s2] eqn:He. by eapply Hst, step_start.
      * destruct (resume config n answer op i 0 AtPrimary s') as [t s2] eqn:He.
        by eapply Hst, step_resume.
      * destruct (resume config n answer op i 0 (AtBackup hist w rest) s') as [t s2] eqn:He.
        by eapply Hst, step_resume.
Qed.

(** ** Witnesses *)

Definition demo_op : ProviderOperation := mk_operation CREATE_INSTANCES "OperationType.CREATE_INSTANCES".
Definition demo_config : FallbackConfig := mk_fallback_config CIRCUIT_BREAKER 3 1 2 60 30 true.
Definition demo_answer (hist : list who) (w : who) : result ProviderResult :=
  match w with
  | Primary => Ok (error_result "no capacity" "CAPACITY" [])
  | Backup 0 => Err (OtherError "TimeoutError" "timed out")
  | Backup _ => Ok (success_result JNull [])
  end.
Definition demo_state : fallback := mk_fallback true fresh_circuit 0 true Primary.
Definition demo_event : event := mk_event demo_answer demo_op (mk_readings 10 11 12 JNull) (Ok true).

Lemma fallback_refines_plan_witness :
  attempt demo_answer [] (plan demo_config 2 11 demo_state) None
    = Answered (Backup 1) (success_result JNull []) [Primary; Backup 0; Backup 1] ∧
  (execute_operation demo_config 2 (λ _, "p") demo_answer demo_op (mk_readings 10 11 12 JNull) (Ok true) demo_state).2
    = [Primary; Backup 0; Backup 1].
Proof.
  split; [reflexivity|].
  pose proof (fallback_refines_plan demo_config 2 (λ _, "p") demo_answer demo_op (mk_readings 10 11 12 JNull)
                (Ok true) demo_state ltac:(lia) eq_refl) as H.
  exact (proj1 (proj2 (proj2 H))).
Defined.

Lemma circuit_history_witness :
  init 2 demo_config = Ok (mk_fallback false fresh_circuit 0 true Primary) ∧
  circuit_ok demo_config (_circuit_state
    (foldl (perform demo_config 2 (λ _, "p"))
       (mk_fallback false fresh_circuit 0 true Primary <| _initialized := true |>) [demo_event; demo_event])).
Proof. split; [reflexivity|]. by apply (circuit_history demo_config 2 (λ _, "p")). Defined.

Lemma breaker_cycle_witness :
  circuit_ok demo_config (mk_circuit OPEN 2 (Some 5) None 2 0) ∧
  Primary ∉ (_execute_with_circuit_breaker demo_config 2 demo_answer demo_op 20 21
               (demo_state <| _circuit_state := mk_circuit OPEN 2 (Some 5) None 2 0 |>)).2.
Proof.
  assert (H : circuit_ok demo_config (mk_circuit OPEN 2 (Some 5) None 2 0))
    by (unfold circuit_ok; cbn; split_and!; try lia; by eexists).
  split; [exact H|].
  exact (proj1 (breaker_cycle demo_config 2 demo_answer demo_op 20 21
                  (demo_state <| _circuit_state := mk_circuit OPEN 2 (Some 5) None 2 0 |>) H)).
Defined.

Lemma operation_alone_completes_witness :
  ∃ r s' calls,
    _execute_with_circuit_breaker demo_config 2 demo_answer demo_op 11 12 demo_state = (r, s', calls) ∧
    rtc (step demo_config 2 (λ _, demo_answer) (λ _, demo_op)) (start demo_state 1)
      (mk_loop s' None None [Done r calls]).
Proof.
  do 3 eexists. split; [reflexivity|].
  apply (operation_alone_completes demo_config 2 (λ _, demo_answer) (λ _, demo_op) 11 12). reflexivity.
Defined.

Lemma breaker_blocks_loop_witness :
  ∃ l, rtc (step demo_config 2 (λ _, demo_answer) (λ _, demo_op)) (start demo_state 2) l ∧
       stuck demo_config 2 (λ _, demo_answer) (λ _, demo_op) l ∧ ¬ all_done l.
Proof.
  exact (proj1 (breaker_blocks_loop demo_config 2 (λ _, demo_answer) (λ _, demo_op) demo_state 2
                  ltac:(lia) eq_refl)).
Defined.
