(* ===== verification/Composite.v ===== *)
(** * The composite strategy

    [orb/providers/base/strategy/composite_strategy.py]: several strategies behind
    one, run in parallel, one after the other or by weight, their results
    aggregated.

    A strategy is known by its provider type, the key it is stored under.  What the
    strategies answer, how long they take, in which order parallel ones complete
    and the random draw are arguments.  Weights, rates and thresholds are rationals,
    where the code has floats. *)

From stdpp Require Import base strings list relations.
From Stdlib Require Import ZArith QArith Lqa Lia.
From S2P Require Import Prelude ProviderStrategy.
Open Scope Z_scope.

Inductive CompositionMode := PARALLEL | SEQUENTIAL | LOAD_BALANCED | AGGREGATED | REDUNDANT.
Inductive AggregationPolicy := MERGE_ALL | FIRST_SUCCESS | MAJORITY_WINS | BEST_PERFORMANCE.

#[export] Instance AggregationPolicy_eq_dec : EqDecision AggregationPolicy.
Proof. solve_decision. Defined.

Definition composition_value (m : CompositionMode) : string :=
  match m with
  | PARALLEL => "parallel" | SEQUENTIAL => "sequential" | LOAD_BALANCED => "load_balanced"
  | AGGREGATED => "aggregated" | REDUNDANT => "redundant"
  end.

Record CompositionConfig := mk_composition {
  cc_mode : CompositionMode;
  aggregation_policy : AggregationPolicy;
  max_concurrent_operations : Z;
  cc_timeout_seconds : Z;
  require_all_success : bool;
  min_success_count : Z;
  failure_threshold : Q
}.

(** [__post_init__]. *)
Definition validate_composition (c : CompositionConfig) : result CompositionConfig :=
  if max_concurrent_operations c <? 1 then
    Err (ValueError "max_concurrent_operations must be at least 1")
  else if cc_timeout_seconds c <=? 0 then Err (ValueError "timeout_seconds must be positive")
  else if min_success_count c <? 1 then Err (ValueError "min_success_count must be at least 1")
  else if negb (Qle_bool 0 (failure_threshold c) && Qle_bool (failure_threshold c) 1) then
    Err (ValueError "failure_threshold must be between 0 and 1")
  else Ok c.

Record StrategyExecutionResult := mk_execution {
  strategy_type : string;
  er_result : ProviderResult;
  execution_time_ms : Z;
  er_success : bool
}.

Record composite := mk_composite {
  _strategies : list string;           (* the keys, in insertion order *)
  _strategy_weights : dict Q;
  _initialized : bool
}.

Definition composite_eta (s : composite) : composite :=
  mk_composite (_strategies s) (_strategy_weights s) (_initialized s).
#[export] Hint Extern 1 (@Setter composite _ _) => solve_setter composite_eta : typeclass_instances.

(** ** The strategies and their weights *)

Definition equal_share (n : nat) : Q := (1 / inject_Z (Z.of_nat n))%Q.

(** Every existing weight set to [w]. *)
Definition rebalance (w : Q) (d : dict Q) : dict Q := (λ kv, (kv.1, w)) <$> d.

Definition init (strategies : list string) (config : CompositionConfig) : result composite :=
  match strategies with
  | [] => Err (ValueError "At least one strategy is required for composition")
  | _ =>
      c ← validate_composition config;
      let names := dedup_by id strategies in
      Ok (mk_composite names ((λ t, (t, equal_share (length names))) <$> names) false)
  end.

Definition add_strategy (t : string) (weight : option Q) (s : composite) : composite :=
  let names := if t ∈? _strategies s then _strategies s else _strategies s ++ [t] in
  let '(w, weights) :=
    match weight with
    | Some w => (w, _strategy_weights s)
    | None => let w := equal_share (length names) in (w, rebalance w (_strategy_weights s))
    end in
  mk_composite names (dset t w weights) (_initialized s).

(** The deletion of a key that is missing would raise. *)
Definition remove_strategy (t : string) (s : composite) : result (bool * composite) :=
  if negb (t ∈? _strategies s) then Ok (false, s)
  else
    let names := filter (λ t', t' ≠ t) (_strategies s) in
    if negb (dmem t (_strategy_weights s)) then Err (KeyError t)
    else
      let weights := dpop t (_strategy_weights s) in
      Ok (true, mk_composite names
                  match names with
                  | [] => weights
                  | _ => rebalance (equal_share (length names)) weights
                  end (_initialized s)).

Definition set_strategy_weight (t : string) (w : Q) (s : composite) : result (bool * composite) :=
  if negb (t ∈? _strategies s) then Ok (false, s)
  else if negb (Qle_bool 0 w && Qle_bool w 1) then
    Err (ValueError "Weight must be between 0.0 and 1.0")
  else Ok (true, s <| _strategy_weights := dset t w (_strategy_weights s) |>).

(** [initialize]: for each strategy, whether it is or gets initialised. *)
Definition initialize (config : CompositionConfig) (answers : list (result bool)) (s : composite)
  : bool * composite :=
  if _initialized s then (true, s)
  else let ok := Z.max 1 (min_success_count config) <=? count_ok id answers in
       (ok, s <| _initialized := ok |>).

Definition cleanup (s : composite) : composite := mk_composite [] [] false.

(** ** Selection by weight *)

Definition sum_weights (d : dict Q) : Q := foldr (λ kv n, (kv.2 + n)%Q) 0%Q d.

(** The loop: the first strategy at which the running sum reaches the draw. *)
Fixpoint pick (draw cumulative : Q) (d : dict Q) : option string :=
  match d with
  | [] => None
  | (t, w) :: d' => if Qle_bool draw (cumulative + w) then Some t else pick draw (cumulative + w) d'
  end.

(** [draw] is the random number, in [0, 1). *)
Definition _select_strategy_by_weight (draw : Q) (capable : list string) (s : composite) : option string :=
  let available := filter (λ kv, kv.1 ∈ capable) (_strategy_weights s) in
  let total := sum_weights available in
  if bool_decide (available = []) || Qeq_bool total 0 then head capable
  else match pick (draw * total) 0 available with Some t => Some t | None => head capable end.

(** ** Aggregation *)

Definition failure_rate (failed all : nat) : Q :=
  match all with O => 1 | _ => (inject_Z (Z.of_nat failed) / inject_Z (Z.of_nat all))%Q end.

Definition no_results : ProviderResult := error_result "No successful results to aggregate" "NO_RESULTS" [].

Definition _aggregate_first_success (rs : list StrategyExecutionResult) : ProviderResult :=
  match rs with
  | [] => no_results
  | r :: _ =>
      let routing := dset "selected_strategy" (JStr (strategy_type r))
                       (dset "aggregation_policy" (JStr "first_success")
                          (default [] (pr_routing_info (er_result r)))) in
      er_result r <| pr_routing_info := Some routing |>
  end.

(** One result merged into the data so far.  Extending what is not a list raises. *)
Definition merge_one (acc : result (dict json)) (r : StrategyExecutionResult) : result (dict json) :=
  match acc with
  | Err e => Err e
  | Ok data =>
      match pr_data (er_result r) with
      | JDict d => Ok (dmerge data d)
      | JList l =>
          match dget "merged_list" data with
          | None => Ok (dset "merged_list" (JList l) data)
          | Some (JList l0) => Ok (dset "merged_list" (JList (l0 ++ l)) data)
          | Some _ => Err (OtherError "AttributeError" "object has no attribute 'extend'")
          end
      | j => Ok (dset (strategy_type r) j data)
      end
  end.

Definition _aggregate_merge_all (rs : list StrategyExecutionResult) : result ProviderResult :=
  match rs with
  | [] => Ok no_results
  | _ =>
      match foldl merge_one (Ok []) rs with
      | Err e => Err e
      | Ok data =>
          Ok (success_result (JDict data)
                [("aggregation_policy", JStr "merge_all");
                 ("contributing_strategies", JList ((λ r, JStr (strategy_type r)) <$> rs))])
      end
  end.

(** [min(.., key=..)]: the first of the fastest. *)
Fixpoint fastest (best : StrategyExecutionResult) (rs : list StrategyExecutionResult)
  : StrategyExecutionResult :=
  match rs with
  | [] => best
  | r :: rs' => fastest (if execution_time_ms r <? execution_time_ms best then r else best) rs'
  end.

Definition _aggregate_best_performance (rs : list StrategyExecutionResult) : ProviderResult :=
  match rs with
  | [] => no_results
  | r :: rs' =>
      let b := fastest r rs' in
      let routing := dset "execution_time_ms" (JInt (execution_time_ms b))
                       (dset "selected_strategy" (JStr (strategy_type b))
                          (dset "aggregation_policy" (JStr "best_performance")
                             (default [] (pr_routing_info (er_result b))))) in
      er_result b <| pr_routing_info := Some routing |>
  end.

Section Execute.
Context (config : CompositionConfig).
(** The text of a rational in an f-string. *)
Context (fmt_q : Q → string).

Definition names_of (rs : list StrategyExecutionResult) : json :=
  JList ((λ r, JStr (strategy_type r)) <$> rs).

Definition _aggregate_results (rs : list StrategyExecutionResult) : result ProviderResult :=
  let good := filter (λ r, er_success r = true) rs in
  let bad := filter (λ r, er_success r = false) rs in
  let rate := failure_rate (length bad) (length rs) in
  if negb (Qle_bool rate (failure_threshold config)) then
    Ok (error_result ("Too many strategies failed: " +:+ fmt (Z.of_nat (length bad)) +:+ "/"
                      +:+ fmt (Z.of_nat (length rs)) +:+ " (threshold: "
                      +:+ fmt_q (failure_threshold config) +:+ ")")
          "FAILURE_THRESHOLD_EXCEEDED"
          [("failed_strategies", names_of bad); ("failure_rate", JStr (fmt_q rate))])
  else if Z.of_nat (length good) <? min_success_count config then
    Ok (error_result ("Insufficient successful strategies: " +:+ fmt (Z.of_nat (length good)) +:+ "/"
                      +:+ fmt (min_success_count config) +:+ " required")
          "INSUFFICIENT_SUCCESS"
          [("successful_strategies", names_of good); ("required_count", JInt (min_success_count config))])
  else
    match aggregation_policy config with
    | FIRST_SUCCESS => Ok (_aggregate_first_success good)
    | BEST_PERFORMANCE => Ok (_aggregate_best_performance good)
    | MERGE_ALL | MAJORITY_WINS => _aggregate_merge_all good
    end.

(** ** Execution *)

Context (answer : string → result ProviderResult).
Context (elapsed : string → Z).

Definition _execute_single_strategy (t : string) : StrategyExecutionResult :=
  match answer t with
  | Ok r => mk_execution t r (elapsed t) (pr_success r)
  | Err e => mk_execution t (error_result ("Strategy execution failed: " +:+ exn_str e) "STRATEGY_ERROR" [])
               (elapsed t) false
  end.

(** The strategies in the order in which they complete, or [None] when they do not
    all complete in time. *)
Definition _execute_parallel (completed : option (list string)) : result (list StrategyExecutionResult) :=
  match completed with
  | Some order => Ok (_execute_single_strategy <$> order)
  | None => Err (OtherError "TimeoutError" "futures unfinished")
  end.

Fixpoint _execute_sequential (ts : list string) : list StrategyExecutionResult :=
  match ts with
  | [] => []
  | t :: ts' =>
      let r := _execute_single_strategy t in
      if (aggregation_policy config ≟ FIRST_SUCCESS) && er_success r then [r]
      else r :: _execute_sequential ts'
  end.

Definition _execute_load_balanced (draw : Q) (capable : list string) (s : composite)
  : list StrategyExecutionResult :=
  match _select_strategy_by_weight draw capable s with
  | Some t => [_execute_single_strategy t]
  | None => []
  end.

(** [get_capabilities] of each strategy. *)
Context (capabilities : string → result (list OperationType)).

Definition _filter_capable_strategies (op : ProviderOperation) (s : composite) : list string :=
  filter (λ t, match capabilities t with Ok ops => bool_decide (operation_type op ∈ ops) | Err _ => false end = true)
    (_strategies s).

Definition routed (rs : list StrategyExecutionResult) (total : json) (r : ProviderResult) : ProviderResult :=
  r <| pr_routing_info :=
    Some [("composition_mode", JStr (composition_value (cc_mode config)));
          ("total_execution_time_ms", total);
          ("strategies_executed", JInt (Z.of_nat (length rs)));
          ("successful_strategies", JInt (Z.of_nat (length (filter (λ r, er_success r = true) rs))))] |>.

(** [completed]: the completion order of the parallel run of these strategies. *)
Definition execute_operation (op : ProviderOperation) (draw : Q)
    (completed : list string → option (list string)) (total : json) (s : composite) : ProviderResult :=
  if negb (_initialized s) then error_result "Composite strategy not initialized" "NOT_INITIALIZED" []
  else
    let capable := _filter_capable_strategies op s in
    match capable with
    | [] => error_result ("No strategies support operation " +:+ operation_text op)
              "NO_CAPABLE_STRATEGIES" []
    | _ =>
        let outcome :=
          rs ← match cc_mode config with
               | SEQUENTIAL => Ok (_execute_sequential capable)
               | LOAD_BALANCED => Ok (_execute_load_balanced draw capable s)
               | PARALLEL | AGGREGATED | REDUNDANT => _execute_parallel (completed capable)
               end;
          r ← _aggregate_results rs;
          Ok (routed rs total r) in
        match outcome with
        | Ok r => r
        | Err e => error_result ("Composite operation failed: " +:+ exn_str e)
                     "COMPOSITE_EXECUTION_ERROR" [("total_execution_time_ms", total)]
        end
    end.
End Execute.

(** [check_health]: at least half of the strategies are healthy. *)
Definition check_health (reports : list (result bool)) (details : dict json) : ProviderHealthStatus :=
  let up := count_ok id reports in
  let total := Z.of_nat (length reports) in
  if (0 <? total) && (total <=? 2 * up) then
    healthy ("Composite strategy healthy: " +:+ fmt up +:+ "/" +:+ fmt total +:+ " strategies operational")
  else unhealthy ("Composite strategy unhealthy: only " +:+ fmt up +:+ "/" +:+ fmt total
                  +:+ " strategies operational") details.

(** ** The weights through the life of a composite *)

Inductive cstep (config : CompositionConfig) : composite → composite → Prop :=
| cs_add t w s : cstep config s (add_strategy t w s)
| cs_remove t s b s' : remove_strategy t s = Ok (b, s') → cstep config s s'
| cs_weight t w s b s' : set_strategy_weight t w s = Ok (b, s') → cstep config s s'
| cs_initialize answers s : cstep config s (initialize config answers s).2
| cs_cleanup s : cstep config s (cleanup s).

(** The weights have the strategies as their keys, each once. *)
Definition keyed (s : composite) : Prop :=
  dkeys (_strategy_weights s) = _strategies s ∧ NoDup (_strategies s).

Lemma dkeys_rebalance w d : dkeys (rebalance w d) = dkeys d.
Proof. unfold dkeys, rebalance. rewrite <-list_fmap_compose. by apply list_fmap_ext. Qed.

Lemma sum_rebalance w d :
  (sum_weights (rebalance w d) == inject_Z (Z.of_nat (length d)) * w)%Q.
Proof.
  induction d as [|[t v] d IH]; [unfold Qeq; cbn; lia|]. cbn [length].
  change (sum_weights (rebalance w ((t, v) :: d))) with (w + sum_weights (rebalance w d))%Q.
  rewrite IH, Nat2Z.inj_succ. unfold Z.succ. rewrite inject_Z_plus. ring.
Qed.

Lemma sum_equal_share d :
  d ≠ [] → (sum_weights (rebalance (equal_share (length d)) d) == 1)%Q.
Proof.
  intros Hd. rewrite sum_rebalance. unfold equal_share. field.
  destruct d as [|x d]; [done|]. cbn [length]. rewrite Nat2Z.inj_succ.
  unfold Qeq, inject_Z. cbn. lia.
Qed.

Lemma keyed_add t w s : keyed s → keyed (add_strategy t w s).
Proof.
  intros [Hk Hnd]. unfold add_strategy, keyed.
  destruct w as [w|]; cbn [_strategies _strategy_weights]; rewrite dkeys_dset, ?dkeys_rebalance, Hk; case_decide;
    first [rewrite bool_decide_true by done|rewrite bool_decide_false by done]; split; try done;
    apply NoDup_app; set_solver by eauto using NoDup_singleton.
Qed.

Lemma keyed_remove t s b s' : keyed s → remove_strategy t s = Ok (b, s') → keyed s'.
Proof.
  intros [Hk Hnd]. unfold remove_strategy.
  destruct (negb _); [by intros [= <- <-]|]. destruct (negb _); [done|]. intros [= <- <-].
  unfold keyed. cbn [_strategies _strategy_weights].
  assert (Hkeys : dkeys (dpop t (_strategy_weights s)) = filter (λ t', t' ≠ t) (_strategies s))
    by (by rewrite dkeys_dpop, Hk).
  split; [|by apply NoDup_filter].
  destruct (filter _ _); [done|by rewrite dkeys_rebalance].
Qed.

Lemma keyed_step config s s' : keyed s → cstep config s s' → keyed s'.
Proof.
  intros Hk Hs. destruct Hs as [t w s|t s b s' Hr|t w s b s' Hr|answers s|s].
  - by apply keyed_add.
  - by eapply keyed_remove.
  - unfold set_strategy_weight in Hr. destruct (bool_decide (t ∈ _strategies s)) eqn:Ht; cbn [negb] in Hr;
      [|by injection Hr as <- <-].
    destruct (negb _); [done|]. injection Hr as <- <-. destruct Hk as [Hk Hnd].
    split; [|done]. cbn -[dset dkeys]. apply bool_decide_eq_true in Ht.
    rewrite dkeys_dset, decide_True by (by rewrite Hk). done.
  - unfold initialize. by destruct (_initialized s).
  - split; [done|constructor].
Qed.

Lemma dkeys_pair (w : Q) l : dkeys ((λ t, (t, w)) <$> l) = l.
Proof. unfold dkeys. induction l as [|t l IH]; [done|]. rewrite !fmap_cons. by rewrite IH. Qed.

Lemma dset_rebalance t w d : dset t w (rebalance w d) = rebalance w (dset t w d).
Proof.
  unfold rebalance. induction d as [|[k v] d IH]; [done|]. rewrite fmap_cons. cbn [dset fst].
  destruct (decide (k = t)); rewrite fmap_cons; [done|by rewrite IH].
Qed.

Lemma length_dkeys {V} (d : dict V) : length (dkeys d) = length d.
Proof. apply length_fmap. Qed.

(** Weights that were just rebalanced are a distribution. *)
Lemma sum_shared d n : n = length d → d ≠ [] → (sum_weights (rebalance (equal_share n) d) == 1)%Q.
Proof. intros ->. apply sum_equal_share. Qed.

Lemma keyed_init names config s0 : init names config = Ok s0 → keyed s0.
Proof.
  unfold init. destruct names as [|t names]; [done|].
  pose proof (dedup_by_NoDup id (t :: names)) as Hnd. rewrite list_fmap_id in Hnd. revert Hnd.
  generalize (dedup_by id (t :: names)). intros l Hnd.
  destruct (validate_composition config) as [c|]; [|done]. intros [= <-]. split; [apply dkeys_pair|done].
Qed.

(** Whatever strategies are added, removed or reweighted, the weights are kept
    for exactly the strategies of the composite, each once, in the same order; so
    removing a strategy never raises, and adding one without a weight or removing
    one leaves weights that sum to one. *)
Theorem composite_weights config names s0 s :
  init names config = Ok s0 → rtc (cstep config) s0 s →
  dkeys (_strategy_weights s) = _strategies s ∧ NoDup (_strategies s) ∧
  (∀ t, (sum_weights (_strategy_weights (add_strategy t None s)) == 1)%Q) ∧
  (∀ t, ∃ b s', remove_strategy t s = Ok (b, s') ∧ (b = true ↔ t ∈ _strategies s) ∧
     (b = true → _strategies s' ≠ [] → (sum_weights (_strategy_weights s') == 1)%Q)).
Proof.
  intros Hi Hr.
  assert (Hk : keyed s).
  { apply keyed_init in Hi. induction Hr as [|a b c Hab _ IH]; [done|]. by apply IH, (keyed_step config a). }
  pose proof (λ t, keyed_add t None s Hk) as Hadd. destruct Hk as [Hk Hnd].
  split; [done|]. split; [done|]. split; intros t.
  - specialize (Hadd t). unfold add_strategy in *. cbn [_strategy_weights] in *.
    rewrite dset_rebalance in *. destruct Hadd as [Hkeys _]. cbn [_strategies _strategy_weights] in Hkeys.
    rewrite dkeys_rebalance in Hkeys. apply sum_shared.
    + rewrite <-length_dkeys. by f_equal.
    + destruct (_strategy_weights s) as [|[k v] d]; cbn [dset]; [done|by destruct (decide (k = t))].
  - unfold remove_strategy. destruct (bool_decide (t ∈ _strategies s)) eqn:Ht; cbn [negb].
    2:{ apply bool_decide_eq_false in Ht. by exists false, s. }
    apply bool_decide_eq_true in Ht. rewrite (proj2 (dmem_elem_of t _)) by (by rewrite Hk). cbn [negb].
    do 2 eexists. split; [done|]. split; [done|]. intros _. cbn [_strategies _strategy_weights]. intros Hne.
    assert (Hkeys : dkeys (dpop t (_strategy_weights s)) = filter (λ t', t' ≠ t) (_strategies s))
      by (by rewrite dkeys_dpop, Hk).
    destruct (filter _ _) as [|x l] eqn:Hl; [done|]. apply sum_shared.
    + by rewrite <-length_dkeys, Hkeys.
    + intros H0. by rewrite H0 in Hkeys.
Qed.

(** ** Selection *)

Lemma pick_spec draw cum d t :
  pick draw cum d = Some t →
  ∃ d1 w d2, d = d1 ++ (t, w) :: d2 ∧ (draw <= cum + sum_weights d1 + w)%Q ∧
             (d1 = [] ∨ (cum + sum_weights d1 < draw)%Q).
Proof.
  revert cum. induction d as [|[k v] d IH]; intros cum; cbn [pick]; [done|].
  destruct (Qle_bool draw (cum + v)) eqn:Hle.
  - intros [= <-]. apply Qle_bool_iff in Hle. exists [], v, d. split; [done|]. split; [|by left].
    cbn. lra.
  - intros (d1 & w & d2 & -> & Hd & Hpre)%IH.
    assert (Hlt : (cum + v < draw)%Q).
    { apply Qnot_le_lt. intros H. apply Qle_bool_iff in H. congruence. }
    exists ((k, v) :: d1), w, d2. split; [done|]. cbn [sum_weights foldr snd]. fold (sum_weights d1).
    split; [lra|]. right. destruct Hpre as [->|Hpre]; cbn; lra.
Qed.

Lemma pick_total draw cum d : (draw <= cum + sum_weights d)%Q → d ≠ [] → is_Some (pick draw cum d).
Proof.
  revert cum. induction d as [|[k v] d IH]; intros cum Hle Hd; [done|]. cbn [pick].
  destruct (Qle_bool draw (cum + v)) eqn:Hb; [by eexists|].
  cbn [sum_weights foldr snd] in Hle. fold (sum_weights d) in Hle.
  destruct d as [|x d].
  - exfalso. cbn in Hle. assert ((draw <= cum + v)%Q) as H by lra. apply Qle_bool_iff in H. congruence.
  - apply IH; [lra|done].
Qed.

(** Selection by weight draws a strategy that can do the operation, in proportion
    to the weights: the strategy whose share of the line from zero to the total
    contains the draw, shares laid out in the order of the strategies.  A draw falls
    in the share of a strategy of weight zero only at the very start. *)
Theorem weighted_selection draw capable s :
  let available := filter (λ kv : string * Q, kv.1 ∈ capable) (_strategy_weights s) in
  let total := sum_weights available in
  (0 <= draw)%Q → (draw <= 1)%Q → (0 < total)%Q →
  ∃ d1 t w d2,
    _select_strategy_by_weight draw capable s = Some t ∧ t ∈ capable ∧
    available = d1 ++ (t, w) :: d2 ∧
    (draw * total <= sum_weights d1 + w)%Q ∧ (d1 = [] ∨ (sum_weights d1 < draw * total)%Q).
Proof.
  intros available total H0 H1 Htot. unfold _select_strategy_by_weight.
  fold available. fold total.
  assert (Hne : available ≠ []) by (intros He; unfold total in Htot; rewrite He in Htot; cbn in Htot; lra).
  rewrite bool_decide_false by done.
  destruct (Qeq_bool total 0) eqn:Hq; [apply Qeq_bool_iff in Hq; lra|]. cbn [orb].
  destruct (pick_total (draw * total) 0 available) as [t Ht]; [|done|].
  { fold total. nra. }
  rewrite Ht. destruct (pick_spec _ _ _ _ Ht) as (d1 & w & d2 & Hav & Hle & Hpre).
  exists d1, t, w, d2. split; [done|]. split.
  - assert (Hin : (t, w) ∈ available) by (rewrite Hav; set_solver).
    apply list_elem_of_filter in Hin as [Hin _]. done.
  - split; [done|]. split; [lra|]. destruct Hpre as [->|Hpre]; [by left|right; lra].
Qed.

(** ** Aggregation *)

Section Aggregation.
Context (config : CompositionConfig) (fmt_q : Q → string).
Context (answer : string → result ProviderResult) (elapsed : string → Z).

Local Abbreviation exec := (_execute_single_strategy answer elapsed).

(** Whether the strategy answered with a success. *)
Definition wins (t : string) : bool :=
  match answer t with Ok r => pr_success r | Err _ => false end.

Lemma exec_success t : er_success (exec t) = wins t.
Proof. unfold _execute_single_strategy, wins. by destruct (answer t). Qed.

Lemma exec_result t : pr_success (er_result (exec t)) = wins t.
Proof. unfold _execute_single_strategy, wins. by destruct (answer t). Qed.

Lemma exec_type t : strategy_type (exec t) = t.
Proof. unfold _execute_single_strategy. by destruct (answer t). Qed.

Lemma filter_exec b (ts : list string) :
  filter (λ r, er_success r = b) (exec <$> ts) = exec <$> filter (λ t, wins t = b) ts.
Proof.
  induction ts as [|t ts IH]; [done|]. rewrite fmap_cons, !filter_cons, exec_success.
  destruct (decide (wins t = b)); [by rewrite fmap_cons, IH|done].
Qed.

Lemma fastest_elem best rs : fastest best rs ∈ best :: rs.
Proof.
  revert best. induction rs as [|r rs IH]; intros best; cbn [fastest]; [set_solver|].
  specialize (IH (if execution_time_ms r <? execution_time_ms best then r else best)).
  destruct (execution_time_ms r <? execution_time_ms best); set_solver.
Qed.

(** What has to hold for an aggregate to be a success. *)
Definition enough (ts : list string) : bool :=
  Qle_bool (failure_rate (length (filter (λ t, wins t = false) ts)) (length ts)) (failure_threshold config)
  && (min_success_count config <=? Z.of_nat (length (filter (λ t, wins t = true) ts))).

(** The aggregate of the strategies run is a success exactly when enough of them
    won; only a merge can raise. *)
Lemma aggregate_success (ts : list string) :
  1 ≤ min_success_count config →
  match _aggregate_results config fmt_q (exec <$> ts) with
  | Ok r => pr_success r = enough ts
  | Err _ => enough ts = true ∧ aggregation_policy config ∈ [MERGE_ALL; MAJORITY_WINS]
  end.
Proof.
  intros Hmin. unfold _aggregate_results, enough. rewrite !filter_exec, !length_fmap.
  destruct (Qle_bool _ _); cbn [negb andb]; [|done].
  destruct (_ <? _) eqn:Hlt.
  { cbn. symmetry. apply Z.leb_gt. by apply Z.ltb_lt. }
  apply Z.ltb_ge in Hlt. rewrite (proj2 (Z.leb_le _ _) Hlt).
  destruct (filter (λ t, wins t = true) ts) as [|t l] eqn:Hl; [cbn in Hlt; lia|].
  assert (Hw : ∀ u, u ∈ t :: l → wins u = true)
    by (intros u Hu; rewrite <-Hl in Hu; by apply list_elem_of_filter in Hu as [? _]).
  rewrite fmap_cons. destruct (aggregation_policy config).
  - cbn [_aggregate_merge_all]. destruct (foldl _ _ _); [done|]. split; [done|set_solver].
  - cbn. rewrite exec_result. apply Hw. set_solver.
  - cbn [_aggregate_merge_all]. destruct (foldl _ _ _); [done|]. split; [done|set_solver].
  - cbn -[exec fastest]. pose proof (fastest_elem (exec t) (exec <$> l)) as Hf.
    rewrite <-fmap_cons in Hf. apply list_elem_of_fmap in Hf as (u & -> & Hu).
    rewrite exec_result. by apply Hw.
Qed.

(** The sequential run that stops at the first success. *)
Lemma sequential_first ts1 t ts2 :
  aggregation_policy config = FIRST_SUCCESS →
  (∀ u, u ∈ ts1 → wins u = false) → wins t = true →
  _execute_sequential config answer elapsed (ts1 ++ t :: ts2) = exec <$> (ts1 ++ [t]).
Proof.
  intros Hp Hf Ht. induction ts1 as [|u ts1 IH]; cbn [app _execute_sequential];
    rewrite Hp, bool_decide_true by done; cbn [andb].
  - by rewrite exec_success, Ht.
  - rewrite exec_success, (Hf u) by set_solver. cbn [andb]. rewrite IH by set_solver. by rewrite fmap_cons.
Qed.
End Aggregation.

Lemma filter_true {A} (P : A → Prop) `{!∀ x, Decision (P x)} (l : list A) :
  (∀ x, x ∈ l → P x) → filter P l = l.
Proof.
  induction l as [|x l IH]; intros Hall; [done|]. rewrite filter_cons_True by (apply Hall; set_solver).
  f_equal. apply IH. set_solver.
Qed.

Lemma filter_false {A} (P : A → Prop) `{!∀ x, Decision (P x)} (l : list A) :
  (∀ x, x ∈ l → ¬ P x) → filter P l = [].
Proof.
  induction l as [|x l IH]; intros Hall; [done|]. rewrite filter_cons_False by (apply Hall; set_solver).
  apply IH. set_solver.
Qed.

Section Results.
Context (config : CompositionConfig) (fmt_q : Q → string).
Context (answer : string → result ProviderResult) (elapsed : string → Z).
Context (capabilities : string → result (list OperationType)).

Local Abbreviation exec := (_execute_single_strategy answer elapsed).
Local Abbreviation execute :=
  (execute_operation config fmt_q answer elapsed capabilities).
Local Abbreviation capable := (_filter_capable_strategies capabilities).

(** The result of an operation whose run produced the strategies [ts]. *)
Definition concluded (total : json) (ts : list string) : ProviderResult :=
  match _aggregate_results config fmt_q (exec <$> ts) with
  | Ok r => routed config (exec <$> ts) total r
  | Err e => error_result ("Composite operation failed: " +:+ exn_str e)
               "COMPOSITE_EXECUTION_ERROR" [("total_execution_time_ms", total)]
  end.

Lemma concluded_success total ts :
  1 ≤ min_success_count config →
  (pr_success (concluded total ts) = true → enough config answer ts = true) ∧
  (aggregation_policy config ∉ [MERGE_ALL; MAJORITY_WINS] →
   pr_success (concluded total ts) = enough config answer ts).
Proof.
  intros Hmin. pose proof (aggregate_success config fmt_q answer elapsed ts Hmin) as Ha.
  unfold concluded. destruct (_aggregate_results _ _ _) as [r|e]; cbn.
  - by rewrite Ha.
  - split; [done|]. intros Hn. by destruct Ha.
Qed.

Lemma execute_sequential_concluded op draw completed total s ts :
  _initialized s = true → capable op s ≠ [] → cc_mode config = SEQUENTIAL →
  _execute_sequential config answer elapsed (capable op s) = exec <$> ts →
  execute op draw completed total s = concluded total ts.
Proof.
  intros Hi Hne Hm Hrun. unfold execute_operation, concluded. rewrite Hi. cbn [negb].
  destruct (capable op s) as [|c cs]; [done|]. rewrite Hm, Hrun. cbn [mbind result_bind].
  by destruct (_aggregate_results _ _ _).
Qed.

(** Running strategies one after the other until the first success does not
    report that success when too many failed before it: after [k] failures the
    operation succeeds exactly when [k] of [k + 1] is within the failure threshold and
    one success is enough.  With the default threshold of one half, a success that
    comes third is reported as a failure, whatever it created. *)
Theorem first_success_threshold op draw completed total s failed t rest :
  1 ≤ min_success_count config →
  cc_mode config = SEQUENTIAL → aggregation_policy config = FIRST_SUCCESS →
  _initialized s = true → capable op s = failed ++ t :: rest →
  (∀ u, u ∈ failed → wins answer u = false) → wins answer t = true →
  let k := Z.of_nat (length failed) in
  pr_success (execute op draw completed total s) =
    Qle_bool (inject_Z k / inject_Z (k + 1)) (failure_threshold config) && (min_success_count config <=? 1).
Proof.
  intros Hmin Hm Hp Hi Hcap Hf Ht k.
  rewrite (execute_sequential_concluded _ _ _ _ _ (failed ++ [t])); [|done|by rewrite Hcap; destruct failed|done|].
  2:{ rewrite Hcap. by apply sequential_first. }
  destruct (concluded_success total (failed ++ [t]) Hmin) as [_ ->]; [|rewrite Hp; set_solver].
  unfold enough.
  assert (Hbad : filter (λ u, wins answer u = false) (failed ++ [t]) = failed).
  { rewrite filter_app, filter_cons_False, filter_nil, app_nil_r by (by rewrite Ht).
    by apply filter_true. }
  assert (Hgood : filter (λ u, wins answer u = true) (failed ++ [t]) = [t]).
  { rewrite filter_app, filter_cons_True, filter_nil by done.
    rewrite filter_false; [done|]. intros u Hu. by rewrite Hf. }
  rewrite Hbad, Hgood, length_app. cbn [length]. unfold failure_rate.
  replace (length failed + 1)%nat with (S (length failed)) by lia.
  rewrite Nat2Z.inj_succ. done.
Qed.

(** Under load balancing, which runs a single strategy, no operation succeeds
    when more than one success is required. *)
Theorem load_balanced_single op draw completed total s :
  2 ≤ min_success_count config → cc_mode config = LOAD_BALANCED →
  pr_success (execute op draw completed total s) = false.
Proof.
  intros Hmin Hm. unfold execute_operation. destruct (_initialized s); cbn [negb]; [|done].
  destruct (capable op s) as [|c cs]; [done|]. rewrite Hm. cbn [mbind result_bind].
  set (rs := _execute_load_balanced _ _ _ _ _).
  assert (Hrs : ∃ ts, rs = exec <$> ts ∧ (length ts <= 1)%nat).
  { unfold rs, _execute_load_balanced. destruct (_select_strategy_by_weight _ _ _) as [t|];
      [by exists [t]|exists []]; split; auto. }
  destruct Hrs as (ts & -> & Hlen).
  pose proof (aggregate_success config fmt_q answer elapsed ts ltac:(lia)) as Ha.
  assert (He : enough config answer ts = false).
  { unfold enough. apply andb_false_iff. right. apply Z.leb_gt.
    pose proof (length_filter (λ t, wins answer t = true) ts). lia. }
  rewrite He in Ha. destruct (_aggregate_results _ _ _) as [r|e]; [done|by destruct Ha].
Qed.

(** Merging dictionaries, results in completion order. *)
Lemma merge_dicts (rs : list StrategyExecutionResult) ds data :
  pr_data ∘ er_result <$> rs = JDict <$> ds →
  foldl merge_one (Ok data) rs = Ok (foldl dmerge data ds).
Proof.
  revert ds data. induction rs as [|r rs IH]; intros [|d ds] data Hd; try done.
  rewrite !fmap_cons in Hd. injection Hd as Hr Hd. cbn [foldl merge_one].
  cbn in Hr. rewrite Hr. by apply IH.
Qed.

(** The policy that is to merge all successful results keeps, of results that are
    dictionaries, only the value of the last one to complete for each key: the
    resource identifiers of every strategy but the last are dropped from the merged
    result. *)
Theorem merge_all_keeps_last (rs : list StrategyExecutionResult) r ds d k v :
  pr_data ∘ er_result <$> rs = JDict <$> ds → pr_data (er_result r) = JDict d →
  dict_wf d → dget k d = Some v →
  ∃ m, _aggregate_merge_all (rs ++ [r]) =
       Ok (success_result (JDict m)
             [("aggregation_policy", JStr "merge_all");
              ("contributing_strategies", JList ((λ r, JStr (strategy_type r)) <$> rs ++ [r]))]) ∧
       dget k m = Some v.
Proof.
  intros Hrs Hr Hwf Hk. exists (dmerge (foldl dmerge [] ds) d). split.
  - unfold _aggregate_merge_all. rewrite foldl_app, (merge_dicts _ _ _ Hrs). cbn [foldl merge_one].
    rewrite Hr. by destruct rs.
  - rewrite dget_dmerge by done. by rewrite Hk.
Qed.
End Results.

(** The majority policy does not vote: two configurations that differ in having it
    or the merging policy aggregate alike. *)
Lemma no_majority_vote c c' fmt_q rs :
  aggregation_policy c = MAJORITY_WINS → aggregation_policy c' = MERGE_ALL →
  failure_threshold c = failure_threshold c' → min_success_count c = min_success_count c' →
  _aggregate_results c fmt_q rs = _aggregate_results c' fmt_q rs.
Proof. intros H H' Ht Hm. unfold _aggregate_results. by rewrite H, H', Ht, Hm. Qed.

(** ** Witnesses *)

Definition demo_composition (m : CompositionMode) (p : AggregationPolicy) (min : Z) : CompositionConfig :=
  mk_composition m p 5 30 false min (1 # 2)%Q.
Definition demo_composite : composite :=
  mk_composite ["aws"; "gcp"; "oci"] [("aws", 1 # 3); ("gcp", 1 # 3); ("oci", 1 # 3)]%Q true.
Definition demo_create : ProviderOperation := mk_operation CREATE_INSTANCES "create_instances".
Definition demo_created (ids : list string) : ProviderResult :=
  success_result (JDict [("resource_ids", JList (JStr <$> ids))]) [].
(** Only the third strategy has capacity. *)
Definition demo_third (t : string) : result ProviderResult :=
  if t ≟ "oci" then Ok (demo_created ["i-1"]) else Ok (error_result "no capacity" "CAPACITY" []).
Definition demo_capabilities (_ : string) : result (list OperationType) := Ok [CREATE_INSTANCES].

Lemma composite_weights_witness :
  init ["aws"; "gcp"] (demo_composition PARALLEL MERGE_ALL 1)
    = Ok (mk_composite ["aws"; "gcp"] [("aws", equal_share 2); ("gcp", equal_share 2)] false) ∧
  (sum_weights (_strategy_weights (add_strategy "oci" None
     (mk_composite ["aws"; "gcp"] [("aws", equal_share 2); ("gcp", equal_share 2)] false))) == 1)%Q.
Proof.
  split; [reflexivity|].
  exact (proj1 (proj2 (proj2 (composite_weights (demo_composition PARALLEL MERGE_ALL 1) ["aws"; "gcp"] _ _
                                eq_refl (rtc_refl _ _)))) "oci").
Defined.

Lemma weighted_selection_witness :
  _select_strategy_by_weight (1 # 2) ["gcp"; "oci"] demo_composite = Some "gcp" ∧
  ∃ d1 t w d2, _select_strategy_by_weight (1 # 2) ["gcp"; "oci"] demo_composite = Some t ∧
    t ∈ ["gcp"; "oci"] ∧
    filter (λ kv : string * Q, kv.1 ∈ ["gcp"; "oci"]) (_strategy_weights demo_composite) = d1 ++ (t, w) :: d2.
Proof.
  split; [reflexivity|].
  destruct (weighted_selection (1 # 2) ["gcp"; "oci"] demo_composite) as (d1 & t & w & d2 & H1 & H2 & H3 & _);
    [by vm_compute|by vm_compute|by vm_compute|].
  exists d1, t, w, d2. auto.
Defined.

Lemma first_success_threshold_witness :
  wins demo_third "oci" = true ∧
  pr_success (execute_operation (demo_composition SEQUENTIAL FIRST_SUCCESS 1) (λ _, "0.5") demo_third (λ _, 1)
                demo_capabilities demo_create 0 (λ _, None) JNull demo_composite) = false.
Proof.
  split; [reflexivity|].
  rewrite (first_success_threshold (demo_composition SEQUENTIAL FIRST_SUCCESS 1) (λ _, "0.5") demo_third
             (λ _, 1) demo_capabilities demo_create 0 (λ _, None) JNull demo_composite ["aws"; "gcp"] "oci" []
             ltac:(cbn; lia) eq_refl eq_refl eq_refl eq_refl); [reflexivity| |reflexivity].
  intros u. rewrite !elem_of_cons. intros [->|[->|[]%not_elem_of_nil]]; reflexivity.
Defined.

Lemma load_balanced_single_witness :
  pr_success (execute_operation (demo_composition LOAD_BALANCED MERGE_ALL 2) (λ _, "0.5")
                (λ _, Ok (demo_created ["i-1"])) (λ _, 1) demo_capabilities demo_create 0 (λ _, None) JNull
                demo_composite) = false.
Proof.
  exact (load_balanced_single (demo_composition LOAD_BALANCED MERGE_ALL 2) (λ _, "0.5")
           (λ _, Ok (demo_created ["i-1"])) (λ _, 1) demo_capabilities demo_create 0 (λ _, None) JNull
           demo_composite ltac:(cbn; lia) eq_refl).
Defined.

Lemma merge_all_keeps_last_witness :
  let r1 := mk_execution "aws" (demo_created ["i-1"]) 10 true in
  let r2 := mk_execution "gcp" (demo_created ["vm-2"]) 12 true in
  ∃ m meta, _aggregate_merge_all [r1; r2] = Ok (success_result (JDict m) meta) ∧
    dget "resource_ids" m = Some (JList [JStr "vm-2"]).
Proof.
  intros r1 r2.
  destruct (merge_all_keeps_last [r1] r2 [[("resource_ids", JList [JStr "i-1"])]]
              [("resource_ids", JList [JStr "vm-2"])] "resource_ids" (JList [JStr "vm-2"])
              eq_refl eq_refl) as (m & Hm & Hk).
  - apply NoDup_singleton.
  - reflexivity.
  - eauto.
Defined.
