(* ===== verification/TimeText.v ===== *)
(** * Timestamps as text

    [datetime.isoformat] (in [Prelude]) and [datetime.fromisoformat] on UTC instants,
    as the serializers of [orb/infrastructure/storage] use them, and that reading
    gives back what was written.  [fromisoformat] is given on the layout [isoformat]
    writes, with the two separators Python accepts between date and time there; the
    other layouts of ISO 8601 are refused here. *)

From stdpp Require Import base strings list numbers pretty.
From Stdlib Require Import Ascii ZArith Lia.
From S2P Require Import Prelude.
Open Scope Z_scope.

(** ** Digits *)

Definition digit_value (c : ascii) : option Z :=
  let n := Z.of_N (N_of_ascii c) - 48 in
  if (0 <=? n) && (n <=? 9) then Some n else None.

Definition read_digit (a : Z) (s : string) : option (Z * string) :=
  match s with
  | String c s' => match digit_value c with Some n => Some (a * 10 + n, s') | None => None end
  | EmptyString => None
  end.

(** Exactly [w] digits. *)
Fixpoint read_digits (w : nat) (a : Z) (s : string) : option (Z * string) :=
  match w with
  | O => Some (a, s)
  | S w' => '(a', s') ← read_digit a s; read_digits w' a' s'
  end.

(** The character [c], and the rest. *)
Definition expect (c : ascii) (s : string) : option string :=
  match s with String c' s' => if decide (c' = c) then Some s' else None | EmptyString => None end.

(** The [w] decimal digits of [n], before [s]. *)
Fixpoint digits (w : nat) (n : N) (s : string) : string :=
  match w with
  | O => s
  | S w' => digits w' (n / 10) (String (pretty_N_char (n mod 10)) s)
  end.

Lemma digit_value_char n : (n < 10)%N → digit_value (pretty_N_char n) = Some (Z.of_N n).
Proof.
  intros Hn. assert (n = 0 ∨ n = 1 ∨ n = 2 ∨ n = 3 ∨ n = 4 ∨ n = 5 ∨ n = 6 ∨ n = 7 ∨ n = 8 ∨ n = 9)%N by lia.
  naive_solver.
Qed.

Lemma read_digits_S w a s :
  read_digits (S w) a s = '(a', s') ← read_digits w a s; read_digit a' s'.
Proof.
  revert a s. induction w as [|w IH]; intros a s.
  - cbn. by destruct (read_digit a s) as [[]|].
  - change (read_digits (S (S w)) a s) with ('(a', s') ← read_digit a s; read_digits (S w) a' s').
    change (read_digits (S w) a s) with ('(a', s') ← read_digit a s; read_digits w a' s').
    destruct (read_digit a s) as [[a' s']|]; cbn [mbind option_bind]; [apply IH|done].
Qed.

Lemma read_digits_digits w n s a :
  (n < 10 ^ N.of_nat w)%N → read_digits w a (digits w n s) = Some (a * 10 ^ Z.of_nat w + Z.of_N n, s).
Proof.
  revert n s. induction w as [|w IH]; intros n s Hn.
  - cbn in *. f_equal. f_equal. lia.
  - rewrite Nat2N.inj_succ, N.pow_succ_r' in Hn.
    rewrite read_digits_S. cbn [digits]. rewrite IH by (apply N.Div0.div_lt_upper_bound; lia).
    cbn [mbind option_bind read_digit]. rewrite digit_value_char by (apply N.mod_lt; lia).
    f_equal. f_equal. rewrite Nat2Z.inj_succ, Z.pow_succ_r by lia.
    rewrite (N.div_mod n 10) at 3 by lia. lia.
Qed.

(** ** Padded numbers are digits *)

Lemma pretty_go_app n s t : pretty_N_go n s +:+ t = pretty_N_go n (s +:+ t).
Proof.
  revert s. induction (N.lt_wf_0 n) as [n _ IH]; intros s.
  destruct (decide (n = 0)%N) as [->|]; [by rewrite !pretty_N_go_0|].
  rewrite !(pretty_N_go_step n) by lia. rewrite IH by (apply N.div_lt; lia). by rewrite append_cons.
Qed.

Fixpoint zeros (k : nat) (s : string) : string :=
  match k with O => s | S k' => String "0" (zeros k' s) end.

Lemma zero_pad_zeros w s : zero_pad w s = zeros (w - String.length s) s.
Proof.
  induction w as [|w IH]; [done|]. cbn [zero_pad]. destruct (Nat.ltb_spec (String.length s) (S w)).
  - rewrite Nat.sub_succ_l by lia. cbn [zeros]. by rewrite IH.
  - by replace (S w - String.length s)%nat with 0%nat by lia.
Qed.

Lemma zeros_snoc k s : zeros (S k) s = zeros k (String "0" s).
Proof. induction k as [|k IH]; [done|]. change (String "0" (zeros (S k) s) = String "0" (zeros k (String "0" s))). by rewrite IH. Qed.

Lemma zeros_app k s t : zeros k s +:+ t = zeros k (s +:+ t).
Proof. induction k as [|k IH]; [done|]. cbn [zeros]. rewrite append_cons. by rewrite IH. Qed.

Lemma zeros_digits w s : zeros w s = digits w 0 s.
Proof. revert s. induction w as [|w IH]; intros s; [done|]. by rewrite zeros_snoc, IH. Qed.

Lemma pretty_go_digits w n s :
  (n < 10 ^ N.of_nat w)%N →
  zeros (w + String.length s - String.length (pretty_N_go n s)) (pretty_N_go n s) = digits w n s.
Proof.
  revert n s. induction w as [|w IH]; intros n s Hn.
  - cbn in Hn. replace n with 0%N by lia. rewrite pretty_N_go_0.
    by replace (0 + String.length s - String.length s)%nat with 0%nat by lia.
  - rewrite Nat2N.inj_succ, N.pow_succ_r' in Hn.
    destruct (decide (n = 0)%N) as [->|Hne].
    + rewrite pretty_N_go_0, Nat.add_sub. apply zeros_digits.
    + cbn [digits]. rewrite pretty_N_go_step by lia.
      rewrite <-IH by (apply N.Div0.div_lt_upper_bound; lia). cbn [String.length].
      f_equal. lia.
Qed.

Lemma pad_digits w z rest :
  (0 < w)%nat → 0 ≤ z < 10 ^ Z.of_nat w → pad w z +:+ rest = digits w (Z.to_N z) rest.
Proof.
  intros Hw Hz.
  assert (Hfmt : fmt z = if decide (z = 0) then "0" else pretty_N_go (Z.to_N z) "").
  { unfold fmt. destruct z as [|p|p]; [done| |lia]. done. }
  unfold pad. rewrite zero_pad_zeros, zeros_app, Hfmt. destruct (decide (z = 0)) as [->|Hne].
  - cbn [String.length]. change ("0" +:+ rest) with (String "0" ("" +:+ rest)). change ("" +:+ rest) with rest.
    destruct w as [|w]; [lia|]. replace (S w - 1)%nat with w by lia. rewrite <-zeros_snoc. apply zeros_digits.
  - rewrite pretty_go_app. change ("" +:+ rest) with rest.
    rewrite <-(pretty_go_digits w (Z.to_N z) rest).
    2:{ apply N2Z.inj_lt. rewrite Z2N.id, N2Z.inj_pow, nat_N_Z by lia. lia. }
    f_equal. assert (Hlen : String.length (pretty_N_go (Z.to_N z) rest)
      = (String.length (pretty_N_go (Z.to_N z) "") + String.length rest)%nat).
    { change rest with ("" +:+ rest) at 1. by rewrite <-pretty_go_app, length_append. }
    rewrite Hlen. lia.
Qed.

Lemma read_pad w z rest a :
  (0 < w)%nat → 0 ≤ z < 10 ^ Z.of_nat w →
  read_digits w a (pad w z +:+ rest) = Some (a * 10 ^ Z.of_nat w + z, rest).
Proof.
  intros Hw Hz. rewrite pad_digits, read_digits_digits; [by rewrite Z2N.id by lia| |done..].
  apply N2Z.inj_lt. rewrite Z2N.id, N2Z.inj_pow, nat_N_Z by lia. lia.
Qed.

(** ** Dates *)

(** The day counted from 1970-01-01 of a proleptic Gregorian date. *)
Definition days_from_civil (y m d : Z) : Z :=
  let y := if m <=? 2 then y - 1 else y in
  let era := y / 400 in
  let yoe := y - era * 400 in
  let doy := (153 * (if 2 <? m then m - 3 else m + 9) + 2) / 5 + d - 1 in
  let doe := yoe * 365 + yoe / 4 - yoe / 100 + doy in
  era * 146097 + doe - 719468.

Definition leap (y : Z) : bool := (y mod 4 =? 0) && (negb (y mod 100 =? 0) || (y mod 400 =? 0)).

Definition days_in_month (y m : Z) : Z :=
  if m =? 2 then if leap y then 29 else 28
  else if (m =? 4) || (m =? 6) || (m =? 9) || (m =? 11) then 30 else 31.

(** The first and the last day a [datetime] can hold. *)
Definition min_day : Z := -719162.
Definition max_day : Z := 2932896.

(** The year, day and month of an era of 400 years, from its day. *)
Lemma era_bounds doe :
  0 ≤ doe < 146097 →
  let yoe := (doe - doe / 1460 + doe / 36524 - doe / 146096) / 365 in
  let doy := doe - (365 * yoe + yoe / 4 - yoe / 100) in
  0 ≤ yoe ≤ 399 ∧ 0 ≤ doy ≤ 365 ∧
  (doy = 365 → (yoe + 1) mod 4 = 0 ∧ ((yoe + 1) mod 100 ≠ 0 ∨ (yoe + 1) mod 400 = 0)) ∧
  (306 ≤ doe → 1 ≤ yoe ∨ 306 ≤ doy) ∧ (doe ≤ 146036 → yoe ≤ 398 ∨ doy ≤ 305).
Proof.
  intros H. cbn zeta. split_and!; Z.to_euclidean_division_equations; lia.
Qed.

(** The month of a year that begins in March, and the date it belongs to. *)
Definition month_of (mp : Z) : Z := if mp <? 10 then mp + 3 else mp - 9.
Definition year_of (y mp : Z) : Z := if month_of mp <=? 2 then y + 1 else y.

Lemma month_of_spec y mp :
  0 ≤ mp ≤ 11 →
  1 ≤ month_of mp ≤ 12 ∧ y ≤ year_of y mp ≤ y + 1 ∧ (year_of y mp = y + 1 ↔ 10 ≤ mp) ∧
  (if month_of mp <=? 2 then year_of y mp - 1 else year_of y mp) = y ∧
  (if 2 <? month_of mp then month_of mp - 3 else month_of mp + 9) = mp.
Proof.
  intros Hmp. unfold year_of, month_of. destruct (Z.ltb_spec mp 10).
  - rewrite (proj2 (Z.leb_gt _ _)), (proj2 (Z.ltb_lt _ _)) by lia. lia.
  - rewrite (proj2 (Z.leb_le _ _)), (proj2 (Z.ltb_ge _ _)) by lia. lia.
Qed.

(** A day of the year that begins in March is within its month. *)
Lemma day_in_month doy mp y :
  0 ≤ doy ≤ 365 → mp = (5 * doy + 2) / 153 → (doy = 365 → leap y = true) →
  0 ≤ mp ≤ 11 ∧ 1 ≤ doy - (153 * mp + 2) / 5 + 1 ≤ days_in_month y (month_of mp).
Proof.
  intros Hdoy Hmp Hleap.
  assert (Hr : 153 * mp ≤ 5 * doy + 2 < 153 * mp + 153)
    by (subst mp; Z.to_euclidean_division_equations; lia).
  assert (mp = 0 ∨ mp = 1 ∨ mp = 2 ∨ mp = 3 ∨ mp = 4 ∨ mp = 5 ∨ mp = 6 ∨ mp = 7 ∨ mp = 8 ∨ mp = 9 ∨
          mp = 10 ∨ mp = 11) as Hcases by lia.
  clear Hmp. split; [lia|].
  repeat (destruct Hcases as [->|Hcases]); [..|subst mp];
    match goal with |- context [days_in_month y (month_of ?k)] =>
      let s := eval vm_compute in ((153 * k + 2) / 5) in change ((153 * k + 2) / 5) with s;
      let m := eval vm_compute in (month_of k) in change (month_of k) with m
    end; unfold days_in_month; cbn [Z.eqb Pos.eqb orb]; try lia.
  destruct (decide (doy = 365)) as [->|]; [rewrite Hleap by done; lia|destruct (leap y); lia].
Qed.

Lemma civil_bounds n :
  min_day ≤ n ≤ max_day →
  let '(y, m, d) := civil_from_days n in
  1 ≤ y ≤ 9999 ∧ 1 ≤ m ≤ 12 ∧ 1 ≤ d ≤ days_in_month y m ∧ days_from_civil y m d = n.
Proof.
  intros Hn. unfold min_day, max_day in Hn. unfold civil_from_days. cbn zeta.
  set (era := (n + 719468) / 146097).
  assert (Hera : 0 ≤ era ≤ 24) by (unfold era; Z.to_euclidean_division_equations; lia).
  set (doe := n + 719468 - era * 146097).
  assert (Hdoe : 0 ≤ doe < 146097) by (unfold doe, era; Z.to_euclidean_division_equations; lia).
  assert (Hlow : era = 0 → 306 ≤ doe) by (intros He; unfold doe; rewrite He; lia).
  assert (Hhigh : era = 24 → doe ≤ 146036) by (intros He; unfold doe; rewrite He; lia).
  assert (Hnd : n = era * 146097 + doe - 719468) by (unfold doe; lia).
  pose proof (era_bounds doe Hdoe) as Hb. cbn zeta in Hb.
  set (yoe := (doe - doe / 1460 + doe / 36524 - doe / 146096) / 365) in *.
  set (doy := doe - (365 * yoe + yoe / 4 - yoe / 100)) in *.
  destruct Hb as (Hyoe & Hdoy & Hleap & Hb1 & Hb2).
  assert (Hdd : doe = yoe * 365 + yoe / 4 - yoe / 100 + doy) by (unfold doy; lia).
  clearbody doy yoe doe era. set (mp := (5 * doy + 2) / 153).
  change (if mp <? 10 then mp + 3 else mp - 9) with (month_of mp).
  change (if month_of mp <=? 2 then yoe + era * 400 + 1 else yoe + era * 400)
    with (year_of (yoe + era * 400) mp).
  assert (Hmp : 0 ≤ mp ≤ 11 ∧ (306 ≤ doy → 10 ≤ mp) ∧ (doy ≤ 305 → mp ≤ 9))
    by (unfold mp; Z.to_euclidean_division_equations; lia).
  destruct Hmp as (Hmp & Hm1 & Hm2).
  destruct (month_of_spec (yoe + era * 400) mp Hmp) as (Hm & Hy & Hy1 & Hback & Hmb).
  split; [lia|]. split; [done|]. split.
  - apply day_in_month; [done|done|]. intros H365.
    assert (Hyr : year_of (yoe + era * 400) mp = yoe + era * 400 + 1) by (apply Hy1, Hm1; lia).
    rewrite Hyr. destruct (Hleap H365) as [H4 H100]. unfold leap. apply andb_true_iff.
    split; [apply Z.eqb_eq; Z.to_euclidean_division_equations; lia|].
    apply orb_true_iff. destruct H100 as [H|H];
      [left; apply negb_true_iff, Z.eqb_neq|right; apply Z.eqb_eq]; Z.to_euclidean_division_equations; lia.
  - unfold days_from_civil. rewrite Hback, Hmb. cbn zeta.
    assert (Hq : (yoe + era * 400) / 400 = era) by (Z.to_euclidean_division_equations; lia).
    rewrite Hq. replace (yoe + era * 400 - era * 400) with yoe by lia. lia.
Qed.

(** ** [fromisoformat] *)

(** [HH:MM:SS[.ffffff]] as microseconds of the day. *)
Definition read_time (s : string) : option (Z * string) :=
  '(hh, s) ← read_digits 2 0 s; s ← expect ":" s;
  '(mm, s) ← read_digits 2 0 s; s ← expect ":" s;
  '(ss, s) ← read_digits 2 0 s;
  '(us, s) ← match expect "." s with Some s => read_digits 6 0 s | None => Some (0, s) end;
  if (hh <? 24) && (mm <? 60) && (ss <? 60)
  then Some ((hh * 3600 + mm * 60 + ss) * 1000000 + us, s) else None.

(** [YYYY-MM-DD] as a day. *)
Definition read_date (s : string) : option (Z * string) :=
  '(y, s) ← read_digits 4 0 s; s ← expect "-" s;
  '(m, s) ← read_digits 2 0 s; s ← expect "-" s;
  '(d, s) ← read_digits 2 0 s;
  if (1 <=? y) && (1 <=? m) && (m <=? 12) && (1 <=? d) && (d <=? days_in_month y m)
  then Some (days_from_civil y m d, s) else None.

Definition fromisoformat (s : string) : option datetime :=
  '(day, s) ← read_date s;
  s ← match expect "T" s with Some s => Some s | None => expect " " s end;
  '(us, s) ← read_time s;
  if s ≟ "+00:00" then Some (day * seconds 86400 + us) else None.

(** The instants a [datetime] can hold. *)
Definition in_range (t : datetime) : Prop := min_day * seconds 86400 ≤ t < (max_day + 1) * seconds 86400.

Lemma expect_app c s : expect c (String c "" +:+ s) = Some s.
Proof. rewrite append_cons. change ("" +:+ s) with s. cbn. by rewrite decide_True. Qed.

Lemma expect_app_ne c c' s : c ≠ c' → expect c (String c' "" +:+ s) = None.
Proof. intros Hne. rewrite append_cons. cbn. by rewrite decide_False. Qed.

Lemma read_date_spec n rest :
  min_day ≤ n ≤ max_day →
  let '(y, m, d) := civil_from_days n in
  read_date (pad 4 y +:+ "-" +:+ pad 2 m +:+ "-" +:+ pad 2 d +:+ rest) = Some (n, rest).
Proof.
  intros Hn. pose proof (civil_bounds n Hn) as Hc. destruct (civil_from_days n) as [[y m] d].
  destruct Hc as (Hy & Hm & Hd & Hback).
  assert (Hd31 : d ≤ 31) by (revert Hd; unfold days_in_month; repeat case_match; lia).
  unfold read_date. rewrite read_pad by lia. cbn [mbind option_bind]. rewrite expect_app.
  cbn [mbind option_bind]. rewrite read_pad by lia. cbn [mbind option_bind]. rewrite expect_app.
  cbn [mbind option_bind]. rewrite read_pad by lia. cbn [mbind option_bind].
  rewrite !Z.mul_0_l, !Z.add_0_l. rewrite (proj2 (Z.leb_le 1 y)), (proj2 (Z.leb_le 1 m)),
    (proj2 (Z.leb_le m 12)), (proj2 (Z.leb_le 1 d)), (proj2 (Z.leb_le d _)) by lia.
  cbn [andb]. by rewrite Hback.
Qed.

Lemma read_time_spec us rest :
  0 ≤ us < seconds 86400 → expect "." rest = None →
  let s := us / 1000000 in
  let frac := us mod 1000000 in
  read_time (pad 2 (s / 3600) +:+ ":" +:+ pad 2 ((s / 60) mod 60) +:+ ":" +:+ pad 2 (s mod 60) +:+
             (if frac =? 0 then "" else "." +:+ pad 6 frac) +:+ rest) = Some (us, rest).
Proof.
  intros Hus Hrest s frac. unfold seconds in Hus.
  assert (Hs : 0 ≤ s < 86400 ∧ us = s * 1000000 + frac ∧ 0 ≤ frac < 1000000)
    by (unfold s, frac; Z.to_euclidean_division_equations; lia).
  destruct Hs as (Hs & Hsum & Hfrac). clearbody s frac.
  assert (Hh : 0 ≤ s / 3600 < 24 ∧ 0 ≤ (s / 60) mod 60 < 60 ∧ 0 ≤ s mod 60 < 60 ∧
               s = s / 3600 * 3600 + (s / 60) mod 60 * 60 + s mod 60)
    by (Z.to_euclidean_division_equations; lia).
  destruct Hh as (Hh & Hm & Hse & Hall).
  unfold read_time. rewrite read_pad by lia. cbn [mbind option_bind]. rewrite expect_app.
  cbn [mbind option_bind]. rewrite read_pad by lia. cbn [mbind option_bind]. rewrite expect_app.
  cbn [mbind option_bind]. rewrite read_pad by lia. cbn [mbind option_bind].
  rewrite !Z.mul_0_l, !Z.add_0_l.
  rewrite (proj2 (Z.ltb_lt _ 24)), (proj2 (Z.ltb_lt _ 60)), (proj2 (Z.ltb_lt _ 60)) by lia.
  cbn [andb]. rewrite <-Hall. destruct (Z.eqb_spec frac 0) as [H0|Hne].
  - change ("" +:+ rest) with rest. rewrite Hrest. cbn [mbind option_bind]. by rewrite Hsum, H0.
  - rewrite append_assoc, expect_app, read_pad by lia. cbn [mbind option_bind].
    by rewrite Z.mul_0_l, Z.add_0_l, Hsum.
Qed.

(** Reading a timestamp gives back the instant that was written. *)
Lemma fromisoformat_isoformat t : in_range t → fromisoformat (isoformat t) = Some t.
Proof.
  intros Ht. unfold in_range, min_day, max_day in Ht. unfold fromisoformat, isoformat.
  set (n := t / seconds 86400). set (us := t mod seconds 86400).
  assert (Hn : min_day ≤ n ≤ max_day ∧ 0 ≤ us < seconds 86400 ∧ t = n * seconds 86400 + us).
  { unfold n, us, min_day, max_day, seconds in *. Z.to_euclidean_division_equations; lia. }
  destruct Hn as (Hn & Hus & Hsum). clearbody n us.
  pose proof (read_date_spec n) as Hd. destruct (civil_from_days n) as [[y m] d].
  rewrite Hd by done. cbn [mbind option_bind]. rewrite expect_app. cbn [mbind option_bind].
  rewrite read_time_spec by done. cbn [mbind option_bind]. by rewrite bool_decide_true, <-Hsum.
Qed.
