(* ===== verification/JsonText.v ===== *)
(** * JSON text

    [json.dumps] and [json.loads] of the Python standard library, as the page cursors
    ([orb/application/services/orchestration/page_cursor.py]) and the serializers
    ([orb/infrastructure/storage/repositories]) use them, and that loading gives back
    what was dumped.

    Characters are the 256 of [ascii], read as code points.  Numbers with a fraction
    or an exponent, like the constants Python adds to JSON, are refused, as [json] has
    no floating point; so are escapes of code points above 255. *)

From stdpp Require Import base strings list numbers pretty sets.
From Stdlib Require Import Ascii ZArith Lia.
From S2P Require Import Prelude TimeText.
Open Scope Z_scope.

(** ** Writing *)

(** The double quote. *)
Definition dq : ascii := "034"%char.

Definition hex_char (n : N) : ascii := hex_digit (N.to_nat n).

(** The escapes of [ensure_ascii]: everything outside the printable characters. *)
Definition escape_char (c : ascii) : string :=
  let n := N_of_ascii c in
  if c ≟ dq then String "\" (String dq EmptyString)
  else if c ≟ "\"%char then "\\"
  else if (n =? 10)%N then "\n"
  else if (n =? 13)%N then "\r"
  else if (n =? 9)%N then "\t"
  else if (n =? 12)%N then "\f"
  else if (n =? 8)%N then "\b"
  else if (32 <=? n)%N && (n <=? 126)%N then String c ""
  else "\u00" +:+ String (hex_char (n / 16)) (String (hex_char (n mod 16)) "").

Fixpoint escape (s : string) : string :=
  match s with
  | EmptyString => ""
  | String c s' => escape_char c +:+ escape s'
  end.

Definition quoted (s : string) : string := String dq (escape s +:+ String dq EmptyString).

Section Dumps.
Context (item_sep key_sep : string).      (* [separators] *)

Fixpoint dumps (j : json) : string :=
  match j with
  | JNull => "null"
  | JBool true => "true"
  | JBool false => "false"
  | JInt z => fmt z
  | JStr s => quoted s
  | JList l =>
      let fix items (first : bool) (l : list json) : string :=
        match l with
        | [] => "]"
        | x :: l' => (if first then "" else item_sep) +:+ dumps x +:+ items false l'
        end in
      "[" +:+ items true l
  | JDict d =>
      let fix members (first : bool) (d : list (string * json)) : string :=
        match d with
        | [] => "}"
        | (k, x) :: d' =>
            (if first then "" else item_sep) +:+ quoted k +:+ key_sep +:+ dumps x +:+ members false d'
        end in
      "{" +:+ members true d
  end.
End Dumps.

(** ** Reading *)

Fixpoint skip_ws (s : string) : string :=
  match s with
  | String c s' => if N_of_ascii c ∈? [32; 10; 13; 9]%N then skip_ws s' else s
  | EmptyString => ""
  end.

Definition hex_value (c : ascii) : option N :=
  let n := N_of_ascii c in
  if (48 <=? n)%N && (n <=? 57)%N then Some (n - 48)%N
  else if (97 <=? n)%N && (n <=? 102)%N then Some (n - 87)%N
  else if (65 <=? n)%N && (n <=? 70)%N then Some (n - 55)%N
  else None.

(** The character behind a backslash that is not [u]. *)
Definition unescape (c : ascii) : option ascii :=
  if c ≟ dq then Some dq
  else if c ≟ "\"%char then Some "\"%char
  else if c ≟ "/"%char then Some "/"%char
  else if c ≟ "n"%char then Some (ascii_of_N 10)
  else if c ≟ "r"%char then Some (ascii_of_N 13)
  else if c ≟ "t"%char then Some (ascii_of_N 9)
  else if c ≟ "f"%char then Some (ascii_of_N 12)
  else if c ≟ "b"%char then Some (ascii_of_N 8)
  else None.

Definition hex_code (a b c d : ascii) : option ascii :=
  w ← hex_value a; x ← hex_value b; y ← hex_value c; z ← hex_value d;
  if (w =? 0)%N && (x =? 0)%N then Some (ascii_of_N (16 * y + z)) else None.

(** The rest of a string, after its opening quote. *)
Fixpoint read_string (s : string) : option (string * string) :=
  match s with
  | EmptyString => None
  | String c s1 =>
      if c ≟ dq then Some ("", s1)
      else if c ≟ "\"%char then
        match s1 with
        | EmptyString => None
        | String e s2 =>
            if e ≟ "u"%char then
              match s2 with
              | String a (String b (String c (String d s3))) =>
                  x ← hex_code a b c d; '(t, r) ← read_string s3; Some (String x t, r)
              | _ => None
              end
            else x ← unescape e; '(t, r) ← read_string s2; Some (String x t, r)
        end
      else if (N_of_ascii c <? 32)%N then None
      else '(t, r) ← read_string s1; Some (String c t, r)
  end.

(** All the digits there are. *)
Fixpoint read_number (a : Z) (s : string) : Z * string :=
  match s with
  | String c s' => match digit_value c with Some n => read_number (a * 10 + n) s' | None => (a, s) end
  | EmptyString => (a, s)
  end.

(** An unsigned integer: no leading zero, and not the beginning of a fraction. *)
Definition read_int (s : string) : option (Z * string) :=
  match s with
  | String c s1 =>
      match digit_value c with
      | None => None
      | Some n =>
          let '(z, r) := read_number n s1 in
          let starts p := match r with String c' _ => p c' | EmptyString => false end in
          if (n =? 0) && negb (r ≟ s1) then None
          else if starts (λ c', N_of_ascii c' ∈? [46; 69; 101]%N) then None
          else Some (z, r)
      end
  | EmptyString => None
  end.

(** A literal, and the rest. *)
Fixpoint strip_literal (p s : string) : option string :=
  match p, s with
  | EmptyString, _ => Some s
  | String a p', String b s' => if decide (a = b) then strip_literal p' s' else None
  | _, EmptyString => None
  end.

Fixpoint read_value (fuel : nat) (s : string) : option (json * string) :=
  match fuel with
  | O => None
  | S f =>
      match skip_ws s with
      | EmptyString => None
      | String c s1 =>
          if c ≟ dq then '(t, r) ← read_string s1; Some (JStr t, r)
          else if c ≟ "{"%char then
            match expect "}" (skip_ws s1) with
            | Some r => Some (JDict [], r)
            | None => read_members f [] s1
            end
          else if c ≟ "["%char then
            match expect "]" (skip_ws s1) with
            | Some r => Some (JList [], r)
            | None => read_items f [] s1
            end
          else if c ≟ "n"%char then r ← strip_literal "ull" s1; Some (JNull, r)
          else if c ≟ "t"%char then r ← strip_literal "rue" s1; Some (JBool true, r)
          else if c ≟ "f"%char then r ← strip_literal "alse" s1; Some (JBool false, r)
          else if c ≟ "-"%char then '(z, r) ← read_int s1; Some (JInt (- z), r)
          else '(z, r) ← read_int (String c s1); Some (JInt z, r)
      end
  end
with read_items (fuel : nat) (acc : list json) (s : string) : option (json * string) :=
  match fuel with
  | O => None
  | S f =>
      '(x, r) ← read_value f s;
      match skip_ws r with
      | String c r1 =>
          if c ≟ ","%char then read_items f (acc ++ [x]) r1
          else if c ≟ "]"%char then Some (JList (acc ++ [x]), r1)
          else None
      | EmptyString => None
      end
  end
with read_members (fuel : nat) (acc : dict json) (s : string) : option (json * string) :=
  match fuel with
  | O => None
  | S f =>
      s1 ← expect dq (skip_ws s);
      '(k, s2) ← read_string s1;
      s3 ← expect ":" (skip_ws s2);
      '(x, r) ← read_value f s3;
      match skip_ws r with
      | String c r1 =>
          if c ≟ ","%char then read_members f (dset k x acc) r1
          else if c ≟ "}"%char then Some (JDict (dset k x acc), r1)
          else None
      | EmptyString => None
      end
  end.

(** [json.loads]: one value and nothing after it. *)
Definition loads (s : string) : result json :=
  match read_value (S (String.length s)) s with
  | Some (j, r) => if skip_ws r ≟ EmptyString then Ok j else Err (ValueError "Extra data")
  | None => Err (ValueError "Expecting value")
  end.

(** ** Characters and strings *)

Lemma read_escape_char c s :
  read_string (escape_char c +:+ s) = '(t, r) ← read_string s; Some (String c t, r).
Proof. destruct c as [[] [] [] [] [] [] [] []]; reflexivity. Qed.

Lemma read_escape t s : read_string (escape t +:+ String dq s) = Some (t, s).
Proof.
  induction t as [|c t IH]; [done|]. cbn [escape]. rewrite append_assoc, read_escape_char, IH. done.
Qed.

Lemma read_quoted t s : read_string (escape t +:+ String dq EmptyString +:+ s) = Some (t, s).
Proof. rewrite append_cons. apply read_escape. Qed.

(** ** Numbers *)

(** A text after which a number has ended. *)
Definition stops (s : string) : bool :=
  match s with
  | EmptyString => true
  | String c _ => bool_decide (digit_value c = None) && negb (N_of_ascii c ∈? [46; 69; 101]%N)
  end.

Lemma read_number_stops a s : stops s = true → read_number a s = (a, s).
Proof.
  destruct s as [|c s]; [done|]. cbn [stops read_number]. intros [H _]%andb_true_iff.
  apply bool_decide_eq_true in H. by rewrite H.
Qed.

Lemma read_number_go n s : read_number 0 (pretty_N_go n s) = read_number (Z.of_N n) s.
Proof.
  revert s. induction (N.lt_wf_0 n) as [n _ IH]; intros s.
  destruct (decide (n = 0)%N) as [->|]; [by rewrite pretty_N_go_0|].
  rewrite pretty_N_go_step by lia. rewrite IH by (apply N.div_lt; lia). cbn [read_number].
  rewrite digit_value_char by (apply N.mod_lt; lia). f_equal.
  rewrite (N.div_mod n 10) at 3 by lia. lia.
Qed.

Lemma pretty_go_first n s :
  (0 < n)%N → ∃ c s' d, pretty_N_go n s = String c s' ∧ digit_value c = Some d ∧ 0 < d.
Proof.
  revert s. induction (N.lt_wf_0 n) as [n _ IH]; intros s Hn. rewrite pretty_N_go_step by lia.
  destruct (decide (n < 10)%N) as [Hlt|Hge].
  - rewrite N.div_small by done. rewrite pretty_N_go_0. do 3 eexists. split; [done|].
    rewrite digit_value_char by (apply N.mod_lt; lia). split; [done|]. rewrite N.mod_small by done. lia.
  - apply IH; [apply N.div_lt; lia|]. apply N.div_str_pos. lia.
Qed.

Lemma read_int_go n rest :
  (0 < n)%N → stops rest = true → read_int (pretty_N_go n rest) = Some (Z.of_N n, rest).
Proof.
  intros Hn Hr. pose proof (read_number_go n rest) as Hrd. rewrite (read_number_stops _ rest) in Hrd by done.
  destruct (pretty_go_first n rest Hn) as (c & s' & d & Hgo & Hd & Hpos). rewrite Hgo in *.
  cbn [read_int read_number] in *. rewrite Hd in *. rewrite Z.mul_0_l, Z.add_0_l in Hrd. rewrite Hrd.
  rewrite (proj2 (Z.eqb_neq d 0)) by lia. cbn [andb].
  destruct rest as [|c' rest]; [done|]. cbn [stops] in Hr. apply andb_true_iff in Hr as [_ Hr].
  by apply negb_true_iff in Hr as ->.
Qed.

Lemma read_fmt z rest f :
  stops rest = true → read_value (S f) (fmt z +:+ rest) = Some (JInt z, rest).
Proof.
  intros Hr.
  assert (Hpos : ∀ p, ∃ c s, fmt (Zpos p) +:+ rest = String c s ∧ is_Some (digit_value c) ∧
                 read_int (String c s) = Some (Zpos p, rest)).
  { intros p. change (fmt (Zpos p)) with (pretty_N_go (Npos p) "").
    rewrite pretty_go_app. change ("" +:+ rest) with rest.
    destruct (pretty_go_first (Npos p) rest) as (c & s & d & Hgo & Hd & _); [lia|].
    exists c, s. split; [done|]. split; [by eexists|]. rewrite <-Hgo. by apply read_int_go. }
  assert (Hdig : ∀ c s, is_Some (digit_value c) →
    read_value (S f) (String c s) = '(z, r) ← read_int (String c s); Some (JInt z, r)).
  { intros c s [d Hd]. destruct c as [[] [] [] [] [] [] [] []]; first [discriminate Hd|reflexivity]. }
  destruct z as [|p|p].
  - change (fmt 0) with "0". rewrite append_cons. change ("" +:+ rest) with rest.
    rewrite Hdig by (by eexists). cbn [read_int]. change (digit_value "0") with (Some 0).
    cbn iota. rewrite read_number_stops by done. rewrite bool_decide_true by done. cbn [negb andb].
    destruct rest as [|c rest]; [done|]. cbn [stops] in Hr. apply andb_true_iff in Hr as [_ Hr].
    apply negb_true_iff in Hr as ->. done.
  - destruct (Hpos p) as (c & s & -> & Hc & Hread). by rewrite Hdig, Hread.
  - change (fmt (Zneg p)) with (String "-" (fmt (Zpos p))). rewrite append_cons.
    destruct (Hpos p) as (c & s & -> & Hc & Hread).
    change (read_value (S f) (String "-" (String c s)))
      with ('(z, r) ← read_int (String c s); Some (JInt (- z), r)). by rewrite Hread.
Qed.

(** ** Values *)

(** No object has a key twice, as no Python dictionary does. *)
Fixpoint json_wf (j : json) : Prop :=
  match j with
  | JList l => foldr (λ x P, json_wf x ∧ P) True l
  | JDict d => NoDup d.*1 ∧ foldr (λ kx P, json_wf kx.2 ∧ P) True d
  | _ => True
  end.

(** The number of calls reading a value takes. *)
Fixpoint size (j : json) : nat :=
  match j with
  | JList l => S (foldr (λ x n, S (size x + n)) 0 l)
  | JDict d => S (foldr (λ kx n, S (size kx.2 + n)) 0 d)
  | _ => 1
  end%nat.

Lemma dset_new {V} k (v : V) d : k ∉ dkeys d → dset k v d = d ++ [(k, v)].
Proof.
  induction d as [|[k' v'] d IH]; intros Hk; [done|]. cbn [dset]. unfold dkeys in Hk. cbn in Hk.
  rewrite not_elem_of_cons in Hk. destruct Hk as [Hne Hk]. rewrite decide_False by done.
  cbn. f_equal. by apply IH.
Qed.

(** A member of a list or a dictionary: its size and its well-formedness. *)
Lemma foldr_elem x l :
  x ∈ l → (size x < foldr (λ x n, S (size x + n)) 0 l)%nat ∧
          (foldr (λ x P, json_wf x ∧ P) True l → json_wf x).
Proof.
  induction l as [|y l IH]; intros Hx; [by apply not_elem_of_nil in Hx|]. cbn [foldr].
  apply elem_of_cons in Hx as [->|Hx]; [split; [lia|by intros []]|].
  destruct (IH Hx) as [H1 H2]. split; [lia|]. intros [_ H]. by apply H2.
Qed.

Lemma foldr_elem_dict (kx : string * json) d :
  kx ∈ d → (size kx.2 < foldr (λ kx n, S (size kx.2 + n)) 0 d)%nat ∧
           (foldr (λ kx P, json_wf kx.2 ∧ P) True d → json_wf kx.2).
Proof.
  induction d as [|y d IH]; intros Hx; [by apply not_elem_of_nil in Hx|]. cbn [foldr].
  apply elem_of_cons in Hx as [->|Hx]; [split; [lia|by intros []]|].
  destruct (IH Hx) as [H1 H2]. split; [lia|]. intros [_ H]. by apply H2.
Qed.

Section Roundtrip.
(** A separator is its character and blanks. *)
Context (item_ws key_ws : string).
Context (Hiw : ∀ s, skip_ws (item_ws +:+ s) = skip_ws s).
Context (Hkw : ∀ s, skip_ws (key_ws +:+ s) = skip_ws s).

Local Abbreviation item_sep := (String "," item_ws).
Local Abbreviation key_sep := (String ":" key_ws).
Local Abbreviation dump := (dumps item_sep key_sep).

Fixpoint items (l : list json) : string :=
  match l with
  | [] => "]"
  | x :: l' => item_sep +:+ dump x +:+ items l'
  end.

Fixpoint members (d : dict json) : string :=
  match d with
  | [] => "}"
  | (k, x) :: d' => item_sep +:+ quoted k +:+ key_sep +:+ dump x +:+ members d'
  end.

Lemma dumps_list x l : dump (JList (x :: l)) = String "[" (dump x +:+ items l).
Proof.
  enough (H : ∀ l, (fix go (first : bool) (l : list json) : string :=
    match l with [] => "]" | x :: l' => (if first then "" else item_sep) +:+ dump x +:+ go false l' end)
    false l = items l).
  { rewrite <-H. reflexivity. }
  intros l'. induction l' as [|y l' IH]; [done|]. cbn [items]. by rewrite <-IH.
Qed.

Lemma dumps_dict k x d :
  dump (JDict ((k, x) :: d)) = String "{" (quoted k +:+ key_sep +:+ dump x +:+ members d).
Proof.
  enough (H : ∀ d, (fix go (first : bool) (d : list (string * json)) : string :=
    match d with [] => "}" | (k, x) :: d' =>
      (if first then "" else item_sep) +:+ quoted k +:+ key_sep +:+ dump x +:+ go false d' end)
    false d = members d).
  { rewrite <-H. reflexivity. }
  intros d'. induction d' as [|[k' y] d' IH]; [done|]. cbn [members]. by rewrite <-IH.
Qed.

(** The first character of a value: no blank, no closing bracket. *)
Definition opens (c : ascii) : bool :=
  negb (N_of_ascii c ∈? [32; 10; 13; 9]%N) && negb (c ≟ "]"%char) && negb (c ≟ "}"%char).

Lemma opens_digit c : is_Some (digit_value c) → opens c = true.
Proof. intros [d Hd]. destruct c as [[] [] [] [] [] [] [] []]; first [discriminate Hd|reflexivity]. Qed.

Lemma dumps_opens j : ∃ c s, dump j = String c s ∧ opens c = true.
Proof.
  destruct j as [|[]|z|s|l|d]; try (do 2 eexists; split; [done|]; reflexivity).
  cbn [dumps]. destruct z as [|p|p]; try (do 2 eexists; split; [done|]; reflexivity).
  change (fmt (Zpos p)) with (pretty_N_go (Npos p) "").
  destruct (pretty_go_first (Npos p) "") as (c & s & d & -> & Hd & _); [lia|].
  exists c, s. split; [done|]. apply opens_digit. by eexists.
Qed.

Lemma skip_ws_opens c s : opens c = true → skip_ws (String c s) = String c s.
Proof.
  unfold opens. intros [[H _]%andb_true_iff _]%andb_true_iff. apply negb_true_iff in H. cbn [skip_ws]. by rewrite H.
Qed.

Lemma read_value_ws f w s :
  (∀ s, skip_ws (w +:+ s) = skip_ws s) → read_value f (w +:+ s) = read_value f s.
Proof. intros Hw. destruct f as [|f]; [done|]. cbn [read_value]. by rewrite Hw. Qed.

(** What a value of this size has to satisfy. *)
Definition reads (j : json) : Prop :=
  ∀ f rest, (size j ≤ f)%nat → stops rest = true → read_value f (dump j +:+ rest) = Some (j, rest).

Lemma stops_items l rest : stops (items l +:+ rest) = true.
Proof. destruct l as [|x l]; reflexivity. Qed.

Lemma stops_members d rest : stops (members d +:+ rest) = true.
Proof. destruct d as [|[k x] d]; reflexivity. Qed.

Lemma read_items_spec l acc x f rest :
  Forall reads (x :: l) →
  (foldr (λ x n, S (size x + n)) 0 (x :: l) ≤ f)%nat →
  read_items f acc (dump x +:+ items l +:+ rest) = Some (JList (acc ++ x :: l), rest).
Proof using Hiw.
  revert acc x f. induction l as [|y l IH]; intros acc x f HF Hf; cbn [foldr] in Hf;
    inversion HF as [|? ? Hx HF' [Heq1 Heq2]]; subst; (destruct f as [|f]; [lia|]); cbn [read_items].
  - rewrite Hx by (lia || apply (stops_items [])). done.
  - rewrite Hx by (lia || apply (stops_items (y :: l))). cbn [mbind option_bind items].
    rewrite !append_cons, skip_ws_opens by done. rewrite bool_decide_true by done.
    rewrite append_assoc.
    assert (Hws : ∀ f acc s, read_items f acc (item_ws +:+ s) = read_items f acc s).
    { intros f' acc' s. destruct f' as [|f']; [done|]. cbn [read_items]. by rewrite (read_value_ws _ _ _ Hiw). }
    rewrite Hws, append_assoc, IH; [|done|cbn [foldr]; lia]. by rewrite <-app_assoc.
Qed.

Lemma read_members_spec d acc k x f rest :
  NoDup (acc.*1 ++ k :: d.*1) → Forall (λ kx, reads kx.2) ((k, x) :: d) →
  (foldr (λ kx n, S (size kx.2 + n)) 0 ((k, x) :: d) ≤ f)%nat →
  read_members f acc (quoted k +:+ key_sep +:+ dump x +:+ members d +:+ rest)
    = Some (JDict (acc ++ (k, x) :: d), rest).
Proof using Hiw Hkw.
  revert acc k x f. induction d as [|[k' y] d IH]; intros acc k x f Hnd HF Hf; cbn [foldr snd] in Hf;
    inversion HF as [|? ? Hx HF' [Heq1 Heq2]]; subst; (destruct f as [|f]; [lia|]); cbn [read_members];
    unfold quoted; rewrite !append_cons, skip_ws_opens by done; cbn [expect];
    rewrite decide_True by done; cbn [mbind option_bind]; rewrite append_assoc, append_cons;
    rewrite read_escape; cbn [mbind option_bind]; change ("" +:+ ?s) with s;
    rewrite ?append_cons, skip_ws_opens by done; cbn [expect]; rewrite decide_True by done;
    cbn [mbind option_bind]; rewrite read_value_ws by done; cbn [snd] in Hx.
  - rewrite Hx by (lia || apply (stops_members [])). cbn [mbind option_bind members].
    change ("}" +:+ rest) with (String "}" rest).
    change (skip_ws (String "}" rest)) with (String "}" rest). cbn iota.
    rewrite bool_decide_false, bool_decide_true by done. rewrite dset_new; [done|].
    intros Hin. apply NoDup_app in Hnd as (_ & Hd & _). apply (Hd k Hin). set_solver.
  - rewrite Hx by (lia || apply (stops_members ((k', y) :: d))). cbn [mbind option_bind members].
    rewrite !append_cons, skip_ws_opens by done. rewrite bool_decide_true by done.
    assert (Hws : ∀ f acc s, read_members f acc (item_ws +:+ s) = read_members f acc s).
    { intros f' acc' s. destruct f' as [|f']; [done|]. cbn [read_members]. by rewrite Hiw. }
    rewrite append_assoc, Hws, !append_assoc, append_cons, dset_new.
    2:{ intros Hin. apply NoDup_app in Hnd as (_ & Hd & _). apply (Hd k Hin). set_solver. }
    rewrite !append_assoc, <-append_cons. rewrite IH; [by rewrite <-app_assoc| |done|cbn [foldr snd]; lia].
    rewrite fmap_app. cbn. by rewrite <-app_assoc.
Qed.

Lemma reads_all j : json_wf j → reads j.
Proof using Hiw Hkw.
  remember (size j) as n eqn:Hn. assert (Hle : (size j ≤ n)%nat) by lia. clear Hn.
  revert j Hle. induction n as [|n IH]; intros j Hle Hwf; [destruct j; cbn in Hle; lia|].
  assert (Hbig : ∀ f, (size j ≤ f)%nat → ∃ f', f = S f') by (intros [|f]; [destruct j; cbn; lia|by eauto]).
  intros f rest Hf Hrest. destruct (Hbig f Hf) as [f' ->]. destruct j as [|[]|z|s|l|d].
  - reflexivity.
  - reflexivity.
  - reflexivity.
  - by apply read_fmt.
  - cbn [dumps]. unfold quoted. rewrite append_cons.
    change (read_value (S f') (String dq ?s)) with ('(t, r) ← read_string s; Some (JStr t, r)).
    by rewrite append_assoc, read_quoted.
  - destruct l as [|x l]; [reflexivity|]. rewrite dumps_list, append_cons, append_assoc.
    assert (HF : Forall reads (x :: l)).
    { apply Forall_forall. intros y Hy. cbn [json_wf size] in Hwf, Hle.
      destruct (foldr_elem y (x :: l) Hy) as [H1 H2]. apply IH; [lia|by apply H2]. }
    destruct (dumps_opens x) as (c & s & Hc & Ho).
    cbn [read_value]. rewrite skip_ws_opens by done.
    rewrite (bool_decide_false ("["%char = dq)), (bool_decide_false ("["%char = "{"%char)),
      (bool_decide_true ("["%char = "["%char)) by done.
    rewrite Hc, append_cons at 1. rewrite skip_ws_opens by done. cbn [expect].
    rewrite decide_False by (intros ->; discriminate Ho).
    apply (read_items_spec l [] x); [done|]. cbn [size] in Hf. lia.
  - destruct d as [|[k x] d]; [reflexivity|]. rewrite dumps_dict, append_cons, !append_assoc.
    destruct Hwf as [Hnd Hwf].
    assert (HF : Forall (λ kx, reads kx.2) ((k, x) :: d)).
    { apply Forall_forall. intros kx Hy. cbn [size] in Hle.
      destruct (foldr_elem_dict kx ((k, x) :: d) Hy) as [H1 H2]. apply IH; [lia|by apply H2]. }
    cbn [read_value]. rewrite skip_ws_opens by done.
    rewrite (bool_decide_false ("{"%char = dq)), (bool_decide_true ("{"%char = "{"%char)) by done.
    unfold quoted at 1. rewrite append_cons, skip_ws_opens by done. cbn [expect].
    rewrite decide_False by done.
    apply (read_members_spec d [] k x); [done..|]. cbn [size] in Hf. lia.
Qed.

(** The text is long enough to serve as fuel. *)
Lemma size_length j : (size j ≤ String.length (dump j))%nat.
Proof.
  remember (size j) as n eqn:Hn. assert (Hle : (size j ≤ n)%nat) by lia. rewrite Hn. clear Hn.
  revert j Hle. induction n as [|n IH]; intros j Hle; [destruct j; cbn in Hle; lia|].
  assert (Hitems : ∀ l, (∀ y, y ∈ l → size y ≤ n)%nat →
    (S (foldr (λ x n, S (size x + n)) 0 l) ≤ String.length (items l))%nat).
  { induction l as [|y l IHl]; intros Hl; [done|]. cbn [items foldr]. rewrite append_cons.
    cbn [String.length]. rewrite !length_append.
    specialize (IHl ltac:(intros; apply Hl; set_solver)). specialize (IH y (Hl y ltac:(set_solver))). lia. }
  assert (Hmembers : ∀ d, (∀ ky, ky ∈ d → size ky.2 ≤ n)%nat →
    (S (foldr (λ kx n, S (size kx.2 + n)) 0 d) ≤ String.length (members d))%nat).
  { induction d as [|[k y] d IHd]; intros Hd; [done|]. cbn [members foldr snd]. rewrite append_cons.
    cbn [String.length]. rewrite !length_append. cbn [String.length].
    specialize (IHd ltac:(intros; apply Hd; set_solver)).
    specialize (IH y (Hd (k, y) ltac:(set_solver))). lia. }
  destruct j as [|[]|z|s|[|x l]|[|[k x] d]]; try (cbn; lia); try (by apply Nat.leb_le).
  - destruct (dumps_opens (JInt z)) as (c & s & -> & _). cbn. lia.
  - rewrite dumps_list. cbn [String.length]. rewrite length_append. cbn [size foldr] in *.
    assert (Hl : ∀ y, y ∈ l → (size y ≤ n)%nat) by (intros y Hy; destruct (foldr_elem y l Hy); lia).
    specialize (Hitems l Hl). specialize (IH x ltac:(lia)). lia.
  - rewrite dumps_dict. cbn [String.length]. rewrite !length_append. cbn [String.length size foldr snd] in *.
    assert (Hd : ∀ y, y ∈ d → (size y.2 ≤ n)%nat) by (intros y Hy; destruct (foldr_elem_dict y d Hy); lia).
    specialize (Hmembers d Hd). specialize (IH x ltac:(lia)). lia.
Qed.

(** Loading what was dumped gives the value back. *)
Lemma loads_dumps j : json_wf j → loads (dump j) = Ok j.
Proof using Hiw Hkw.
  intros Hwf. unfold loads.
  pose proof (reads_all j Hwf (S (String.length (dump j))) "") as Hr. rewrite append_nil_r in Hr.
  rewrite Hr; [done| |done]. pose proof (size_length j). lia.
Qed.
End Roundtrip.
