(* ===== verification/PageCursor.v ===== *)
(** * Page cursors

    [orb/application/services/orchestration/page_cursor.py] and the older offset
    cursor of [dtos.py]: the position of the last row and the fingerprint of the
    query, as JSON in URL-safe base64.  UTF-8, base64 and JSON are those of the Python
    standard library; code points above 255 are outside the model.  The digest of the
    fingerprint (SHA-256, eight bytes of it) is an argument. *)

From stdpp Require Import base strings list numbers pretty sets sorting.
From Stdlib Require Import Ascii ZArith Lia.
From S2P Require Import Prelude TimeText JsonText Pagination.
Open Scope Z_scope.

(** ** Bytes: a string of characters below 256 *)

Fixpoint utf8_encode (s : string) : string :=
  match s with
  | EmptyString => EmptyString
  | String c s' =>
      let n := N_of_ascii c in
      if (n <? 128)%N then String c (utf8_encode s')
      else String (ascii_of_N (192 + n / 64)) (String (ascii_of_N (128 + n mod 64)) (utf8_encode s'))
  end.

(** [bytes.decode()]. *)
Fixpoint utf8_decode (s : string) : option string :=
  match s with
  | EmptyString => Some EmptyString
  | String c s1 =>
      let n := N_of_ascii c in
      if (n <? 128)%N then t ← utf8_decode s1; Some (String c t)
      else if (n =? 194)%N || (n =? 195)%N then
        match s1 with
        | String d s2 =>
            let m := N_of_ascii d in
            if (128 <=? m)%N && (m <? 192)%N
            then t ← utf8_decode s2; Some (String (ascii_of_N ((n - 192) * 64 + (m - 128))) t)
            else None
        | EmptyString => None
        end
      else None
  end.

(** ** Base64 *)

Definition b64_char (n : N) : ascii :=
  ascii_of_N (if n <? 26 then 65 + n else if n <? 52 then 71 + n else if n <? 62 then n - 4
              else if n =? 62 then 45 else 95)%N.

(** The URL-safe and the standard alphabet: the former is translated to the
    latter before decoding. *)
Definition b64_value (c : ascii) : option N :=
  let n := N_of_ascii c in
  if (65 <=? n)%N && (n <=? 90)%N then Some (n - 65)%N
  else if (97 <=? n)%N && (n <=? 122)%N then Some (n - 71)%N
  else if (48 <=? n)%N && (n <=? 57)%N then Some (n + 4)%N
  else if (n =? 45)%N || (n =? 43)%N then Some 62%N
  else if (n =? 95)%N || (n =? 47)%N then Some 63%N
  else None.

(** [base64.urlsafe_b64encode]. *)
Fixpoint urlsafe_b64encode (s : string) : string :=
  match s with
  | EmptyString => EmptyString
  | String a EmptyString =>
      let a := N_of_ascii a in
      String (b64_char (a / 4)) (String (b64_char (a mod 4 * 16)) "==")
  | String a (String b EmptyString) =>
      let a := N_of_ascii a in let b := N_of_ascii b in
      String (b64_char (a / 4)) (String (b64_char (a mod 4 * 16 + b / 16))
        (String (b64_char (b mod 16 * 4)) "="))
  | String a (String b (String c s')) =>
      let a := N_of_ascii a in let b := N_of_ascii b in let c := N_of_ascii c in
      String (b64_char (a / 4)) (String (b64_char (a mod 4 * 16 + b / 16))
        (String (b64_char (b mod 16 * 4 + c / 64)) (String (b64_char (c mod 64)) (urlsafe_b64encode s'))))
  end.

(** The loop of [binascii.a2b_base64], not strict: characters outside the
    alphabet are skipped, and so is padding in the wrong place. *)
Fixpoint a2b_base64 (s : string) (quad : nat) (left : N) (pads : nat) : result string :=
  match s with
  | EmptyString =>
      match quad with O => Ok EmptyString | _ => Err (OtherError "binascii.Error" "Incorrect padding") end
  | String c s' =>
      if c ≟ "="%char then
        if (2 <=? quad)%nat then
          if (4 <=? quad + S pads)%nat then Ok EmptyString else a2b_base64 s' quad left (S pads)
        else a2b_base64 s' quad left pads
      else match b64_value c with
           | None => a2b_base64 s' quad left pads
           | Some v =>
               match quad with
               | 0%nat => a2b_base64 s' 1 v 0
               | 1%nat => t ← a2b_base64 s' 2 (v mod 16) 0; Ok (String (ascii_of_N (left * 4 + v / 16)) t)
               | 2%nat => t ← a2b_base64 s' 3 (v mod 4) 0; Ok (String (ascii_of_N (left * 16 + v / 4)) t)
               | _ => t ← a2b_base64 s' 0 0 0; Ok (String (ascii_of_N (left * 64 + v)) t)
               end
           end
  end.

Definition urlsafe_b64decode (s : string) : result string := a2b_base64 s 0 0 0.

(** ** Cursors *)

Definition CURSOR_VERSION : Z := 2.
Definition _INVALID : string := "Invalid pagination cursor".
Definition _OTHER_QUERY : string :=
  "This pagination cursor was issued for a different query. Start again without a cursor.".
Definition ValidationError (message : string) : exn := OtherError "ValidationError" message.

Record DecodedCursor := mk_decoded {
  dc_position : option Position;
  dc_offset : Z
}.

Definition compact : json → string := dumps "," ":".
Definition spaced : json → string := dumps ", " ": ".

Definition cursor_payload (fingerprint sort : string) (position : Position) (offset : Z) : json :=
  JDict [("v", JInt CURSOR_VERSION); ("s", JStr sort); ("f", JStr fingerprint);
         ("k", JList [JStr position.1; JStr position.2]); ("offset", JInt offset)].

Definition encode_page_cursor (fingerprint sort : string) (position : Position) (offset : Z) : string :=
  urlsafe_b64encode (utf8_encode (compact (cursor_payload fingerprint sort position offset))).

Fixpoint equals_signs (n : nat) : string :=
  match n with O => EmptyString | S n' => String "=" (equals_signs n') end.

(** [_pad]: [-len(cursor) % 4] more equals signs. *)
Definition _pad (cursor : string) : string :=
  utf8_encode (cursor +:+ equals_signs ((4 - String.length cursor mod 4) mod 4)).

(** The JSON value in a cursor; every way to fail is an invalid cursor. *)
Definition cursor_data (cursor : string) : result json :=
  match urlsafe_b64decode (_pad cursor) with
  | Err _ => Err (ValidationError _INVALID)
  | Ok bytes =>
      match utf8_decode bytes with
      | None => Err (ValidationError _INVALID)
      | Some text => match loads text with Ok j => Ok j | Err _ => Err (ValidationError _INVALID) end
      end
  end.

Definition decode_page_cursor (cursor : option string) (fingerprint sort : string)
  : result (option DecodedCursor) :=
  match cursor with
  | None | Some EmptyString => Ok None
  | Some text =>
      data ← cursor_data text;
      match data with
      | JDict d =>
          match dget "v" d with
          | None =>
              match dget "offset" d with
              | Some (JInt n) => if 0 <=? n then Ok (Some (mk_decoded None n)) else Err (ValidationError _INVALID)
              | _ => Err (ValidationError _INVALID)
              end
          | Some v =>
              match v, dget "k" d, dget_default "offset" d (JInt 0) with
              | JInt ver, Some (JList [JStr k0; JStr k1]), JInt n =>
                  if (ver =? CURSOR_VERSION) && (0 <=? n) then
                    if match dget "f" d, dget "s" d with
                       | Some (JStr f), Some (JStr s) => (f ≟ fingerprint) && (s ≟ sort)
                       | _, _ => false
                       end
                    then Ok (Some (mk_decoded (Some (k0, k1)) n))
                    else Err (ValidationError _OTHER_QUERY)
                  else Err (ValidationError _INVALID)
              | _, _, _ => Err (ValidationError _INVALID)
              end
          end
      | _ => Err (ValidationError _INVALID)
      end
  end.

(** [next_cursor_for]: [None] for a result that was not cut by keyset; else the
    position where the following page starts. *)
Definition next_cursor_for (keyset : option (option Position)) (fingerprint sort : string)
    (offset returned : Z) : bool * option string :=
  match keyset with
  | None => (false, None)
  | Some None => (true, None)
  | Some (Some p) => (true, Some (encode_page_cursor fingerprint sort p (offset + returned)))
  end.

(** [encode_cursor] of [dtos.py]. *)
Definition encode_cursor (offset : Z) : string :=
  urlsafe_b64encode (utf8_encode (spaced (JDict [("offset", JInt offset)]))).

(** ** The fingerprint of a query *)

Section Fingerprint.
Context (digest8 : string → string).      (* the first eight bytes of the hash *)

(** [value in (None, "", [], (), False)]: zero equals [False]. *)
Definition unset (v : json) : bool :=
  match v with
  | JNull | JBool false | JList [] => true
  | JStr s => s ≟ EmptyString
  | JInt n => n =? 0
  | _ => false
  end.

Definition normal_value (v : json) : json :=
  match v with
  | JList l => JList (JStr <$> sorted_by String.leb (json_str <$> l))
  | _ => v
  end.

Definition normalised (inputs : dict json) : list json :=
  omap (λ kv : string * json, if unset kv.2 then None else Some (JList [JStr kv.1; normal_value kv.2]))
    (sorted_by (λ a b : string * json, String.leb a.1 b.1) inputs).

Fixpoint rstrip_equals (s : string) : string :=
  match s with
  | EmptyString => EmptyString
  | String c s' =>
      let t := rstrip_equals s' in
      if (c ≟ "="%char) && (t ≟ EmptyString) then EmptyString else String c t
  end.

Definition query_fingerprint (kind : string) (inputs : dict json) : string :=
  rstrip_equals
    (urlsafe_b64encode (digest8 (utf8_encode (spaced (JList [JStr kind; JList (normalised inputs)]))))).
End Fingerprint.

(** ** The codecs are inverses *)

Lemma N_of_ascii_lt c : (N_of_ascii c < 256)%N.
Proof. apply N_ascii_bounded. Qed.

Lemma utf8_roundtrip s : utf8_decode (utf8_encode s) = Some s.
Proof.
  induction s as [|c s IH]; [done|]. cbn [utf8_encode]. pose proof (N_of_ascii_lt c) as Hc.
  destruct (N.ltb_spec (N_of_ascii c) 128) as [Hlt|Hge].
  - cbn [utf8_decode]. rewrite (proj2 (N.ltb_lt _ _) Hlt), IH. done.
  - cbn [utf8_decode].
    pose proof (N.div_mod (N_of_ascii c) 64 ltac:(lia)) as Hdm.
    pose proof (N.mod_lt (N_of_ascii c) 64 ltac:(lia)) as Hm.
    set (q := (N_of_ascii c / 64)%N) in *. set (m := (N_of_ascii c mod 64)%N) in *. clearbody q m.
    rewrite !N_ascii_embedding by lia. rewrite (proj2 (N.ltb_ge (192 + q) 128)) by lia.
    replace ((192 + q =? 194)%N || (192 + q =? 195)%N) with true
      by (symmetry; apply orb_true_iff; rewrite !N.eqb_eq; lia).
    rewrite (proj2 (N.leb_le 128 (128 + m))) by lia. rewrite (proj2 (N.ltb_lt (128 + m) 192)) by lia.
    cbn [andb]. rewrite IH. cbn [mbind option_bind]. do 2 f_equal.
    replace ((192 + q - 192) * 64 + (128 + m - 128))%N with (N_of_ascii c) by lia. apply ascii_N_embedding.
Qed.

Definition plain (c : ascii) : bool := (N_of_ascii c <? 128)%N.

Fixpoint plain_text (s : string) : bool :=
  match s with EmptyString => true | String c s' => plain c && plain_text s' end.

Lemma utf8_encode_plain s : plain_text s = true → utf8_encode s = s.
Proof.
  induction s as [|c s IH]; [done|]. cbn [plain_text utf8_encode]. intros [Hc Hs]%andb_true_iff.
  unfold plain in Hc. by rewrite Hc, IH.
Qed.

(** The 64 characters. *)
Lemma b64_check :
  forallb (λ n, let c := b64_char (N.of_nat n) in
    bool_decide (b64_value c = Some (N.of_nat n)) && negb (c ≟ "="%char) && plain c) (seq 0 64) = true.
Proof. reflexivity. Qed.

Lemma b64_char_spec n :
  (n < 64)%N → b64_value (b64_char n) = Some n ∧ b64_char n ≠ "="%char ∧ plain (b64_char n) = true.
Proof.
  intros Hn. pose proof b64_check as H. rewrite forallb_forall in H.
  specialize (H (N.to_nat n)). rewrite N2Nat.id in H.
  assert (Hin : In (N.to_nat n) (seq 0 64)) by (apply in_seq; lia).
  specialize (H Hin). rewrite !andb_true_iff, bool_decide_eq_true in H. destruct H as [[H1 H2] H3].
  split; [done|]. split; [|done]. intros Hc. by rewrite Hc in H2.
Qed.

(** Induction by three characters, the step of the encoder. *)
Lemma string_ind3 (P : string → Prop) :
  P EmptyString → (∀ a, P (String a EmptyString)) → (∀ a b, P (String a (String b EmptyString))) →
  (∀ a b c s, P s → P (String a (String b (String c s)))) → ∀ s, P s.
Proof.
  intros H0 H1 H2 H3. fix IH 1. intros [|a [|b [|c s]]]; [apply H0|apply H1|apply H2|apply H3, IH].
Qed.

(** One data character of the decoder. *)
Lemma a2b_step n s quad left pads :
  (n < 64)%N →
  a2b_base64 (String (b64_char n) s) quad left pads =
  match quad with
  | 0%nat => a2b_base64 s 1 n 0
  | 1%nat => t ← a2b_base64 s 2 (n mod 16) 0; Ok (String (ascii_of_N (left * 4 + n / 16)) t)
  | 2%nat => t ← a2b_base64 s 3 (n mod 4) 0; Ok (String (ascii_of_N (left * 16 + n / 4)) t)
  | _ => t ← a2b_base64 s 0 0 0; Ok (String (ascii_of_N (left * 64 + n)) t)
  end.
Proof.
  intros Hn. destruct (b64_char_spec n Hn) as (Hv & Hne & _). cbn [a2b_base64].
  by rewrite bool_decide_false, Hv.
Qed.

Ltac byte_bounds :=
  repeat match goal with
  | |- context [N_of_ascii ?c] =>
      lazymatch goal with H : (N_of_ascii c < 256)%N |- _ => fail | _ => pose proof (N_of_ascii_lt c) end
  end.
Ltac byte_arith := byte_bounds; zify; Z.to_euclidean_division_equations; lia.

Lemma ascii_of_byte c n : n = N_of_ascii c → ascii_of_N n = c.
Proof. intros ->. apply ascii_N_embedding. Qed.

Lemma a2b_pad2 l : a2b_base64 "==" 2 l 0 = Ok EmptyString.
Proof. reflexivity. Qed.

Lemma a2b_pad1 l : a2b_base64 "=" 3 l 0 = Ok EmptyString.
Proof. reflexivity. Qed.

Lemma b64_roundtrip s : urlsafe_b64decode (urlsafe_b64encode s) = Ok s.
Proof.
  unfold urlsafe_b64decode. induction s as [|a|a b|a b c s IH] using string_ind3; [done|..];
    cbn [urlsafe_b64encode]; rewrite !a2b_step by byte_arith; rewrite ?a2b_pad2, ?a2b_pad1, ?IH;
    repeat (rewrite result_bind_ret); repeat f_equal; apply ascii_of_byte; byte_arith.
Qed.

Lemma b64_plain s : plain_text (urlsafe_b64encode s) = true.
Proof.
  induction s as [|a|a b|a b c s IH] using string_ind3; [done|..]; cbn [urlsafe_b64encode plain_text];
    rewrite ?IH, !(λ n H, proj2 (proj2 (b64_char_spec n H))) by byte_arith; reflexivity.
Qed.

Lemma b64_length s : (String.length (urlsafe_b64encode s) mod 4 = 0)%nat.
Proof.
  induction s as [|a|a b|a b c s IH] using string_ind3; [done..|]. cbn [urlsafe_b64encode String.length].
  replace (S (S (S (S (String.length (urlsafe_b64encode s))))))
    with (String.length (urlsafe_b64encode s) + 1 * 4)%nat by lia. by rewrite Nat.Div0.mod_add.
Qed.

(** The value in a cursor that was encoded here. *)
Lemma cursor_data_encode text :
  cursor_data (urlsafe_b64encode (utf8_encode text)) =
  match loads text with Ok j => Ok j | Err _ => Err (ValidationError _INVALID) end.
Proof.
  unfold cursor_data, _pad. rewrite b64_length. cbn [equals_signs Nat.modulo Nat.divmod Nat.sub snd].
  change (equals_signs ((4 - 0) mod 4)) with EmptyString. rewrite append_nil_r.
  rewrite utf8_encode_plain by apply b64_plain. by rewrite b64_roundtrip, utf8_roundtrip.
Qed.

Lemma loads_compact j : json_wf j → loads (compact j) = Ok j.
Proof. apply (loads_dumps EmptyString EmptyString); intros s; by change (EmptyString +:+ s) with s. Qed.

Lemma loads_spaced j : json_wf j → loads (spaced j) = Ok j.
Proof. apply (loads_dumps " " " "); intros s; reflexivity. Qed.

(** ** Theorems *)

Lemma encode_nonempty f s p n : ∃ c t, encode_page_cursor f s p n = String c t.
Proof.
  unfold encode_page_cursor, compact, cursor_payload. rewrite dumps_dict. cbn [utf8_encode].
  change (N_of_ascii "{" <? 128)%N with true. cbn iota. set (x := utf8_encode _).
  destruct x as [|b [|c x]]; by do 2 eexists.
Qed.

Lemma payload_wf f s p n : json_wf (cursor_payload f s p n).
Proof.
  unfold cursor_payload. cbn [json_wf foldr fst snd]. split; [|tauto].
  apply (bool_decide_unpack _). vm_compute. exact I.
Qed.

(** Decoding a cursor that was encoded here, for any query. *)
Lemma decode_encode f s p n f' s' :
  0 ≤ n →
  decode_page_cursor (Some (encode_page_cursor f s p n)) f' s' =
    if (f ≟ f') && (s ≟ s') then Ok (Some (mk_decoded (Some p) n))
    else Err (ValidationError _OTHER_QUERY).
Proof.
  intros Hn. unfold decode_page_cursor. destruct (encode_nonempty f s p n) as (c & t & Hct).
  rewrite Hct. cbn iota. rewrite <-Hct. unfold encode_page_cursor.
  rewrite cursor_data_encode, loads_compact by apply payload_wf.
  rewrite result_bind_ret. unfold cursor_payload. destruct p as [p0 p1].
  set (d := [_; _; _; _; _]).
  change (dget "v" d) with (Some (JInt CURSOR_VERSION)).
  change (dget "k" d) with (Some (JList [JStr p0; JStr p1])).
  change (dget "f" d) with (Some (JStr f)). change (dget "s" d) with (Some (JStr s)).
  change (dget_default "offset" d (JInt 0)) with (JInt n). cbn iota.
  rewrite Z.eqb_refl, (proj2 (Z.leb_le 0 n) Hn). done.
Qed.

(** A keyset cursor continues its own query.  The cursor encoded for a
    fingerprint, a sort order, a position and a count of rows decodes, for that
    fingerprint and order, to exactly the position and the count; for any other
    fingerprint or order it is refused as issued for a different query. *)
Theorem cursor_roundtrip f s p n :
  0 ≤ n →
  decode_page_cursor (Some (encode_page_cursor f s p n)) f s = Ok (Some (mk_decoded (Some p) n)) ∧
  ∀ f' s', (f', s') ≠ (f, s) →
    decode_page_cursor (Some (encode_page_cursor f s p n)) f' s' = Err (ValidationError _OTHER_QUERY).
Proof.
  intros Hn. split; [by rewrite decode_encode, !bool_decide_true by done|].
  intros f' s' Hne. rewrite decode_encode by done. destruct (bool_decide_reflect (f = f')) as [->|]; [|done].
  by rewrite bool_decide_false by congruence.
Qed.

Lemma offset_nonempty n : ∃ c t, encode_cursor n = String c t.
Proof.
  unfold encode_cursor, spaced. rewrite dumps_dict. cbn [utf8_encode].
  change (N_of_ascii "{" <? 128)%N with true. cbn iota. set (x := utf8_encode _).
  destruct x as [|b [|c x]]; by do 2 eexists.
Qed.

(** An offset cursor written by the other encoder is accepted for every query,
    and gives the offset. *)
Lemma offset_roundtrip n f s :
  0 ≤ n → decode_page_cursor (Some (encode_cursor n)) f s = Ok (Some (mk_decoded None n)).
Proof.
  intros Hn. unfold decode_page_cursor. destruct (offset_nonempty n) as (c & t & Hct).
  rewrite Hct. cbn iota. rewrite <-Hct. unfold encode_cursor. rewrite cursor_data_encode, loads_spaced.
  2:{ cbn [json_wf foldr fst snd]. split; [apply (bool_decide_unpack _); vm_compute; exact I|tauto]. }
  rewrite result_bind_ret. set (d := [_]). change (dget "v" d) with (@None json).
  change (dget "offset" d) with (Some (JInt n)). cbn iota. by rewrite (proj2 (Z.leb_le 0 n) Hn).
Qed.

(** *** What a fingerprint tells apart *)

Lemma equals_signs_length n : String.length (equals_signs n) = n.
Proof. induction n; simpl; congruence. Qed.

Lemma rstrip_equals_app s : ∃ k, s = rstrip_equals s +:+ equals_signs k.
Proof.
  induction s as [|c s [k IH]]; [by exists 0%nat|]. cbn [rstrip_equals].
  destruct (bool_decide_reflect (c = "="%char)) as [->|]; cbn [andb].
  - destruct (bool_decide_reflect (rstrip_equals s = EmptyString)) as [He|].
    + exists (S k). rewrite He in IH. cbn [equals_signs]. by rewrite IH at 1.
    + exists k. by rewrite append_cons, <-IH.
  - exists k. by rewrite append_cons, <-IH.
Qed.

Lemma rstrip_equals_inj s t :
  String.length s = String.length t → rstrip_equals s = rstrip_equals t → s = t.
Proof.
  intros Hl He. destruct (rstrip_equals_app s) as [k Hs], (rstrip_equals_app t) as [k' Ht].
  rewrite Hs, Ht, He in Hl |- *. rewrite !length_append, !equals_signs_length in Hl.
  by assert (k = k') as -> by lia.
Qed.

Lemma b64_encode_length s t :
  String.length s = String.length t →
  String.length (urlsafe_b64encode s) = String.length (urlsafe_b64encode t).
Proof.
  revert t. induction s as [|a|a b|a b c s IH] using string_ind3; intros [|a' [|b' [|c' t]]] Hl;
    cbn [urlsafe_b64encode String.length] in *; try done. do 4 f_equal. apply IH. congruence.
Qed.

Lemma b64_inj s t : urlsafe_b64encode s = urlsafe_b64encode t → s = t.
Proof. intros H. apply (f_equal urlsafe_b64decode) in H. rewrite !b64_roundtrip in H. congruence. Qed.

Lemma spaced_inj i j : json_wf i → json_wf j → spaced i = spaced j → i = j.
Proof.
  intros Hi Hj H. apply (f_equal loads) in H. rewrite !loads_spaced in H by done. congruence.
Qed.

Lemma utf8_inj s t : utf8_encode s = utf8_encode t → s = t.
Proof. intros H. apply (f_equal utf8_decode) in H. rewrite !utf8_roundtrip in H. congruence. Qed.

Section Separates.
Context (digest8 : string → string) (Hlen : ∀ s, String.length (digest8 s) = 8%nat).

(** The bytes that are hashed. *)
Definition hashed (kind : string) (inputs : dict json) : string :=
  utf8_encode (spaced (JList [JStr kind; JList (normalised inputs)])).

Definition inputs_wf (inputs : dict json) : Prop := ∀ kv, kv ∈ inputs → json_wf kv.2.

Lemma json_wf_list l : json_wf (JList l) ↔ ∀ x, x ∈ l → json_wf x.
Proof.
  cbn [json_wf]. induction l as [|y l IH]; cbn [foldr]; [set_solver|]. rewrite IH. set_solver.
Qed.

Lemma normalised_wf inputs : inputs_wf inputs → json_wf (JList (normalised inputs)).
Proof.
  intros Hwf. apply json_wf_list. intros x (kv & Hkv & Hx)%list_elem_of_omap.
  rewrite sorted_by_perm in Hkv. destruct (unset kv.2); [done|]. injection Hx as <-.
  apply json_wf_list. intros y. rewrite !elem_of_cons. intros [->|[->|[]%not_elem_of_nil]]; [done|].
  specialize (Hwf kv Hkv). destruct kv.2 as [| | | |l|]; cbn [normal_value]; try done.
  apply json_wf_list. intros z (s & -> & _)%list_elem_of_fmap. done.
Qed.

Lemma hashed_inj kind inputs kind' inputs' :
  inputs_wf inputs → inputs_wf inputs' → hashed kind inputs = hashed kind' inputs' →
  kind = kind' ∧ normalised inputs = normalised inputs'.
Proof.
  intros H H' E%utf8_inj%spaced_inj; [by simplify_eq|..];
    apply json_wf_list; intros y; rewrite !elem_of_cons; intros [->|[->|[]%not_elem_of_nil]];
    [done|by apply normalised_wf|done|by apply normalised_wf].
Qed.

Lemma fingerprint_digest kind inputs kind' inputs' :
  query_fingerprint digest8 kind inputs = query_fingerprint digest8 kind' inputs' →
  digest8 (hashed kind inputs) = digest8 (hashed kind' inputs').
Proof.
  unfold query_fingerprint. intros H%rstrip_equals_inj; [by apply b64_inj in H|].
  apply b64_encode_length. by rewrite !Hlen.
Qed.

(** A cursor is honoured only by the query it was issued for.  When a cursor
    of one listing is accepted, as a keyset cursor, by another, the two have the
    same kind, the same order and the same filters once normalised, unless the
    eight bytes of the hash collide on two different texts. *)
Theorem cursor_bound_to_query kind inputs sort kind' inputs' sort' p n c :
  inputs_wf inputs → inputs_wf inputs' → 0 ≤ n →
  decode_page_cursor (Some (encode_page_cursor (query_fingerprint digest8 kind inputs) sort p n))
    (query_fingerprint digest8 kind' inputs') sort' = Ok c →
  (kind = kind' ∧ normalised inputs = normalised inputs' ∧ sort = sort' ∧ c = Some (mk_decoded (Some p) n)) ∨
  (hashed kind inputs ≠ hashed kind' inputs' ∧ digest8 (hashed kind inputs) = digest8 (hashed kind' inputs')).
Proof.
  intros H H' Hn. rewrite decode_encode by done.
  destruct (bool_decide_reflect (query_fingerprint digest8 kind inputs = query_fingerprint digest8 kind' inputs'))
    as [Hf%fingerprint_digest|]; [|done].
  destruct (bool_decide_reflect (sort = sort')) as [->|]; [|done]. intros [= <-].
  destruct (decide (hashed kind inputs = hashed kind' inputs')) as [He|]; [left|by right].
  by apply hashed_inj in He as [-> ->].
Qed.
End Separates.

(** *** What a fingerprint ignores *)

Definition set_value (k : string) (inputs : dict json) : option json :=
  v ← dget k inputs; if unset v then None else Some v.

Definition set_inputs (inputs : dict json) : dict json :=
  filter (λ kv : string * json, unset kv.2 = false) (sorted_by (λ a b : string * json, String.leb a.1 b.1) inputs).

Lemma normalised_set inputs :
  normalised inputs = (λ kv : string * json, JList [JStr kv.1; normal_value kv.2]) <$> set_inputs inputs.
Proof.
  unfold normalised, set_inputs. induction (sorted_by _ _) as [|kv l IH]; [done|].
  cbn [omap list_omap]. rewrite filter_cons. destruct (unset kv.2).
  - by rewrite decide_False by done.
  - rewrite decide_True by done. cbn [fmap list_fmap]. by rewrite <-IH.
Qed.

Lemma elem_of_set_inputs k v inputs :
  dict_wf inputs → (k, v) ∈ set_inputs inputs ↔ set_value k inputs = Some v.
Proof.
  intros Hwf. unfold set_inputs, set_value. rewrite list_elem_of_filter, sorted_by_perm. cbn [snd]. split.
  - intros [Hu Hin]. rewrite (elem_of_dget _ _ _ Hwf Hin). cbn. by rewrite Hu.
  - destruct (dget k inputs) as [w|] eqn:Hg; cbn; [|done]. destruct (unset w) eqn:Hu; [done|].
    intros [= ->]. by apply dget_elem_of in Hg.
Qed.

Definition key_le (a b : string * json) : Prop := String.leb a.1 b.1 = true.

Lemma set_inputs_sorted inputs : StronglySorted key_le (set_inputs inputs).
Proof.
  unfold set_inputs.
  pose proof (sorted_by_sorted (λ a b : string * json, String.leb a.1 b.1)
    (λ a b, string_leb_total _ _) (λ a b c, string_leb_trans _ _ _) inputs) as Hs.
  induction Hs as [|x l Hl IH Hx]; [constructor|]. rewrite filter_cons. case_decide; [|done].
  constructor; [done|]. rewrite Forall_forall in *. intros y [_ Hy]%list_elem_of_filter. by apply Hx.
Qed.

Lemma set_inputs_NoDup inputs : dict_wf inputs → NoDup (set_inputs inputs).
Proof.
  intros Hwf. apply NoDup_filter. rewrite sorted_by_perm. by eapply NoDup_fmap_1.
Qed.

(** Unset filters and the order of the inputs do not count: two sets of
    inputs with the same values where set (a filter that is absent, empty, false
    or [None] being unset) have the same fingerprint, whatever the hash. *)
Theorem fingerprint_ignores_unset digest8 kind inputs inputs' :
  dict_wf inputs → dict_wf inputs' → (∀ k, set_value k inputs = set_value k inputs') →
  query_fingerprint digest8 kind inputs = query_fingerprint digest8 kind inputs'.
Proof.
  intros Hwf Hwf' Heq. unfold query_fingerprint. rewrite !normalised_set.
  assert (set_inputs inputs = set_inputs inputs') as ->; [|done].
  apply (StronglySorted_unique_strong key_le); [|apply set_inputs_sorted..|].
  - intros [k v] [k' v'] Hx Hy H1 H2. pose proof (string_leb_antisym _ _ H1 H2) as Hk. cbn in Hk. subst k'.
    apply elem_of_set_inputs in Hx, Hy; [|done..]. rewrite Heq in Hx. congruence.
  - apply NoDup_Permutation; [by apply set_inputs_NoDup..|]. intros [k v].
    by rewrite !elem_of_set_inputs, Heq by done.
Qed.

(** ** Witnesses *)

Lemma cursor_roundtrip_witness :
  decode_page_cursor (Some (encode_page_cursor "ab3Zk" "-created_at" ("2026-01-01T00:00:00Z", "req-1") 20))
    "ab3Zk" "-created_at" = Ok (Some (mk_decoded (Some ("2026-01-01T00:00:00Z", "req-1")) 20)).
Proof. apply (cursor_roundtrip "ab3Zk" "-created_at" ("2026-01-01T00:00:00Z", "req-1") 20). lia. Defined.

(** Eight bytes of a text, in place of a hash. *)
Fixpoint first_bytes (n : nat) (s : string) : string :=
  match n, s with
  | O, _ => EmptyString
  | S n', EmptyString => String "000" (first_bytes n' EmptyString)
  | S n', String c s' => String c (first_bytes n' s')
  end.

Lemma first_bytes_length n s : String.length (first_bytes n s) = n.
Proof. revert s. induction n as [|n IH]; intros [|c s]; simpl; congruence. Qed.

Definition demo_inputs : dict json := [("status", JStr "pending"); ("q", JNull)].

Lemma cursor_bound_to_query_witness :
  ("requests" = "requests" ∧ normalised demo_inputs = normalised [("status", JStr "pending")] ∧
   "id" = "id" ∧ Some (mk_decoded (Some ("a", "b")) 3) = Some (mk_decoded (Some ("a", "b")) 3)) ∨
  (hashed "requests" demo_inputs ≠ hashed "requests" [("status", JStr "pending")] ∧
   first_bytes 8 (hashed "requests" demo_inputs) = first_bytes 8 (hashed "requests" [("status", JStr "pending")])).
Proof.
  apply (cursor_bound_to_query (first_bytes 8) (first_bytes_length 8) "requests" demo_inputs "id"
    "requests" [("status", JStr "pending")] "id" ("a", "b") 3).
  - intros kv. unfold demo_inputs. rewrite !elem_of_cons. intros [->|[->|[]%not_elem_of_nil]]; exact I.
  - intros kv. rewrite !elem_of_cons. intros [->|[]%not_elem_of_nil]; exact I.
  - lia.
  - vm_compute. reflexivity.
Defined.

Lemma fingerprint_ignores_unset_witness :
  query_fingerprint (first_bytes 8) "requests" demo_inputs =
  query_fingerprint (first_bytes 8) "requests" [("sync", JBool false); ("status", JStr "pending")].
Proof.
  apply (fingerprint_ignores_unset (first_bytes 8) "requests" demo_inputs
    [("sync", JBool false); ("status", JStr "pending")]).
  - apply (bool_decide_unpack _). vm_compute. exact I.
  - apply (bool_decide_unpack _). vm_compute. exact I.
  - intros k. unfold set_value, demo_inputs. cbn [dget].
    repeat case_decide; subst; try discriminate; reflexivity.
Defined.
