(* ===== verification/ListRequests.v ===== *)
(** * Listing requests

    [ListRequestsHandler.execute_query] of [orb/application/queries/request_query_handlers.py]
    and [ListRequestsOrchestrator.execute] of
    [orb/application/services/orchestration/list_requests.py], for a listing without
    provider sync and without filter expressions, on a store that cannot page itself
    (JSON, DynamoDB), where [_push_down] gives nothing.  The rows are the requests; how
    one becomes a response body is left out.  What [getattr] gives for an attribute
    that is not a scalar field of a request is an argument, and so is the hash of the
    fingerprint. *)

From stdpp Require Import base strings list numbers sets sorting.
From Stdlib Require Import Ascii ZArith Lia.
From S2P Require Import Prelude RequestTypes RequestAggregate TimeText JsonText Pagination PageCursor.
Open Scope Z_scope.

(** Python slices: a negative bound counts from the end. *)
Definition bound (i : Z) (len : nat) : nat :=
  if i <? 0 then Z.to_nat (i + Z.of_nat len) else Z.to_nat i.
Definition slice_from {A} (l : list A) (i : Z) : list A := drop (bound i (length l)) l.
Definition slice {A} (l : list A) (i j : Z) : list A :=
  drop (bound i (length l)) (take (bound j (length l)) l).

(** A truthy optional string. *)
Definition given (o : option string) : option string :=
  match o with
  | Some s => if s ≟ EmptyString then None else Some s
  | None => None
  end.

Record ListRequestsQuery := mk_query {
  q_provider_name : option string;
  q_provider_type : option string;
  q_status : option string;
  q_template_id : option string;
  q_request_type : option string;
  q_limit : option Z;
  q_offset : Z;
  q_q : option string;
  q_sort : option string;
  q_after : option Position
}.

(** What the handler returns: [Paginated], or [KeysetPaginated] with its
    [next_position]. *)
Record paginated := mk_paginated {
  pg_items : list Request.t;
  pg_total_count : nat;
  pg_total_unfiltered : nat;
  pg_keyset : option (option Position)
}.

Section Listing.
Context (digest8 : string → string).
Context (other_attr : Request.t → string → sort_value).

(** [getattr(request, attr, "")]. *)
Definition request_attr (r : Request.t) (a : string) : sort_value :=
  let text (o : option string) := match o with Some s => SOther s | None => SNone end in
  let time (o : option datetime) := match o with Some t => SDatetime t | None => SNone end in
  let number (z : Z) := SOther (fmt z) in
  if a ≟ "request_id" then SOther (Request.request_id r)
  else if a ≟ "request_type" then SEnum (RequestType.value (Request.request_type r))
  else if a ≟ "provider_type" then SOther (Request.provider_type r)
  else if a ≟ "provider_name" then text (Request.provider_name r)
  else if a ≟ "provider_api" then text (Request.provider_api r)
  else if a ≟ "template_id" then SOther (Request.template_id r)
  else if a ≟ "requested_count" then number (Request.requested_count r)
  else if a ≟ "desired_capacity" then number (Request.desired_capacity r)
  else if a ≟ "successful_count" then number (Request.successful_count r)
  else if a ≟ "failed_count" then number (Request.failed_count r)
  else if a ≟ "status" then SEnum (RequestStatus.value (Request.status r))
  else if a ≟ "status_message" then text (Request.status_message r)
  else if a ≟ "created_at" then time (Request.created_at r)
  else if a ≟ "started_at" then time (Request.started_at r)
  else if a ≟ "completed_at" then time (Request.completed_at r)
  else if a ≟ "deadline_at" then time (Request.deadline_at r)
  else other_attr r a.

(** [q]: any of the visible fields holds the needle, ignoring case. *)
Definition searchable (r : Request.t) : list string :=
  [Request.request_id r; Request.template_id r; default EmptyString (Request.provider_api r);
   default EmptyString (Request.provider_name r)].
Definition search_hit (needle : string) (r : Request.t) : bool :=
  existsb (λ text, contains (str_lower needle) (str_lower text)) (searchable r).

Definition keep (p : Request.t → bool) (l : list Request.t) : list Request.t :=
  List.filter p l.
Definition when (o : option string) (p : string → Request.t → bool) (l : list Request.t) : list Request.t :=
  match given o with Some v => keep (p v) l | None => l end.

(** The filters, one after the other; [RequestStatus(query.status)] may raise. *)
Definition matching (query : ListRequestsQuery) (requests : list Request.t) : result (list Request.t) :=
  let requests := when (q_provider_name query) (λ v r, Request.provider_name r ≟ Some v) requests in
  let requests := when (q_provider_type query) (λ v r, Request.provider_type r ≟ v) requests in
  requests ← match given (q_status query) with
             | None => Ok requests
             | Some v =>
                 match enum_of_value v with
                 | Some s => Ok (keep (λ r, Request.status r ≟ s) requests)
                 | None => Err (ValueError ("'" +:+ v +:+ "' is not a valid RequestStatus"))
                 end
             end;
  let requests := when (q_template_id query) (λ v r, Request.template_id r ≟ v) requests in
  let requests := when (q_request_type query)
                    (λ v r, RequestType.value (Request.request_type r) ≟ v) requests in
  Ok (when (q_q query) search_hit requests).

Definition execute_query (store : list Request.t) (query : ListRequestsQuery) : result paginated :=
  let spec := SortSpec_parse (given (q_sort query)) in
  let start_idx := q_offset query in
  requests ← matching query store;
  let limit := (λ n, Z.min n 1000) <$> q_limit query in
  match spec with
  | Some spec =>
      let skip := match q_after query with Some _ => 0%nat | None => Z.to_nat start_idx end in
      let page := paginate_in_memory request_attr Request.request_id false spec requests
                    (q_after query) limit skip in
      Ok (mk_paginated (items page) (length requests) (length store) (Some (next_position page)))
  | None =>
      let rows := match limit with
                  | None => slice_from requests start_idx
                  | Some n => if 0 <? n then slice requests start_idx (start_idx + n) else []
                  end in
      Ok (mk_paginated rows (length requests) (length store) None)
  end.

(** ** The orchestrator *)

Definition _DEFAULT_SORT : string := "-created_at".

Record ListRequestsInput := mk_input {
  i_status : option string;
  i_limit : option Z;
  i_offset : Z;
  i_template_id : option string;
  i_request_type : option string;
  i_provider_name : option string;
  i_provider_type : option string;
  i_q : option string;
  i_sort : option string;
  i_cursor : option string
}.

Record ListRequestsOutput := mk_output {
  o_requests : list Request.t;
  o_count : nat;
  o_next_cursor : option string;
  o_total_count : nat
}.

Definition opt_json (o : option string) : json :=
  match o with Some s => JStr s | None => JNull end.

Definition input_sort (input : ListRequestsInput) : string :=
  default _DEFAULT_SORT (given (i_sort input)).

Definition input_fingerprint (input : ListRequestsInput) : string :=
  query_fingerprint digest8 "requests"
    [("status", opt_json (i_status input)); ("template_id", opt_json (i_template_id input));
     ("request_type", opt_json (i_request_type input)); ("provider_name", opt_json (i_provider_name input));
     ("provider_type", opt_json (i_provider_type input)); ("q", opt_json (i_q input));
     ("filter_expressions", JList []); ("sync", JBool false); ("sort", JStr (input_sort input))].

Definition input_query (input : ListRequestsInput) (offset : Z) (after : option Position) : ListRequestsQuery :=
  mk_query (i_provider_name input) (i_provider_type input) (i_status input) (i_template_id input)
    (i_request_type input) (i_limit input) offset (i_q input) (Some (input_sort input)) after.

Definition execute (store : list Request.t) (input : ListRequestsInput) : result ListRequestsOutput :=
  let sort := input_sort input in
  let fingerprint := input_fingerprint input in
  decoded ← decode_page_cursor (i_cursor input) fingerprint sort;
  let offset := match decoded with Some d => dc_offset d | None => i_offset input end in
  let after := match decoded with Some d => dc_position d | None => None end in
  result ← execute_query store (input_query input offset after);
  let rows := pg_items result in
  let total_count := pg_total_count result in
  let '(handled, cursor) := next_cursor_for (pg_keyset result) fingerprint sort offset (Z.of_nat (length rows)) in
  let next_cursor :=
    if handled then cursor
    else
      let effective_limit := default (Z.of_nat total_count) (i_limit input) in
      if negb (effective_limit =? 0) && (offset + effective_limit <? Z.of_nat total_count)
      then Some (encode_cursor (offset + effective_limit))
      else None in
  Ok (mk_output rows (length rows) next_cursor total_count).

(** ** A client that follows [next_cursor] *)

Definition with_cursor (input : ListRequestsInput) (c : option string) : ListRequestsInput :=
  mk_input (i_status input) (i_limit input) (i_offset input) (i_template_id input) (i_request_type input)
    (i_provider_name input) (i_provider_type input) (i_q input) (i_sort input) c.

(** The rows collected, and whether the last response had no cursor. *)
Fixpoint follow (fuel : nat) (store : list Request.t) (input : ListRequestsInput)
  : result (list Request.t * bool) :=
  out ← execute store input;
  match o_next_cursor out, fuel with
  | None, _ => Ok (o_requests out, true)
  | Some c, S fuel' =>
      rest ← follow fuel' store (with_cursor input (Some c));
      Ok (o_requests out ++ rest.1, rest.2)
  | Some _, O => Ok (o_requests out, false)
  end.

(** ** Which requests match *)

Definition passes (o : option string) (p : string → bool) : bool :=
  match given o with Some v => p v | None => true end.

(** The requests a query asks for. *)
Definition accepts (input : ListRequestsInput) (r : Request.t) : bool :=
  passes (i_provider_name input) (λ v, Request.provider_name r ≟ Some v) &&
  passes (i_provider_type input) (λ v, Request.provider_type r ≟ v) &&
  passes (i_status input) (λ v, RequestStatus.value (Request.status r) ≟ v) &&
  passes (i_template_id input) (λ v, Request.template_id r ≟ v) &&
  passes (i_request_type input) (λ v, RequestType.value (Request.request_type r) ≟ v) &&
  passes (i_q input) (λ v, search_hit v r).

Lemma keep_keep p q l : keep p (keep q l) = keep (λ r, q r && p r) l.
Proof.
  unfold keep. induction l as [|r l IH]; [done|]. simpl. destruct (q r); simpl; [|done].
  destruct (p r); by rewrite IH.
Qed.

Lemma keep_ext p q l : (∀ r, p r = q r) → keep p l = keep q l.
Proof. intros H. unfold keep. induction l as [|r l IH]; [done|]. simpl. by rewrite H, IH. Qed.

Lemma when_keep o p l : when o p l = keep (λ r, passes o (λ v, p v r)) l.
Proof.
  unfold when, passes. destruct (given o); [done|]. unfold keep.
  induction l as [|r l IH]; [done|]. simpl. by rewrite <-IH.
Qed.

Lemma matching_accepts input offset after store :
  passes (i_status input) (λ v, bool_decide (is_Some (enum_of_value (E := RequestStatus.t) v))) = true →
  matching (input_query input offset after) store = Ok (keep (accepts input) store).
Proof.
  intros Hs. unfold matching. cbn [input_query q_provider_name q_provider_type q_status q_template_id
    q_request_type q_q]. rewrite !when_keep, keep_keep.
  set (base := keep _ store). unfold passes in Hs.
  assert (match given (i_status input) with
          | None => Ok base
          | Some v => match enum_of_value v with
                      | Some s => Ok (keep (λ r, Request.status r ≟ s) base)
                      | None => Err (ValueError ("'" +:+ v +:+ "' is not a valid RequestStatus"))
                      end
          end = Ok (keep (λ r, passes (i_status input) (λ v, RequestStatus.value (Request.status r) ≟ v)) base))
    as ->.
  { unfold passes. destruct (given (i_status input)) as [v|].
    - apply bool_decide_eq_true in Hs as [s Hs]. rewrite Hs. apply enum_of_value_Some in Hs as <-.
      f_equal. apply keep_ext. intros r. apply bool_decide_ext. split; [by intros ->|].
      intros Hv. exact (@enum_value_inj RequestStatus.t _ _ _ Hv).
    - unfold keep. f_equal. symmetry. induction base as [|r l IH]; [done|]. simpl. by rewrite IH. }
  rewrite result_bind_ret. subst base. rewrite !when_keep, !keep_keep. f_equal. apply keep_ext. intros r.
  unfold accepts. by rewrite <-!andb_assoc.
Qed.

Lemma given_sort input : given (Some (input_sort input)) = Some (input_sort input).
Proof.
  unfold input_sort. destruct (given (i_sort input)) as [s|] eqn:Hg; [|done]. cbn [default].
  unfold given in *. destruct (i_sort input) as [s'|]; [|done].
  destruct (bool_decide_reflect (s' = EmptyString)) as [|Hs]; simplify_eq. by rewrite bool_decide_false.
Qed.

(** ** Following the cursors *)

Section Follow.
Context (store : list Request.t) (input : ListRequestsInput) (spec : SortSpec) (n : nat).
Context (Hids : NoDup (Request.request_id <$> store)).
Context (Hstatus : passes (i_status input)
           (λ v, bool_decide (is_Some (enum_of_value (E := RequestStatus.t) v))) = true).
Context (Hspec : SortSpec_parse (Some (input_sort input)) = Some spec).
Context (Hlimit : i_limit input = Some (Z.of_nat n)) (Hn : (0 < n)%nat).

Local Abbreviation pos := (row_position request_attr Request.request_id false spec).
Local Abbreviation rows := (keep (accepts input) store).
Local Abbreviation listing := (ordered request_attr Request.request_id false spec rows).
Local Abbreviation after_row := (rest_after request_attr Request.request_id false spec).

Lemma keep_sublist p l : keep p l `sublist_of` l.
Proof.
  unfold keep. induction l as [|r l IH]; [done|]. simpl. destruct (p r); [by constructor|by apply sublist_cons].
Qed.

Lemma rows_positions : NoDup (pos <$> rows).
Proof.
  assert (Request.request_id <$> rows = (λ p : Position, p.2) <$> (pos <$> rows)) as Heq.
  { rewrite <-list_fmap_compose. done. }
  eapply NoDup_fmap_1. rewrite <-Heq. eapply sublist_NoDup; [exact Hids|].
  apply fmap_sublist, keep_sublist.
Qed.

Definition page_size : nat := Nat.min n 1000.

(** One response: a page of the listing, and the cursor to what it left out. *)
Lemma execute_page c d :
  decode_page_cursor c (input_fingerprint input) (input_sort input) = Ok d →
  let offset := match d with Some d => dc_offset d | None => i_offset input end in
  let after := match d with Some d => dc_position d | None => None end in
  let skip := match after with Some _ => 0%nat | None => Z.to_nat offset end in
  let left := drop skip (after_row after listing) in
  ∃ out, execute store (with_cursor input c) = Ok out ∧ o_requests out = take page_size left ∧
    o_total_count out = length rows ∧
    match o_next_cursor out with
    | None => (length left <= page_size)%nat
    | Some c' => ∃ l1 x, take page_size left = l1 ++ [x] ∧ (page_size < length left)%nat ∧
        c' = encode_page_cursor (input_fingerprint input) (input_sort input) (pos x)
               (offset + Z.of_nat page_size)
    end.
Proof.
  intros Hd offset after skip left. unfold execute. cbn [with_cursor i_cursor].
  change (input_sort (with_cursor input c)) with (input_sort input).
  change (input_fingerprint (with_cursor input c)) with (input_fingerprint input).
  change (i_offset (with_cursor input c)) with (i_offset input).
  change (input_query (with_cursor input c)) with (input_query input).
  rewrite Hd, result_bind_ret. fold offset after. unfold execute_query.
  rewrite matching_accepts, result_bind_ret by done. cbn [input_query q_sort q_limit q_after q_offset].
  rewrite given_sort, Hspec, Hlimit. cbn [fmap option_fmap option_map].
  replace (Z.min (Z.of_nat n) 1000) with (Z.of_nat page_size) by (unfold page_size; lia).
  fold skip. rewrite result_bind_ret. cbn [pg_items pg_total_count pg_keyset].
  destruct (page_spec_skip request_attr Request.request_id false spec rows after page_size skip
    ltac:(unfold page_size; lia)) as [Hitems Hnext]. fold left in Hitems, Hnext.
  destruct (next_position _) as [q|]; cbn [next_cursor_for]; (eexists; split; [reflexivity|]);
    cbn [o_requests o_total_count o_next_cursor]; (split; [done|]); (split; [done|]); [|done].
  destruct Hnext as (l1 & x & Ht & -> & Hlt). exists l1, x. split; [done|]. split; [done|].
  rewrite Hitems, length_take, Nat.min_l by lia. done.
Qed.

Lemma follow_page fuel c d offset :
  decode_page_cursor c (input_fingerprint input) (input_sort input) = Ok d →
  match d with Some d => dc_offset d | None => i_offset input end = offset → 0 ≤ offset →
  let after := match d with Some d => dc_position d | None => None end in
  let skip := match after with Some _ => 0%nat | None => Z.to_nat offset end in
  let left := drop skip (after_row after listing) in
  (length left <= fuel)%nat →
  follow fuel store (with_cursor input c) = Ok (left, true).
Proof.
  revert c d offset. induction fuel as [|fuel IH]; intros c d offset Hd Ho Hpos after skip left Hlen;
    destruct (execute_page c d Hd) as (out & He & Hitems & _ & Hnext);
    rewrite Ho in Hitems, Hnext; fold after skip left in Hitems, Hnext;
    cbn [follow]; rewrite He, result_bind_ret; destruct (o_next_cursor out) as [c'|].
  - destruct Hnext as (? & ? & _ & ? & _). lia.
  - by rewrite Hitems, take_ge.
  - destruct Hnext as (l1 & x & Ht & Hmore & ->).
    change (with_cursor (with_cursor input c) ?c') with (with_cursor input c').
    pose proof (rest_after_page request_attr Request.request_id false spec rows after page_size skip l1 x
      rows_positions Ht) as Hrest. fold left in Hrest.
    rewrite (IH _ (Some (mk_decoded (Some (pos x)) (offset + Z.of_nat page_size))) (offset + Z.of_nat page_size)).
    + cbn [dc_position]. rewrite drop_0, Hrest, result_bind_ret. cbn [fst snd].
      by rewrite Hitems, take_drop.
    + rewrite decode_encode by lia. by rewrite !bool_decide_true.
    + done.
    + lia.
    + cbn [dc_position]. rewrite drop_0, Hrest, length_drop. unfold page_size in *. lia.
  - by rewrite Hitems, take_ge.
Qed.
End Follow.

(** C38: Following the cursors lists every matching request once.  For a store
    whose request ids are distinct, a known status filter, an order with an
    attribute and a positive limit (whatever the limit: the handler cuts it at
    1000), a client that starts at an offset and follows [next_cursor] gets no
    error, reaches a response without a cursor, and collects exactly the requests
    the filters accept, in the order asked for, less those the offset skipped. *)
Theorem listing_complete store input spec (n fuel : nat) :
  NoDup (Request.request_id <$> store) →
  passes (i_status input) (λ v, bool_decide (is_Some (enum_of_value (E := RequestStatus.t) v))) = true →
  SortSpec_parse (Some (input_sort input)) = Some spec →
  i_limit input = Some (Z.of_nat n) → (0 < n)%nat → i_cursor input = None → 0 ≤ i_offset input →
  (length store <= fuel)%nat →
  let listing := ordered request_attr Request.request_id false spec (keep (accepts input) store) in
  follow fuel store input = Ok (drop (Z.to_nat (i_offset input)) listing, true) ∧
  listing ≡ₚ keep (accepts input) store ∧
  StronglySorted (precedes request_attr Request.request_id false spec) listing.
Proof.
  intros Hids Hstatus Hspec Hlimit Hn Hc Hoff Hfuel listing. split; [|split].
  - assert (input = with_cursor input None) as Heq by (clear -Hc; destruct input; cbn in Hc; by subst).
    rewrite Heq at 1.
    apply (follow_page store input spec n Hids Hstatus Hspec Hlimit Hn fuel None None (i_offset input));
      [done..|]. cbn [rest_after]. unfold ordered. rewrite length_drop.
    rewrite (Permutation_length (sorted_by_perm _ (keep (accepts input) store))).
    pose proof (sublist_length _ _ (keep_sublist (accepts input) store)). lia.
  - apply sorted_by_perm.
  - apply ordered_sorted. by apply (rows_positions store input spec).
Qed.

(** A status filter that names no status fails the listing. *)
Lemma listing_bad_status store input v :
  given (i_status input) = Some v → enum_of_value (E := RequestStatus.t) v = None →
  i_cursor input = None →
  execute store input = Err (ValueError ("'" +:+ v +:+ "' is not a valid RequestStatus")).
Proof.
  intros Hs He Hc. unfold execute. rewrite Hc. cbn [decode_page_cursor]. rewrite result_bind_ret.
  unfold execute_query, matching. cbn [input_query q_status q_provider_name q_provider_type].
  by rewrite Hs, He.
Qed.

(** An order that has no attribute (signs only) is paged by offset. *)
Lemma execute_offset store input n offset c d :
  passes (i_status input) (λ v, bool_decide (is_Some (enum_of_value (E := RequestStatus.t) v))) = true →
  SortSpec_parse (Some (input_sort input)) = None → i_limit input = Some n → 1000 < n → 0 ≤ offset →
  decode_page_cursor c (input_fingerprint input) (input_sort input) = Ok d →
  match d with Some d => dc_offset d | None => i_offset input end = offset →
  let rows := keep (accepts input) store in
  execute store (with_cursor input c) =
    Ok (mk_output (take 1000 (drop (Z.to_nat offset) rows)) (length (take 1000 (drop (Z.to_nat offset) rows)))
          (if offset + n <? Z.of_nat (length rows) then Some (encode_cursor (offset + n)) else None)
          (length rows)).
Proof.
  intros Hs Hspec Hlim Hn Hoff Hd Ho rows. unfold execute. cbn [with_cursor i_cursor].
  change (input_sort (with_cursor input c)) with (input_sort input).
  change (input_fingerprint (with_cursor input c)) with (input_fingerprint input).
  change (i_offset (with_cursor input c)) with (i_offset input).
  change (i_limit (with_cursor input c)) with (i_limit input).
  change (input_query (with_cursor input c)) with (input_query input).
  rewrite Hd, result_bind_ret, Ho. unfold execute_query. rewrite matching_accepts by done.
  rewrite result_bind_ret. cbn [input_query q_sort q_limit q_after q_offset]. fold rows.
  rewrite given_sort, Hspec, Hlim. cbn [fmap option_fmap option_map]. rewrite Z.min_r by lia. cbn iota.
  change (0 <? 1000) with true. cbn iota. rewrite result_bind_ret.
  cbn [pg_items pg_total_count pg_keyset next_cursor_for default]. cbn iota. unfold id.
  rewrite (proj2 (Z.eqb_neq n 0)) by lia. cbn [negb andb].
  assert (slice rows offset (offset + 1000) = take 1000 (drop (Z.to_nat offset) rows)) as ->; [|done].
  unfold slice, bound. rewrite !(proj2 (Z.ltb_ge _ _)) by lia. rewrite take_drop_commute.
  f_equal. f_equal. lia.
Qed.

(** A limit above 1000 loses rows where paging is by offset.  The handler
    cuts the page at 1000 rows, while the cursor moves by the limit asked for: with
    an order that has no attribute, no offset and more matching requests than the
    limit [n], the first response has the first 1000 and the second starts at the
    [n]-th, so those between are never listed. *)
Theorem clamped_offset_skips store input n :
  passes (i_status input) (λ v, bool_decide (is_Some (enum_of_value (E := RequestStatus.t) v))) = true →
  SortSpec_parse (Some (input_sort input)) = None →
  i_limit input = Some n → 1000 < n → i_offset input = 0 →
  let rows := keep (accepts input) store in
  n < Z.of_nat (length rows) →
  ∃ out1 out2, execute store (with_cursor input None) = Ok out1 ∧ o_requests out1 = take 1000 rows ∧
    execute store (with_cursor input (o_next_cursor out1)) = Ok out2 ∧
    o_requests out2 = take 1000 (drop (Z.to_nat n) rows).
Proof.
  intros Hs Hspec Hlim Hn Hoff rows Hlen.
  pose proof (execute_offset store input n 0 None None Hs Hspec Hlim Hn ltac:(lia) eq_refl Hoff) as H1.
  pose proof (execute_offset store input n n (Some (encode_cursor n)) (Some (mk_decoded None n)) Hs Hspec Hlim
    Hn ltac:(lia) (offset_roundtrip n _ _ ltac:(lia)) eq_refl) as H2.
  cbv zeta in H1, H2. fold rows in H1, H2. change (Z.to_nat 0) with 0%nat in H1. rewrite Z.add_0_l, (proj2 (Z.ltb_lt _ _) Hlen), drop_0 in H1.
  do 2 eexists. split; [exact H1|]. split; [done|]. split; [exact H2|done].
Qed.
End Listing.

(** ** Witnesses *)

Definition listed (i t : string) (at_ : datetime) : Request.t :=
  Request.fresh i RequestType.ACQUIRE t 2 "aws" None None [] [] at_ 0.
Definition demo_listing : list Request.t :=
  [listed "req-2" "t" 30; listed "req-1" "t" 20; listed "req-3" "u" 40; listed "req-4" "t" 10].
Definition demo_input : ListRequestsInput :=
  mk_input None (Some 2) 0 (Some "t") None None None None None None.

Lemma listing_complete_witness :
  follow (first_bytes 8) (λ _ _, SNone) 4 demo_listing demo_input =
    Ok ([listed "req-2" "t" 30; listed "req-1" "t" 20; listed "req-4" "t" 10], true).
Proof.
  etrans; [apply (listing_complete (first_bytes 8) (λ _ _, SNone) demo_listing demo_input
                    (mk_spec "created_at" true) 2 4)|].
  - apply (bool_decide_unpack _). vm_compute. exact I.
  - reflexivity.
  - reflexivity.
  - reflexivity.
  - lia.
  - reflexivity.
  - reflexivity.
  - simpl. lia.
  - vm_compute. reflexivity.
Defined.

Definition long_listing : list Request.t := replicate 1002 (listed "req-1" "t" 20).
Definition unsorted_input : ListRequestsInput :=
  mk_input None (Some 1001) 0 None None None None None (Some "-") None.

Lemma clamped_offset_skips_witness :
  ∃ out1 out2,
    execute (first_bytes 8) (λ _ _, SNone) long_listing (with_cursor unsorted_input None) = Ok out1 ∧
    o_requests out1 = take 1000 (keep (accepts unsorted_input) long_listing) ∧
    execute (first_bytes 8) (λ _ _, SNone) long_listing (with_cursor unsorted_input (o_next_cursor out1)) = Ok out2 ∧
    o_requests out2 = take 1000 (drop (Z.to_nat 1001) (keep (accepts unsorted_input) long_listing)).
Proof.
  apply (clamped_offset_skips (first_bytes 8) (λ _ _, SNone) long_listing unsorted_input 1001);
    [reflexivity|reflexivity|reflexivity|lia|reflexivity|vm_compute; reflexivity].
Defined.
