(* ===== verification/RequestRow.v ===== *)
(** * Requests as stored rows

    [RequestSerializer] of
    [orb/infrastructure/storage/repositories/request_repository.py] with the timestamp
    helpers of [orb/infrastructure/storage/components/generic_serializer.py], and the
    loading paths of [orb/infrastructure/storage/base/repository_mixin.py].

    Pydantic is outside the model: how it reads an integer field, and how it writes
    and reads a diagnostic, are arguments.  Of [ast.literal_eval] the model has the
    dictionary of one plain string the code looks for; other literals are refused
    (and as identifiers they are malformed).  Timestamps are read in the layout they
    are written in ([TimeText]). *)

From stdpp Require Import base strings list numbers sets.
From Stdlib Require Import Ascii ZArith Lia.
From S2P Require Import Prelude RequestTypes Diagnostic RequestAggregate TimeText JsonText.
Open Scope Z_scope.

Abbreviation row := (dict json).

Definition LEGACY_DEFAULT_PROVIDER_TYPE : string := "aws".

(** ** Timestamps *)

Definition serialize_datetime (dt : option datetime) : json :=
  match dt with Some t => JStr (isoformat t) | None => JNull end.

(** A text that is no timestamp reads as [None]; so does a value of another type. *)
Definition deserialize_datetime (dt_str : json) : option datetime :=
  if negb (truthy dt_str) then None
  else match dt_str with JStr s => fromisoformat s | _ => None end.

(** ** Fields that changed shape *)

Definition _unwrap_provider_data (raw : json) : json :=
  match raw with
  | JDict d =>
      match dget "provider_data" d with
      | Some (JDict nested) => JDict (dpop "provider_data" (dmerge nested d))
      | _ => raw
      end
  | _ => jor raw (JDict [])
  end.

Definition set_if_null (k : string) (v : json) (d : row) : row :=
  match jget k d with JNull => dset k v d | _ => d end.

Definition container_defaults (data : row) : row :=
  let data := set_if_null "metadata" (JDict []) data in
  let data := set_if_null "error_details" (JDict []) data in
  let data := set_if_null "provider_data" (JDict []) data in
  set_if_null "resource_ids" (JList []) data.

Definition _apply_nullable_defaults (data : row) : result row :=
  let data := container_defaults data in
  match jget "machine_ids" data with
  | JNull =>
      if match jget "request_type" data with JStr t => t ≟ "return" | _ => false end
      then Err (ValueError ("Return request " +:+ json_str (dget_default "request_id" data (JStr "<unknown>")) +:+
                  " has NULL machine_ids — this is a domain-model invariant violation. "
                  +:+ "A return request must reference the machines being returned. "
                  +:+ "Inspect the record and repair it before reprocessing."))
      else Ok (dset "machine_ids" (JList []) data)
  | _ => Ok data
  end.

(** ** Identifiers *)

Fixpoint skip_blanks (s : string) : string :=
  match s with
  | String c s' => if c ≟ " "%char then skip_blanks s' else s
  | EmptyString => s
  end.

(** The characters up to a closing quote; a backslash or a line end is refused. *)
Fixpoint until_quote (q : ascii) (s : string) : option (string * string) :=
  match s with
  | EmptyString => None
  | String c s' =>
      if c ≟ q then Some (EmptyString, s')
      else if (c ≟ "\"%char) || (c ≟ "010"%char) then None
      else '(t, rest) ← until_quote q s'; Some (String c t, rest)
  end.

Definition value_prefix (q : ascii) : string := String "{" (String q ("value" +:+ String q ":")).

(** [ast.literal_eval] on the text of a dictionary with the one key [value]. *)
Definition literal_value (s : string) : option string :=
  match skip_blanks (String.substring 9 (String.length s - 9)%nat s) with
  | String q rest =>
      if (q ≟ "'"%char) || (q ≟ dq) then
        '(v, rest) ← until_quote q rest;
        if skip_blanks rest ≟ "}" then Some v else None
      else None
  | EmptyString => None
  end.

Definition not_a_string : exn := OtherError "ValidationError" "Input should be a valid string".

Definition request_id_of (j : json) : result string :=
  match j with JStr v => RequestId.make v | _ => Err not_a_string end.

Definition _parse_request_id (j : json) : result string :=
  match j with
  | JStr s =>
      if startswith (value_prefix "'"%char) s || startswith (value_prefix dq) s then
        match literal_value s with Some v => RequestId.make v | None => RequestId.make s end
      else RequestId.make s
  | JDict d => match dget "value" d with Some v => request_id_of v | None => RequestId.make (json_str j) end
  | _ => RequestId.make (json_str j)
  end.

(** ** Reading the fields *)

(** [for x in j]. *)
Definition iter_json (j : json) : result (list json) :=
  match j with
  | JList l => Ok l
  | JDict d => Ok (JStr <$> dkeys d)
  | JStr s => Ok ((λ c, JStr (String c EmptyString)) <$> String.list_ascii_of_string s)
  | _ => Err (TypeError "object is not iterable")
  end.

Definition str_field (j : json) : result string :=
  match j with JStr s => Ok s | _ => Err not_a_string end.
Definition dict_field (j : json) : result (dict json) :=
  match j with
  | JDict d => Ok d
  | _ => Err (OtherError "ValidationError" "Input should be a valid dictionary")
  end.
Definition str_list_field (j : json) : result (list string) :=
  match j with
  | JList l => mapM_result str_field l
  | _ => Err (OtherError "ValidationError" "Input should be a valid list")
  end.

Definition missing (k : string) (d : row) : result json :=
  match dget k d with Some v => Ok v | None => Err (KeyError k) end.

Definition enum_field {E} `{StrEnum E} (class_name : string) (j : json) : result E :=
  match (match j with JStr s => enum_of_value s | _ => None end) with
  | Some e => Ok e
  | None => Err (ValueError (json_repr j +:+ " is not a valid " +:+ class_name))
  end.

(** [int(x or 0)]; of texts, those that are JSON integers. *)
Definition int_or_zero (j : json) : result Z :=
  match j with
  | JNull => Ok 0
  | JInt z => Ok z
  | JBool b => Ok (if b then 1 else 0)
  | JStr EmptyString | JList [] | JDict [] => Ok 0
  | JStr s =>
      match loads s with
      | Ok (JInt z) => Ok z
      | _ => Err (ValueError ("invalid literal for int() with base 10: " +:+ json_repr j))
      end
  | _ => Err (TypeError "int() argument must be a string, a bytes-like object or a real number")
  end.

(** Look the columns of a literal row up. *)
Ltac read_columns :=
  repeat match goal with
  | d := _ |- context [dget ?k ?d] => let v := eval hnf in (dget k d) in change (dget k d) with v
  end.

Section Serializer.
Context (lax_int : json → result Z).
Context (model_dump_json : FulfilmentDiagnostic → string).
Context (diag_validate : dict json → option FulfilmentDiagnostic).

(** The parsed diagnostic with the payload it came from; malformed ones are dropped. *)
Definition _parse_fulfilment_diagnostic (raw : json) : option (dict json) :=
  parsed ← match raw with
           | JDict d => Some d
           | JStr s => match loads s with Ok (JDict d) => Some d | _ => None end
           | _ => None
           end;
  match diag_validate parsed with Some _ => Some parsed | None => None end.

Definition opt_text (o : option string) : json :=
  match o with Some s => JStr s | None => JNull end.
Definition texts (l : list string) : json := JList (JStr <$> l).

Definition to_dict (request : Request.t) : result row :=
  match Request.created_at request with
  | None => Err (OtherError "AttributeError" "'NoneType' object has no attribute 'isoformat'")
  | Some created_at =>
      Ok [("request_id", JStr (Request.request_id request));
          ("template_id", JStr (Request.template_id request));
          ("machine_count", JInt (Request.requested_count request));
          ("requested_count", JInt (Request.requested_count request));
          ("desired_capacity", JInt (Request.desired_capacity request));
          ("request_type", JStr (RequestType.value (Request.request_type request)));
          ("status", JStr (RequestStatus.value (Request.status request)));
          ("status_message", opt_text (Request.status_message request));
          ("provider_name", opt_text (Request.provider_name request));
          ("provider_api", opt_text (Request.provider_api request));
          ("provider_type", JStr (Request.provider_type request));
          ("resource_ids", texts (Request.resource_ids request));
          ("machine_ids", texts (Request.machine_ids request));
          ("message", opt_text (Request.status_message request));
          ("successful_count", JInt (Request.successful_count request));
          ("failed_count", JInt (Request.failed_count request));
          ("metadata", JDict (Request.metadata request));
          ("error_details", JDict (Request.error_details request));
          ("provider_data", JDict (Request.provider_data request));
          ("created_at", JStr (isoformat created_at));
          ("started_at", serialize_datetime (Request.started_at request));
          ("completed_at", serialize_datetime (Request.completed_at request));
          ("first_status_check", serialize_datetime (Request.first_status_check request));
          ("last_status_check", serialize_datetime (Request.last_status_check request));
          ("deadline_at", serialize_datetime (Request.deadline_at request));
          ("partial_since", serialize_datetime (Request.partial_since request));
          ("last_transition_at", serialize_datetime (Request.last_transition_at request));
          ("fulfilment_diagnostic",
             match Request.fulfilment_diagnostic request with
             | Some d => JStr (model_dump_json d)
             | None => JNull
             end);
          ("version", JInt (Request.version request));
          ("timeout", jget "timeout" (Request.metadata request));
          ("error_message", opt_text (Request.status_message request));
          ("schema_version", JStr "2.0.0")]
  end.

(** [datetime.fromisoformat(j)]. *)
Definition created_field (j : json) : result datetime :=
  match j with
  | JStr s => match fromisoformat s with
              | Some t => Ok t
              | None => Err (ValueError ("Invalid isoformat string: " +:+ json_repr j))
              end
  | _ => Err (TypeError "fromisoformat: argument must be str")
  end.

(** The aggregate and the version its holder is marked with; [holder] is the
    fresh holder [model_validate] gives it. *)
Definition from_fields (data : row) (holder : nat) : result (Request.t * Z) :=
  created_at ← (missing "created_at" data ≫= created_field);
  let diagnostic := _parse_fulfilment_diagnostic (jget "fulfilment_diagnostic" data) in
  request_id ← (missing "request_id" data ≫= _parse_request_id);
  template_id ← missing "template_id" data;
  let requested_count := dget_default "requested_count" data (dget_default "machine_count" data (JInt 1)) in
  let desired_capacity := dget_default "desired_capacity" data
      (dget_default "machine_count" data (dget_default "requested_count" data (JInt 1))) in
  request_type ← (missing "request_type" data ≫= enum_field "RequestType");
  status ← (missing "status" data ≫= enum_field "RequestStatus");
  let status_message :=
    jor (jor (jget "status_message" data) (jget "error_message" data)) (jget "message" data) in
  machine_ids ← iter_json (jor (dget_default "machine_ids" data (JList [])) (JList []));
  let machine_ids := List.filter (λ j, match j with JNull => false | _ => true end) machine_ids in
  (* Request.model_validate *)
  provider_type ← str_field (dget_default "provider_type" data (JStr LEGACY_DEFAULT_PROVIDER_TYPE));
  provider_name ← opt_str_field (jget "provider_name" data);
  template_id ← str_field template_id;
  requested_count ← lax_int requested_count;
  desired_capacity ← lax_int desired_capacity;
  provider_api ← opt_str_field (jget "provider_api" data);
  resource_ids ← str_list_field (dget_default "resource_ids" data (JList []));
  machine_ids ← str_list_field (JList machine_ids);
  status_message ← opt_str_field status_message;
  successful_count ← lax_int (dget_default "successful_count" data (JInt 0));
  failed_count ← lax_int (dget_default "failed_count" data (JInt 0));
  metadata ← dict_field (dget_default "metadata" data (JDict []));
  error_details ← dict_field (dget_default "error_details" data (JDict []));
  provider_data ← dict_field (_unwrap_provider_data (dget_default "provider_data" data (JDict [])));
  version ← lax_int (dget_default "version" data (JInt 0));
  loaded ← int_or_zero (jget "version" data);
  Ok (Request.mk request_id request_type provider_type provider_name template_id
        requested_count desired_capacity provider_api resource_ids machine_ids status status_message
        successful_count failed_count
        (deserialize_datetime (jget "started_at" data)) (deserialize_datetime (jget "completed_at" data))
        (deserialize_datetime (jget "first_status_check" data))
        (deserialize_datetime (jget "last_status_check" data))
        (deserialize_datetime (jget "deadline_at" data)) (deserialize_datetime (jget "partial_since" data))
        (deserialize_datetime (jget "last_transition_at" data))
        (match diagnostic with Some d => diag_validate d | None => None end)
        metadata error_details provider_data version (Some created_at) holder [], loaded).

Definition from_dict (data : row) (holder : nat) : result (Request.t * Z) :=
  data ← _apply_nullable_defaults data;
  from_fields data holder.

(** ** Rows written are rows read *)

Context (Hint_field : ∀ z, lax_int (JInt z) = Ok z).
Context (Hdiag : ∀ d, ∃ payload, loads (model_dump_json d) = Ok (JDict payload) ∧
                      diag_validate payload = Some d).

Definition time_ok (o : option datetime) : Prop :=
  match o with Some t => in_range t | None => True end.

(** The requests a row can hold: a valid identifier, a creation time, timestamps
    in the range of [datetime], and provider data that does not look like the old
    nested layout. *)
Record storable (r : Request.t) : Prop := mk_storable {
  so_id : RequestId._is_valid_format (Request.request_id r) = true;
  so_created : ∃ t, Request.created_at r = Some t ∧ in_range t;
  so_started : time_ok (Request.started_at r);
  so_completed : time_ok (Request.completed_at r);
  so_first : time_ok (Request.first_status_check r);
  so_last : time_ok (Request.last_status_check r);
  so_deadline : time_ok (Request.deadline_at r);
  so_partial : time_ok (Request.partial_since r);
  so_transition : time_ok (Request.last_transition_at r);
  so_flat : ∀ nested, dget "provider_data" (Request.provider_data r) ≠ Some (JDict nested)
}.

(** What a load gives: the aggregate with no pending events and a new holder. *)
Definition reloaded (r : Request.t) (holder : nat) : Request.t :=
  r <| Request.persisted_revision := holder |> <| Request.domain_events := [] |>.

Lemma isoformat_nonempty t : truthy (JStr (isoformat t)) = true.
Proof.
  unfold isoformat. destruct (civil_from_days _) as [[y m] d]. unfold truthy.
  rewrite bool_decide_false; [done|]. intros H. apply (f_equal String.length) in H.
  rewrite !length_append in H. simpl in H. lia.
Qed.

Lemma datetime_roundtrip o : time_ok o → deserialize_datetime (serialize_datetime o) = o.
Proof.
  destruct o as [t|]; [|done]. intros Ht. unfold serialize_datetime, deserialize_datetime.
  rewrite isoformat_nonempty. by apply fromisoformat_isoformat.
Qed.

Lemma jor_same a : jor a a = a.
Proof. unfold jor. by destruct (truthy a). Qed.

Lemma opt_text_field o : opt_str_field (opt_text o) = Ok o.
Proof. by destruct o. Qed.

Lemma texts_field l : str_list_field (texts l) = Ok l.
Proof. cbn. induction l as [|s l IH]; [done|]. cbn. by rewrite IH. Qed.

Lemma texts_not_null l :
  List.filter (λ j, match j with JNull => false | _ => true end) (JStr <$> l) = JStr <$> l.
Proof. induction l as [|s l IH]; [done|]. cbn. by rewrite IH. Qed.

Lemma texts_iter l : iter_json (jor (texts l) (JList [])) = Ok (JStr <$> l).
Proof. by destruct l. Qed.

Lemma valid_not_wrapped v :
  RequestId._is_valid_format v = true →
  startswith (value_prefix "'"%char) v = false ∧ startswith (value_prefix dq) v = false.
Proof.
  unfold RequestId._is_valid_format. intros [H _]%andb_true_iff. destruct v as [|c v]; [done|].
  assert (c = "r"%char) as ->.
  { by destruct c as [[] [] [] [] [] [] [] []]. }
  done.
Qed.

Lemma parse_valid_id v : RequestId._is_valid_format v = true → _parse_request_id (JStr v) = Ok v.
Proof.
  intros Hv. destruct (valid_not_wrapped v Hv) as [H1 H2]. unfold _parse_request_id. rewrite H1, H2.
  cbn [orb]. unfold RequestId.make. by rewrite Hv.
Qed.

Lemma enum_field_value {E} `{StrEnum E} name (e : E) : enum_field name (JStr (enum_value e)) = Ok e.
Proof. unfold enum_field. by rewrite enum_of_value_value. Qed.

Lemma type_field_value (x : RequestType.t) : enum_field "RequestType" (JStr (RequestType.value x)) = Ok x.
Proof. exact (enum_field_value "RequestType" x). Qed.

Lemma status_field_value (x : RequestStatus.t) :
  enum_field "RequestStatus" (JStr (RequestStatus.value x)) = Ok x.
Proof. exact (enum_field_value "RequestStatus" x). Qed.

Lemma unwrap_flat d :
  (∀ nested, dget "provider_data" d ≠ Some (JDict nested)) → _unwrap_provider_data (JDict d) = JDict d.
Proof.
  intros H. unfold _unwrap_provider_data. destruct (dget "provider_data" d) as [[]|] eqn:Hd; try done.
  by destruct (H d0).
Qed.

Lemma diagnostic_roundtrip o :
  match _parse_fulfilment_diagnostic
          match o with Some d => JStr (model_dump_json d) | None => JNull end with
  | Some d => diag_validate d
  | None => None
  end = o.
Proof.
  destruct o as [d|]; [|done]. destruct (Hdiag d) as (payload & Hl & Hv).
  unfold _parse_fulfilment_diagnostic. rewrite Hl. cbn [mbind option_bind]. by rewrite Hv.
Qed.

Lemma row_roundtrip r holder :
  storable r →
  ∃ data, to_dict r = Ok data ∧ from_dict data holder = Ok (reloaded r holder, Request.version r).
Proof.
  intros [Hid (t & Hc & Ht) Hs Hco Hf Hl Hd Hp Htr Hflat]. unfold to_dict. rewrite Hc.
  eexists. split; [reflexivity|].
  match goal with |- from_dict ?row _ = _ => set (d := row) end.
  unfold from_dict. assert (_apply_nullable_defaults d = Ok d) as -> by reflexivity.
  rewrite result_bind_ret. unfold from_fields, missing, jget, dget_default. read_columns.
  cbn [default from_option mbind result_bind]. unfold id.
  unfold created_field. rewrite fromisoformat_isoformat by done. cbn [mbind result_bind].
  rewrite parse_valid_id by done. cbn [mbind result_bind].
  rewrite type_field_value, status_field_value.
  cbn [mbind result_bind]. rewrite texts_iter. cbn [mbind result_bind str_field].
  rewrite texts_not_null, !jor_same, !opt_text_field. fold (texts (Request.machine_ids r)).
  rewrite !Hint_field, !texts_field, unwrap_flat by done. cbn [mbind result_bind dict_field int_or_zero].
  rewrite !datetime_roundtrip, diagnostic_roundtrip by done. unfold reloaded. cbn. rewrite <-Hc. by destruct r.
Qed.

(** C25: A request survives its row.  Every storable request is written without
    error, and reading the row gives it back, field for field, with an empty event
    queue and a holder marked with its version. *)
Theorem request_row_roundtrip r holder :
  storable r →
  ∃ data, to_dict r = Ok data ∧ from_dict data holder = Ok (reloaded r holder, Request.version r).
Proof. apply row_roundtrip. Qed.

(** ** Rows that were not written here *)

Lemma jget_equiv d d' k : dict_equiv d d' → jget k d = jget k d'.
Proof. intros H. unfold jget. by rewrite H. Qed.

Lemma dget_default_equiv d d' k (v : json) : dict_equiv d d' → dget_default k d v = dget_default k d' v.
Proof. intros H. unfold dget_default. by rewrite H. Qed.

Lemma dset_equiv k (v : json) d d' : dict_equiv d d' → dict_equiv (dset k v d) (dset k v d').
Proof. intros H k'. by rewrite !dget_dset, H. Qed.

Lemma set_if_null_equiv k v d d' : dict_equiv d d' → dict_equiv (set_if_null k v d) (set_if_null k v d').
Proof.
  intros H. unfold set_if_null. rewrite (jget_equiv d d' k H).
  destruct (jget k d'); try done. by apply dset_equiv.
Qed.

Lemma container_defaults_equiv d d' :
  dict_equiv d d' → dict_equiv (container_defaults d) (container_defaults d').
Proof. intros H. unfold container_defaults. by repeat apply set_if_null_equiv. Qed.

Definition defaults_equiv (r r' : result row) : Prop :=
  match r, r' with Ok d, Ok d' => dict_equiv d d' | Err e, Err e' => e = e' | _, _ => False end.

Lemma apply_defaults_equiv d d' :
  dict_equiv d d' → defaults_equiv (_apply_nullable_defaults d) (_apply_nullable_defaults d').
Proof.
  intros H. unfold _apply_nullable_defaults.
  pose proof (container_defaults_equiv d d' H) as He.
  set (e := container_defaults d) in *. set (e' := container_defaults d') in *.
  rewrite (jget_equiv e e' _ He), (jget_equiv e e' "request_type" He), (dget_default_equiv e e' _ _ He).
  destruct (jget "machine_ids" e'); try done. destruct (jget "request_type" e'); try by apply dset_equiv.
  destruct (s ≟ "return"); [done|by apply dset_equiv].
Qed.

(** Reading a row depends on the answers to lookups only, not on the order of
    its columns or on shadowed ones. *)
Lemma from_fields_equiv d d' holder : dict_equiv d d' → from_fields d holder = from_fields d' holder.
Proof. intros H. unfold from_fields, missing, jget, dget_default. by rewrite !H. Qed.

#[local] Instance from_dict_proper : Proper (dict_equiv ==> (=) ==> (=)) from_dict.
Proof.
  intros d d' H holder ? <-. unfold from_dict. pose proof (apply_defaults_equiv d d' H) as He.
  destruct (_apply_nullable_defaults d) as [e|e], (_apply_nullable_defaults d') as [e'|e']; try done;
    cbn in He |- *; [by apply from_fields_equiv|by subst].
Qed.

Lemma dset_comm k k' (v v' : json) d :
  k ≠ k' → dict_equiv (dset k v (dset k' v' d)) (dset k' v' (dset k v d)).
Proof. intros Hne i. rewrite !dget_dset. repeat case_decide; congruence. Qed.

Lemma set_if_null_dset k v k' v' d :
  k ≠ k' → dict_equiv (set_if_null k v (dset k' v' d)) (dset k' v' (set_if_null k v d)).
Proof.
  intros Hne. unfold set_if_null, jget. rewrite dget_dset_ne by done.
  destruct (default JNull (dget k d)); try done. by apply dset_comm.
Qed.

Lemma dict_equiv_trans (d1 d2 d3 : row) : dict_equiv d1 d2 → dict_equiv d2 d3 → dict_equiv d1 d3.
Proof. intros H1 H2 k. by rewrite H1. Qed.

(** The columns that may be filled in. *)
Definition container_columns : list string := ["metadata"; "error_details"; "provider_data"; "resource_ids"].

Lemma container_defaults_dset k v d :
  k ∉ container_columns → dict_equiv (container_defaults (dset k v d)) (dset k v (container_defaults d)).
Proof.
  unfold container_columns. rewrite !not_elem_of_cons. intros (H1 & H2 & H3 & H4 & _).
  unfold container_defaults. do 3 (eapply dict_equiv_trans; [|by apply set_if_null_dset];
    apply set_if_null_equiv). by apply set_if_null_dset.
Qed.

Lemma dget_set_if_null_ne k v k' d : k ≠ k' → dget k' (set_if_null k v d) = dget k' d.
Proof. intros Hne. unfold set_if_null. destruct (jget k d); try done. by apply dget_dset_ne. Qed.

Lemma dget_container_defaults k d : k ∉ container_columns → dget k (container_defaults d) = dget k d.
Proof.
  unfold container_columns. rewrite !not_elem_of_cons. intros (H1 & H2 & H3 & H4 & _).
  unfold container_defaults. by rewrite !dget_set_if_null_ne.
Qed.

Lemma apply_defaults_dset k v d :
  k ∉ container_columns → k ∉ ["machine_ids"; "request_type"; "request_id"] →
  defaults_equiv (_apply_nullable_defaults (dset k v d))
    (d' ← _apply_nullable_defaults d; Ok (dset k v d')).
Proof.
  intros Hc Hk. rewrite !not_elem_of_cons in Hk. destruct Hk as (H1 & H2 & H3 & _).
  unfold _apply_nullable_defaults. pose proof (container_defaults_dset k v d Hc) as He.
  set (e := container_defaults d) in *. set (e' := container_defaults (dset k v d)) in *. clearbody e e'.
  rewrite !(jget_equiv _ _ _ He), (dget_default_equiv _ _ _ _ He).
  unfold jget, dget_default. rewrite !dget_dset_ne by done.
  assert (dict_equiv (dset "machine_ids" (JList []) e') (dset k v (dset "machine_ids" (JList []) e))) as Hm.
  { eapply dict_equiv_trans; [by apply dset_equiv|by apply dset_comm]. }
  destruct (default JNull (dget "machine_ids" e)); try done.
  destruct (default JNull (dget "request_type" e)); try done. by destruct (s ≟ "return").
Qed.

(** Columns that are not container columns, by evaluation. *)
Ltac column := apply (bool_decide_unpack _); vm_compute; exact I.

(** A diagnostic never keeps a request from loading.  Whatever the stored
    diagnostic is replaced with (no JSON, another schema, another type), a row that
    loads still loads, and all that changes is the diagnostic: the one the new
    value validates to, or none. *)
Theorem diagnostic_never_fatal data x holder r v :
  from_dict data holder = Ok (r, v) →
  from_dict (dset "fulfilment_diagnostic" x data) holder =
    Ok (r <| Request.fulfilment_diagnostic := _parse_fulfilment_diagnostic x ≫= diag_validate |>, v).
Proof.
  unfold from_dict. intros (d & Hd & Hr)%result_bind_Ok.
  pose proof (apply_defaults_dset "fulfilment_diagnostic" x data ltac:(column) ltac:(column)) as He.
  rewrite Hd in He. destruct (_apply_nullable_defaults (dset _ x data)) as [d'|]; [|done]. cbn in He.
  rewrite result_bind_ret, (from_fields_equiv d' (dset "fulfilment_diagnostic" x d)) by done.
  clear He. revert Hr. unfold from_fields, missing, jget, dget_default.
  rewrite dget_dset_eq, !(dget_dset_ne "fulfilment_diagnostic") by done.
  intros Hr. repeat (apply result_bind_Ok in Hr as (? & -> & Hr); rewrite result_bind_ret).
  injection Hr as <- <-. reflexivity.
Qed.

(** A return request must say which machines it returns.  A row whose
    machine list is null or absent fails to load when its type is [return], and
    for any other type loads as if the list were empty. *)
Theorem null_machine_ids data holder :
  jget "machine_ids" data = JNull →
  (jget "request_type" data = JStr "return" → ∃ m, from_dict data holder = Err (ValueError m)) ∧
  (jget "request_type" data ≠ JStr "return" →
     from_dict data holder = from_dict (dset "machine_ids" (JList []) data) holder).
Proof.
  intros Hm. unfold from_dict, _apply_nullable_defaults.
  pose proof (container_defaults_dset "machine_ids" (JList []) data ltac:(column)) as He.
  rewrite !(jget_equiv _ _ _ He). set (e' := container_defaults (dset _ _ _)) in *.
  unfold jget in *. rewrite dget_dset_eq, !dget_container_defaults, Hm by column. cbn iota. split.
  - intros ->. rewrite bool_decide_true by done. by eexists.
  - intros Hne. change (default JNull (Some (JList []))) with (JList []). cbn iota.
    rewrite result_bind_ret, (from_fields_equiv e' _ _ He).
    destruct (default JNull (dget "request_type" data)); try done.
    rewrite bool_decide_false; [done|congruence].
Qed.
End Serializer.

(** ** The old layout of provider data *)

Lemma dget_dpop_eq k (d : row) : dget k (dpop k d) = None.
Proof. rewrite dget_dpop. by case_decide. Qed.

(** Reading the old layout is a normal form: the nested keys come to the top,
    where the top-level ones win; doing it again changes nothing. *)
Lemma unwrap_spec j :
  _unwrap_provider_data (_unwrap_provider_data j) = _unwrap_provider_data j ∧
  ∀ d nested, j = JDict d → dget "provider_data" d = Some (JDict nested) → dict_wf d →
    ∃ flat, _unwrap_provider_data j = JDict flat ∧ dget "provider_data" flat = None ∧
      ∀ k, k ≠ "provider_data" →
        dget k flat = match dget k d with Some v => Some v | None => dget k nested end.
Proof.
  split.
  - destruct j as [|b|z|t|l|d]; [done|by destruct b| | |by destruct l|].
    + unfold _unwrap_provider_data at 2 3, jor. destruct (truthy (JInt z)) eqn:Hz; [|done].
      unfold _unwrap_provider_data, jor. by rewrite Hz.
    + unfold _unwrap_provider_data at 2 3, jor. destruct (truthy (JStr t)) eqn:Ht; [|done].
      unfold _unwrap_provider_data, jor. by rewrite Ht.
    + unfold _unwrap_provider_data. destruct (dget "provider_data" d) as [[]|] eqn:Hd; try by rewrite Hd.
      by rewrite dget_dpop_eq.
  - intros d nested -> Hd Hwf. unfold _unwrap_provider_data. rewrite Hd. eexists. split; [done|].
    split; [apply dget_dpop_eq|]. intros k Hk. rewrite dget_dpop, decide_False by congruence.
    by apply dget_dmerge.
Qed.

(** ** Witnesses *)

(** A reader of integers, and a writer and reader of diagnostics. *)
Definition strict_int (j : json) : result Z :=
  match j with JInt z => Ok z | _ => Err (OtherError "ValidationError" "Input should be a valid integer") end.

Definition error_json (e : ProviderError) : json :=
  JList [JStr (pe_code e); JStr (pe_message e); opt_text (pe_fleet_id e); opt_text (pe_az e);
         opt_text (pe_instance_type e)].
Definition diag_json (d : FulfilmentDiagnostic) : json :=
  JDict [("category", JStr (DiagnosticCategory.value (fd_category d))); ("summary", JStr (fd_summary d));
         ("detail", opt_text (fd_detail d)); ("provider_errors", JList (error_json <$> fd_provider_errors d));
         ("occurred_at", JInt (fd_occurred_at d))].
Definition diag_text (d : FulfilmentDiagnostic) : string := dumps "," ":" (diag_json d).

Definition opt_of (j : json) : option (option string) :=
  match j with JNull => Some None | JStr s => Some (Some s) | _ => None end.
Definition read_error (j : json) : option ProviderError :=
  match j with
  | JList [JStr c; JStr m; f; a; t] =>
      f ← opt_of f; a ← opt_of a; t ← opt_of t; Some (mkProviderError c m f a t)
  | _ => None
  end.
Definition read_diag (d : dict json) : option FulfilmentDiagnostic :=
  match dget "category" d, dget "summary" d, jget "detail" d, dget "provider_errors" d, dget "occurred_at" d with
  | Some (JStr c), Some (JStr s), det, Some (JList l), Some (JInt t) =>
      c ← enum_of_value c; det ← opt_of det; l ← mapM read_error l; Some (mkFulfilmentDiagnostic c s det l t)
  | _, _, _, _, _ => None
  end.

Lemma opt_of_text o : opt_of (opt_text o) = Some o.
Proof. by destruct o. Qed.

Lemma read_error_json e : read_error (error_json e) = Some e.
Proof. unfold read_error, error_json. rewrite !opt_of_text. by destruct e. Qed.

Lemma read_errors l : mapM read_error (error_json <$> l) = Some l.
Proof.
  induction l as [|e l IH]; [done|]. rewrite fmap_cons. cbn [mapM]. rewrite read_error_json. cbn.
  by rewrite IH.
Qed.

Lemma opt_text_wf o : json_wf (opt_text o).
Proof. by destruct o. Qed.

Lemma errors_wf l : json_wf (JList (error_json <$> l)).
Proof.
  induction l as [|e l IH]; [done|]. cbn [fmap list_fmap json_wf foldr]. split; [|exact IH].
  unfold error_json. cbn [json_wf foldr]. pose proof opt_text_wf. naive_solver.
Qed.

Lemma diag_text_reads d :
  ∃ payload, loads (diag_text d) = Ok (JDict payload) ∧ read_diag payload = Some d.
Proof.
  eexists. split.
  - unfold diag_text. apply (loads_dumps EmptyString EmptyString);
      [intros s; by change (EmptyString +:+ s) with s..|]. unfold diag_json. cbn [json_wf foldr fst snd]. split.
    + apply (bool_decide_unpack _). vm_compute. exact I.
    + pose proof (errors_wf (fd_provider_errors d)). pose proof (opt_text_wf (fd_detail d)). naive_solver.
  - unfold read_diag, jget. match goal with |- context [dget "category" ?row] => set (e := row) end.
    read_columns. cbn iota. change (default JNull (Some ?j)) with j.
    assert (enum_of_value (DiagnosticCategory.value (fd_category d)) = Some (fd_category d)) as ->
      by exact (enum_of_value_value _).
    cbn [mbind option_bind]. rewrite opt_of_text. cbn [mbind option_bind]. rewrite read_errors. by destruct d.
Qed.

Definition stored_request : Request.t :=
  Request.fresh "req-00000000-0000-0000-0000-000000000000" RequestType.ACQUIRE "t" 2 "aws" None None
    ["m1"] [] 86400000000 0
    <| Request.deadline_at := Some 90000000001 |>
    <| Request.fulfilment_diagnostic :=
         Some (mkFulfilmentDiagnostic DiagnosticCategory.CAPACITY "short" None
                 [mkProviderError "c" "m" None (Some "az") None] 7) |>.

Lemma stored_request_ok : storable stored_request.
Proof. constructor; try done. by exists 86400000000. Qed.

Lemma request_row_roundtrip_witness :
  ∃ data, to_dict diag_text stored_request = Ok data ∧
    from_dict strict_int read_diag data 4 = Ok (reloaded stored_request 4, 0).
Proof.
  apply (request_row_roundtrip strict_int diag_text read_diag (λ z, eq_refl) diag_text_reads stored_request 4).
  apply stored_request_ok.
Defined.

Definition bare_row : row :=
  [("request_id", JStr "req-00000000-0000-0000-0000-000000000000"); ("template_id", JStr "t");
   ("request_type", JStr "acquire"); ("status", JStr "pending");
   ("created_at", JStr "1970-01-02T00:00:00+00:00")].

Lemma diagnostic_never_fatal_witness :
  ∃ r v, from_dict strict_int read_diag bare_row 4 = Ok (r, v) ∧
    from_dict strict_int read_diag (dset "fulfilment_diagnostic" (JStr "{not json") bare_row) 4 =
      Ok (r <| Request.fulfilment_diagnostic :=
            _parse_fulfilment_diagnostic read_diag (JStr "{not json") ≫= read_diag |>, v).
Proof.
  destruct (from_dict strict_int read_diag bare_row 4) as [[r v]|] eqn:Hr; [|vm_compute in Hr; discriminate].
  exists r, v. split; [reflexivity|].
  apply (diagnostic_never_fatal strict_int read_diag bare_row (JStr "{not json") 4 r v Hr).
Defined.

Lemma null_machine_ids_witness :
  ∃ m, from_dict strict_int read_diag (dset "request_type" (JStr "return") bare_row) 4 = Err (ValueError m).
Proof.
  apply (null_machine_ids strict_int read_diag (dset "request_type" (JStr "return") bare_row) 4 eq_refl).
  reflexivity.
Defined.
