(* ===== verification/RequestRepo.v ===== *)
(** * The request repository on JSON files

    The loading paths of [orb/infrastructure/storage/base/repository_mixin.py] and
    [RequestRepositoryImpl] of
    [orb/infrastructure/storage/repositories/request_repository.py], on the JSON strategy
    of [JsonStore], outside a transaction.  Publishing of storage events and logging
    are left out; so is the decorator that logs an exception and re-raises it, or a
    domain error in place of a Python built-in one.

    The refinement: any number of repositories (processes) on one file, interleaved,
    act as one finite map of requests with version-checked writes. *)

From stdpp Require Import base strings list gmap sets relations.
From Stdlib Require Import ZArith Lia.
From S2P Require Import Prelude RequestTypes Diagnostic RequestAggregate JsonStore JsonText TimeText RequestRow.
Open Scope Z_scope.

Section Repository.
Context (lax_int : json → result Z).
Context (model_dump_json : FulfilmentDiagnostic → string).
Context (diag_validate : dict json → option FulfilmentDiagnostic).
Local Abbreviation to_dict := (RequestRow.to_dict model_dump_json).
Local Abbreviation from_dict := (RequestRow.from_dict lax_int diag_validate).

(** ** Loading *)

Definition not_a_mapping : exn := TypeError "object is not a mapping".

(** [_deserialize]: [dict(data)] refuses what is not a mapping (a list of pairs
    counts as none here). *)
Definition _deserialize (data : json) (holder : nat) : result (Request.t * Z) :=
  match data with JDict row => from_dict row holder | _ => Err not_a_mapping end.

(** [_load_by_id]: an empty record reads as none; a record that does not load raises. *)
Definition _load_by_id (d : disk) (s : strategy) (entity_id : string) (holder : nat)
  : step (option (Request.t * Z)) :=
  let '(r, d', s') := find_by_id d s entity_id in
  ((data ← r;
    match data with
    | Some j => if truthy j then x ← _deserialize j holder; Ok (Some x) else Ok None
    | None => Ok None
    end), d', s').

Definition row_kind (data : row) : string :=
  if dmem "machine_id" data then "machines"
  else if dmem "request_id" data then "requests"
  else if dmem "template_id" data then "templates"
  else "unknown".

Definition bump (kind : string) (counters : dict Z) : dict Z :=
  dset kind (dget_default kind counters 0 + 1) counters.

(** [_safe_deserialize_iter]: rows that do not load are counted and skipped; the
    counting itself fails on a record that is not a mapping. *)
Fixpoint _safe_deserialize_iter (items : list json) (holder : nat) (counters : dict Z)
  : result (list (Request.t * Z) * dict Z) :=
  match items with
  | [] => Ok ([], counters)
  | data :: rest =>
      match _deserialize data holder with
      | Ok x =>
          '(l, counters') ← _safe_deserialize_iter rest (S holder) counters;
          Ok (x :: l, counters')
      | Err _ =>
          match data with
          | JDict row => _safe_deserialize_iter rest (S holder) (bump (row_kind row) counters)
          | _ => Err (OtherError "AttributeError" "object has no attribute 'get'")
          end
      end
  end.

Definition _load_all (d : disk) (s : strategy) (holder : nat) (counters : dict Z)
  : step (list (Request.t * Z) * dict Z) :=
  let '(r, d', s') := find_all d s in
  ((all_data ← r; _safe_deserialize_iter (dvalues all_data) holder counters), d', s').

(** [JSONStorageStrategy._matches_criteria] for one field and a text: [key not in data]
    on a row, and on what is stored in place of one. *)
Definition matches (field value : string) (data : json) : result bool :=
  match data with
  | JDict row => Ok match dget field row with
                    | Some actual_value => bool_decide (actual_value = JStr value)
                    | None => false
                    end
  | JList l => if bool_decide (JStr field ∈ l)
               then Err (TypeError "list indices must be integers or slices, not str") else Ok false
  | JStr s => if contains field s
              then Err (TypeError "string indices must be integers, not 'str'") else Ok false
  | _ => Err (TypeError "argument is not a container or iterable")
  end.

Fixpoint matching_rows (field value : string) (l : list json) : result (list json) :=
  match l with
  | [] => Ok []
  | data :: l' =>
      b ← matches field value data;
      rest ← matching_rows field value l';
      Ok (if b : bool then data :: rest else rest)
  end.

Definition find_by_criteria (d : disk) (s : strategy) (field value : string) : step (list json) :=
  let '(r, d', s') := _visible_records d s in
  (wrap_error "Failed to search entities: " (all_data ← r; matching_rows field value (dvalues all_data)), d', s').

Definition _load_by_criteria (d : disk) (s : strategy) (field value : string) (holder : nat) (counters : dict Z)
  : step (list (Request.t * Z) * dict Z) :=
  let '(r, d', s') := find_by_criteria d s field value in
  ((rows ← r; _safe_deserialize_iter rows holder counters), d', s').

(** ** The repository *)

(** [save]: the events that were pending, and the aggregate as it is then: its
    queue empty and its version the one written, to which the holder is marked. *)
Definition repo_save (d : disk) (s : strategy) (request : Request.t) (revision : option Z)
  : step (list RequestEvent * Request.t) :=
  match to_dict request with
  | Err e => (Err e, d, s)
  | Ok data =>
      let '(r, d', s') := save_versioned false d s (Request.request_id request) data revision in
      ((written ← r;
        Ok (Request.get_domain_events request,
            Request.clear_domain_events (request <| Request.version := written |>))), d', s')
  end.

Definition get_by_id (d : disk) (s : strategy) (request_id : string) (holder : nat) :=
  _load_by_id d s request_id holder.

Definition find_by_request_id (d : disk) (s : strategy) (request_id : string) (holder : nat)
  : step (option (Request.t * Z)) :=
  match RequestId.make request_id with
  | Ok i => get_by_id d s i holder
  | Err e => (Err e, d, s)
  end.

Definition repo_delete (d : disk) (s : strategy) (request_id : string) : step unit :=
  delete_entity false d s request_id.

Definition repo_exists (d : disk) (s : strategy) (request_id : string) : step bool :=
  exists_entity d s request_id.

Definition repo_find_all (d : disk) (s : strategy) (holder : nat) (counters : dict Z) :=
  _load_all d s holder counters.

Definition find_by_status (d : disk) (s : strategy) (status : RequestStatus.t) (holder : nat) (counters : dict Z) :=
  _load_by_criteria d s "status" (RequestStatus.value status) holder counters.

(** The loop of [find_active_requests] over both lists. *)
Definition first_of_each (l : list (Request.t * Z)) : list (Request.t * Z) :=
  dedup_by (λ x : Request.t * Z, Request.request_id x.1) l.

Definition find_active_requests (d : disk) (s : strategy) (holder : nat) (counters : dict Z)
  : step (list (Request.t * Z) * dict Z) :=
  let '(r1, d1, s1) := find_by_status d s RequestStatus.PENDING holder counters in
  match r1 with
  | Err e => (Err e, d1, s1)
  | Ok (pending, counters1) =>
      let '(r2, d2, s2) := find_by_status d1 s1 RequestStatus.IN_PROGRESS (holder + length pending) counters1 in
      (('(in_progress, counters2) ← r2; Ok (first_of_each (pending ++ in_progress), counters2)), d2, s2)
  end.

(** [find_by_date_range]: both ends included. *)
Definition in_dates (start_date end_date : datetime) (x : Request.t * Z) : bool :=
  match Request.created_at x.1 with
  | Some t => (start_date <=? t) && (t <=? end_date)
  | None => false
  end.

Definition find_by_date_range (d : disk) (s : strategy) (start_date end_date : datetime) (holder : nat)
    (counters : dict Z) : step (list (Request.t * Z) * dict Z) :=
  let '(r, d', s') := repo_find_all d s holder counters in
  (('(l, counters') ← r; Ok (List.filter (in_dates start_date end_date) l, counters')), d', s').

(** [get_metrics_by_date_range]. *)
Record metrics := mk_metrics { total : nat; completed : nat; failed : nat; in_progress : nat; pending : nat }.

Definition with_status (status : RequestStatus.t) (l : list (Request.t * Z)) : list (Request.t * Z) :=
  List.filter (λ x, Request.status x.1 ≟ status) l.

Definition count_metrics (l : list (Request.t * Z)) : metrics :=
  mk_metrics (length l) (length (with_status RequestStatus.COMPLETED l))
    (length (with_status RequestStatus.FAILED l)) (length (with_status RequestStatus.IN_PROGRESS l))
    (length (with_status RequestStatus.PENDING l)).

Definition get_metrics_by_date_range (d : disk) (s : strategy) (start_date end_date : datetime) (holder : nat)
    (counters : dict Z) : step metrics :=
  let '(r, d', s') := find_by_date_range d s start_date end_date holder counters in
  (('(l, _) ← r; Ok (count_metrics l)), d', s').

(** ** The abstract store: a finite map with version-checked writes *)

Inductive op :=
| Save (request : Request.t) (revision : option Z)
| Get (request_id : string) (holder : nat)
| Delete (request_id : string)
| Exists (request_id : string)
| FindAll (holder : nat).

Inductive answer :=
| ASaved (events : list RequestEvent) (request : Request.t)
| AGot (found : option (Request.t * Z))
| ADone
| ABool (b : bool)
| AList (l : list (Request.t * Z))
| AFail (e : exn).

(** The version a save writes. *)
Definition next_version (r : Request.t) (revision : option Z) : Z :=
  match revision with None => Request.version r | Some e => Z.max (Request.version r) (e + 1) end.

(** A save may go ahead: no version is expected, or the stored one is at it. *)
Definition current (m : gmap string Request.t) (i : string) (revision : option Z) : Prop :=
  match revision with
  | None => True
  | Some e => ∃ old, m !! i = Some old ∧ Request.version old = e
  end.

(** What a request is in the map: without pending events and holder. *)
Definition plain_request (r : Request.t) : Request.t := reloaded r 0.

Definition is_write (o : op) : Prop := match o with Save _ _ | Delete _ => True | _ => False end.

Inductive spec_step (m : gmap string Request.t) : op → answer → gmap string Request.t → Prop :=
| spec_save r e :
    current m (Request.request_id r) e →
    let r' := r <| Request.version := next_version r e |> in
    spec_step m (Save r e) (ASaved (Request.domain_events r) (Request.clear_domain_events r'))
      (<[Request.request_id r := plain_request r']> m)
| spec_conflict r e :
    ¬ current m (Request.request_id r) e →
    spec_step m (Save r e) (AFail (ConcurrencyError (Request.request_id r) e)) m
| spec_get i h :
    spec_step m (Get i h) (AGot ((λ r, (reloaded r h, Request.version r)) <$> m !! i)) m
| spec_delete i : spec_step m (Delete i) ADone (delete i m)
| spec_exists i : spec_step m (Exists i) (ABool (bool_decide (is_Some (m !! i)))) m
| spec_find_all h l :
    (λ x : Request.t * Z, plain_request x.1) <$> l ≡ₚ (map_to_list m).*2 →
    spec_step m (FindAll h) (AList l) m
| spec_write_fails o msg : is_write o → spec_step m o (AFail (StorageError msg)) m.

(** ** The repositories *)

Definition run_op (d : disk) (s : strategy) (o : op) : answer * disk * strategy :=
  let answer {A} (f : A → answer) (st : step A) :=
    let '(r, d', s') := st in (match r with Ok a => f a | Err e => AFail e end, d', s') in
  match o with
  | Save r e => answer (λ x, ASaved x.1 x.2) (repo_save d s r e)
  | Get i h => answer AGot (get_by_id d s i h)
  | Delete i => answer (λ _, ADone) (repo_delete d s i)
  | Exists i => answer ABool (repo_exists d s i)
  | FindAll h => answer (λ x, AList x.1) (repo_find_all d s h [])
  end.

(** One disk, and the repositories on its file. *)
Record world := mk_world { w_disk : disk; w_repos : list strategy }.

(** The [k]-th repository does an operation. *)
Definition run_at (w : world) (k : nat) (o : op) : option (answer * world) :=
  s ← w_repos w !! k;
  let '(a, d', s') := run_op (w_disk w) s o in
  Some (a, mk_world d' (<[k := s']> (w_repos w))).

Fixpoint run_all (w : world) (ops : list (nat * op)) : option (list answer * world) :=
  match ops with
  | [] => Some ([], w)
  | (k, o) :: rest =>
      '(a, w') ← run_at w k o;
      '(l, w'') ← run_all w' rest;
      Some (a :: l, w'')
  end.

Inductive spec_run : gmap string Request.t → list (nat * op) → list answer → gmap string Request.t → Prop :=
| spec_run_nil m : spec_run m [] [] m
| spec_run_cons m m' m'' k o a rest l :
    spec_step m o a m' → spec_run m' rest l m'' → spec_run m ((k, o) :: rest) (a :: l) m''.

(** ** Refinement *)

Context (Hint_field : ∀ z, lax_int (JInt z) = Ok z).
Context (Hdiag : ∀ x, ∃ payload, loads (model_dump_json x) = Ok (JDict payload) ∧
                      diag_validate payload = Some x).

(** The row of a request. *)
Definition row_of (r : Request.t) : row := match to_dict r with Ok data => data | Err _ => [] end.

Lemma to_dict_row r : storable r → to_dict r = Ok (row_of r).
Proof.
  intros [_ (t & Hc & _)]. unfold row_of. assert (∃ data, to_dict r = Ok data) as [data ->]; [|done].
  unfold RequestRow.to_dict. rewrite Hc. by eexists.
Qed.

Lemma from_row r h : storable r → from_dict (row_of r) h = Ok (reloaded r h, Request.version r).
Proof.
  intros Hs. destruct (row_roundtrip lax_int model_dump_json diag_validate Hint_field Hdiag r h Hs)
    as (data & Hd & Hf). by rewrite (to_dict_row r Hs) in Hd; injection Hd as <-.
Qed.

Lemma row_of_version r v :
  storable r → dset "version" (JInt v) (row_of r) = row_of (r <| Request.version := v |>).
Proof.
  intros [_ (t & Hc & _)]. unfold row_of, RequestRow.to_dict.
  change (Request.created_at (r <| Request.version := v |>)) with (Request.created_at r). by rewrite Hc.
Qed.

Lemma row_version_row r : storable r → row_version (row_of r) = Request.version r.
Proof. intros [_ (t & Hc & _)]. unfold row_of, RequestRow.to_dict. by rewrite Hc. Qed.

Lemma row_of_plain r : row_of (plain_request r) = row_of r.
Proof. done. Qed.

Lemma row_truthy r : storable r → truthy (JDict (row_of r)) = true.
Proof. intros [_ (t & Hc & _)]. unfold row_of, RequestRow.to_dict. by rewrite Hc. Qed.

Lemma storable_saved r v : storable r → storable (plain_request (r <| Request.version := v |>)).
Proof. by intros []; constructor. Qed.

(** A section of a file that holds the requests of a map. *)
Record holds (sec : section) (m : gmap string Request.t) : Prop := mk_holds {
  h_wf : dict_wf sec;
  h_rows : ∀ i, dget i sec = (λ r, JDict (row_of r)) <$> m !! i;
  h_requests : ∀ i r, m !! i = Some r → storable r ∧ Request.request_id r = i ∧ plain_request r = r
}.

Lemma holds_insert sec m i r :
  holds sec m → storable r → plain_request r = r → Request.request_id r = i →
  holds (dset i (JDict (row_of r)) sec) (<[i := r]> m).
Proof.
  intros [Hwf Hrows Hreq] Hs Hp <-. constructor.
  - by apply dict_wf_dset.
  - intros i. rewrite dget_dset. destruct (decide (Request.request_id r = i)) as [<-|Hne].
    + by rewrite lookup_insert_eq.
    + by rewrite lookup_insert_ne.
  - intros i r' [[<- <-]|[Hne Hr']]%lookup_insert_Some; [done|by apply Hreq].
Qed.

Lemma holds_delete sec m i : holds sec m → holds (dpop i sec) (delete i m).
Proof.
  intros [Hwf Hrows Hreq]. constructor.
  - by apply dict_wf_dpop.
  - intros j. rewrite dget_dpop. destruct (decide (i = j)) as [<-|Hne].
    + by rewrite lookup_delete_eq.
    + by rewrite lookup_delete_ne.
  - intros j r [_ Hr]%lookup_delete_Some. by apply Hreq.
Qed.

(** What [_mutate] answers when the change applies: it is done, or the write failed. *)
Lemma mutate_outcome {R} d s (f : section → result (bool * section * R)) what sec b w x r d' s' :
  stored d (real_path s) (entity_type s) = Ok sec → f sec = Ok (b, w, x) →
  _mutate d s f what = (r, d', s') →
  (r = Ok x ∨ ∃ msg, r = Err (StorageError msg)) ∧ (faults d = [] → r = Ok x ∧ faults d' = []).
Proof.
  unfold _mutate, stored. destruct (read_file_with_signature d (real_path s)) as [c sg]; simpl.
  rewrite section_from_parse. destruct (parse_file c) as [full|]; simpl; [|done].
  intros [= ->] ->. destruct b; [|intros [= <- <- <-]; auto].
  destruct (create_backup_files (backup_enabled s) (backup_count s) d (real_path s)) as (_ & _ & Hfl & _).
  destruct (write_file _ _ _) as [r2 d2] eqn:Hw. apply write_file_inv in Hw as (Hr & _ & _ & Hft & Hok).
  rewrite Hfl in *. intros H. assert (faults d = [] → r2 = Ok ()) as Hd by (intros E; rewrite E in Hok; by apply Hok).
  destruct r2 as [[]|e]; injection H as <- <- <-.
  - split; [by left|]. intros E. by rewrite E in Hft.
  - split; [right; by eexists|]. by intros E%Hd.
Qed.

(** A repository whose cache is sound and which has nothing staged. *)
Definition repo_ok (path et : string) (d : disk) (s : strategy) : Prop :=
  real_path s = path ∧ entity_type s = et ∧ _buffer s = [] ∧ cache_ok d s.

Definition op_ok (o : op) : Prop := match o with Save r _ => storable r | _ => True end.

Lemma omap_of_fmap {A B C} (f : A → B) (g : B → option C) (l : list A) : omap g (f <$> l) = omap (λ x, g (f x)) l.
Proof. induction l as [|x l IH]; [done|]. cbn. by rewrite IH. Qed.

Section OneStep.
Context (path et : string) (d : disk) (s : strategy) (sec : section) (m : gmap string Request.t).
Context (Hok : disk_ok d) (Hs : repo_ok path et d s).
Context (Hst : stored d path et = Ok sec) (Hm : holds sec m).

(** The disk and the repository after an operation whose answer is [a]. *)
Definition refines (o : op) (res : answer * disk * strategy) : Prop :=
  let '(a, d', s') := res in
  evolves d d' ∧ repo_ok path et d' s' ∧
  (∃ sec' m', stored d' path et = Ok sec' ∧ holds sec' m' ∧ spec_step m o a m') ∧
  (faults d = [] → faults d' = [] ∧ ∀ msg, a ≠ AFail (StorageError msg)).

Lemma write_refines {R} (f : section → result (bool * section * R)) what b w x (o : op) (k : R → answer) m' :
  f sec = Ok (b, w, x) → holds (if b : bool then w else sec) m' → is_write o → spec_step m o (k x) m' →
  (∀ msg, k x ≠ AFail (StorageError msg)) →
  refines o (let '(r, d', s') := _mutate d s f what in (match r with Ok a => k a | Err e => AFail e end, d', s')).
Proof.
  intros Hf Hw Hwr Hspec Hne. destruct Hs as (Hp & He & Hb & Hc).
  destruct (_mutate d s f what) as [[r d'] s'] eqn:Hmu. rewrite <-Hp, <-He in Hst.
  destruct (mutate_outcome _ _ _ _ _ _ _ _ _ _ _ Hst Hf Hmu) as [Hr Hfl].
  destruct (mutate_sound _ _ _ _ _ _ _ Hok Hc Hmu) as [(Hev & Hc' & Hp' & He' & _) Hb'].
  assert (repo_ok path et d' s') as Hs'.
  { split; [congruence|]. split; [congruence|]. split; [congruence|done]. }
  split; [done|]. split; [done|].
  assert ((r = Ok x ∧ stored d' path et = Ok (if b then w else sec)) ∨
          ((∃ msg, r = Err (StorageError msg)) ∧ stored d' path et = Ok sec)) as Hcase.
  { apply mutate_inv in Hmu as [(sec1&w1&x1&H1&H2&->&->&->)|[(sec1&w1&x1&H1&H2&->&_&Hall&->)|(e&->&Hfi&_&->)]].
    - left. rewrite Hst in H1. injection H1 as <-. rewrite Hf in H2. injection H2 as -> <- <-.
      split; [done|]. by rewrite <-Hp, <-He.
    - left. rewrite Hst in H1. injection H1 as <-. rewrite Hf in H2. injection H2 as -> <- <-.
      split; [done|]. rewrite Hall, <-Hp, <-He. by rewrite decide_True.
    - right. destruct Hr as [?|[msg Hr]]; [done|]. split; [by exists msg|].
      rewrite <-Hp, <-He, <-Hst. by apply stored_files; rewrite Hfi. }
  split.
  - destruct Hcase as [[-> H]|[[msg ->] H]].
    + by exists (if b then w else sec), m'.
    + exists sec, m. split; [done|]. split; [done|]. by apply spec_write_fails.
  - intros E. destruct (Hfl E) as [-> ->]. done.
Qed.

(** A load reads the section, and changes neither disk nor meaning. *)
Lemma load_section : ∃ s', _load_data d s = (Ok sec, d, s') ∧ repo_ok path et d s'.
Proof.
  destruct Hs as (Hp & He & Hb & Hc). pose proof (load_data_spec d s Hok Hc) as H.
  destruct (_load_data d s) as [[r d'] s']. destruct H as ((_ & Hc' & Hp' & He' & _) & Hb' & _ & Hl).
  rewrite <-Hp, <-He in Hst. destruct (Hl sec Hst) as [-> ->]. exists s'. split; [done|].
  split; [congruence|]. split; [congruence|]. split; [congruence|done].
Qed.

Lemma lookup_section i : ∃ s', _lookup d s i = (Ok (dget i sec), d, s') ∧ repo_ok path et d s'.
Proof.
  destruct load_section as (s' & Hl & Hs'). exists s'. split; [|done]. unfold _lookup.
  destruct Hs as (_ & _ & -> & _). cbn [dget]. by rewrite Hl.
Qed.

Lemma visible_section : ∃ s', _visible_records d s = (Ok sec, d, s') ∧ repo_ok path et d s'.
Proof.
  destruct load_section as (s' & Hl & Hs'). exists s'. split; [|done]. unfold _visible_records.
  rewrite Hl. destruct Hs as (_ & _ & -> & _). done.
Qed.

Lemma read_refines o a s' :
  repo_ok path et d s' → spec_step m o a m → (∀ msg, a ≠ AFail (StorageError msg)) → refines o (a, d, s').
Proof. intros Hs' Hspec Hne. split; [done|]. split; [done|]. split; [by exists sec, m|done]. Qed.

Lemma save_refines r e : storable r → refines (Save r e) (run_op d s (Save r e)).
Proof.
  intros Hr. cbn [run_op]. unfold repo_save. rewrite to_dict_row by done.
  unfold save_versioned, save_versioned_batch. cbn [fmap list_fmap versioned_row fst snd].
  assert (_written_version (row_of r) e = next_version r e) as Hv.
  { unfold _written_version, next_version. by rewrite row_version_row. }
  rewrite Hv, row_of_version by done. set (i := Request.request_id r). set (v := next_version r e).
  set (f := λ sec0 : section, _ ← _; _).
  assert (current m i e ∨ ¬ current m i e) as [Hcur|Hcur].
  { destruct e as [e|]; [|by left]. cbn. destruct (m !! i) as [old|]; [|right; by intros (? & ? & _)].
    destruct (decide (Request.version old = e)); [left; by exists old|right; by intros (? & [= <-] & ?)]. }
  - assert (f sec = Ok (true, dset i (JDict (row_of (r <| Request.version := v |>))) sec, [v])) as Hf.
    { unfold f. cbn. destruct e as [e|]; [|done].
      assert (_check_expected i (dget i sec) e = Ok ()) as ->; [|done]. apply check_expected_Ok.
      destruct Hcur as (old & Ho & Hver). rewrite (h_rows _ _ Hm), Ho. cbn. eexists. split; [done|].
      rewrite row_version_row; [done|]. by eapply (h_requests _ _ Hm). }
    assert (holds (dset i (JDict (row_of (r <| Request.version := v |>))) sec)
              (<[i := plain_request (r <| Request.version := v |>)]> m)) as Hh.
    { rewrite <-row_of_plain.
      apply holds_insert; [done|by apply storable_saved|done|done]. }
    pose proof (write_refines f "save entities" true _ _ (Save r e)
      (λ vs, match (versions ← Ok vs; match versions with v :: _ => Ok v | [] => Err (OtherError "IndexError" "") end)
             with Ok w => ASaved (Request.domain_events r) (Request.clear_domain_events (r <| Request.version := w |>))
             | Err e => AFail e end)
      (<[i := plain_request (r <| Request.version := v |>)]> m) Hf Hh I (spec_save m r e Hcur) ltac:(done)) as H.
    destruct (_mutate d s f "save entities") as [[res d'] s']. cbn in H |- *.
    by destruct res as [[|]|].
  - destruct e as [e|]; [|by destruct Hcur].
    assert (f sec = Err (ConcurrencyError i (Some e))) as Hf.
    { unfold f. cbn. rewrite check_expected_Err; [done|..].
      - rewrite (h_rows _ _ Hm). by destruct (m !! i).
      - rewrite check_expected_Ok, (h_rows _ _ Hm). intros (old & Ho & Hver). apply Hcur.
        destruct (m !! i) as [r'|] eqn:Hi; [|done]. cbn in Ho. injection Ho as <-. exists r'. split; [done|].
        rewrite row_version_row in Hver; [done|]. by eapply (h_requests _ _ Hm). }
    destruct Hs as (Hp & He & Hb & Hc). pose proof Hst as Hst'. rewrite <-Hp, <-He in Hst'.
    rewrite (mutate_concurrency _ _ _ _ _ _ _ Hst' Hf). cbn. apply read_refines; [|by apply spec_conflict|done].
    split; [done|]. split; [done|]. done.
Qed.

Lemma delete_refines i : refines (Delete i) (run_op d s (Delete i)).
Proof.
  cbn [run_op]. unfold repo_delete, delete_entity. set (f := λ sec0 : section, _).
  pose proof (write_refines f ("delete entity " +:+ i)
    (match dget i sec with None | Some JNull => false | _ => true end) (dpop i sec) () (Delete i)
    (λ _, ADone) (delete i m) eq_refl) as H.
  assert (holds (if match dget i sec with None | Some JNull => false | _ => true end then dpop i sec else sec)
            (delete i m)) as Hh.
  { rewrite (h_rows _ _ Hm). destruct (m !! i) eqn:Hi; cbn; [by apply holds_delete|].
    by rewrite delete_id. }
  specialize (H Hh I (spec_delete m i) ltac:(done)).
  by destruct (_mutate d s f _) as [[[[]|] ?] ?].
Qed.

Lemma get_refines i h : refines (Get i h) (run_op d s (Get i h)).
Proof.
  cbn [run_op]. unfold get_by_id, _load_by_id, find_by_id.
  destruct (lookup_section i) as (s' & -> & Hs'). cbn [wrap_error]. rewrite result_bind_ret, (h_rows _ _ Hm).
  apply (read_refines (Get i h)); [done| |].
  - replace (match _ with Ok a => AGot a | Err e => AFail e end)
      with (AGot ((λ r, (reloaded r h, Request.version r)) <$> m !! i)); [constructor|].
    destruct (m !! i) as [r|] eqn:Hi; cbn [fmap option_fmap option_map]; [|done].
    destruct (h_requests _ _ Hm i r Hi) as (Hr & _). rewrite row_truthy by done. cbn [_deserialize].
    by rewrite from_row.
  - destruct (m !! i) as [r|] eqn:Hi; cbn [fmap option_fmap option_map]; [|done].
    destruct (h_requests _ _ Hm i r Hi) as (Hr & _). rewrite row_truthy by done. cbn [_deserialize].
    by rewrite from_row.
Qed.

Lemma exists_refines i : refines (Exists i) (run_op d s (Exists i)).
Proof.
  cbn [run_op]. unfold repo_exists, exists_entity. destruct (lookup_section i) as (s' & -> & Hs').
  cbn [fmap]. rewrite (h_rows _ _ Hm). apply (read_refines (Exists i)); [done| |].
  - pose proof (spec_exists m i) as H. by destruct (m !! i).
  - by destruct (m !! i).
Qed.

(** Loading rows of stored requests skips none. *)
Lemma load_rows l h c :
  (∀ r, r ∈ l → storable r) →
  ∃ l', _safe_deserialize_iter ((λ r, JDict (row_of r)) <$> l) h c = Ok (l', c) ∧
    (λ x : Request.t * Z, plain_request x.1) <$> l' = plain_request <$> l.
Proof.
  revert h. induction l as [|r l IH]; intros h Hl; [by exists []|].
  rewrite fmap_cons. cbn [_safe_deserialize_iter _deserialize]. rewrite from_row by (apply Hl; left).
  destruct (IH (S h) (λ r' Hr', Hl r' (list_elem_of_further _ _ _ Hr'))) as (l' & -> & He).
  eexists. split; [reflexivity|]. rewrite !fmap_cons, He. done.
Qed.

Lemma section_values :
  ∃ l, dvalues sec = (λ r, JDict (row_of r)) <$> l ∧ l ≡ₚ (map_to_list m).*2.
Proof.
  exists (omap (λ i, m !! i) (dkeys sec)). split.
  - assert (∀ kv, kv ∈ sec → Some kv.2 = (λ r, JDict (row_of r)) <$> m !! kv.1) as H.
    { intros [k v] Hkv. rewrite <-(h_rows _ _ Hm). symmetry. apply elem_of_dget; [apply Hm|done]. }
    clear -H. unfold dvalues, dkeys. induction sec as [|[k v] l IH]; [done|].
    cbn [fmap list_fmap omap list_omap fst snd]. specialize (IH (λ kv Hkv, H kv (list_elem_of_further _ _ _ Hkv))).
    pose proof (H (k, v) (list_elem_of_here _ _)) as Hk. cbn in Hk. destruct (m !! k) as [r|]; [|done].
    cbn in Hk. injection Hk as ->. cbn. by rewrite IH.
  - assert ((λ i, (i, m !! i)) <$> dkeys sec ≡ₚ (λ ir : string * Request.t, (ir.1, Some ir.2)) <$> map_to_list m)
      as Hp.
    { apply NoDup_Permutation.
      - apply NoDup_fmap_2_strong; [by intros ? ? _ _ [= ->]|apply Hm].
      - apply NoDup_fmap_2; [by intros [? ?] [? ?] [= -> ->]|apply NoDup_map_to_list].
      - intros [i o]. rewrite !list_elem_of_fmap. split.
        + intros (j & [= -> ->] & Hj). apply dmem_elem_of in Hj. unfold dmem in Hj.
          rewrite (h_rows _ _ Hm) in Hj. destruct (m !! j) as [r|] eqn:Hr; [|done].
          exists (j, r). split; [done|]. by apply elem_of_map_to_list.
        + intros ([j r] & [= -> ->] & Hj%elem_of_map_to_list). exists j. cbn. rewrite Hj. split; [done|].
          apply dmem_elem_of. unfold dmem. rewrite (h_rows _ _ Hm), Hj. done. }
    apply (omap_Permutation snd) in Hp. rewrite !omap_of_fmap in Hp. cbn in Hp. rewrite Hp.
    by rewrite <-list_fmap_alt.
Qed.

Lemma find_all_refines h : refines (FindAll h) (run_op d s (FindAll h)).
Proof.
  cbn [run_op]. unfold repo_find_all, _load_all, find_all.
  destruct visible_section as (s' & -> & Hs'). cbn [wrap_error]. rewrite result_bind_ret.
  destruct section_values as (l & -> & Hl).
  assert (∀ r, r ∈ l → storable r ∧ plain_request r = r) as Hr.
  { intros r Hr. rewrite Hl in Hr. apply list_elem_of_fmap in Hr as ([i r'] & -> & Hr%elem_of_map_to_list).
    destruct (h_requests _ _ Hm i r' Hr) as (? & _ & ?). done. }
  destruct (load_rows l h [] (λ r Hin, proj1 (Hr r Hin))) as (l' & -> & Hpl). cbn.
  apply (read_refines (FindAll h)); [done| |done]. constructor. rewrite Hpl, <-Hl.
  assert (plain_request <$> l = l) as ->; [|done].
  clear -Hr. induction l as [|r l IH]; [done|]. rewrite fmap_cons. f_equal.
  - by apply Hr, list_elem_of_here.
  - apply IH. intros r' Hr'. by apply Hr, list_elem_of_further.
Qed.

Lemma run_op_refines o : op_ok o → refines o (run_op d s o).
Proof.
  destruct o; intros Ho.
  - by apply save_refines.
  - apply get_refines.
  - apply delete_refines.
  - apply exists_refines.
  - apply find_all_refines.
Qed.
(** *** Listing by status *)

Definition has_status (st : RequestStatus.t) (r : Request.t) : bool := Request.status r ≟ st.

Lemma matches_status st r :
  storable r → matches "status" (RequestStatus.value st) (JDict (row_of r)) = Ok (has_status st r).
Proof.
  intros [_ (t & Hc & _)]. unfold row_of, RequestRow.to_dict. rewrite Hc. unfold matches, has_status.
  change (dget "status" _) with (Some (JStr (RequestStatus.value (Request.status r)))). cbn iota. f_equal.
  apply bool_decide_ext. split; [|by intros ->]. intros [= H].
  exact (@enum_value_inj RequestStatus.t _ _ _ H).
Qed.

Lemma matching_status st l :
  (∀ r, r ∈ l → storable r) →
  matching_rows "status" (RequestStatus.value st) ((λ r, JDict (row_of r)) <$> l) =
    Ok ((λ r, JDict (row_of r)) <$> List.filter (has_status st) l).
Proof.
  induction l as [|r l IH]; intros Hl; [done|]. rewrite fmap_cons. cbn [matching_rows].
  rewrite matches_status by (apply Hl; left). rewrite result_bind_ret, IH by (intros; apply Hl; by right).
  rewrite result_bind_ret. cbn [List.filter]. by destruct (has_status st r).
Qed.

Lemma stored_requests l :
  l ≡ₚ (map_to_list m).*2 → ∀ r, r ∈ l ↔ m !! Request.request_id r = Some r ∧ storable r ∧ plain_request r = r.
Proof.
  intros Hl r. rewrite Hl, list_elem_of_fmap. split.
  - intros ([i r'] & -> & Hr%elem_of_map_to_list). destruct (h_requests _ _ Hm i r' Hr) as (? & Hi & ?).
    cbn in *. rewrite Hi. auto.
  - intros (Hr & _). exists (Request.request_id r, r). split; [done|]. by apply elem_of_map_to_list.
Qed.

Lemma find_by_status_spec st h c :
  ∃ l s', find_by_status d s st h c = (Ok (l, c), d, s') ∧ repo_ok path et d s' ∧
    ∀ i, i ∈ (λ x : Request.t * Z, Request.request_id x.1) <$> l ↔
         ∃ r, m !! i = Some r ∧ Request.status r = st.
Proof.
  unfold find_by_status, _load_by_criteria, find_by_criteria.
  destruct visible_section as (s' & -> & Hs'). rewrite result_bind_ret.
  destruct section_values as (rows & -> & Hrows). pose proof (stored_requests rows Hrows) as Hin.
  rewrite matching_status by (intros r Hr; by apply Hin). cbn [wrap_error]. rewrite result_bind_ret.
  destruct (load_rows (List.filter (has_status st) rows) h c) as (l & -> & Hl).
  { intros r [Hr _]%list_elem_of_In%List.filter_In. apply Hin. by apply list_elem_of_In. }
  exists l, s'. split; [done|]. split; [done|]. intros i.
  assert ((λ x : Request.t * Z, Request.request_id x.1) <$> l =
          Request.request_id <$> List.filter (has_status st) rows) as ->.
  { apply (f_equal (fmap Request.request_id)) in Hl. rewrite <-!list_fmap_compose in Hl. exact Hl. }
  rewrite list_elem_of_fmap. split.
  - intros (r & -> & [Hr Hs0]%list_elem_of_In%List.filter_In). apply bool_decide_eq_true in Hs0.
    exists r. split; [|done]. apply Hin. by apply list_elem_of_In.
  - intros (r & Hr & Hst0). destruct (h_requests _ _ Hm i r Hr) as (Hs1 & <- & Hp). exists r. split; [done|].
    apply list_elem_of_In, List.filter_In. split; [apply list_elem_of_In; by apply Hin|].
    by apply bool_decide_eq_true.
Qed.
End OneStep.

(** The file holds the map, and every repository is on it. *)
Definition world_holds (path et : string) (w : world) (m : gmap string Request.t) : Prop :=
  disk_ok (w_disk w) ∧ Forall (repo_ok path et (w_disk w)) (w_repos w) ∧
  ∃ sec, stored (w_disk w) path et = Ok sec ∧ holds sec m.

Lemma run_at_refines path et w m k o :
  world_holds path et w m → op_ok o → (k < length (w_repos w))%nat →
  ∃ a w' m', run_at w k o = Some (a, w') ∧ world_holds path et w' m' ∧ spec_step m o a m' ∧
    length (w_repos w') = length (w_repos w) ∧
    (faults (w_disk w) = [] → faults (w_disk w') = [] ∧ ∀ msg, a ≠ AFail (StorageError msg)).
Proof.
  intros (Hok & Hrepos & sec & Hst & Hm) Ho Hk. unfold run_at.
  destruct (lookup_lt_is_Some_2 _ _ Hk) as [s Hs]. rewrite Hs. cbn [mbind option_bind].
  rewrite Forall_forall in Hrepos.
  pose proof (run_op_refines path et (w_disk w) s sec m Hok (Hrepos s (list_elem_of_lookup_2 _ _ _ Hs)) Hst Hm o Ho)
    as H. destruct (run_op (w_disk w) s o) as [[a d'] s']. destruct H as (Hev & Hs' & (sec' & m' & Hst' & Hm' & Hsp) & Hf).
  exists a, (mk_world d' (<[k := s']> (w_repos w))), m'. split; [done|]. split; [|split; [done|split; [|done]]].
  - split; [by eapply evolves_disk_ok|]. split; [|by exists sec']. cbn. apply Forall_insert; [|done].
    rewrite Forall_forall. intros t Ht. destruct (Hrepos t Ht) as (? & ? & ? & ?).
    split; [done|]. split; [done|]. split; [done|]. by eapply cache_ok_evolves.
  - cbn. by rewrite length_insert.
Qed.

(** C24: The request repository is a versioned map.  However any number of
    repositories on one file interleave their saves, loads, deletes, existence
    checks and listings, every operation completes with the answer of one map of
    requests acted on in that order: a save with a stale revision conflicts and
    changes nothing, a load gives the request last saved (field for field, with
    its version), a listing gives every request once and skips none.  A write may
    fail with a storage error, and then changes nothing; without write faults on
    the disk none does. *)
Theorem repository_is_versioned_map path et w m ops :
  world_holds path et w m →
  (∀ k o, (k, o) ∈ ops → op_ok o ∧ (k < length (w_repos w))%nat) →
  ∃ answers w' m', run_all w ops = Some (answers, w') ∧ spec_run m ops answers m' ∧
    world_holds path et w' m' ∧
    (faults (w_disk w) = [] → ∀ a msg, a ∈ answers → a ≠ AFail (StorageError msg)).
Proof.
  revert w m. induction ops as [|[k o] ops IH]; intros w m Hw Hops.
  { exists [], w, m. split; [done|]. split; [constructor|]. split; [done|]. by intros _ a msg ?%not_elem_of_nil. }
  destruct (Hops k o (list_elem_of_here _ _)) as [Ho Hk].
  destruct (run_at_refines path et w m k o Hw Ho Hk) as (a & w1 & m1 & Hr & Hw1 & Hsp & Hlen & Hf1).
  destruct (IH w1 m1 Hw1) as (l & w' & m' & Hr' & Hsp' & Hw' & Hf2).
  { intros k' o' Hin. rewrite Hlen. by apply Hops, list_elem_of_further. }
  exists (a :: l), w', m'. cbn [run_all]. rewrite Hr. cbn [mbind option_bind]. rewrite Hr'.
  split; [done|]. split; [by econstructor|]. split; [done|]. intros E b msg.
  destruct (Hf1 E) as [E1 Ha]. rewrite elem_of_cons. intros [->|Hb]; [apply Ha|by apply Hf2].
Qed.
(** What the list of active requests holds.  On a file that holds the map,
    [find_active_requests] returns exactly the requests that are pending or in
    progress, each once.  A request that is acquiring or partly pending, which is
    neither completed nor failed, is not among them. *)
Theorem active_requests_exact path et d s sec m h c :
  disk_ok d → repo_ok path et d s → stored d path et = Ok sec → holds sec m →
  ∃ l s', find_active_requests d s h c = (Ok (l, c), d, s') ∧
    NoDup ((λ x : Request.t * Z, Request.request_id x.1) <$> l) ∧
    (∀ i, i ∈ (λ x : Request.t * Z, Request.request_id x.1) <$> l ↔
          ∃ r, m !! i = Some r ∧ Request.status r ∈ [RequestStatus.PENDING; RequestStatus.IN_PROGRESS]) ∧
    (∀ i r, m !! i = Some r → Request.status r ∈ [RequestStatus.ACQUIRING; RequestStatus.PARTIAL_PENDING] →
            i ∉ (λ x : Request.t * Z, Request.request_id x.1) <$> l).
Proof.
  intros Hok Hs Hst Hm. unfold find_active_requests.
  destruct (find_by_status_spec path et d s sec m Hok Hs Hst Hm RequestStatus.PENDING h c) as (l1 & s1 & -> & Hs1 & H1).
  destruct (find_by_status_spec path et d s1 sec m Hok Hs1 Hst Hm RequestStatus.IN_PROGRESS (h + length l1) c)
    as (l2 & s2 & -> & _ & H2).
  exists (first_of_each (l1 ++ l2)), s2. split; [done|].
  assert (∀ i, i ∈ (λ x : Request.t * Z, Request.request_id x.1) <$> first_of_each (l1 ++ l2) ↔
          ∃ r, m !! i = Some r ∧ Request.status r ∈ [RequestStatus.PENDING; RequestStatus.IN_PROGRESS]) as H.
  { intros i. unfold first_of_each. rewrite elem_of_dedup_by_keys, fmap_app, elem_of_app, H1, H2.
    setoid_rewrite elem_of_cons. setoid_rewrite list_elem_of_singleton. naive_solver. }
  split; [apply dedup_by_NoDup|]. split; [done|].
  intros i r Hr Hstat Hi. apply H in Hi as (r' & Hr' & Hstat'). rewrite Hr in Hr'. injection Hr' as <-.
  rewrite !elem_of_cons in Hstat, Hstat'.
  destruct Hstat as [E|[E|[]%not_elem_of_nil]], Hstat' as [E'|[E'|[]%not_elem_of_nil]]; congruence.
Qed.
End Repository.

(** ** Witnesses *)

Definition empty_disk : disk := mk_disk ∅ ∅ [] 0 [] "20260101_000000".
Definition two_repos : world :=
  mk_world empty_disk [init "requests.json" "requests" 5 true; init "requests.json" "requests" 5 true].
Definition demo_id : string := "req-00000000-0000-0000-0000-000000000000".

(** Two processes load the same request; the second save is stale. *)
Definition demo_ops : list (nat * op) :=
  [(0%nat, Save stored_request None); (0%nat, Get demo_id 5); (1%nat, Get demo_id 6);
   (0%nat, Save stored_request (Some 0)); (1%nat, Save stored_request (Some 0));
   (1%nat, FindAll 7); (1%nat, Delete demo_id); (0%nat, Exists demo_id)].

Lemma two_repos_hold : world_holds diag_text "requests.json" "requests" two_repos ∅.
Proof.
  split; [done|]. split; [by repeat constructor|]. exists []. split; [done|]. constructor.
  - constructor.
  - intros i. by rewrite lookup_empty.
  - intros i r. by rewrite lookup_empty.
Qed.

Lemma repository_is_versioned_map_witness :
  ∃ answers w' m',
    run_all strict_int diag_text read_diag two_repos demo_ops = Some (answers, w') ∧
    spec_run ∅ demo_ops answers m' ∧ world_holds diag_text "requests.json" "requests" w' m' ∧
    (faults (w_disk two_repos) = [] → ∀ a msg, a ∈ answers → a ≠ AFail (StorageError msg)).
Proof.
  apply (repository_is_versioned_map strict_int diag_text read_diag (λ z, eq_refl) diag_text_reads
    "requests.json" "requests" two_repos ∅ demo_ops).
  - apply two_repos_hold.
  - intros k o Hin. unfold demo_ops in Hin. rewrite !elem_of_cons in Hin.
    pose proof stored_request_ok. decompose [or] Hin; simplify_eq;
      try (match goal with H : _ ∈ [] |- _ => by apply not_elem_of_nil in H end); split; solve [done|cbn; lia].
Defined.

Definition one_request : json := JDict [("requests", JDict [(demo_id, JDict (row_of diag_text stored_request))])].
Definition one_disk : disk :=
  mk_disk {[ "requests.json" := mk_file (Json one_request) 0 ]} ∅ [] 1 [] "20260101_000000".
Definition one_repo : strategy := init "requests.json" "requests" 5 true.

Lemma active_requests_exact_witness :
  ∃ l s', find_active_requests strict_int read_diag one_disk one_repo 0 [] = (Ok (l, []), one_disk, s') ∧
    demo_id ∈ (λ x : Request.t * Z, Request.request_id x.1) <$> l.
Proof.
  assert (Hok : disk_ok one_disk).
  { intros p f. cbn. intros [<- <-]%lookup_singleton_Some. cbn. lia. }
  destruct (active_requests_exact strict_int diag_text read_diag (λ z, eq_refl) diag_text_reads
    "requests.json" "requests" one_disk one_repo [(demo_id, JDict (row_of diag_text stored_request))]
    {[ demo_id := plain_request stored_request ]} 0 [] Hok) as (l & s' & H & _ & Hin & _).
  - done.
  - reflexivity.
  - apply (holds_insert diag_text [] ∅ demo_id (plain_request stored_request));
      [constructor; [constructor|intros i; by rewrite lookup_empty|intros i r; by rewrite lookup_empty]
      |apply (storable_saved stored_request 0), stored_request_ok|done|done].
  - exists l, s'. split; [exact H|]. apply Hin. exists (plain_request stored_request).
    split; [reflexivity|left].
Defined.
