(* ===== verification/Lifecycle.v ===== *)
(** * Commands on the life of a request

    [orb/application/commands/request_lifecycle_handlers.py]: the handlers that
    update the status of a request, cancel it and complete it, with their retry
    loop on version conflicts.

    The file also fixes how command handlers are modelled.  A handler is an
    [action] on a [world]: the stored requests and machines, the events published
    so far, and what the rest of the system does.  A unit of work is atomic (that
    is what [JsonScope] proves of the JSON store): it finds the state the rest of
    the system left and either commits its body's changes or raises and leaves
    that state alone.  Before each unit of work the environment may change the
    stored state, and it says whether the storage refuses the unit of work (with a
    version conflict, say).  Publishing an event does not raise. *)

From stdpp Require Import base gmap strings list.
From Stdlib Require Import ZArith Lia.
From S2P Require Import Prelude RequestTypes Diagnostic RequestAggregate FulfilmentSM.
From S2P Require Import MachineAggregate StatusService.
Open Scope Z_scope.

(** ** The world of a handler *)

Record db := mk_db {
  db_requests : gmap string Request.t;
  db_machines : gmap string Machine.t
}.

Definition db_eta (d : db) : db := mk_db (db_requests d) (db_machines d).
#[export] Hint Extern 1 (@Setter db _ _) => solve_setter db_eta : typeclass_instances.

(** What the rest of the system does before a unit of work, and the exception
    the storage answers it with, if any. *)
Abbreviation interference := (db → option exn * db).

Record world := mk_world {
  w_db : db;
  w_env : list interference;
  w_published : list RequestEvent
}.

Definition world_eta (w : world) : world := mk_world (w_db w) (w_env w) (w_published w).
#[export] Hint Extern 1 (@Setter world _ _) => solve_setter world_eta : typeclass_instances.

Definition action (A : Type) : Type := world → result A * world.

#[export] Instance action_ret : MRet action := λ A a w, (Ok a, w).
#[export] Instance action_bind : MBind action := λ A B f m w,
  match m w with
  | (Ok a, w') => f a w'
  | (Err e, w') => (Err e, w')
  end.

Definition raise {A} (e : exn) : action A := λ w, (Err e, w).

(** A call that leaves the store alone. *)
Definition call {A} (r : result A) : action A := λ w, (r, w).

(** [try: m except Exception as e: h(e)]. *)
Definition try_except {A} (m : action A) (h : exn → action A) : action A := λ w,
  match m w with
  | (Ok a, w') => (Ok a, w')
  | (Err e, w') => h e w'
  end.

(** The state a unit of work finds, and the exception it is answered with. *)
Definition encounter (w : world) : option exn * db := default (λ d, (None, d)) (head (w_env w)) (w_db w).

(** [with uow_factory.create_unit_of_work() as uow: body]. *)
Definition unit_of_work {A} (body : db → result (A * db)) : action A := λ w,
  let '(refused, d) := encounter w in
  let w1 := w <| w_env := tail (w_env w) |> <| w_db := d |> in
  match refused with
  | Some e => (Err e, w1)
  | None =>
      match body d with
      | Ok (a, d') => (Ok a, w1 <| w_db := d' |>)
      | Err e => (Err e, w1)
      end
  end.

Definition publish (events : list RequestEvent) : action unit := λ w,
  (Ok (), w <| w_published := w_published w ++ events |>).

(** ** The repositories of a unit of work *)

Definition get_request (d : db) (i : string) : option Request.t := db_requests d !! i.
Definition get_machine (d : db) (i : string) : option Machine.t := db_machines d !! i.

(** [uow.requests.find_by_id] of a text: it must have the form of an identifier. *)
Definition find_request (d : db) (i : string) : result (option Request.t) :=
  rid ← RequestId.make i; Ok (get_request d rid).

(** The version a save writes: the aggregate's own, and above the one it was
    loaded at. *)
Definition written (local : Z) (loaded_at : option Z) : Z :=
  match loaded_at with None => local | Some e => Z.max local (e + 1) end.

Definition save_request (loaded_at : option Z) (r : Request.t) (d : db) : db :=
  d <| db_requests := <[Request.request_id r :=
         persisted r (written (Request.version r) loaded_at)]> (db_requests d) |>.

Definition save_machine (loaded_at : option Z) (m : Machine.t) (d : db) : db :=
  d <| db_machines := <[Machine.machine_id m :=
         m <| Machine.version := written (Machine.version m) loaded_at |>
           <| Machine.domain_events := [] |>]> (db_machines d) |>.

Definition EntityNotFoundError (entity_type entity_id : string) : exn :=
  OtherError "EntityNotFoundError" (entity_type +:+ " with ID '" +:+ entity_id +:+ "' not found").

(** ** A commanded status *)

Definition verdict_state (status : RequestStatus.t) : option string :=
  match status with
  | RequestStatus.COMPLETED => Some "fulfilled"
  | RequestStatus.IN_PROGRESS | RequestStatus.ACQUIRING => Some "in_progress"
  | RequestStatus.PARTIAL | RequestStatus.PARTIAL_PENDING => Some "partial"
  | _ => None
  end.

Definition _apply_status_via_state_machine (sm : FulfilmentStateMachine.t) (request : Request.t)
    (status : RequestStatus.t) (message : string) (now : datetime) : result Request.t :=
  match status with
  | RequestStatus.CANCELLED =>
      fst <$> FulfilmentStateMachine.apply sm request FulfilmentEvent.CANCEL now None None None
                (Some (or_str (Some message) "Request cancelled"))
  | RequestStatus.TIMEOUT =>
      Err (ValueError "TIMEOUT is not a commandable status; it is set only by the deadline sweep")
  | RequestStatus.FAILED =>
      let diag := {| fd_category := DiagnosticCategory.INTERNAL;
                     fd_summary := or_str (Some message) ("Request " +:+ RequestStatus.value status);
                     fd_detail := None; fd_provider_errors := []; fd_occurred_at := now |} in
      fst <$> FulfilmentStateMachine.apply sm request FulfilmentEvent.FAIL now None (Some diag)
                (Some message) None
  | _ =>
      match verdict_state status with
      | None => Ok request
      | Some state =>
          fst <$> FulfilmentStateMachine.apply sm request FulfilmentEvent.PROVIDER_VERDICT now
                    (Some (fulfilment state message false)) None (Some message) None
      end
  end.

(** ** The handlers *)

(** [for attempt in range(retries + 1)]: a version conflict is tried again, the
    last one is raised; with no attempt at all the loop falls through. *)
Fixpoint attempts {A} (n : nat) (attempt : nat) (fall_through : A) (body : nat → action A)
  : action A := λ w,
  match n with
  | O => (Ok fall_through, w)
  | Datatypes.S n' =>
      match body attempt w with
      | (Err (ConcurrencyError i v), w') =>
          match n' with
          | O => (Err (ConcurrencyError i v), w')
          | _ => attempts n' (Datatypes.S attempt) fall_through body w'
          end
      | answer => answer
      end
  end.

Definition with_conflict_retries {A} (max_retries : Z) (fall_through : A) (body : nat → action A)
  : action A := attempts (Z.to_nat (max_retries + 1)) 0 fall_through body.

Section handlers.
Context (sm : FulfilmentStateMachine.t) (max_retries : Z).
(* the clock at each attempt *)
Context (clock : nat → datetime).


Definition change_status (request_id : string) (status : RequestStatus.t) (message : string)
    (now : datetime) (d : db) : result (list RequestEvent * db) :=
  found ← find_request d request_id;
  match found with
  | None => Err (EntityNotFoundError "Request" request_id)
  | Some request =>
      updated ← _apply_status_via_state_machine sm request status message now;
      Ok (Request.domain_events updated,
          save_request (Some (Request.version request)) updated d)
  end.

Definition update_status_command (request_id : string) (status : RequestStatus.t)
    (message : option string) : action unit :=
  if request_id ≟ EmptyString then raise (ValueError "request_id is required")
  else with_conflict_retries max_retries () (λ attempt,
    events ← unit_of_work (change_status request_id status (default EmptyString message) (clock attempt));
    publish events).

(** What [CancelRequestHandler] does inside its unit of work: [inl] carries the
    status of a settled request, [inr] the events of the cancelled one. *)
Definition cancel_stored (request_id reason : string) (now : datetime) (d : db)
  : result ((RequestStatus.t + list RequestEvent) * db) :=
  found ← find_request d request_id;
  match found with
  | None => Err (EntityNotFoundError "Request" request_id)
  | Some request =>
      match FulfilmentStateMachine.apply sm request FulfilmentEvent.CANCEL now None None None
              (Some reason) with
      | Ok (cancelled, _) =>
          Ok (inr (Request.domain_events cancelled),
              save_request (Some (Request.version request)) cancelled d)
      | Err (InvalidRequestStateError _ _) => Ok (inl (Request.status request), d)
      | Err e => Err e
      end
  end.

(** The fields [cancelled] and [final_status] the command carries back. *)
Definition cancel_command (request_id reason : string) : action (bool * option string) :=
  if request_id ≟ EmptyString then raise (ValueError "request_id is required")
  else with_conflict_retries max_retries (false, None) (λ attempt,
    outcome ← unit_of_work (cancel_stored request_id reason (clock attempt));
    match outcome with
    | inl settled => mret (false, Some (RequestStatus.value settled))
    | inr events =>
        _ ← publish events;
        mret (true, Some (RequestStatus.value RequestStatus.CANCELLED))
    end).

(** The repository outside a unit of work: the read and the save are two
    operations, and the save checks the version the request was read at. *)
Definition repository_find (request_id : string) : action (option Request.t) :=
  unit_of_work (λ d, found ← find_request d request_id; Ok (found, d)).

Definition repository_save (loaded_at : Z) (r : Request.t) : action (list RequestEvent) :=
  unit_of_work (λ d,
    match get_request d (Request.request_id r) with
    | Some current =>
        if Request.version current =? loaded_at
        then Ok (Request.domain_events r, save_request (Some loaded_at) r d)
        else Err (ConcurrencyError (Request.request_id r) (Some loaded_at))
    | None => Err (ConcurrencyError (Request.request_id r) (Some loaded_at))
    end).

Definition complete_command (request_id : string) : action unit :=
  if request_id ≟ EmptyString then raise (ValueError "request_id is required")
  else with_conflict_retries max_retries () (λ attempt,
    found ← repository_find request_id;
    match found with
    | None => raise (EntityNotFoundError "Request" request_id)
    | Some request =>
        match FulfilmentStateMachine.apply sm request FulfilmentEvent.PROVIDER_VERDICT
                (clock attempt) (Some (fulfilment "fulfilled" "Request completed" false)) None
                (Some "Request completed") None with
        | Err e => raise e
        | Ok (completed, _) =>
            events ← repository_save (Request.version request) completed;
            publish events
        end
    end).
End handlers.

(** ** Lemmas: actions *)

Lemma action_bind_Ok {A B} (m : action A) (f : A → action B) w b w' :
  (m ≫= f) w = (Ok b, w') → ∃ a w1, m w = (Ok a, w1) ∧ f a w1 = (Ok b, w').
Proof. unfold mbind, action_bind. destruct (m w) as [[a|e] w1]; [eauto|done]. Qed.

(** ** Lemmas: the loop *)

(** The state after [k] encounters. *)
Fixpoint after_encounters (k : nat) (w : world) : world :=
  match k with
  | O => w
  | Datatypes.S k' =>
      after_encounters k' (w <| w_env := tail (w_env w) |> <| w_db := (encounter w).2 |>)
  end.

Definition conflicts (w : world) : Prop := ∃ i v, (encounter w).1 = Some (ConcurrencyError i v).

Lemma unit_of_work_cases {A} (body : db → result (A * db)) w :
  let w1 := after_encounters 1 w in
  (∃ e, (encounter w).1 = Some e ∧ unit_of_work body w = (Err e, w1)) ∨
  ((encounter w).1 = None ∧
   unit_of_work body w = match body (w_db w1) with
                         | Ok (a, d') => (Ok a, w1 <| w_db := d' |>)
                         | Err e => (Err e, w1)
                         end).
Proof.
  unfold unit_of_work. cbn [after_encounters]. destruct (encounter w) as [[e|] d]; simpl;
    [left|right]; eauto.
Qed.

Lemma unit_of_work_Ok {A} (body : db → result (A * db)) w a w' :
  unit_of_work body w = (Ok a, w') →
  ∃ d', body (w_db (after_encounters 1 w)) = Ok (a, d') ∧
        w' = after_encounters 1 w <| w_db := d' |>.
Proof.
  destruct (unit_of_work_cases body w) as [(e & _ & ->)|[_ ->]]; [done|].
  destruct (body _) as [[a' d']|e]; [|done]. intros [= <- <-]. eauto.
Qed.

(** A body that raises a version conflict only when its unit of work was refused
    with one, and has changed nothing then. *)
Definition one_unit {A} (body : nat → action A) : Prop :=
  ∀ n w i v w', body n w = (Err (ConcurrencyError i v), w') →
    conflicts w ∧ w' = after_encounters 1 w.

Lemma conflict_or_not {A} (o : result A) :
  (∃ i v, o = Err (ConcurrencyError i v)) ∨ (∀ i v, o ≠ Err (ConcurrencyError i v)).
Proof. destruct o as [a|[]]; try (by right). left. by do 2 eexists. Qed.

(** The loop runs its body once, after the conflicts it absorbed. *)
Lemma attempts_spec {A} (ft : A) (body : nat → action A) n k w r w' :
  one_unit body → attempts (Datatypes.S n) k ft body w = (r, w') →
  ∃ j, (j ≤ n)%nat ∧ (∀ l, (l < j)%nat → conflicts (after_encounters l w)) ∧
    body (k + j)%nat (after_encounters j w) = (r, w') ∧
    (∀ i v, r = Err (ConcurrencyError i v) → j = n).
Proof.
  intros Hone. revert k w. induction n as [|n IH]; intros k w; cbn [attempts].
  - intros H. exists 0%nat. rewrite Nat.add_0_r. split_and!; [lia|lia| |done].
    cbn [after_encounters]. by destruct (body k w) as [[a|[]] w1].
  - destruct (body k w) as [o w1] eqn:Hb.
    destruct (conflict_or_not o) as [(i & v & ->)|Hn].
    + intros H. destruct (Hone _ _ _ _ _ Hb) as [Hc ->].
      apply IH in H as (j & Hj & Hl & Hr & He). exists (Datatypes.S j).
      rewrite <-Nat.add_succ_comm. split_and!; [lia| |done|].
      * intros [|l] Hlt; [done|]. apply (Hl l). lia.
      * intros i' v' Hr'. f_equal. by eapply He.
    + intros H. assert ((o, w1) = (r, w')) as [= <- <-].
      { rewrite <-H. destruct o as [a|[]]; try done. by destruct (Hn entity_id expected_version). }
      exists 0%nat. rewrite Nat.add_0_r. split_and!; [lia|lia|done|]. intros i v Ho. by destruct (Hn i v).
Qed.

(** The loop around a unit of work followed by steps that do not raise. *)
Lemma retried_unit {A B} (ft : B) (body : nat → db → result (A * db)) (finish : A → action B)
    max_retries w r w' :
  (∀ n d i v, body n d ≠ Err (ConcurrencyError i v)) →
  (∀ a w1, ∃ b, (finish a w1).1 = Ok b) →
  0 ≤ max_retries →
  with_conflict_retries max_retries ft (λ n, a ← unit_of_work (body n); finish a) w = (r, w') →
  ∃ j, Z.of_nat j ≤ max_retries ∧ (∀ l, (l < j)%nat → conflicts (after_encounters l w)) ∧
    let w0 := after_encounters (Datatypes.S j) w in
    (∀ i v, r = Err (ConcurrencyError i v) → Z.of_nat j = max_retries) ∧
    match r with
    | Ok _ => ∃ a d', body j (w_db w0) = Ok (a, d') ∧ finish a (w0 <| w_db := d' |>) = (r, w')
    | Err e => w' = w0 ∧
        ((encounter (after_encounters j w)).1 = Some e ∨ body j (w_db w0) = Err e)
    end.
Proof.
  intros Hbody Hfin Hpos H. unfold with_conflict_retries in H.
  replace (Z.to_nat (max_retries + 1)) with (Datatypes.S (Z.to_nat max_retries)) in H by lia.
  apply attempts_spec in H as (j & Hj & Hl & Hr & He).
  - exists j. split; [lia|]. split; [done|]. cbn zeta.
    replace (after_encounters (Datatypes.S j) w) with (after_encounters 1 (after_encounters j w))
      by (clear; revert w; induction j as [|j IH]; intros w; [done|apply IH]).
    split; [intros i v Hv; apply He in Hv; lia|].
    unfold mbind, action_bind in Hr.
    destruct (unit_of_work_cases (body j) (after_encounters j w))
      as [(e & Hen & Hu)|[Hen Hu]]; rewrite Nat.add_0_l, Hu in Hr.
    + injection Hr as <- <-. auto.
    + destruct (body j _) as [[a d']|e] eqn:Hb; [|injection Hr as <- <-; auto].
      destruct r as [b|e].
      * eauto.
      * destruct (Hfin a (after_encounters 1 (after_encounters j w) <| w_db := d' |>)) as [b Hb'].
        rewrite Hr in Hb'. done.
  - intros n w1 i v w2. unfold mbind, action_bind.
    destruct (unit_of_work_cases (body n) w1) as [(e & Hen & ->)|[Hen ->]].
    + intros [= -> <-]. split; [by do 2 eexists|done].
    + destruct (body n _) as [[a d']|e] eqn:Hb.
      * destruct (Hfin a (after_encounters 1 w1 <| w_db := d' |>)) as [b Hb'].
        intros Hf. rewrite Hf in Hb'. done.
      * intros [= -> _]. by destruct (Hbody n (w_db (after_encounters 1 w1)) i v).
Qed.

(** ** Lemmas: the changes *)

(** The state machine raises nothing but refusals, once it is given a verdict. *)
Lemma apply_refuses sm r event now f diag msg reason e :
  event ≠ FulfilmentEvent.DEADLINE_SWEEP →
  (event = FulfilmentEvent.PROVIDER_VERDICT → is_Some f) →
  FulfilmentStateMachine.apply sm r event now f diag msg reason = Err e →
  ∃ a b, e = InvalidRequestStateError a b.
Proof.
  intros Hev Hf. rewrite apply_eq. destruct (_ && _); [done|].
  rewrite bool_decide_eq_false_2 by done.
  assert (∃ t, FulfilmentStateMachine._resolve_target r event now f diag msg reason = Ok t)
    as [[[target m] d] ->].
  { destruct event; [..|done]; cbn; try by eexists. destruct (Hf eq_refl) as [v ->]. by eexists. }
  cbn [mbind result_bind]. unfold FulfilmentStateMachine.settle.
  repeat case_match; intros [= <-]. by do 2 eexists.
Qed.

Lemma commanded_cases sm r status message now :
  match _apply_status_via_state_machine sm r status message now with
  | Ok r' => RequestStatus.can_transition_to (Request.status r) (Request.status r') = true ∧
             Request.request_id r' = Request.request_id r
  | Err e => (∃ a b, e = InvalidRequestStateError a b) ∨ (∃ m, e = ValueError m)
  end.
Proof.
  unfold _apply_status_via_state_machine.
  assert (∀ event f diag msg reason,
    event ≠ FulfilmentEvent.DEADLINE_SWEEP →
    (event = FulfilmentEvent.PROVIDER_VERDICT → is_Some f) →
    match fst <$> FulfilmentStateMachine.apply sm r event now f diag msg reason with
    | Ok r' => RequestStatus.can_transition_to (Request.status r) (Request.status r') = true ∧
               Request.request_id r' = Request.request_id r
    | Err e => (∃ a b, e = InvalidRequestStateError a b) ∨ (∃ m, e = ValueError m)
    end) as Happ.
  { intros event f diag msg reason Hev Hf.
    destruct (FulfilmentStateMachine.apply sm r event now f diag msg reason) as [[r' b]|e] eqn:Ha;
      simpl.
    - apply apply_sound in Ha as (Hc & Hm & _). split; [done|by apply mutates_id].
    - left. by eapply apply_refuses. }
  destruct status; cbn [verdict_state]; try (apply Happ; done);
    try (apply Happ; [done|by eexists]).
  - split; [apply can_transition_refl|done].
  - right. by eexists.
Qed.

Lemma find_request_cases d i :
  (∃ m, find_request d i = Err (OtherError "ValidationError" m)) ∨
  find_request d i = Ok (get_request d i).
Proof. unfold find_request, RequestId.make. destruct (RequestId._is_valid_format i); eauto. Qed.

Lemma find_request_Ok d i o : find_request d i = Ok o → o = get_request d i.
Proof. destruct (find_request_cases d i) as [[m ->]| ->]; [done|]. by intros [= <-]. Qed.

Lemma change_status_no_conflict sm i status message now d i' v :
  change_status sm i status message now d ≠ Err (ConcurrencyError i' v).
Proof.
  unfold change_status. destruct (find_request_cases d i) as [[m ->]| ->]; cbn; [done|].
  destruct (get_request d i) as [r|]; [|done].
  pose proof (commanded_cases sm r status message now) as Hc.
  destruct (_apply_status_via_state_machine _ _ _ _ _) as [r'|e]; simpl; [done|].
  intros [= ->]. destruct Hc as [(? & ? & ?)|(? & ?)]; done.
Qed.

Lemma cancel_stored_no_conflict sm i reason now d i' v :
  cancel_stored sm i reason now d ≠ Err (ConcurrencyError i' v).
Proof.
  unfold cancel_stored. destruct (find_request_cases d i) as [[m ->]| ->]; cbn; [done|].
  destruct (get_request d i) as [r|]; [|done].
  destruct (FulfilmentStateMachine.apply _ _ _ _ _ _ _ _) as [[r' b]|e] eqn:Ha; [done|].
  apply apply_refuses in Ha as (a & b & ->); done.
Qed.

Lemma get_request_save e r d j :
  get_request (save_request e r d) j =
  if decide (Request.request_id r = j)
  then Some (persisted r (written (Request.version r) e)) else get_request d j.
Proof. unfold get_request, save_request. cbn. by rewrite lookup_insert. Qed.

(** ** Theorems *)

(** C4: A status command is one atomic change.  Whatever other writers and the
    storage do meanwhile, the handler absorbs version conflicts up to the
    configured number of retries and then takes effect at a single moment: the
    request as stored then goes through the state machine, along the transition
    table, is saved above the version it was read at, no other request or machine
    is touched, and its events, and only they, are published, after the commit.
    A command that raises has neither written nor published anything, and it
    raises a version conflict only when every attempt met one. *)
Theorem status_command_atomic sm max_retries clock i status message w r w' :
  i ≠ EmptyString → 0 ≤ max_retries →
  update_status_command sm max_retries clock i status message w = (r, w') →
  ∃ j, Z.of_nat j ≤ max_retries ∧ (∀ l, (l < j)%nat → conflicts (after_encounters l w)) ∧
    let w0 := after_encounters (Datatypes.S j) w in
    (∀ i' v, r = Err (ConcurrencyError i' v) → Z.of_nat j = max_retries) ∧
    match r with
    | Ok _ => ∃ request updated,
        get_request (w_db w0) i = Some request ∧
        _apply_status_via_state_machine sm request status (default EmptyString message) (clock j)
          = Ok updated ∧
        RequestStatus.can_transition_to (Request.status request) (Request.status updated) = true ∧
        w_db w' = save_request (Some (Request.version request)) updated (w_db w0) ∧
        w_published w' = w_published w0 ++ Request.domain_events updated
    | Err e => w' = w0
    end.
Proof.
  intros Hi Hpos. unfold update_status_command. rewrite bool_decide_eq_false_2 by done.
  intros H. apply (retried_unit () (λ n, change_status sm i status (default EmptyString message)
    (clock n)) publish) in H as (j & Hj & Hl & He & Hr); [|intros; apply change_status_no_conflict
    |by eexists|done].
  exists j. split; [done|]. split; [done|]. cbn zeta in *. split; [done|].
  destruct r as [[]|e]; [|by destruct Hr].
  destruct Hr as (events & d' & Hc & [= <-]). unfold change_status in Hc.
  apply result_bind_Ok in Hc as (found & ->%find_request_Ok & Hc).
  destruct (get_request _ i) as [request|]; [|done].
  apply result_bind_Ok in Hc as (updated & Hu & [= <- <-]).
  pose proof (commanded_cases sm request status (default EmptyString message) (clock j)) as Hcc.
  rewrite Hu in Hcc. destruct Hcc as [Hct _]. by exists request, updated.
Qed.

(** Stored requests and machines are filed under their own identifiers, and the
    rest of the system keeps it so. *)
Definition db_ok (d : db) : Prop :=
  (∀ j r, get_request d j = Some r → Request.request_id r = j) ∧
  (∀ j m, get_machine d j = Some m → Machine.machine_id m = j).
Definition world_ok (w : world) : Prop :=
  db_ok (w_db w) ∧ Forall (λ f : interference, ∀ d, db_ok d → db_ok (f d).2) (w_env w).

Lemma after_encounters_ok k w : world_ok w → world_ok (after_encounters k w).
Proof.
  revert w. induction k as [|k IH]; intros w Hw; [done|]. apply IH.
  destruct w as [d env ev], Hw as [Hd He]. unfold world_ok, encounter. cbn in *.
  destruct He as [|f env Hf He]; split; cbn; auto.
Qed.

Lemma after_encounters_published k w : w_published (after_encounters k w) = w_published w.
Proof. revert w. induction k as [|k IH]; intros w; [done|]. cbn. by rewrite IH. Qed.

(** C5: A cancel settles the request.  When the cancel command returns (its
    retries not being configured negative), the stored request is terminal, the
    command reports the status it has, and it reports [cancelled] exactly when
    that status is CANCELLED.  It takes effect at one moment between the changes
    of other writers and touches no other request and no machine: a request found
    settled otherwise is left as it is, in every field, and nothing is published
    for it; any other is stored CANCELLED at a higher version. *)
Theorem cancel_command_settles sm max_retries clock i reason w c fs w' :
  i ≠ EmptyString → 0 ≤ max_retries → world_ok w →
  cancel_command sm max_retries clock i reason w = (Ok (c, fs), w') →
  ∃ k r0 r, let d0 := w_db (after_encounters k w) in
    get_request d0 i = Some r0 ∧ get_request (w_db w') i = Some r ∧
    RequestStatus.is_terminal (Request.status r) = true ∧
    fs = Some (RequestStatus.value (Request.status r)) ∧
    c = (Request.status r ≟ RequestStatus.CANCELLED) ∧
    (∀ j, j ≠ i → get_request (w_db w') j = get_request d0 j) ∧
    (∀ j, get_machine (w_db w') j = get_machine d0 j) ∧
    if c then Request.version r0 < Request.version r ∧
              (RequestStatus.is_active (Request.status r0) = true ∨
               Request.status r0 = RequestStatus.CANCELLED)
    else w_db w' = d0 ∧ r = r0 ∧ w_published w' = w_published w.
Proof.
  intros Hi Hpos Hok. unfold cancel_command. rewrite bool_decide_eq_false_2 by done.
  intros H. apply (retried_unit (false, None) (λ n, cancel_stored sm i reason (clock n)))
    in H as (j & _ & _ & _ & outcome & d' & Hc & Hf);
    [|intros; apply cancel_stored_no_conflict|intros [] ?; by eexists|done].
  pose proof (after_encounters_ok (Datatypes.S j) w Hok) as [[Hdb _] _].
  pose proof (after_encounters_published (Datatypes.S j) w) as Hp.
  set (w0 := after_encounters (Datatypes.S j) w) in *.
  unfold cancel_stored in Hc. apply result_bind_Ok in Hc as (found & ->%find_request_Ok & Hc).
  destruct (get_request (w_db w0) i) as [request|] eqn:Hg; [|done].
  pose proof (Hdb _ _ Hg) as Hid.
  pose proof (cancel_authority sm request (clock j) None None None (Some reason)) as Ha.
  destruct (FulfilmentStateMachine.apply _ _ _ _ _ _ _ _) as [[r' b]|e] eqn:Happ.
  - injection Hc as <- <-. injection Hf as <- <- <-. destruct Ha as (Hs & _ & _ & Hbefore).
    exists (Datatypes.S j), request,
      (persisted r' (written (Request.version r') (Some (Request.version request)))).
    apply apply_sound in Happ as (_ & Hm & _). apply mutates_id in Hm.
    assert (Request.request_id r' = i) as Hi' by congruence. fold w0. cbv zeta.
    cbn [w_db]. split_and!; try done; [| | |by rewrite bool_decide_eq_true_2| |cbn; lia].
    + etransitivity; [apply get_request_save|]. by rewrite decide_True.
    + change (RequestStatus.is_terminal (Request.status r') = true). by rewrite Hs.
    + change (Request.status (persisted _ _)) with (Request.status r'). by rewrite Hs.
    + intros j' Hj'. etransitivity; [apply get_request_save|]. by rewrite decide_False by congruence.
  - destruct Ha as (Ht & Hne & ->). injection Hc as <- <-. injection Hf as <- <- <-.
    exists (Datatypes.S j), request, request. fold w0. cbv zeta.
    split_and!; try done. by rewrite bool_decide_eq_false_2.
Qed.

(** A negative retry limit, which the configuration schema accepts, turns
    every status, cancel and complete command into one that reports success
    without reading or writing anything: the retry loop has no iteration. *)
Theorem negative_retries_drop_commands sm max_retries clock i status message reason w :
  i ≠ EmptyString → max_retries < 0 →
  update_status_command sm max_retries clock i status message w = (Ok (), w) ∧
  cancel_command sm max_retries clock i reason w = (Ok (false, None), w) ∧
  complete_command sm max_retries clock i w = (Ok (), w).
Proof.
  intros Hi Hneg. unfold update_status_command, cancel_command, complete_command,
    with_conflict_retries. rewrite bool_decide_eq_false_2 by done.
  replace (Z.to_nat (max_retries + 1)) with 0%nat by lia. done.
Qed.

(** A complete command with no other writer at work. *)
Lemma complete_alone sm max_retries clock i d published request :
  RequestId._is_valid_format i = true → 0 ≤ max_retries → Request.request_id request = i →
  get_request d i = Some request →
  complete_command sm max_retries clock i (mk_world d [] published) =
  match FulfilmentStateMachine.apply sm request FulfilmentEvent.PROVIDER_VERDICT (clock 0%nat)
          (Some (fulfilment "fulfilled" "Request completed" false)) None
          (Some "Request completed") None with
  | Ok (completed, _) =>
      (Ok (), mk_world (save_request (Some (Request.version request)) completed d) []
                (published ++ Request.domain_events completed))
  | Err e => (Err e, mk_world d [] published)
  end.
Proof.
  intros Hi Hpos Hid Hg. unfold complete_command, with_conflict_retries.
  rewrite bool_decide_eq_false_2 by (by intros ->).
  assert (find_request d i = Ok (Some request)) as Hf
    by (unfold find_request, RequestId.make; by rewrite Hi, <-Hg).
  replace (Z.to_nat (max_retries + 1)) with (Datatypes.S (Z.to_nat max_retries)) by lia.
  cbn [attempts]. unfold mbind, action_bind, repository_find, unit_of_work, encounter.
  cbn [w_env head default w_db tail]. cbn -[find_request]. rewrite Hf. cbn.
  destruct (FulfilmentStateMachine.apply _ _ _ _ _ _ _ _) as [[c b]|e] eqn:Ha; cbn.
  - apply apply_sound in Ha as (_ & Hm & _). apply mutates_id in Hm.
    unfold repository_save, unit_of_work, encounter. cbn.
    replace (Request.request_id c) with i by congruence. by rewrite Hg, Z.eqb_refl.
  - apply apply_refuses in Ha as (a & b & ->); done.
Qed.

(** What a complete command leaves.  With no other writer at work, a request
    that may still be completed is stored COMPLETED, unless its deadline has
    passed, in which case the deadline's own outcome is stored and the command
    reports success all the same; a request settled otherwise is refused and
    left alone. *)
Theorem complete_command_outcome sm max_retries clock i w request :
  RequestId._is_valid_format i = true → 0 ≤ max_retries → w_env w = [] → Request.request_id request = i →
  get_request (w_db w) i = Some request →
  if expired request (clock 0%nat) then
    ∃ w', complete_command sm max_retries clock i w = (Ok (), w') ∧
      ∃ r, get_request (w_db w') i = Some r ∧
           Request.status r = (FulfilmentStateMachine.deadline_outcome request (clock 0%nat)).1.1
  else if RequestStatus.can_transition_to (Request.status request) RequestStatus.COMPLETED then
    ∃ w', complete_command sm max_retries clock i w = (Ok (), w') ∧
      ∃ r, get_request (w_db w') i = Some r ∧ Request.status r = RequestStatus.COMPLETED
  else complete_command sm max_retries clock i w =
       (Err (InvalidRequestStateError (RequestStatus.value (Request.status request)) "complete"), w).
Proof.
  intros Hi Hpos Henv Hid Hg. destruct w as [d env published]. cbn in Henv, Hg. subst env.
  rewrite (complete_alone _ _ _ _ _ _ request) by done. rewrite apply_eq.
  change (overrides_deadline FulfilmentEvent.PROVIDER_VERDICT) with false. cbn [negb andb].
  set (saved := λ c : Request.t,
    persisted c (written (Request.version c) (Some (Request.version request)))).
  destruct (expired request (clock 0%nat)).
  - eexists. split; [done|]. exists (saved (deadline_transition request (clock 0%nat))). split.
    + etransitivity; [apply get_request_save|]. rewrite decide_True; [done|].
      rewrite <-Hid. apply mutates_id. left. apply deadline_transition_mutates.
    + exact (deadline_transition_status request (clock 0%nat)).
  - rewrite bool_decide_eq_false_2 by done. cbn [FulfilmentStateMachine._resolve_target].
    change (FulfilmentStateMachine._target_for_verdict request _ _ _ _)
      with (RequestStatus.COMPLETED, Some "Request completed", None : option FulfilmentDiagnostic).
    cbn [mbind result_bind].
    destruct (FulfilmentStateMachine.settle _ _ _ _ _ _ _) as [[c b]|e] eqn:Hs.
    + pose proof (settle_sound _ _ _ _ _ _ _ _ Hs) as (Hst & -> & Hm & _).
      apply mutates_id in Hm. eexists. split; [done|]. exists (saved c). split; [|exact Hst].
      etransitivity; [apply get_request_save|]. rewrite decide_True; [done|congruence].
    + unfold FulfilmentStateMachine.settle in Hs. case_bool_decide; [done|].
      destruct (RequestStatus.can_transition_to _ _); [done|]. by injection Hs as <-.
Qed.

(** ** Witnesses *)

Definition demo_id : string := "req-00000000-0000-0000-0000-000000000001".
Definition demo_request : Request.t := sample <| Request.request_id := demo_id |>.

Definition demo_db : db := mk_db {[ demo_id := demo_request ]} ∅.

(** A version conflict, for the first attempt. *)
Definition conflicting : interference := λ d, (Some (ConcurrencyError demo_id (Some 0)), d).
Definition demo_world (env : list interference) : world := mk_world demo_db env [].

Lemma status_command_atomic_witness :
  ∃ w', update_status_command (FulfilmentStateMachine.init 60) 3 (λ _, 10) demo_id
          RequestStatus.FAILED (Some "boom") (demo_world [conflicting]) = (Ok (), w') ∧
        ∃ j, Z.of_nat j ≤ 3 ∧ (∀ l, (l < j)%nat → conflicts (after_encounters l (demo_world [conflicting]))).
Proof.
  eexists. split; [vm_compute; reflexivity|].
  destruct (status_command_atomic (FulfilmentStateMachine.init 60) 3 (λ _, 10) demo_id
    RequestStatus.FAILED (Some "boom") (demo_world [conflicting]) (Ok ())
    (update_status_command (FulfilmentStateMachine.init 60) 3 (λ _, 10) demo_id
          RequestStatus.FAILED (Some "boom") (demo_world [conflicting])).2)
    as (j & Hj & Hl & _); [done|lia|vm_compute; reflexivity|]. by exists j.
Defined.

Lemma demo_db_ok : db_ok demo_db.
Proof. split; [|done]. intros j r. unfold get_request. cbn. by intros [<- <-]%lookup_singleton_Some. Qed.

Lemma cancel_command_settles_witness :
  ∃ w', cancel_command (FulfilmentStateMachine.init 60) 3 (λ _, 10) demo_id "not needed"
          (demo_world [conflicting]) = (Ok (true, Some "cancelled"), w') ∧
        ∃ r, get_request (w_db w') demo_id = Some r ∧
             RequestStatus.is_terminal (Request.status r) = true.
Proof.
  eexists. split; [vm_compute; reflexivity|].
  destruct (cancel_command_settles (FulfilmentStateMachine.init 60) 3 (λ _, 10) demo_id "not needed"
    (demo_world [conflicting]) true (Some "cancelled")
    (cancel_command (FulfilmentStateMachine.init 60) 3 (λ _, 10) demo_id "not needed"
          (demo_world [conflicting])).2) as (k & r0 & r & _ & Hr & Ht & _);
    [done|lia|split; [exact demo_db_ok|apply Forall_singleton; by intros d Hd]|vm_compute; reflexivity|].
  exists r. split; [exact Hr|exact Ht].
Defined.

Lemma negative_retries_drop_commands_witness :
  update_status_command (FulfilmentStateMachine.init 60) (-1) (λ _, 10) demo_id
    RequestStatus.FAILED None (demo_world []) = (Ok (), demo_world []).
Proof.
  apply (negative_retries_drop_commands (FulfilmentStateMachine.init 60) (-1) (λ _, 10) demo_id
    RequestStatus.FAILED None "r" (demo_world [])); [done|lia].
Defined.

Lemma complete_command_outcome_witness :
  ∃ w', complete_command (FulfilmentStateMachine.init 60) 3 (λ _, 10) demo_id (demo_world []) = (Ok (), w') ∧
    ∃ r, get_request (w_db w') demo_id = Some r ∧ Request.status r = RequestStatus.COMPLETED.
Proof.
  exact (complete_command_outcome (FulfilmentStateMachine.init 60) 3 (λ _, 10) demo_id (demo_world [])
    demo_request ltac:(reflexivity) ltac:(lia) eq_refl eq_refl eq_refl).
Defined.
