(* ===== verification/Deprovisioning.v ===== *)
(** * Deprovisioning

    [orb/application/services/deprovisioning_orchestrator.py],
    [machine_grouping_service.py] and [machine_coordinates.py]: the machines of a
    return request are grouped by the resource that owns them, each group is
    terminated in one provider operation, and what the provider reports is
    reconciled with what was asked.

    The groups run as tasks of one event loop.  A task only reads the store, so
    running the tasks one after the other on a store that others may change
    between any two reads covers their interleavings.  The provider, the query
    bus, the scheduler and the configuration are the ports of the source and
    arguments here, as is the validation of a template snapshot. *)

From stdpp Require Import base gmap strings list.
From Stdlib Require Import ZArith Lia.
From S2P Require Import Prelude RequestTypes Diagnostic RequestAggregate FulfilmentSM.
From S2P Require Import MachineAggregate StatusService ProviderStrategy Lifecycle.
Open Scope Z_scope.

(** ** Grouping *)

(** A [defaultdict(list)]: [groups[k].append(a)] on an insertion-ordered
    dictionary. *)
Section groups.
Context {K A : Type} `{EqDecision K}.

Fixpoint append_to (k : K) (a : A) (groups : list (K * list A)) : list (K * list A) :=
  match groups with
  | [] => [(k, [a])]
  | (k', l) :: groups' =>
      if decide (k = k') then (k', l ++ [a]) :: groups' else (k', l) :: append_to k a groups'
  end.

Lemma append_to_keys k a groups :
  (append_to k a groups).*1 = if k ∈? groups.*1 then groups.*1 else groups.*1 ++ [k].
Proof.
  induction groups as [|[k' l] groups IH]; [done|]. cbn [append_to fmap list_fmap fst].
  destruct (decide (k = k')) as [->|Hne].
  - rewrite bool_decide_eq_true_2 by (cbn; set_solver). done.
  - cbn [fmap list_fmap fst]. rewrite IH. repeat case_bool_decide; set_solver.
Qed.

Lemma append_to_NoDup k a groups : NoDup groups.*1 → NoDup (append_to k a groups).*1.
Proof.
  rewrite append_to_keys. case_bool_decide; [done|]. intros Hnd. apply NoDup_app.
  split; [done|]. split; [set_solver|apply NoDup_singleton].
Qed.

Lemma append_to_perm k a groups : concat (append_to k a groups).*2 ≡ₚ a :: concat groups.*2.
Proof.
  induction groups as [|[k' l] groups IH]; [done|]. cbn [append_to].
  destruct (decide (k = k')) as [->|Hne]; cbn [fmap list_fmap snd concat].
  - rewrite <-app_assoc. cbn. symmetry. apply Permutation_middle.
  - rewrite IH. symmetry. apply Permutation_middle.
Qed.

Lemma append_to_Forall (P : K → list A → Prop) k a groups :
  (∀ l, P k l → P k (l ++ [a])) → P k [a] →
  Forall (λ kl, P kl.1 kl.2) groups → Forall (λ kl, P kl.1 kl.2) (append_to k a groups).
Proof.
  intros Happ Hone. induction 1 as [|[k' l] groups Hl Hg IH]; cbn [append_to].
  { by repeat constructor. }
  destruct (decide (k = k')) as [->|Hne]; constructor; cbn in *; auto.
Qed.
End groups.

Abbreviation provider_key := (string * string * string)%type.

(** The body of [group_by_provider]'s loop over the machines. *)
Fixpoint provider_groups (d : db) (machine_ids : list string)
    (groups : list (provider_key * list string)) : result (list (provider_key * list string)) :=
  match machine_ids with
  | [] => Ok groups
  | machine_id :: rest =>
      match get_machine d machine_id with
      | None => Err (EntityNotFoundError "Machine" machine_id)
      | Some machine =>
          if Machine.provider_api machine ≟ EmptyString then
            Err (ValueError ("Machine " +:+ machine_id +:+
              " has no provider_api — cannot determine deprovisioning route. This is a persistence/migration bug, not a runtime condition."))
          else
            provider_groups d rest
              (append_to (Machine.provider_type machine, Machine.provider_name machine,
                          Machine.provider_api machine) machine_id groups)
      end
  end.

Definition group_by_provider (machine_ids : list string)
  : action (list (provider_key * list string)) :=
  unit_of_work (λ d, groups ← provider_groups d machine_ids []; Ok (groups, d)).

(** [get_strategy_capabilities]: the operations a provider supports, or none. *)
Abbreviation selection_port := (string → result (option (list OperationType))).

Definition _supports_direct_instance_termination (port : option selection_port)
    (provider_name : string) : bool :=
  match port with
  | None => false
  | Some get_strategy_capabilities =>
      match get_strategy_capabilities provider_name with
      | Ok (Some supported_operations) => TAG_INSTANCES ∈? supported_operations
      | _ => false
      end
  end.

(** Where [group_by_resource] puts a machine; [None] when it is skipped. *)
Definition resource_key (port : option selection_port) (machine : Machine.t) : option provider_key :=
  if negb (str_truthy (Machine.resource_id machine)) then
    if _supports_direct_instance_termination port (Machine.provider_name machine) then
      Some (Machine.provider_name machine,
            or_str (Some (Machine.provider_api machine)) "RunInstances",
            "direct-" +:+ Machine.machine_id machine)
    else None
  else if Machine.provider_api machine ≟ EmptyString then None
  else Some (Machine.provider_name machine, Machine.provider_api machine,
             default EmptyString (Machine.resource_id machine)).

Abbreviation resource_groups := (list (provider_key * list Machine.t)).

Fixpoint resource_loop (port : option selection_port) (machine_ids : list string)
    (groups : resource_groups) (skipped : list string) : action (resource_groups * list string) :=
  match machine_ids with
  | [] => mret (groups, skipped)
  | machine_id :: rest =>
      machine ← try_except
        (unit_of_work (λ d,
           match get_machine d machine_id with
           | None => Err (ValueError ("Machine not found: " +:+ machine_id))
           | Some machine => Ok (machine, d)
           end))
        (λ e, raise (ValueError ("Cannot determine context for machine " +:+ machine_id +:+
                                 ": " +:+ exn_str e)));
      match resource_key port machine with
      | Some k => resource_loop port rest (append_to k machine groups) skipped
      | None => resource_loop port rest groups (skipped ++ [machine_id])
      end
  end.

Definition group_by_resource (port : option selection_port) (machine_ids : list string)
  : action (resource_groups * list string) := resource_loop port machine_ids [] [].

(** ** Reconciling identifiers *)

Definition _reconcile_ids (requested : list string) (reported_ok reported_failed : option (list string))
  : list string * list string :=
  let failed_reported := filter (λ i, i ∈ requested) (default [] reported_failed) in
  let ok_reported :=
    match reported_ok with
    | Some ok => filter (λ i, i ∈ requested) ok
    | None => if Request.is_nil failed_reported then []
              else filter (λ i, i ∉ failed_reported) requested
    end in
  let unique_requested := dedup_by id requested in
  let succeeded := filter (λ i, i ∈ ok_reported ∧ i ∉ failed_reported) unique_requested in
  (succeeded, filter (λ i, i ∉ succeeded) unique_requested).

(** ** Coordinates *)

Record machine_coordinates := mk_coordinates {
  co_provider_api : string;
  co_resource_id : option string;
  co_provider_data : dict json;
  co_launched_at : option string
}.

Definition _iso (moment : option datetime) : option string := isoformat <$> moment.

(** The provider data of the request a machine came from. *)
Definition origin_data (d : db) (origin_id : string) : result (dict json) :=
  rid ← RequestId.make origin_id;
  Ok (default [] (Request.provider_data <$> get_request d rid)).

Definition coordinates_of (d : db) (machine : Machine.t) : result machine_coordinates :=
  provider_data ←
    (match Machine.request_id machine with
     | Some origin_id =>
         if origin_id ≟ EmptyString then Ok (Machine.provider_data machine)
         else origin ← origin_data d origin_id; Ok (dmerge origin (Machine.provider_data machine))
     | None => Ok (Machine.provider_data machine)
     end);
  Ok (mk_coordinates (Machine.provider_api machine) (Machine.resource_id machine) provider_data
        (_iso match Machine.launch_time machine with
              | Some t => Some t | None => Machine.created_at machine end)).

Fixpoint coordinates_loop (d : db) (machine_ids : list string) (acc : dict machine_coordinates)
  : result (dict machine_coordinates) :=
  match machine_ids with
  | [] => Ok acc
  | machine_id :: rest =>
      match get_machine d machine_id with
      | None => coordinates_loop d rest acc
      | Some machine =>
          c ← coordinates_of d machine;
          coordinates_loop d rest (dset (Machine.machine_id machine) c acc)
      end
  end.

Definition load_machine_coordinates (machine_ids : list string) : action (dict machine_coordinates) :=
  match machine_ids with
  | [] => mret []
  | _ => unit_of_work (λ d, c ← coordinates_loop d machine_ids []; Ok (c, d))
  end.

(** ** Terminating one group *)

(** The operation handed to the provider. *)
Record terminate_operation (Config : Type) := mk_terminate {
  op_instance_ids : list string;
  op_template_config : Config;
  op_template_id : string;
  op_provider_api : string;
  op_resource_id : string;
  op_resource_mapping : list (string * (string * Z));
  op_machine_coordinates : dict machine_coordinates;
  op_request_id : string;
  op_correlation_id : string
}.
Arguments mk_terminate {Config}.
Arguments op_instance_ids {Config}.
Arguments op_resource_id {Config}.
Arguments op_provider_api {Config}.
Arguments op_correlation_id {Config}.

Record group_result := mk_group_result {
  gr_success : bool;
  gr_partial : bool;
  gr_terminated_instances : Z;
  gr_successful_instance_ids : list string;
  gr_failed_instance_ids : list string;
  gr_error_message : option string;
  gr_retryable : option bool
}.

(** [[str(iid) for iid in raw] if isinstance(raw, (list, tuple)) else None]. *)
Definition reported_ids (raw : option json) : option (list string) :=
  match raw with Some (JList ids) => Some (json_str <$> ids) | _ => None end.

(** [metadata.get("provider_data")] when it is a dict. *)
Definition reported_data (metadata : dict json) : dict json :=
  match dget "provider_data" metadata with Some (JDict data) => data | _ => [] end.

(** What a provider result says of the machines of a group. *)
Definition group_outcome (instance_ids : list string) (res : ProviderResult) : group_result :=
  if pr_success res then
    mk_group_result true false (Z.of_nat (length instance_ids)) instance_ids [] None None
  else
    let provider_data := reported_data (pr_metadata res) in
    let reported_ok := reported_ids (dget "successful_instance_ids" provider_data) in
    let reported_failed := reported_ids (dget "failed_instance_ids" provider_data) in
    let '(successful_ids, failed_ids) := _reconcile_ids instance_ids reported_ok reported_failed in
    if negb (Request.is_nil successful_ids) && negb (Request.is_nil failed_ids) then
      mk_group_result false true (Z.of_nat (length successful_ids)) successful_ids failed_ids
        (pr_error_message res) None
    else mk_group_result false false 0 [] failed_ids (pr_error_message res) None.

(** Every machine reported as failed, after an exception. *)
Definition group_failed (instance_ids : list string) (e : exn) : group_result :=
  mk_group_result false false 0 [] instance_ids (Some (exn_str e))
    match e with
    | OtherError c _ =>
        if c ≟ "ProviderNotReadyError" then Some true
        else if c ≟ "OperationNotSupportedError" then Some false else None
    | _ => None
    end.

Section orchestrator.
Context {Template Config : Type}.

Record ports := mk_ports {
  (* [TemplateDTO.model_validate] of the snapshot fields; [None] when it raises *)
  validate_snapshot : dict json → option Template;
  (* [query_bus.execute(GetTemplateQuery(template_id=...))] *)
  query_template : string → result (option Template);
  format_template_for_provider : Template → result Config;
  get_provider_instance_config : string → result unit;
  execute_operation : string → terminate_operation Config → result ProviderResult
}.

Context (p : ports).

Definition SNAPSHOT_METADATA_KEY : string := "template_snapshot".
Definition SNAPSHOT_FIELDS : list string :=
  ["template_id"; "name"; "provider_type"; "provider_name"; "provider_api"; "price_type";
   "subnet_ids"; "security_group_ids"; "machine_types"; "machine_types_ondemand";
   "machine_types_priority"; "network_zones"; "tags"].

Definition restore_template_snapshot (snapshot : option json) (template_id : string)
  : option Template :=
  match snapshot with
  | Some (JDict ((_ :: _) as data)) =>
      if negb (template_id ≟ EmptyString)
         && negb match dget "template_id" data with Some (JStr t) => t ≟ template_id | _ => false end
      then None
      else validate_snapshot p (filter (λ kv, kv.1 ∈ SNAPSHOT_FIELDS) data)
  | _ => None
  end.

Definition _load_snapshot_template (origin_request_id : option string) (template_id : string)
  : action (option Template) :=
  if negb (str_truthy origin_request_id) then mret None
  else
    metadata ← try_except
      (unit_of_work (λ d,
         rid ← RequestId.make (default EmptyString origin_request_id);
         Ok (Some (default [] (Request.metadata <$> get_request d rid)), d)))
      (λ _, mret None);
    mret match metadata with
         | Some m => restore_template_snapshot (dget SNAPSHOT_METADATA_KEY m) template_id
         | None => None
         end.

Definition template_for (machine : Machine.t) : action (option Template) :=
  template ← _load_snapshot_template (Machine.request_id machine) (Machine.template_id machine);
  match template with
  | Some t => mret (Some t)
  | None => call (query_template p (Machine.template_id machine))
  end.

Definition _process_resource_group (provider_name provider_api resource_id : string)
    (machines : list Machine.t) (request_id : string) : action group_result :=
  let instance_ids := Machine.machine_id <$> machines in
  try_except
    (match machines with
     | [] => raise (OtherError "IndexError" "list index out of range")
     | first :: _ =>
         template ← template_for first;
         match template with
         | None => raise (ValueError ("Template not found: " +:+ Machine.template_id first))
         | Some template =>
             template_config ← call (format_template_for_provider p template);
             coordinates ← load_machine_coordinates instance_ids;
             let operation :=
               mk_terminate instance_ids template_config (Machine.template_id first) provider_api
                 resource_id ((λ i, (i, (resource_id, 1))) <$> instance_ids) coordinates
                 (or_str (Machine.request_id first) EmptyString) request_id in
             _ ← call (get_provider_instance_config p provider_name);
             res ← call (execute_operation p provider_name operation);
             mret (group_outcome instance_ids res)
         end
     end)
    (λ e, mret (group_failed instance_ids e)).

(** ** All groups *)

(** What [asyncio.gather(..., return_exceptions=True)] yields for a task. *)
Inductive task_outcome :=
| Returned (r : group_result)
| RaisedException (e : exn)
| Cancelled.

Record deprovisioning := mk_deprovisioning {
  dp_success : bool;
  dp_partial : bool;
  dp_successful_operations : Z;
  dp_failed_operations : Z;
  dp_successful_instance_ids : list string;
  dp_failed_instance_ids : list string;
  dp_errors : list (option string)
}.

(** The counters and lists of the loop over the results. *)
Record tally := mk_tally {
  t_success : Z; t_error : Z; t_errors : list (option string);
  t_succeeded : list string; t_failed : list string
}.

Definition tally_one (t : tally) (ids : list string) (o : task_outcome) : tally :=
  match o with
  | Returned r =>
      if gr_success r then
        mk_tally (t_success t + 1) (t_error t) (t_errors t)
          (t_succeeded t ++ gr_successful_instance_ids r) (t_failed t)
      else
        let group_succeeded := gr_successful_instance_ids r in
        mk_tally (t_success t) (t_error t + 1) (t_errors t ++ [gr_error_message r])
          (t_succeeded t ++ group_succeeded)
          (t_failed t ++ gr_failed_instance_ids r ++ filter (λ i, i ∉ group_succeeded) ids)
  | RaisedException e =>
      mk_tally (t_success t) (t_error t + 1) (t_errors t ++ [Some (exn_str e)]) (t_succeeded t)
        (t_failed t ++ ids)
  | Cancelled =>
      mk_tally (t_success t) (t_error t + 1) (t_errors t ++ [Some "Unknown error"]) (t_succeeded t)
        (t_failed t ++ ids)
  end.

Definition tally_all (results : list (list string * task_outcome)) : tally :=
  foldl (λ t r, tally_one t r.1 r.2) (mk_tally 0 0 [] [] []) results.

Definition conclude_deprovisioning (t : tally) : deprovisioning :=
  let successful := dedup_by id (t_succeeded t) in
  mk_deprovisioning (t_error t =? 0) ((0 <? t_error t) && negb (Request.is_nil successful))
    (t_success t) (t_error t) successful
    (filter (λ i, i ∉ successful) (dedup_by id (t_failed t))) (t_errors t).

Fixpoint run_groups (groups : resource_groups) (request_id : string)
  : action (list (list string * task_outcome)) :=
  match groups with
  | [] => mret []
  | ((provider_name, provider_api, resource_id), machines) :: groups' =>
      r ← _process_resource_group provider_name provider_api resource_id machines request_id;
      rest ← run_groups groups' request_id;
      mret ((Machine.machine_id <$> machines, Returned r) :: rest)
  end.

Definition execute_deprovisioning (groups : resource_groups) (request_id : string)
  : action deprovisioning :=
  results ← run_groups groups request_id;
  mret (conclude_deprovisioning (tally_all results)).
End orchestrator.

(** ** Lemmas: identifiers *)

Lemma elem_of_dedup_ids (l : list string) i : i ∈ dedup_by id l ↔ i ∈ l.
Proof. pose proof (elem_of_dedup_by_keys (id : string → string) l i) as H. by rewrite !list_fmap_id in H. Qed.

Lemma NoDup_dedup_ids (l : list string) : NoDup (dedup_by id l).
Proof. pose proof (dedup_by_NoDup (id : string → string) l) as H. by rewrite list_fmap_id in H. Qed.

Lemma is_nil_true {A} (l : list A) : Request.is_nil l = true ↔ l = [].
Proof. by destruct l. Qed.

(** Splitting a list without repetitions by a test. *)
Lemma filter_split_perm {A} `{EqDecision A} (P : A → Prop) `{∀ x, Decision (P x)} (l : list A) :
  NoDup l → filter P l ++ filter (λ x, x ∉ filter P l) l ≡ₚ l.
Proof.
  intros Hnd. apply NoDup_Permutation; [|done|].
  - apply NoDup_app. split_and!; [by apply NoDup_filter| |by apply NoDup_filter].
    intros x Hx. rewrite list_elem_of_filter. tauto.
  - intros x. rewrite elem_of_app, !list_elem_of_filter. destruct (decide (P x)); tauto.
Qed.

Lemma filter_not_in_nil (l : list string) : filter (λ i, i ∉ []) l = l.
Proof.
  induction l as [|i l IH]; [done|]. rewrite filter_cons_True by apply not_elem_of_nil. by rewrite IH.
Qed.

Definition reconciled (requested : list string) (ok failed : option (list string)) (i : string) : Prop :=
  i ∈ requested ∧ i ∉ default [] failed ∧
  match ok with
  | Some ok => i ∈ ok
  | None => ∃ j, j ∈ default [] failed ∧ j ∈ requested
  end.

Lemma reconcile_elem requested ok failed i :
  i ∈ (_reconcile_ids requested ok failed).1 ↔ reconciled requested ok failed i.
Proof.
  unfold _reconcile_ids, reconciled. cbn [fst]. set (fr := filter _ (default [] failed)).
  assert (∀ j, j ∈ fr ↔ j ∈ requested ∧ j ∈ default [] failed) as Hfr
    by (intros j; unfold fr; by rewrite list_elem_of_filter).
  rewrite list_elem_of_filter, elem_of_dedup_ids, Hfr. destruct ok as [ok|].
  - rewrite list_elem_of_filter. tauto.
  - destruct (Request.is_nil fr) eqn:Hn.
    + apply is_nil_true in Hn. rewrite elem_of_nil. split; [tauto|].
      intros (_ & _ & j & Hj & Hr). exfalso. apply (not_elem_of_nil j). rewrite <-Hn, Hfr. done.
    + rewrite list_elem_of_filter, Hfr. split; [|tauto]. intros [[[Hnf _] _] Hr].
      destruct fr as [|j fr']; [done|].
      destruct (proj1 (Hfr j)) as [Hj1 Hj2]; [by left|]. split_and!; [done|tauto|by exists j].
Qed.

Lemma reconcile_perm requested ok failed :
  let '(s, f) := _reconcile_ids requested ok failed in s ++ f ≡ₚ dedup_by id requested.
Proof. cbn. apply filter_split_perm, NoDup_dedup_ids. Qed.

Lemma dedup_sublist (l : list string) : dedup_by id l `sublist_of` l.
Proof.
  unfold dedup_by. generalize (@nil string). induction l as [|x l IH]; intros seen; cbn; [done|].
  case_bool_decide; [by apply sublist_cons|by apply sublist_skip].
Qed.

Lemma reconcile_order requested ok failed :
  (_reconcile_ids requested ok failed).1 `sublist_of` requested ∧
  (_reconcile_ids requested ok failed).2 `sublist_of` requested.
Proof.
  unfold _reconcile_ids. cbn [fst snd].
  split; (etransitivity; [apply sublist_filter|apply dedup_sublist]).
Qed.

Lemma reconcile_failed requested ok failed i :
  i ∈ (_reconcile_ids requested ok failed).2 ↔
  i ∈ requested ∧ i ∉ (_reconcile_ids requested ok failed).1.
Proof. unfold _reconcile_ids. cbn [fst snd]. rewrite list_elem_of_filter, elem_of_dedup_ids. tauto. Qed.

(** ** Lemmas: one group *)

(** What the orchestrator takes from the answer to an operation. *)
Definition confirmed (instance_ids : list string) (res : ProviderResult) (i : string) : Prop :=
  i ∈ instance_ids ∧
  (pr_success res = true ∨
   ∃ j, j ∈ instance_ids ∧
     let data := reported_data (pr_metadata res) in
     let rec_ids := reconciled instance_ids (reported_ids (dget "successful_instance_ids" data))
                      (reported_ids (dget "failed_instance_ids" data)) in
     rec_ids i ∧ ¬ rec_ids j).

Lemma group_outcome_spec ids res :
  let r := group_outcome ids res in
  (gr_success r = pr_success res) ∧
  (∀ i, i ∈ gr_successful_instance_ids r ↔ confirmed ids res i) ∧
  (∀ i, i ∈ gr_failed_instance_ids r → i ∈ ids ∧ ¬ confirmed ids res i) ∧
  (pr_success res = false → ids ≠ [] → ∃ i, i ∈ ids ∧ ¬ confirmed ids res i).
Proof.
  unfold group_outcome, confirmed. destruct (pr_success res) eqn:Hs; cbn zeta.
  { cbn. split_and!; [done|intros i; tauto|intros i Hi; by apply elem_of_nil in Hi|done]. }
  set (data := reported_data (pr_metadata res)).
  set (ok := reported_ids _). set (bad := reported_ids _).
  pose proof (reconcile_elem ids ok bad) as Hok. pose proof (reconcile_failed ids ok bad) as Hbad.
  destruct (_reconcile_ids ids ok bad) as [s f]. cbn [fst snd] in *.
  assert (∀ i, (i ∈ ids ∧ (false = true ∨ ∃ j, j ∈ ids ∧ reconciled ids ok bad i ∧
            ¬ reconciled ids ok bad j)) ↔ i ∈ s ∧ ∃ j, j ∈ f) as Hc.
  { intros i. setoid_rewrite Hbad. rewrite Hok. setoid_rewrite Hok. split.
    - intros [_ [?|(j & Hj & Hi & Hn)]]; [done|]. split; [done|]. by exists j.
    - intros (Hi & j & Hj & Hn). split; [by destruct Hi|]. right. by exists j. }
  assert (∀ i, i ∈ f → i ∈ ids ∧ ¬ (i ∈ s ∧ ∃ j, j ∈ f)) as Hf.
  { intros i [Hi Hn]%Hbad. tauto. }
  assert (ids ≠ [] → ∃ i, i ∈ ids ∧ ¬ (i ∈ s ∧ ∃ j, j ∈ f)) as Hsome.
  { intros Hne. destruct f as [|j f'].
    - destruct ids as [|i ids']; [done|]. exists i. split; [by left|].
      by intros (_ & j & ?%elem_of_nil).
    - exists j. apply Hf. by left. }
  setoid_rewrite Hc. destruct s as [|s0 s], f as [|f0 f]; cbn; (split; [done|]);
    (split; [|done]); intros i; rewrite ?elem_of_nil; set_solver.
Qed.

(** The group's task always returns.  Either an exception was caught and every
    machine is reported failed, or the provider answered one operation for
    exactly these machines and the result is read off its answer. *)
Lemma process_group_spec {Template Config} (p : @ports Template Config) name api rid machines req w :
  ∃ r w', _process_resource_group p name api rid machines req w = (Ok r, w') ∧
    ((∃ e, r = group_failed (Machine.machine_id <$> machines) e) ∨
     ∃ op res, execute_operation p name op = Ok res ∧
       op_instance_ids op = Machine.machine_id <$> machines ∧ op_resource_id op = rid ∧
       op_provider_api op = api ∧ op_correlation_id op = req ∧
       r = group_outcome (Machine.machine_id <$> machines) res).
Proof.
  unfold _process_resource_group, try_except.
  destruct machines as [|first machines]; [by do 2 eexists; split; [|left; eexists]|].
  destruct ((template_for p first ≫= _) w) as [[r|e] w1] eqn:H;
    [|do 2 eexists; split; [done|left; by eexists]].
  exists r, w1. split; [done|]. right.
  apply action_bind_Ok in H as ([template|] & w2 & _ & H); [|done].
  apply action_bind_Ok in H as (config & w3 & _ & H).
  apply action_bind_Ok in H as (coordinates & w4 & _ & H).
  apply action_bind_Ok in H as (u & w5 & _ & H).
  apply action_bind_Ok in H as (res & w6 & [= He _] & [= <- _]).
  by do 2 eexists.
Qed.

(** What the run knows of a group: its machines, and whether the provider
    confirmed the termination of a machine. *)
Definition group_confirms {Template Config} (p : @ports Template Config) (req : string)
    (g : provider_key * list Machine.t) (r : group_result) (i : string) : Prop :=
  ∃ op res, execute_operation p g.1.1.1 op = Ok res ∧
    op_instance_ids op = Machine.machine_id <$> g.2 ∧ op_resource_id op = g.1.2 ∧
    op_provider_api op = g.1.1.2 ∧ op_correlation_id op = req ∧
    r = group_outcome (Machine.machine_id <$> g.2) res ∧
    confirmed (Machine.machine_id <$> g.2) res i.

Definition group_ids (groups : resource_groups) : list string :=
  concat (map (λ g : provider_key * list Machine.t, Machine.machine_id <$> g.2) groups).

(** A result is sound for its group: it names only machines of the group, a
    success names them all, and what it names was confirmed. *)
Definition sound_result {Template Config} (p : @ports Template Config) (req : string)
    (g : provider_key * list Machine.t) (t : list string * task_outcome) : Prop :=
  t.1 = Machine.machine_id <$> g.2 ∧
  ∃ r, t.2 = Returned r ∧
    (∀ i, i ∈ gr_successful_instance_ids r → i ∈ t.1 ∧ group_confirms p req g r i) ∧
    (∀ i, i ∈ gr_failed_instance_ids r → i ∈ t.1 ∧ i ∉ gr_successful_instance_ids r) ∧
    (gr_success r = true → gr_successful_instance_ids r = t.1) ∧
    (gr_success r = false → t.1 ≠ [] → ∃ i, i ∈ t.1 ∧ i ∉ gr_successful_instance_ids r).

Lemma run_groups_spec {Template Config} (p : @ports Template Config) groups req w :
  ∃ results w', run_groups p groups req w = (Ok results, w') ∧
    Forall2 (sound_result p req) groups results.
Proof.
  revert w. induction groups as [|[[[name api] rid] machines] groups IH]; intros w.
  { by exists [], w. }
  cbn [run_groups]. unfold mbind, action_bind.
  destruct (process_group_spec p name api rid machines req w) as (r & w1 & -> & Hr).
  destruct (IH w1) as (results & w2 & -> & Hres).
  exists ((Machine.machine_id <$> machines, Returned r) :: results), w2. split; [done|].
  constructor; [|done]. split; [done|]. exists r. split; [done|]. cbn [fst snd].
  destruct Hr as [[e ->]|(op & res & Hop & Hids & Hrid & Hapi & Hreq & ->)].
  - cbn. split_and!; [by intros i ?%elem_of_nil|intros i Hi; split; [done|apply not_elem_of_nil]|done|].
    intros _ Hne. destruct (Machine.machine_id <$> machines) as [|i ids]; [done|].
    exists i. split; [by left|apply not_elem_of_nil].
  - destruct (group_outcome_spec (Machine.machine_id <$> machines) res) as (Hs & Hok & Hbad & Hsome).
    split_and!.
    + intros i Hi%Hok. split; [by destruct Hi|]. by exists op, res.
    + intros i Hi. rewrite Hok. by apply Hbad.
    + rewrite Hs. intros Hs'. unfold group_outcome. by rewrite Hs'.
    + rewrite Hs. setoid_rewrite Hok. done.
Qed.

(** ** Lemmas: the tally *)

Definition succeeded_in (t : list string * task_outcome) : list string :=
  match t.2 with Returned r => gr_successful_instance_ids r | _ => [] end.

Definition failed_in (t : list string * task_outcome) : list string :=
  match t.2 with
  | Returned r => if gr_success r then []
                  else gr_failed_instance_ids r ++
                       filter (λ i, i ∉ gr_successful_instance_ids r) t.1
  | _ => t.1
  end.

Definition is_success (t : list string * task_outcome) : bool :=
  match t.2 with Returned r => gr_success r | _ => false end.

Lemma tally_fold results t0 :
  let t := foldl (λ t r, tally_one t r.1 r.2) t0 results in
  t_succeeded t = t_succeeded t0 ++ concat (succeeded_in <$> results) ∧
  t_failed t = t_failed t0 ++ concat (failed_in <$> results) ∧
  t_error t = t_error t0 + Z.of_nat (length (List.filter (λ r, negb (is_success r)) results)).
Proof.
  revert t0. induction results as [|[ids o] results IH]; intros t0; cbn [foldl].
  { cbn. rewrite !app_nil_r. split_and!; [done|done|lia]. }
  cbn zeta in *. destruct (IH (tally_one t0 ids o)) as (Hs & Hf & He). cbn [fst snd]. rewrite Hs, Hf, He.
  clear. cbn [List.filter]. generalize (List.filter (λ r, negb (is_success r)) results) as bad.
  intros bad. unfold tally_one, succeeded_in, failed_in, is_success. cbn [fst snd fmap list_fmap concat].
  destruct o as [r| |]; [destruct (gr_success r)|..]; cbn;
    rewrite ?app_nil_r, <-?app_assoc; split_and!; try done; cbn; lia.
Qed.

(** A group's machines are the ones it names on either side. *)
Lemma sound_result_covers {Template Config} (p : @ports Template Config) req g t i :
  sound_result p req g t → i ∈ Machine.machine_id <$> g.2 ↔ i ∈ succeeded_in t ∨ i ∈ failed_in t.
Proof.
  destruct t as [ids o]. intros [Hids (r & Ho & Hok & Hbad & Hall & _)]. cbn [fst snd] in *.
  subst ids o. unfold succeeded_in, failed_in. cbn [fst snd]. destruct (gr_success r).
  - rewrite Hall by done. rewrite elem_of_nil. tauto.
  - rewrite elem_of_app, list_elem_of_filter. split.
    + intros Hi. destruct (decide (i ∈ gr_successful_instance_ids r)); tauto.
    + intros [Hi|[Hi|[_ Hi]]]; [by apply Hok|by apply Hbad|done].
Qed.

Lemma results_cover {Template Config} (p : @ports Template Config) req groups results i :
  Forall2 (sound_result p req) groups results →
  i ∈ group_ids groups ↔
  i ∈ concat (succeeded_in <$> results) ∨ i ∈ concat (failed_in <$> results).
Proof.
  induction 1 as [|g t groups results Hgt _ IH]; unfold group_ids in *; cbn [fmap list_fmap map concat].
  { rewrite elem_of_nil. tauto. }
  rewrite !elem_of_app, IH, (sound_result_covers p req g t) by done. tauto.
Qed.

Lemma results_confirmed {Template Config} (p : @ports Template Config) req groups results i :
  Forall2 (sound_result p req) groups results → i ∈ concat (succeeded_in <$> results) →
  ∃ g r, g ∈ groups ∧ (Machine.machine_id <$> g.2, Returned r) ∈ results ∧
    i ∈ Machine.machine_id <$> g.2 ∧ group_confirms p req g r i.
Proof.
  induction 1 as [|g t groups results Hgt _ IH]; cbn [fmap list_fmap concat].
  { by intros ?%elem_of_nil. }
  intros [Hi|Hi]%elem_of_app.
  - destruct t as [ids o], Hgt as [Hids (r & Ho & Hok & _)]. cbn [fst snd] in *. subst ids o.
    exists g, r. split; [by left|]. split; [by left|]. by apply Hok.
  - destruct (IH Hi) as (g' & r & Hg' & Hr & H). exists g', r. split; [by right|]. split; [by right|done].
Qed.

Lemma no_errors_no_failures results :
  length (List.filter (λ r, negb (is_success r)) results) = 0%nat →
  concat (failed_in <$> results) = [].
Proof.
  induction results as [|[ids o] results IH]; [done|]. cbn [List.filter].
  unfold is_success at 1, failed_in at 1. cbn [fst snd fmap list_fmap concat].
  by destruct o as [r| |]; [destruct (gr_success r)|..].
Qed.

(** A group that does not succeed has a machine nobody confirmed. *)
Lemma failure_unconfirmed {Template Config} (p : @ports Template Config) req groups results :
  Forall2 (sound_result p req) groups results → NoDup (group_ids groups) →
  Forall (λ g, g.2 ≠ []) groups →
  length (List.filter (λ r, negb (is_success r)) results) ≠ 0%nat →
  ∃ i, i ∈ concat (failed_in <$> results) ∧ i ∉ concat (succeeded_in <$> results).
Proof.
  induction 1 as [|g t groups results Hgt Hrest IH]; [done|]. unfold group_ids.
  cbn [map concat]. fold (group_ids groups).
  intros (Hnd & Hdisj & Hnd')%NoDup_app [Hne Hnes]%Forall_cons.
  cbn [List.filter fmap list_fmap concat]. setoid_rewrite elem_of_app.
  assert (∀ i, i ∈ succeeded_in t → i ∈ Machine.machine_id <$> g.2) as Hsub.
  { intros i Hi. apply (sound_result_covers p req g t); auto. }
  assert (∀ i, i ∈ concat (succeeded_in <$> results) → i ∈ group_ids groups) as Hsubs.
  { intros i Hi. apply (results_cover p req groups results); auto. }
  destruct (is_success t) eqn:Hs; cbn [negb].
  - intros Hlen. destruct (IH Hnd' Hnes Hlen) as (i & Hi & Hn). exists i. split; [by right|].
    intros [Hi'|Hi']; [|done]. apply (Hdisj i); [by apply Hsub|].
    apply (results_cover p req groups results); auto.
  - intros _. destruct t as [ids o], Hgt as [Hids (r & Ho & _ & _ & _ & Hsome)]. cbn [fst snd] in *.
    subst ids o. unfold is_success in Hs. cbn in Hs.
    destruct Hsome as (i & Hi & Hn); [done|by destruct (g.2)|].
    exists i. unfold failed_in, succeeded_in at 1. cbn [fst snd]. rewrite Hs. split.
    + left. apply elem_of_app. right. by apply list_elem_of_filter.
    + intros [Hi'|Hi']; [done|]. apply (Hdisj i Hi). by apply Hsubs.
Qed.

(** Every machine of the groups is counted once, on one side. *)
Lemma conclude_spec {Template Config} (p : @ports Template Config) req groups results :
  Forall2 (sound_result p req) groups results →
  let res := conclude_deprovisioning (tally_all results) in
  (∀ i, i ∈ dp_successful_instance_ids res →
     ∃ g r, g ∈ groups ∧ (Machine.machine_id <$> g.2, Returned r) ∈ results ∧
       i ∈ Machine.machine_id <$> g.2 ∧ group_confirms p req g r i) ∧
  dp_successful_instance_ids res ++ dp_failed_instance_ids res ≡ₚ dedup_by id (group_ids groups) ∧
  (dp_success res = true → dp_failed_instance_ids res = []) ∧
  dp_partial res = negb (dp_success res) && negb (Request.is_nil (dp_successful_instance_ids res)) ∧
  (NoDup (group_ids groups) → Forall (λ g, g.2 ≠ []) groups →
   dp_success res = false → dp_failed_instance_ids res ≠ []).
Proof.
  intros Hres. unfold tally_all. pose proof (tally_fold results (mk_tally 0 0 [] [] [])) as Ht.
  cbn zeta in *. destruct Ht as (Hs & Hf & He).
  unfold conclude_deprovisioning. cbn [dp_successful_instance_ids dp_failed_instance_ids dp_success
    dp_partial]. rewrite Hs, Hf, He. cbn [t_succeeded t_failed t_error app]. split_and!.
  - intros i. rewrite elem_of_dedup_ids. by apply results_confirmed.
  - apply NoDup_Permutation.
    + apply NoDup_app. split_and!; [apply NoDup_dedup_ids| |apply NoDup_filter, NoDup_dedup_ids].
      intros i Hi. rewrite list_elem_of_filter. tauto.
    + apply NoDup_dedup_ids.
    + intros i. rewrite elem_of_app, list_elem_of_filter, !elem_of_dedup_ids,
        (results_cover p req groups results) by done.
      destruct (decide (i ∈ concat (succeeded_in <$> results))); tauto.
  - intros Hz%Z.eqb_eq. rewrite no_errors_no_failures by lia. done.
  - f_equal. destruct (length _); [done|]. cbn. destruct (Z.eqb_spec (0 + Z.of_nat (S n)) 0); [lia|].
    destruct (Z.ltb_spec 0 (0 + Z.of_nat (S n))); [done|lia].
  - intros Hnd Hne Hz%Z.eqb_neq. destruct (failure_unconfirmed p req groups results) as (i & Hi & Hn);
      [done..|lia|].
    intros Hnil. apply (not_elem_of_nil i). rewrite <-Hnil, list_elem_of_filter, !elem_of_dedup_ids.
    done.
Qed.

(** ** Lemmas: grouping *)

Definition well_grouped (port : option selection_port) (k : provider_key) (ms : list Machine.t) : Prop :=
  ms ≠ [] ∧ Forall (λ m, resource_key port m = Some k) ms.

Lemma group_ids_concat (groups : resource_groups) :
  group_ids groups = Machine.machine_id <$> concat groups.*2.
Proof.
  unfold group_ids. induction groups as [|[k ms] groups IH]; [done|]. cbn [map concat fmap list_fmap snd].
  rewrite fmap_app. cbn in IH. by rewrite <-IH.
Qed.

Lemma group_ids_append k m groups :
  group_ids (append_to k m groups) ≡ₚ Machine.machine_id m :: group_ids groups.
Proof. rewrite !group_ids_concat, append_to_perm. done. Qed.

Lemma set_same_db w : w <| w_db := w_db w |> = w.
Proof. by destruct w. Qed.

(** A read that leaves the store as it found it. *)
Lemma read_ok {A} (f : db → result A) w a w' :
  world_ok w → unit_of_work (λ d, x ← f d; Ok (x, d)) w = (Ok a, w') →
  world_ok w' ∧ f (w_db w') = Ok a.
Proof.
  intros Hok H. apply unit_of_work_Ok in H as (d' & Hb & ->).
  apply result_bind_Ok in Hb as (x & Hx & [= <- <-]).
  change (encounter w).2 with (w_db (after_encounters 1 w)). rewrite set_same_db.
  split; [by apply after_encounters_ok|done].
Qed.

Lemma resource_loop_spec port ids groups skipped w groups' skipped' w' :
  world_ok w → resource_loop port ids groups skipped w = (Ok (groups', skipped'), w') →
  NoDup groups.*1 → Forall (λ g, well_grouped port g.1 g.2) groups →
  NoDup groups'.*1 ∧ Forall (λ g, well_grouped port g.1 g.2) groups' ∧
  group_ids groups' ++ skipped' ≡ₚ group_ids groups ++ skipped ++ ids ∧ world_ok w'.
Proof.
  revert groups skipped w. induction ids as [|i ids IH]; intros groups skipped w Hok H Hnd Hwf.
  { injection H as <- <- <-. rewrite app_nil_r. done. }
  cbn [resource_loop] in H. apply action_bind_Ok in H as (m & w1 & Hm & H).
  unfold try_except in Hm.
  destruct (unit_of_work _ w) as [[m'|e] w1'] eqn:Hu in Hm; [injection Hm as -> ->|done].
  apply unit_of_work_Ok in Hu as (d' & Hb & Hw1).
  destruct (get_machine _ i) as [m0|] eqn:Hg in Hb; [injection Hb as -> Hd'|done].
  pose proof (after_encounters_ok 1 w Hok) as Hok1.
  assert (world_ok w1) as Hokw1.
  { rewrite Hw1, <-Hd'. change (encounter w).2 with (w_db (after_encounters 1 w)).
    by rewrite set_same_db. }
  assert (Machine.machine_id m = i) as Hid by (by apply (proj2 (proj1 Hok1))).
  destruct (resource_key port m) as [k|] eqn:Hk.
  - apply IH in H as (Hnd' & Hwf' & Hp & Hok'); [|done|by apply append_to_NoDup|].
    + split_and!; [done|done| |done]. rewrite Hp, group_ids_append, Hid. solve_Permutation.
    + apply append_to_Forall; [|by split; [|apply Forall_singleton]|done].
      intros l [Hl Hf]. split; [by destruct l|]. apply Forall_app. split; [done|by apply Forall_singleton].
  - apply IH in H as (Hnd' & Hwf' & Hp & Hok'); [|done..].
    split_and!; [done|done| |done]. rewrite Hp. solve_Permutation.
Qed.

Lemma provider_groups_spec d ids groups groups' :
  let key m := (Machine.provider_type m, Machine.provider_name m, Machine.provider_api m) in
  let sound k (l : list string) :=
    l ≠ [] ∧ Forall (λ i, ∃ m, get_machine d i = Some m ∧ key m = k) l in
  provider_groups d ids groups = Ok groups' →
  NoDup groups.*1 → Forall (λ g, sound g.1 g.2) groups →
  NoDup groups'.*1 ∧ Forall (λ g, sound g.1 g.2) groups' ∧
  concat groups'.*2 ≡ₚ concat groups.*2 ++ ids.
Proof.
  intros key sound. revert groups. induction ids as [|i ids IH]; intros groups H Hnd Hs; cbn in H.
  { injection H as <-. by rewrite app_nil_r. }
  destruct (get_machine d i) as [m|] eqn:Hg; [|done]. case_bool_decide; [done|].
  apply IH in H as (Hnd' & Hs' & Hp); [|by apply append_to_NoDup|].
  - split_and!; [done|done|]. rewrite Hp, append_to_perm. solve_Permutation.
  - apply append_to_Forall; [|by split; [|apply Forall_singleton; eauto]|done].
    intros l [Hl Hf]. split; [by destruct l|]. apply Forall_app. split; [done|].
    apply Forall_singleton. eauto.
Qed.

(** ** Theorems *)

(** What a provider reports is reconciled into a partition.  The succeeded and
    the failed identifiers together are the requested ones, each once; a machine
    counts as succeeded only if it was requested, is not reported failed and is
    reported succeeded, or, where the provider reports failures only, some
    requested machine is among them.  Identifiers the provider made up or leaves out
    of what it reports never count as succeeded.  Both lists keep the order of the
    request. *)
Theorem reconcile_partition requested ok failed :
  let '(s, f) := _reconcile_ids requested ok failed in
  s ++ f ≡ₚ dedup_by id requested ∧ NoDup (s ++ f) ∧
  s `sublist_of` requested ∧ f `sublist_of` requested ∧
  ∀ i, i ∈ s ↔ i ∈ requested ∧ i ∉ default [] failed ∧
               match ok with
               | Some ok => i ∈ ok
               | None => ∃ j, j ∈ default [] failed ∧ j ∈ requested
               end.
Proof.
  pose proof (reconcile_perm requested ok failed) as Hp.
  pose proof (reconcile_elem requested ok failed) as He.
  pose proof (reconcile_order requested ok failed) as [Hs Hf].
  destruct (_reconcile_ids requested ok failed) as [s f]. split_and!; try done.
  rewrite Hp. apply NoDup_dedup_ids.
Qed.

(** C13: Every machine of a return request is accounted for exactly once.  When the
    machines have been grouped by resource and the groups terminated, whatever
    the provider answers or raises for each group and whatever other writers do
    meanwhile, the machines counted as terminated, the failed and the skipped
    ones together are the machines asked for.  A machine is counted as terminated
    only if it is in one of the groups, all of whose machines have the group's
    provider, API and resource, and the result of that group's task was read off the
    provider's answer to an operation made for this return that names exactly the
    machines of the group and its resource, and that answer confirms the machine.  The
    whole is a success only if none failed. *)
Theorem deprovisioning_accounts {Template Config} (p : @ports Template Config) port ids req w
    res skipped w' :
  world_ok w → NoDup ids →
  ('(groups, skipped) ← group_by_resource port ids;
   res ← execute_deprovisioning p groups req;
   mret (res, skipped)) w = (Ok (res, skipped), w') →
  dp_successful_instance_ids res ++ dp_failed_instance_ids res ++ skipped ≡ₚ ids ∧
  (dp_success res = true → dp_failed_instance_ids res = []) ∧
  ∃ groups w1 results,
    group_by_resource port ids w = (Ok (groups, skipped), w1) ∧
    run_groups p groups req w1 = (Ok results, w') ∧
    ∀ i, i ∈ dp_successful_instance_ids res →
      ∃ name api resource machines op answer,
        let members := Machine.machine_id <$> machines in
        ((name, api, resource), machines) ∈ groups ∧ i ∈ members ∧
        Forall (λ m, resource_key port m = Some (name, api, resource)) machines ∧
        op_instance_ids op = members ∧ op_resource_id op = resource ∧
        op_provider_api op = api ∧ op_correlation_id op = req ∧
        execute_operation p name op = Ok answer ∧
        (members, Returned (group_outcome members answer)) ∈ results ∧
        confirmed members answer i.
Proof.
  intros Hok Hnd H. apply action_bind_Ok in H as ([groups skipped0] & w1 & Hg & H).
  apply action_bind_Ok in H as (res0 & w2 & Hx & [= -> -> ->]).
  pose proof Hg as (_ & Hwf & Hp & _)%resource_loop_spec; [|done|by constructor|done].
  cbn [group_ids map concat app] in Hp.
  unfold execute_deprovisioning in Hx. apply action_bind_Ok in Hx as (results & w3 & Hr & [= <- <-]).
  destruct (run_groups_spec p groups req w1) as (results' & w4 & Hr' & Hs).
  rewrite Hr in Hr'. injection Hr' as <- <-.
  apply conclude_spec in Hs as (Hconf & Hperm & Hfail & _). split_and!; [|done|].
  - rewrite app_assoc, Hperm.
    assert (NoDup (group_ids groups ++ skipped)) as [Hnd' _]%NoDup_app by (by rewrite Hp).
    rewrite <-Hp. f_equiv. apply NoDup_Permutation; [apply NoDup_dedup_ids|done|].
    intros i. apply elem_of_dedup_ids.
  - exists groups, w1, results. split_and!; [done|done|]. intros i Hi.
    destruct (Hconf i Hi) as ([[[name api] resource] machines] & r & Hin & Hres & Hi' & op & answer &
      He & Hids & Hrid & Hapi & Hreq & -> & Hc). cbn [fst snd] in *.
    exists name, api, resource, machines, op, answer. split_and!; try done.
    rewrite Forall_forall in Hwf. by destruct (Hwf _ Hin).
Qed.

(** Machines are split between return requests by provider and API, each machine
    in one group, every group of one provider and one API. *)
Theorem provider_grouping_partition ids w groups w' :
  world_ok w → group_by_provider ids w = (Ok groups, w') →
  NoDup groups.*1 ∧ concat groups.*2 ≡ₚ ids ∧
  Forall (λ g, g.2 ≠ [] ∧ Forall (λ i, ∃ m, get_machine (w_db w') i = Some m ∧
    (Machine.provider_type m, Machine.provider_name m, Machine.provider_api m) = g.1) g.2) groups.
Proof.
  intros Hok H. apply read_ok in H as [_ H]; [|done].
  apply provider_groups_spec in H as (Hnd & Hs & Hp); [done|constructor|done].
Qed.

(** A group the provider reports wholly terminated, in an answer that is not
    flagged as a success, is counted wholly failed: the reconciled identifiers
    are dropped unless some machine of the group failed. *)
Theorem all_confirmed_counts_failed ids res :
  pr_success res = false →
  (∀ i, i ∈ ids → reconciled ids
     (reported_ids (dget "successful_instance_ids" (reported_data (pr_metadata res))))
     (reported_ids (dget "failed_instance_ids" (reported_data (pr_metadata res)))) i) →
  let t := tally_all [(ids, Returned (group_outcome ids res))] in
  dp_successful_instance_ids (conclude_deprovisioning t) = [] ∧
  dp_failed_instance_ids (conclude_deprovisioning t) = dedup_by id ids.
Proof.
  intros Hs Hall. unfold group_outcome. rewrite Hs.
  set (ok := reported_ids (dget "successful_instance_ids" _)) in *.
  set (bad := reported_ids (dget "failed_instance_ids" _)) in *.
  pose proof (reconcile_elem ids ok bad) as Hok. pose proof (reconcile_failed ids ok bad) as Hbad.
  destruct (_reconcile_ids ids ok bad) as [s f]. cbn [fst snd] in *.
  assert (f = []) as ->.
  { destruct f as [|i f]; [done|]. destruct (proj1 (Hbad i)) as [Hi Hn]; [by left|].
    destruct Hn. by apply Hok, Hall. }
  rewrite andb_false_r. unfold tally_all, conclude_deprovisioning. cbn.
  by rewrite !filter_not_in_nil.
Qed.

(** ** Witnesses *)

Definition demo_machine (i : string) (resource : option string) : Machine.t :=
  sample_machine [] <| Machine.machine_id := i |> <| Machine.resource_id := resource |>
    <| Machine.status := MachineStatus.RUNNING |> <| Machine.request_id := None |>.

(** Two machines of a fleet and one without a resource. *)
Definition demo_machines : db :=
  mk_db ∅ (list_to_map ((λ m, (Machine.machine_id m, m)) <$>
    [demo_machine "i-1" (Some "fleet-1"); demo_machine "i-2" (Some "fleet-1");
     demo_machine "i-3" None])).

Definition failing_answer (ok failed : list string) : ProviderResult :=
  error_result "throttled" "Throttling"
    [("provider_data", JDict [("successful_instance_ids", JList (JStr <$> ok));
                              ("failed_instance_ids", JList (JStr <$> failed))])].

Definition demo_ports (answer : ProviderResult) : @ports unit unit :=
  mk_ports (λ _, None) (λ _, Ok (Some ())) (λ _, Ok ()) (λ _, Ok ()) (λ _ _, Ok answer).

Lemma demo_machines_ok : world_ok (mk_world demo_machines [] []).
Proof.
  split; [|done]. split; [done|]. intros j m. unfold get_machine. cbn [w_db demo_machines db_machines].
  intros H%elem_of_list_to_map_2. set_solver.
Qed.

Lemma deprovisioning_accounts_witness :
  let run := ('(groups, skipped) ← group_by_resource None ["i-1"; "i-2"; "i-3"];
              res ← execute_deprovisioning (demo_ports (failing_answer ["i-1"] ["i-2"])) groups "ret-1";
              mret (res, skipped)) (mk_world demo_machines [] []) in
  ∃ res w', run = (Ok (res, ["i-3"]), w') ∧
    dp_successful_instance_ids res = ["i-1"] ∧
    dp_successful_instance_ids res ++ dp_failed_instance_ids res ++ ["i-3"] ≡ₚ ["i-1"; "i-2"; "i-3"].
Proof.
  intros run. do 2 eexists. split; [vm_compute; reflexivity|]. split; [reflexivity|].
  destruct (deprovisioning_accounts (demo_ports (failing_answer ["i-1"] ["i-2"])) None
    ["i-1"; "i-2"; "i-3"] "ret-1" (mk_world demo_machines [] [])
    (match run.1 with Ok x => x.1 | Err _ => conclude_deprovisioning (tally_all []) end)
    ["i-3"] run.2) as [Hp _];
    [exact demo_machines_ok|by apply (bool_decide_unpack _)|vm_compute; reflexivity|exact Hp].
Defined.

Lemma provider_grouping_partition_witness :
  ∃ groups w', group_by_provider ["i-1"; "i-2"] (mk_world demo_machines [] []) = (Ok groups, w') ∧
               concat groups.*2 ≡ₚ ["i-1"; "i-2"].
Proof.
  do 2 eexists. split; [vm_compute; reflexivity|].
  refine (proj1 (proj2 (provider_grouping_partition ["i-1"; "i-2"] (mk_world demo_machines [] []) _
    (group_by_provider ["i-1"; "i-2"] (mk_world demo_machines [] [])).2 demo_machines_ok _))).
  vm_compute. reflexivity.
Defined.

Lemma all_confirmed_counts_failed_witness :
  let res := failing_answer ["i-1"; "i-2"] [] in
  let t := tally_all [(["i-1"; "i-2"], Returned (group_outcome ["i-1"; "i-2"] res))] in
  dp_failed_instance_ids (conclude_deprovisioning t) = ["i-1"; "i-2"].
Proof.
  intros res t.
  refine (proj2 (all_confirmed_counts_failed ["i-1"; "i-2"] res eq_refl _)).
  intros i Hi. split; [done|]. split; [apply not_elem_of_nil|exact Hi].
Defined.
