(* ===== verification/ReturnMachines.v ===== *)
(** * Returning machines

    [CreateReturnRequestHandler] of
    [orb/application/commands/request_creation_handlers.py]: the machines to return
    are validated and split by provider, each group becomes a return request that
    claims its machines, the machines are deprovisioned ([Deprovisioning]) and the
    outcome is recorded on the machines and, through the command bus, on the
    request ([Lifecycle]).

    The handler builds its grouping service without a provider selection port, so
    that port is [None] here.  The prefix of return identifiers is configured, the
    random parts of the identifiers are arguments, and the clock is read through
    one function. *)

From stdpp Require Import base gmap strings list.
From Stdlib Require Import ZArith Lia.
From S2P Require Import Prelude RequestTypes Diagnostic RequestAggregate FulfilmentSM.
From S2P Require Import MachineAggregate StatusService ProviderStrategy Lifecycle Deprovisioning.
Open Scope Z_scope.

(** ** Messages *)

Definition _MAX_IDS_IN_MESSAGE : nat := 10.

Definition _format_id_list (ids : list string) (cap : nat) : string :=
  let unique := dedup_by id ids in
  if (length unique <=? cap)%nat then str_join ", " unique
  else str_join ", " (take cap unique) +:+ ", +" +:+
       fmt (Z.of_nat (length unique - cap)) +:+ " more".

Definition id_list (ids : list string) : string := _format_id_list ids _MAX_IDS_IN_MESSAGE.
Definition count_of {A} (l : list A) : string := fmt (Z.of_nat (length l)).

(** ** Accepting machines *)

Definition already_pending (machine : Machine.t) : string :=
  "already has pending return request: " +:+ default EmptyString (Machine.return_request_id machine).

Definition validate_command (machine_ids : list string) (force_return : bool) : action unit :=
  match machine_ids with
  | [] => raise (ValueError "machine_ids is required and cannot be empty")
  | [machine_id] =>
      unit_of_work (λ d,
        match get_machine d machine_id with
        | None => Err (EntityNotFoundError "Machine" machine_id)
        | Some machine =>
            if str_truthy (Machine.return_request_id machine) && negb force_return
            then Err (RequestValidationError ("Machine " +:+ machine_id +:+ " " +:+ already_pending machine))
            else Ok ((), d)
        end)
  | _ => mret ()
  end.

(** The reason a machine is left out of a return of several, if any. *)
Definition skip_reason (d : db) (force_return : bool) (machine_id : string) : option string :=
  match get_machine d machine_id with
  | None => Some "Machine not found"
  | Some machine =>
      if str_truthy (Machine.return_request_id machine) && negb force_return
      then Some ("Machine " +:+ already_pending machine) else None
  end.

Fixpoint filter_loop (d : db) (force_return : bool) (machine_ids : list string)
  : list string * list (string * string) :=
  match machine_ids with
  | [] => ([], [])
  | machine_id :: rest =>
      let '(valid, skipped) := filter_loop d force_return rest in
      match skip_reason d force_return machine_id with
      | Some reason => (valid, (machine_id, reason) :: skipped)
      | None => (machine_id :: valid, skipped)
      end
  end.

Definition _filter_machines (machine_ids : list string) (force_return : bool)
  : action (list string * list (string * string)) :=
  unit_of_work (λ d, Ok (filter_loop d force_return machine_ids, d)).

(** ** Claiming machines *)

(** [machine.model_copy(update={"return_request_id": holder})], saved. *)
Definition set_holder (holder : option string) (machine : Machine.t) (d : db) : db :=
  save_machine (Some (Machine.version machine)) (machine <| Machine.return_request_id := holder |>) d.

(** The cancellation of a request that still holds a machine; a refusal is
    logged and ignored. *)
Definition cancel_stuck (now : datetime) (stuck_request : Request.t) (d : db) : db :=
  match Request.cancel stuck_request "Superseded by new return request" now with
  | Ok cancelled => save_request (Some (Request.version stuck_request)) cancelled d
  | Err _ => d
  end.

Definition release_for_force (now : datetime) (force_return : bool) (d : db) (machine_id : string)
  : result db :=
  match get_machine d machine_id with
  | None => Ok d
  | Some machine =>
      if str_truthy (Machine.return_request_id machine) && force_return then
        stuck ← find_request d (default EmptyString (Machine.return_request_id machine));
        let d := match stuck with Some r => cancel_stuck now r d | None => d end in
        Ok (set_holder None machine d)
      else Ok d
  end.

Fixpoint release_all (now : datetime) (force_return : bool) (machine_ids : list string) (d : db)
  : result db :=
  match machine_ids with
  | [] => Ok d
  | machine_id :: rest =>
      d' ← release_for_force now force_return d machine_id; release_all now force_return rest d'
  end.

Definition claim_one (request_id : string) (d : db) (machine_id : string) : db :=
  match get_machine d machine_id with
  | Some machine => set_holder (Some request_id) machine d
  | None => d
  end.

Definition _cancel_validate_and_persist (now : datetime) (machine_ids : list string)
    (request : Request.t) (force_return : bool) : action unit :=
  events ← unit_of_work (λ d,
    d ← release_all now force_return machine_ids d;
    let d := save_request None request d in
    Ok (Request.domain_events request,
        foldl (claim_one (Request.request_id request)) d machine_ids));
  publish events.

(** ** Recording the outcome on the machines *)

Fixpoint shut_down_all (now : datetime) (machine_ids : list string) (d : db) : result db :=
  match machine_ids with
  | [] => Ok d
  | machine_id :: rest =>
      match get_machine d machine_id with
      | None => shut_down_all now rest d
      | Some machine =>
          updated ← Machine.update_status machine MachineStatus.SHUTTING_DOWN
                      (Some "Termination in progress") now;
          shut_down_all now rest (save_machine (Some (Machine.version machine)) updated d)
      end
  end.

Definition _update_machines_to_pending (now : datetime) (machine_ids : list string) : action unit :=
  unit_of_work (λ d, d' ← shut_down_all now machine_ids d; Ok ((), d')).

(** [getattr(machine, "return_request_id", None) in (None, request_id)]. *)
Definition held_by (request_id : string) (machine : Machine.t) : bool :=
  match Machine.return_request_id machine with None => true | Some h => h ≟ request_id end.

Definition clear_one (request_id : string) (d : db) (machine_id : string) : db :=
  match get_machine d machine_id with
  | Some machine => if held_by request_id machine then set_holder None machine d else d
  | None => d
  end.

Definition _clear_return_request_id (machine_ids : list string) (request_id : string) : action unit :=
  unit_of_work (λ d, Ok ((), foldl (clear_one request_id) d machine_ids)).

Definition _release_machines_after_failure (machine_ids : list string) (request_id : string)
  : action unit :=
  try_except (_clear_return_request_id machine_ids request_id) (λ _, mret ()).

(** ** Recording the outcome on the request *)

Section handler.
Context {Template Config : Type} (p : @ports Template Config).
Context (sm : FulfilmentStateMachine.t) (max_retries : Z) (clock : nat → datetime).

(** [command_bus.execute(UpdateRequestStatusCommand(...))]. *)
Definition bus_update (request_id : string) (status : RequestStatus.t) (message : string) : action unit :=
  update_status_command sm max_retries clock request_id status (Some message).

Definition force_failed (request_id : string) (d : db) : result (unit * db) :=
  match get_request d request_id with
  | None => Ok ((), d)
  | Some stuck_request =>
      failed ← Request.update_status stuck_request RequestStatus.FAILED
                 (Some "System error: failed to update status after double failure") true (clock 0%nat);
      Ok ((), save_request (Some (Request.version stuck_request)) failed d)
  end.

Definition _update_request_status (request_id : string) (status : RequestStatus.t) (message : string)
  : action unit :=
  try_except (bus_update request_id status message) (λ update_error,
    if status ≟ RequestStatus.FAILED then
      try_except (unit_of_work (force_failed request_id)) (λ final_error,
        raise (OtherError "ApplicationError"
          ("Return request " +:+ request_id +:+ " failed and its failed status could not be recorded: "
           +:+ exn_str final_error)))
    else raise update_error).

Definition _update_request_to_in_progress (request_id : string) : action unit :=
  try_except (bus_update request_id RequestStatus.IN_PROGRESS "Return request processing started")
    (λ _, mret ()).

Definition failed_message (failed_ids : list string) : string :=
  let unique_ids := dedup_by id failed_ids in
  if Request.is_nil unique_ids then "Return request failed: deprovisioning error"
  else "Return request failed: " +:+ count_of unique_ids +:+
       " machine(s) could not be terminated [" +:+ id_list unique_ids +:+ "]".

Definition _update_request_to_failed (request_id : string) (failed_ids : list string) : action unit :=
  _update_request_status request_id RequestStatus.FAILED (failed_message failed_ids).

Definition _update_request_to_terminating (request_id : string) : action unit :=
  _update_request_status request_id RequestStatus.IN_PROGRESS
    "Termination accepted: waiting for instances to reach terminated state".

Definition skipped_message (skipped_ids : list string) : string :=
  "Return request partially completed: termination initiated, but " +:+ count_of skipped_ids +:+
  " machine(s) were skipped (missing provider context): " +:+ id_list skipped_ids.

Definition partial_message (successful_ids failed_ids skipped_ids : list string) : string :=
  "Return request partially completed: " +:+ count_of successful_ids +:+ " terminated [" +:+
  (if Request.is_nil successful_ids then "none" else id_list successful_ids) +:+ "]" +:+
  (if Request.is_nil failed_ids
   then ", termination errors occurred (no failed instance IDs reported)"
   else ", " +:+ count_of failed_ids +:+ " failed [" +:+ id_list failed_ids +:+ "]") +:+
  (if Request.is_nil skipped_ids then EmptyString
   else ", " +:+ count_of skipped_ids +:+ " skipped [" +:+ id_list skipped_ids +:+ "]").

Definition unless_empty (ids : list string) (m : action unit) : action unit :=
  if Request.is_nil ids then mret () else m.

(** The branches on the result of the orchestrator. *)
Definition record_outcome (machine_ids : list string) (request_id : string)
    (skipped_ids : list string) (res : deprovisioning) : action unit :=
  let successful_ids := dp_successful_instance_ids res in
  let failed_ids := dp_failed_instance_ids res in
  if dp_success res then
    _ ← _update_machines_to_pending (clock 0%nat) machine_ids;
    if negb (Request.is_nil skipped_ids)
    then bus_update request_id RequestStatus.PARTIAL (skipped_message skipped_ids)
    else _update_request_to_terminating request_id
  else if dp_partial res then
    _ ← unless_empty successful_ids (_update_machines_to_pending (clock 0%nat) successful_ids);
    let unterminated_ids := dedup_by id (failed_ids ++ skipped_ids) in
    _ ← unless_empty unterminated_ids (_clear_return_request_id unterminated_ids request_id);
    bus_update request_id RequestStatus.PARTIAL (partial_message successful_ids failed_ids skipped_ids)
  else
    let failed := if Request.is_nil failed_ids then machine_ids else failed_ids in
    _ ← _release_machines_after_failure failed request_id;
    _update_request_to_failed request_id failed.

Definition _execute_deprovisioning_for_request (machine_ids : list string) (request_id : string)
  : action unit :=
  try_except
    (_ ← _update_request_to_in_progress request_id;
     '(groups, skipped_ids) ← group_by_resource None machine_ids;
     res ← execute_deprovisioning p groups request_id;
     record_outcome machine_ids request_id skipped_ids res)
    (λ _,
      _ ← _release_machines_after_failure machine_ids request_id;
      _update_request_to_failed request_id machine_ids).

(** ** The command *)

(** The fields the command carries back. *)
Record return_outcome := mk_return_outcome {
  created_request_ids : list string;
  processed_machines : list string;
  skipped_machines : list (string * string);
  unrecorded_failure_request_ids : list string
}.

Context (prefix : string) (uuid : nat → string).

(** The return request of a group of machines of one provider and API. *)
Definition new_return_request (metadata : dict json) (k : nat) (key : provider_key)
    (machine_ids : list string) : result Request.t :=
  let '(provider_type, provider_name, provider_api) := key in
  return_request_id ← RequestId.make (prefix +:+ uuid k);
  Request.create_return_request machine_ids provider_type provider_name provider_api
    (Some metadata) (Some return_request_id) (uuid k) (clock 0%nat) 0.

Fixpoint create_all (metadata : dict json) (force_return : bool) (k : nat)
    (groups : list (provider_key * list string)) : action (list (list string * string)) :=
  match groups with
  | [] => mret []
  | (key, machine_ids) :: groups' =>
      request ← call (new_return_request metadata k key machine_ids);
      _ ← _cancel_validate_and_persist (clock 0%nat) machine_ids request force_return;
      rest ← create_all metadata force_return (S k) groups';
      mret ((machine_ids, Request.request_id request) :: rest)
  end.

(** The requests whose failure could not be recorded. *)
Fixpoint deprovision_all (pending : list (list string * string)) : action (list string) :=
  match pending with
  | [] => mret []
  | (machine_ids, request_id) :: pending' =>
      unrecorded ← try_except
        (_ ← _execute_deprovisioning_for_request machine_ids request_id; mret [])
        (λ _, mret [request_id]);
      rest ← deprovision_all pending';
      mret (unrecorded ++ rest)
  end.

Definition execute_command (machine_ids : list string) (metadata : dict json) (force_return : bool)
  : action return_outcome :=
  '(valid_machines, skipped) ←
    (match machine_ids with
     | [_] => mret (machine_ids, [])
     | _ => _filter_machines machine_ids force_return
     end);
  match valid_machines with
  | [] => mret (mk_return_outcome [] [] skipped [])
  | _ =>
      provider_groups ← group_by_provider valid_machines;
      pending ← create_all metadata force_return 0 provider_groups;
      unrecorded ← deprovision_all pending;
      mret (mk_return_outcome pending.*2 valid_machines skipped unrecorded)
  end.

Definition handle (machine_ids : list string) (metadata : dict json) (force_return : bool)
  : action return_outcome :=
  _ ← validate_command machine_ids force_return;
  execute_command machine_ids metadata force_return.
End handler.

(** ** Lemmas: machines as the handler sees them *)

(** What matters of a stored machine: its status, the return request that holds
    it, and its tags (which decide whether its status can change). *)
Abbreviation machine_view := (MachineStatus.t * option string * Tags.t)%type.
Definition view_of (m : Machine.t) : machine_view :=
  (Machine.status m, Machine.return_request_id m, Machine.tags m).
Definition view (d : db) (i : string) : option machine_view := view_of <$> get_machine d i.

Definition machines_ok (d : db) : Prop := ∀ j m, get_machine d j = Some m → Machine.machine_id m = j.

Lemma get_machine_save e m d j :
  get_machine (save_machine e m d) j =
  if decide (Machine.machine_id m = j)
  then Some (m <| Machine.version := written (Machine.version m) e |> <| Machine.domain_events := [] |>)
  else get_machine d j.
Proof. unfold get_machine, save_machine. cbn. by rewrite lookup_insert. Qed.

Lemma view_save e m d j :
  view (save_machine e m d) j = if decide (Machine.machine_id m = j) then Some (view_of m) else view d j.
Proof. unfold view. rewrite get_machine_save. by case_decide. Qed.

(** An update of one machine, by its effect on the view. *)
Definition updates_one (f : machine_view → machine_view) (step : db → string → db) : Prop :=
  ∀ d i, machines_ok d →
    machines_ok (step d i) ∧ db_requests (step d i) = db_requests d ∧
    ∀ j, view (step d i) j = if decide (i = j) then f <$> view d j else view d j.

Lemma fold_updates f step ids d :
  updates_one f step → (∀ v, f (f v) = f v) → machines_ok d →
  machines_ok (foldl step d ids) ∧ db_requests (foldl step d ids) = db_requests d ∧
  ∀ j, view (foldl step d ids) j = if j ∈? ids then f <$> view d j else view d j.
Proof.
  intros Hstep Hf. revert d. induction ids as [|i ids IH]; intros d Hd; [done|]. cbn [foldl].
  destruct (Hstep d i Hd) as (Hok & Hreq & Hv). destruct (IH _ Hok) as (Hok' & Hreq' & Hv').
  split_and!; [done|congruence|]. intros j. rewrite Hv', Hv.
  destruct (decide (i = j)) as [->|Hne].
  - rewrite (bool_decide_eq_true_2 (j ∈ j :: ids)) by set_solver.
    case_bool_decide; [|done]. destruct (view d j); cbn; [by rewrite Hf|done].
  - rewrite (bool_decide_ext (j ∈ i :: ids) (j ∈ ids)) by set_solver. done.
Qed.

Lemma save_updates_one f (test : Machine.t → bool) (change : Machine.t → Machine.t) :
  (∀ m, Machine.machine_id (change m) = Machine.machine_id m) →
  (∀ m, f (view_of m) = if test m then view_of (change m) else view_of m) →
  updates_one f (λ d i, match get_machine d i with
                        | Some m => if test m then save_machine (Some (Machine.version m)) (change m) d else d
                        | None => d
                        end).
Proof.
  intros Hid Hf d i Hd. destruct (get_machine d i) as [m|] eqn:Hm.
  2:{ split_and!; [done|done|]. intros j. destruct (decide (i = j)) as [<-|]; [|done].
      unfold view. by rewrite Hm. }
  pose proof (Hd _ _ Hm) as Hi. pose proof (Hf m) as Hfm. destruct (test m).
  - split_and!; [|done|].
    + intros j m'. rewrite get_machine_save, Hid, Hi. case_decide as Hj; [|by apply Hd].
      intros [= <-]. cbn. by rewrite Hid, Hi.
    + intros j. rewrite view_save, Hid, Hi. destruct (decide (i = j)) as [<-|]; [|done].
      unfold view. rewrite Hm. cbn. by rewrite Hfm.
  - split_and!; [done|done|]. intros j. destruct (decide (i = j)) as [<-|]; [|done].
    unfold view. rewrite Hm. cbn. by rewrite Hfm.
Qed.

Definition claimed (rid : string) (v : machine_view) : machine_view := (v.1.1, Some rid, v.2).
Definition released (rid : string) (v : machine_view) : machine_view :=
  (v.1.1, match v.1.2 with Some h => if h ≟ rid then None else Some h | None => None end, v.2).
Definition shutting (v : machine_view) : machine_view := (MachineStatus.SHUTTING_DOWN, v.1.2, v.2).

Lemma claim_one_updates rid : updates_one (claimed rid) (claim_one rid).
Proof.
  apply (save_updates_one _ (λ _, true) (λ m, m <| Machine.return_request_id := Some rid |>)); done.
Qed.

Lemma clear_one_updates rid : updates_one (released rid) (clear_one rid).
Proof.
  apply (save_updates_one _ (held_by rid) (λ m, m <| Machine.return_request_id := None |>)); [done|].
  intros m. unfold released, held_by, view_of. cbn.
  destruct (Machine.return_request_id m) as [h|]; [|done]. by case_bool_decide.
Qed.

(** The machine after a status update, where the update is accepted. *)
Definition shut_machine (now : datetime) (m : Machine.t) : Machine.t :=
  match Machine.update_status m MachineStatus.SHUTTING_DOWN (Some "Termination in progress") now with
  | Ok m' => m' | Err _ => m
  end.

Definition updatable (v : machine_view) : bool := negb (dmem "tags" v.2).

Lemma update_status_view m s reason now :
  match Machine.update_status m s reason now with
  | Ok m' => updatable (view_of m) = true ∧ Machine.machine_id m' = Machine.machine_id m ∧
             view_of m' = (s, Machine.return_request_id m, Machine.tags m)
  | Err _ => updatable (view_of m) = false
  end.
Proof.
  unfold Machine.update_status, updatable, view_of. rewrite Machine.rebuilt_spec. cbn -[dmem bool_decide].
  destruct (dmem "tags" (Machine.tags m)); [done|]. cbn -[bool_decide].
  destruct (negb (bool_decide (Machine.status m = s))); [|by destruct m].
  destruct (_ && _); by destruct m.
Qed.

Definition shut_one (now : datetime) (d : db) (i : string) : db :=
  match get_machine d i with
  | Some m => if updatable (view_of m) then save_machine (Some (Machine.version m)) (shut_machine now m) d
              else d
  | None => d
  end.

Lemma shut_one_updates now :
  updates_one (λ v, if updatable v then shutting v else v) (shut_one now).
Proof.
  apply (save_updates_one _ (λ m, updatable (view_of m)) (shut_machine now)).
  - intros m. unfold shut_machine.
    pose proof (update_status_view m MachineStatus.SHUTTING_DOWN (Some "Termination in progress") now) as H.
    destruct (Machine.update_status _ _ _ _); [by destruct H as (_ & ? & _)|done].
  - intros m. unfold shut_machine.
    pose proof (update_status_view m MachineStatus.SHUTTING_DOWN (Some "Termination in progress") now) as H.
    destruct (Machine.update_status _ _ _ _) as [m'|]; [destruct H as (-> & _ & ->)|by rewrite H].
    done.
Qed.

Lemma shut_down_all_fold now ids d :
  machines_ok d → (∀ i v, i ∈ ids → view d i = Some v → updatable v = true) →
  shut_down_all now ids d = Ok (foldl (shut_one now) d ids).
Proof.
  revert d. induction ids as [|i ids IH]; intros d Hd Hu; [done|]. cbn [shut_down_all foldl].
  destruct (shut_one_updates now d i Hd) as (Hok & _ & Hv). unfold shut_one at 2.
  assert (∀ d', d' = shut_one now d i → shut_down_all now ids d' = Ok (foldl (shut_one now) d' ids)) as IH'.
  { intros d' ->. apply IH; [done|]. intros j v Hj. rewrite Hv. destruct (decide (i = j)) as [->|].
    - destruct (view d j) as [v'|] eqn:Hvj; [|done]. cbn.
      rewrite (Hu j v') by (done || by left). intros [= <-]. unfold updatable, shutting. cbn.
      apply (Hu j v'); [by left|done].
    - apply Hu. by right. }
  unfold shut_one in IH'. destruct (get_machine d i) as [m|] eqn:Hm; [|by apply IH'].
  assert (updatable (view_of m) = true) as Hum.
  { apply (Hu i); [by left|]. unfold view. by rewrite Hm. }
  pose proof (update_status_view m MachineStatus.SHUTTING_DOWN (Some "Termination in progress") now) as H.
  rewrite Hum in IH' |- *. unfold shut_machine in IH' |- *.
  destruct (Machine.update_status _ _ _ _) as [m'|]; [|by rewrite Hum in H]. cbn.
  by apply IH'.
Qed.

(** ** Lemmas: no other writer *)

(** A world in which nobody else writes. *)
Abbreviation quiet d published := (mk_world d [] published).

Lemma unit_of_work_quiet {A} (body : db → result (A * db)) d published :
  unit_of_work body (quiet d published) =
  match body d with
  | Ok (a, d') => (Ok a, quiet d' published)
  | Err e => (Err e, quiet d published)
  end.
Proof. unfold unit_of_work, encounter. cbn. by destruct (body d) as [[a d']|e]. Qed.

(** An action that only reads. *)
Definition reads {A} (m : action A) : Prop := ∀ d published,
  (m (quiet d published)).2 = quiet d published.

Lemma reads_ret {A} (a : A) : reads (mret a).
Proof. done. Qed.
Lemma reads_raise {A} (e : exn) : reads (raise e : action A).
Proof. done. Qed.
Lemma reads_call {A} (r : result A) : reads (call r).
Proof. done. Qed.
Lemma reads_bind {A B} (m : action A) (f : A → action B) :
  reads m → (∀ a, reads (f a)) → reads (m ≫= f).
Proof.
  intros Hm Hf d published. unfold mbind, action_bind. specialize (Hm d published).
  destruct (m _) as [[a|e] w]; cbn in Hm; subst w; [apply Hf|done].
Qed.
Lemma reads_try {A} (m : action A) h : reads m → (∀ e, reads (h e)) → reads (try_except m h).
Proof.
  intros Hm Hh d published. unfold try_except. specialize (Hm d published).
  destruct (m _) as [[a|e] w]; cbn in Hm; subst w; [done|apply Hh].
Qed.
Lemma reads_unit_of_work {A} (body : db → result (A * db)) :
  (∀ d a d', body d = Ok (a, d') → d' = d) → reads (unit_of_work body).
Proof.
  intros Hb d published. rewrite unit_of_work_quiet.
  destruct (body d) as [[a d']|e] eqn:H; [|done]. cbn. by rewrite (Hb _ _ _ H).
Qed.

Create HintDb reads.
#[local] Hint Resolve reads_ret reads_raise reads_call reads_bind reads_try : reads.

Lemma reads_only {A} (f : db → result A) : reads (unit_of_work (λ d, x ← f d; Ok (x, d))).
Proof.
  apply reads_unit_of_work. intros d a d' H. by apply result_bind_Ok in H as (x & _ & [= _ <-]).
Qed.

Lemma resource_loop_reads port ids groups skipped : reads (resource_loop port ids groups skipped).
Proof.
  revert groups skipped. induction ids as [|i ids IH]; intros groups skipped; [done|].
  cbn [resource_loop]. apply reads_bind.
  - apply reads_try; [|done]. apply reads_unit_of_work. intros d a d'.
    destruct (get_machine d i); [|done]. by intros [= _ ->].
  - intros m. by destruct (resource_key port m).
Qed.

Section reading.
Context {Template Config : Type} (p : @ports Template Config).

Lemma template_for_reads m : reads (template_for p m).
Proof.
  unfold template_for, _load_snapshot_template. apply reads_bind.
  - destruct (negb _); [done|]. apply reads_bind; [|done]. apply reads_try; [|done].
    apply reads_unit_of_work. intros d a d' H. by apply result_bind_Ok in H as (x & _ & [= _ <-]).
  - intros [t|]; auto with reads.
Qed.

Lemma process_reads name api rid machines req : reads (_process_resource_group p name api rid machines req).
Proof.
  unfold _process_resource_group. apply reads_try; [|done]. destruct machines as [|m ms]; [done|].
  apply reads_bind; [apply template_for_reads|]. intros [t|]; [|done].
  apply reads_bind; [done|]. intros config. apply reads_bind; [apply reads_only|]. intros c.
  apply reads_bind; [done|]. intros []. apply reads_bind; done.
Qed.

Lemma run_groups_reads groups req : reads (run_groups p groups req).
Proof.
  induction groups as [|[[[name api] rid] machines] groups IH]; [done|]. cbn [run_groups].
  apply reads_bind; [apply process_reads|]. intros r. apply reads_bind; [done|done].
Qed.
End reading.

(** A machine no resource group takes. *)
Definition unroutable (port : option selection_port) (d : db) (i : string) : bool :=
  match get_machine d i with Some m => bool_decide (resource_key port m = None) | None => false end.

(** Grouping finds every machine that exists. *)
Lemma resource_loop_quiet port ids groups skipped d published :
  (∀ i, i ∈ ids → is_Some (get_machine d i)) →
  ∃ groups', resource_loop port ids groups skipped (quiet d published) =
    (Ok (groups', skipped ++ List.filter (unroutable port d) ids), quiet d published).
Proof.
  revert groups skipped. induction ids as [|i ids IH]; intros groups skipped Hm.
  { exists groups. cbn. by rewrite app_nil_r. }
  cbn [resource_loop List.filter]. unfold mbind at 1, action_bind at 1, try_except at 1.
  destruct (Hm i) as [m Hi]; [by left|].
  rewrite unit_of_work_quiet, Hi. unfold unroutable at 1. rewrite Hi.
  destruct (resource_key port m) as [k|] eqn:Hk.
  - apply IH. intros j Hj. apply Hm. by right.
  - destruct (IH groups (skipped ++ [i])) as [groups' H]; [intros j Hj; apply Hm; by right|].
    exists groups'. rewrite H, <-app_assoc. done.
Qed.

(** A status command, with no other writer, on a stored request. *)
Lemma bus_quiet sm max_retries clock i status message d published request :
  RequestId._is_valid_format i = true → 0 ≤ max_retries → get_request d i = Some request →
  bus_update sm max_retries clock i status message (quiet d published) =
  match _apply_status_via_state_machine sm request status message (clock 0%nat) with
  | Ok updated => (Ok (), quiet (save_request (Some (Request.version request)) updated d)
                            (published ++ Request.domain_events updated))
  | Err e => (Err e, quiet d published)
  end.
Proof.
  intros Hi Hpos Hg. unfold bus_update, update_status_command, with_conflict_retries.
  rewrite bool_decide_eq_false_2 by (by intros ->).
  replace (Z.to_nat (max_retries + 1)) with (Datatypes.S (Z.to_nat max_retries)) by lia.
  cbn [attempts]. unfold mbind, action_bind. rewrite unit_of_work_quiet.
  unfold change_status, find_request, RequestId.make. rewrite Hi. cbn. rewrite Hg.
  pose proof (commanded_cases sm request status message (clock 0%nat)) as Hc.
  destruct (_apply_status_via_state_machine _ _ _ _ _) as [u|e]; cbn; [done|].
  destruct Hc as [(a & b & ->)|[m ->]]; done.
Qed.

(** The status a return request in progress is commanded to. *)
Definition settles_return (s : RequestStatus.t) : bool :=
  s ∈? [RequestStatus.IN_PROGRESS; RequestStatus.PARTIAL; RequestStatus.FAILED].

Lemma commanded_return sm r s message now :
  Request.request_type r = RequestType.RETURN →
  (Request.status r = RequestStatus.IN_PROGRESS ∧ settles_return s = true ∨
   Request.status r = RequestStatus.PENDING ∧ s = RequestStatus.IN_PROGRESS) →
  ∃ u, _apply_status_via_state_machine sm r s message now = Ok u ∧ Request.status u = s ∧
       Request.request_type u = RequestType.RETURN ∧ Request.request_id u = Request.request_id r.
Proof.
  intros Hty Hs.
  assert (∃ u, _apply_status_via_state_machine sm r s message now = Ok u ∧ Request.status u = s ∧
    (Request.mutates r u ∨ u = r)) as (u & Hu & Hst & Hm).
  { unfold _apply_status_via_state_machine.
    assert (∀ event f diag msg reason target m d',
      event ≠ FulfilmentEvent.DEADLINE_SWEEP →
      FulfilmentStateMachine._resolve_target r event now f diag msg reason = Ok (target, m, d') →
      RequestStatus.can_transition_to (Request.status r) target = true →
      ∃ u, fst <$> FulfilmentStateMachine.apply sm r event now f diag msg reason = Ok u ∧
           Request.status u = target ∧ (Request.mutates r u ∨ u = r)) as Happ.
    { intros event f diag msg reason target m d' Hev Ht Hct. rewrite apply_eq.
      assert (expired r now = false) as -> by (unfold expired; by rewrite Hty).
      rewrite andb_false_r, bool_decide_eq_false_2, Ht by done. cbn [mbind result_bind].
      destruct (FulfilmentStateMachine.settle _ _ _ _ _ _ _) as [[u b]|e] eqn:Hse.
      - exists u. split; [done|]. by apply settle_sound in Hse as (-> & _ & ? & _).
      - unfold FulfilmentStateMachine.settle in Hse. rewrite Hct in Hse.
        repeat case_match; done. }
    destruct Hs as [[Hs Hset]|[Hs ->]].
    - unfold settles_return in Hset. apply bool_decide_eq_true in Hset.
      repeat (apply elem_of_cons in Hset as [->|Hset]); [..|by apply elem_of_nil in Hset];
        cbn [verdict_state];
        (eapply Happ; [done|cbn; unfold FulfilmentStateMachine._target_for_verdict; cbn;
           rewrite ?Hty; reflexivity|by rewrite Hs]).
    - cbn [verdict_state]. eapply Happ; [done|reflexivity|by rewrite Hs]. }
  exists u. split_and!; [done|done| |by apply mutates_id].
  destruct Hm as [Hm| ->]; [|done]. apply Request.mutates_guarantee in Hm as ((_ & -> & _) & _). done.
Qed.

(** ** Lemmas: recording an outcome *)

Section recording.
Context {Template Config : Type} (p : @ports Template Config).
Context (sm : FulfilmentStateMachine.t) (max_retries : Z) (clock : nat → datetime).
Context (Hretries : 0 ≤ max_retries).
Context (rid : string) (Hrid : RequestId._is_valid_format rid = true).

(** The return request as stored, in a status. *)
Definition return_in (d : db) (s : RequestStatus.t) : Prop :=
  ∃ r, get_request d rid = Some r ∧ Request.request_type r = RequestType.RETURN ∧
       Request.request_id r = rid ∧ Request.status r = s.

Lemma save_request_ok e r d : db_ok d → db_ok (save_request e r d).
Proof.
  intros [Hr Hm]. split; [|exact Hm]. intros j r'. rewrite get_request_save.
  case_decide as Hj; [|apply Hr]. by intros [= <-].
Qed.

Lemma bus_return d published s0 s message :
  return_in d s0 →
  (s0 = RequestStatus.IN_PROGRESS ∧ settles_return s = true ∨
   s0 = RequestStatus.PENDING ∧ s = RequestStatus.IN_PROGRESS) →
  ∃ d' published', bus_update sm max_retries clock rid s message (quiet d published) =
    (Ok (), quiet d' published') ∧ db_machines d' = db_machines d ∧ return_in d' s ∧
    (db_ok d → db_ok d').
Proof.
  intros (r & Hg & Hty & Hid & Hs) Hmove. rewrite (bus_quiet _ _ _ _ _ _ _ _ r) by done.
  destruct (commanded_return sm r s message (clock 0%nat)) as (u & -> & Hus & Huty & Huid);
    [done|by rewrite Hs|].
  do 2 eexists. split; [done|]. split; [done|]. split; [|apply save_request_ok].
  exists (persisted u (written (Request.version u) (Some (Request.version r)))).
  rewrite get_request_save, decide_True by congruence.
  split_and!; [done|exact Huty|rewrite <-Hid; exact Huid|exact Hus].
Qed.

Lemma view_machines d d' : db_machines d' = db_machines d → ∀ j, view d' j = view d j.
Proof. intros H j. unfold view, get_machine. by rewrite H. Qed.

Lemma machines_ok_machines d d' : db_machines d' = db_machines d → machines_ok d → machines_ok d'.
Proof. unfold machines_ok, get_machine. by intros ->. Qed.

Lemma return_in_requests d d' s : db_requests d' = db_requests d → return_in d s → return_in d' s.
Proof. unfold return_in, get_request. by intros ->. Qed.

(** Marking machines as shutting down. *)
Lemma shut_quiet now ids d published :
  machines_ok d → (∀ i v, i ∈ ids → view d i = Some v → updatable v = true) →
  ∃ d', _update_machines_to_pending now ids (quiet d published) = (Ok (), quiet d' published) ∧
    machines_ok d' ∧ db_requests d' = db_requests d ∧
    ∀ j, view d' j = if j ∈? ids then shutting <$> view d j else view d j.
Proof.
  intros Hok Hu. unfold _update_machines_to_pending.
  rewrite unit_of_work_quiet, shut_down_all_fold by done. cbn.
  destruct (fold_updates _ _ ids d (shut_one_updates now)) as (Hok' & Hreq & Hv); [|done|].
  { intros v. destruct (updatable v) eqn:Hv; [|by rewrite Hv].
    unfold updatable, shutting in *. cbn. by rewrite Hv. }
  eexists. split; [done|]. split_and!; [done|done|]. intros j. rewrite Hv.
  case_bool_decide as Hj; [|done]. destruct (view d j) as [v|] eqn:Hvj; [|done]. cbn.
  by rewrite (Hu j v).
Qed.

(** Releasing machines. *)
Lemma clear_quiet ids d published :
  machines_ok d →
  ∃ d', _clear_return_request_id ids rid (quiet d published) = (Ok (), quiet d' published) ∧
    machines_ok d' ∧ db_requests d' = db_requests d ∧
    ∀ j, view d' j = if j ∈? ids then released rid <$> view d j else view d j.
Proof.
  intros Hok. unfold _clear_return_request_id. rewrite unit_of_work_quiet.
  destruct (fold_updates _ _ ids d (clear_one_updates rid)) as (Hok' & Hreq & Hv); [|done|eauto].
  intros [[s h] t]. unfold released. cbn. destruct h as [h|]; [|done].
  case_bool_decide as Hh; [done|]. by rewrite bool_decide_eq_false_2.
Qed.

(** The effect of an outcome on a machine and on the request. *)
Definition outcome_view (ids skipped : list string) (res : deprovisioning) (i : string)
    (v : machine_view) : machine_view :=
  if dp_success res then if i ∈? ids then shutting v else v
  else if i ∈? dp_successful_instance_ids res then shutting v
  else if i ∈? dp_failed_instance_ids res then released rid v
  else if dp_partial res && (i ∈? skipped) then released rid v
  else v.

Definition outcome_status (skipped : list string) (res : deprovisioning) : RequestStatus.t :=
  if dp_success res then if Request.is_nil skipped then RequestStatus.IN_PROGRESS else RequestStatus.PARTIAL
  else if dp_partial res then RequestStatus.PARTIAL else RequestStatus.FAILED.

Lemma record_quiet ids skipped res d published :
  machines_ok d → return_in d RequestStatus.IN_PROGRESS →
  (∀ i v, view d i = Some v → i ∈ ids → updatable v = true) →
  (∀ i, i ∈ dp_successful_instance_ids res → i ∈ ids ∧ i ∉ dp_failed_instance_ids res ∧ i ∉ skipped) →
  dp_partial res = negb (dp_success res) && negb (Request.is_nil (dp_successful_instance_ids res)) →
  (dp_success res = false → dp_failed_instance_ids res ≠ []) →
  ∃ d' published', record_outcome sm max_retries clock ids rid skipped res (quiet d published) =
      (Ok (), quiet d' published') ∧
    return_in d' (outcome_status skipped res) ∧
    ∀ j, view d' j = outcome_view ids skipped res j <$> view d j.
Proof.
  intros Hok Hr Hu Hsub Hpart Hfail. unfold record_outcome, outcome_view, outcome_status.
  destruct (dp_success res) eqn:Hs; [|destruct (dp_partial res) eqn:Hp]; unfold mbind, action_bind.
  - destruct (shut_quiet (clock 0%nat) ids d published) as (d1 & -> & _ & Hreq & Hv); [done|eauto|].
    apply (return_in_requests d d1) in Hr; [|done]. cbn [fst snd].
    assert (∀ j, view d1 j = (λ v, if j ∈? ids then shutting v else v) <$> view d j) as Hv'.
    { intros j. rewrite Hv. case_bool_decide; by destruct (view d j). }
    destruct (Request.is_nil skipped); cbn [negb].
    + unfold _update_request_to_terminating, _update_request_status, try_except.
      destruct (bus_return d1 published RequestStatus.IN_PROGRESS RequestStatus.IN_PROGRESS
        "Termination accepted: waiting for instances to reach terminated state") as (d2 & pub2 & -> & Hm & Hr2 & _);
        [done|by left|].
      exists d2, pub2. split_and!; [done|done|]. intros j. by rewrite (view_machines d1 d2).
    + destruct (bus_return d1 published RequestStatus.IN_PROGRESS RequestStatus.PARTIAL
        (skipped_message skipped)) as (d2 & pub2 & -> & Hm & Hr2 & _); [done|by left|].
      exists d2, pub2. split_and!; [done|done|]. intros j. by rewrite (view_machines d1 d2).
  - destruct (dp_successful_instance_ids res) as [|s0 S'] eqn:HS; [done|]. rewrite <-HS in *.
    unfold unless_empty at 1. rewrite HS. cbn [Request.is_nil]. rewrite <-HS.
    destruct (shut_quiet (clock 0%nat) (dp_successful_instance_ids res) d published)
      as (d1 & -> & Hok1 & Hreq & Hv); [done|intros i v Hi Hvi; apply (Hu i v); [done|by apply Hsub]|].
    unfold unless_empty.
    assert (Request.is_nil (dedup_by id (dp_failed_instance_ids res ++ skipped)) = false) as ->.
    { specialize (Hfail eq_refl). by destruct (dp_failed_instance_ids res). }
    destruct (clear_quiet (dedup_by id (dp_failed_instance_ids res ++ skipped)) d1 published)
      as (d2 & -> & Hok2 & Hreq2 & Hv2); [done|].
    destruct (bus_return d2 published RequestStatus.IN_PROGRESS RequestStatus.PARTIAL
      (partial_message (dp_successful_instance_ids res) (dp_failed_instance_ids res) skipped))
      as (d3 & pub3 & -> & Hm & Hr3 & _);
      [by apply (return_in_requests d1), (return_in_requests d)|by left|].
    exists d3, pub3. split_and!; [done|done|]. intros j. rewrite (view_machines d2 d3), Hv2, Hv by done.
    rewrite (bool_decide_ext (j ∈ dedup_by id (dp_failed_instance_ids res ++ skipped))
      (j ∈ dp_failed_instance_ids res ∨ j ∈ skipped)) by (by rewrite elem_of_dedup_ids, elem_of_app).
    cbn [andb]. destruct (decide (j ∈ dp_successful_instance_ids res)) as [H1|H1].
    + destruct (Hsub j H1) as (_ & H2 & H3). rewrite bool_decide_eq_false_2 by tauto.
      by rewrite (bool_decide_eq_true_2 (j ∈ dp_successful_instance_ids res)).
    + rewrite (bool_decide_eq_false_2 (j ∈ dp_successful_instance_ids res)) by done.
      repeat case_bool_decide; try tauto; by destruct (view d j).
  - assert (dp_successful_instance_ids res = []) as HS.
    { apply is_nil_true. cbn in Hpart. by destruct (Request.is_nil _). }
    specialize (Hfail eq_refl).
    assert (Request.is_nil (dp_failed_instance_ids res) = false) as -> by (by destruct (dp_failed_instance_ids res)).
    unfold _release_machines_after_failure, try_except.
    destruct (clear_quiet (dp_failed_instance_ids res) d published) as (d1 & -> & Hok1 & Hreq & Hv); [done|].
    unfold _update_request_to_failed, _update_request_status, try_except.
    destruct (bus_return d1 published RequestStatus.IN_PROGRESS RequestStatus.FAILED
      (failed_message (dp_failed_instance_ids res))) as (d2 & pub2 & -> & Hm & Hr2 & _);
      [by apply (return_in_requests d)|by left|].
    exists d2, pub2. split_and!; [done|done|]. intros j. rewrite (view_machines d1 d2), Hv, HS by done.
    rewrite (bool_decide_eq_false_2 (j ∈ [])) by apply not_elem_of_nil. cbn [andb].
    case_bool_decide; by destruct (view d j).
Qed.

(** The whole of a deprovisioning, with no other writer. *)
Lemma deprovision_quiet ids d published :
  db_ok d → return_in d RequestStatus.PENDING → NoDup ids →
  (∀ i, i ∈ ids → ∃ v, view d i = Some v ∧ updatable v = true) →
  let skipped := List.filter (unroutable None d) ids in
  ∃ res d' published',
    _execute_deprovisioning_for_request p sm max_retries clock ids rid (quiet d published) =
      (Ok (), quiet d' published') ∧
    dp_successful_instance_ids res ++ dp_failed_instance_ids res ++ skipped ≡ₚ ids ∧
    (dp_success res = true → dp_failed_instance_ids res = []) ∧
    (dp_success res = false → dp_failed_instance_ids res ≠ []) ∧
    dp_partial res = negb (dp_success res) && negb (Request.is_nil (dp_successful_instance_ids res)) ∧
    (∀ i, i ∈ dp_successful_instance_ids res →
       ∃ key machines op answer, i ∈ op_instance_ids op ∧
         Forall (λ m, resource_key None m = Some key) machines ∧
         op_instance_ids op = Machine.machine_id <$> machines ∧
         (∀ j, j ∈ op_instance_ids op → j ∈ ids) ∧
         op_resource_id op = key.2 ∧ op_correlation_id op = rid ∧
         execute_operation p key.1.1 op = Ok answer ∧ confirmed (op_instance_ids op) answer i) ∧
    return_in d' (outcome_status skipped res) ∧
    ∀ j, view d' j = outcome_view ids skipped res j <$> view d j.
Proof.
  intros Hok Hr Hnd Hv skipped. unfold _execute_deprovisioning_for_request, try_except.
  unfold mbind at 1, action_bind at 1. unfold _update_request_to_in_progress, try_except.
  destruct (bus_return d published RequestStatus.PENDING RequestStatus.IN_PROGRESS
    "Return request processing started") as (d1 & pub1 & -> & Hm & Hr1 & Hok1); [done|by right|].
  specialize (Hok1 Hok). unfold mbind at 1, action_bind at 1.
  assert (∀ i, i ∈ ids → is_Some (get_machine d1 i)) as Hex.
  { intros i Hi. destruct (Hv i Hi) as (v & Hvi & _). rewrite <-(view_machines d d1 Hm) in Hvi.
    unfold view in Hvi. by destruct (get_machine d1 i). }
  destruct (resource_loop_quiet None ids [] [] d1 pub1 Hex) as [groups Hg].
  unfold group_by_resource. rewrite Hg. cbn [app].
  replace (List.filter (unroutable None d1) ids) with skipped in Hg |- *
    by (unfold skipped, unroutable, get_machine; by rewrite Hm).
  apply resource_loop_spec in Hg as (_ & Hwf & Hp & _); [|by split|by constructor|done].
  cbn [group_ids map concat app] in Hp.
  unfold mbind at 1, action_bind at 1, execute_deprovisioning, mbind at 1, action_bind at 1.
  destruct (run_groups_spec p groups rid (quiet d1 pub1)) as (results & w1 & Hrun & Hsound).
  pose proof (run_groups_reads p groups rid d1 pub1) as Hreads. rewrite Hrun in Hreads |- *.
  cbn in Hreads. subst w1. cbn [mret action_ret].
  assert (NoDup (group_ids groups ++ skipped)) as (Hnd1 & Hdisj & _)%NoDup_app by (by rewrite Hp).
  apply conclude_spec in Hsound as (Hconf & Hperm & Hsucc & Hpart & Hfail).
  set (res := conclude_deprovisioning (tally_all results)) in *.
  assert (dp_successful_instance_ids res ++ dp_failed_instance_ids res ≡ₚ group_ids groups) as Hperm'.
  { rewrite Hperm. apply NoDup_Permutation; [apply NoDup_dedup_ids|done|]. intros i. apply elem_of_dedup_ids. }
  assert (dp_success res = false → dp_failed_instance_ids res ≠ []) as Hfail'.
  { apply Hfail; [done|]. eapply Forall_impl; [exact Hwf|]. by intros g []. }
  destruct (record_quiet ids skipped res d1 pub1) as (d2 & pub2 & Hrec & Hr2 & Hv2); try done.
  - exact (proj2 Hok1).
  - intros i v. rewrite (view_machines d d1 Hm). intros Hvi Hi. destruct (Hv i Hi) as (v' & Hv' & Hu).
    by rewrite Hvi in Hv'; injection Hv' as ->.
  - intros i Hi. assert (i ∈ group_ids groups) as Hig by (rewrite <-Hperm'; set_solver).
    split_and!; [rewrite <-Hp; set_solver| |by apply Hdisj].
    rewrite <-Hperm' in Hnd1. apply NoDup_app in Hnd1 as (_ & Hd & _). by apply Hd.
  - exists res, d2, pub2. rewrite Hrec. split_and!; try done.
    + by rewrite app_assoc, Hperm'.
    + intros i Hi. destruct (Hconf i Hi) as (g & r & Hin & _ & Hi' & op & answer & He & Hids & Hres & _ & Hreq & _ & Hc).
      exists g.1, g.2, op, answer. rewrite Hids. split_and!; try done.
      * rewrite Forall_forall in Hwf. by destruct (Hwf _ Hin).
      * intros j Hj. rewrite <-Hp. apply elem_of_app. left. unfold group_ids.
        apply list_elem_of_In, in_concat. exists (Machine.machine_id <$> g.2). split; [|by apply list_elem_of_In].
        apply in_map_iff. exists g. by rewrite <-list_elem_of_In.
    + intros j. by rewrite Hv2, (view_machines d d1 Hm).
Qed.
End recording.

(** ** Lemmas: claiming *)

Definition freed (v : machine_view) : machine_view := (v.1.1, None, v.2).

(** Cancelling what holds the machines leaves the machines themselves as they
    were, apart from who holds them. *)
Lemma release_all_views now force ids d d' :
  machines_ok d → release_all now force ids d = Ok d' →
  machines_ok d' ∧ ∀ j, view d' j = view d j ∨ j ∈ ids ∧ view d' j = freed <$> view d j.
Proof.
  revert d. induction ids as [|i ids IH]; intros d Hok; [intros [= <-]; eauto|].
  intros H. apply result_bind_Ok in H as (d1 & H1 & H).
  assert (machines_ok d1 ∧ ∀ j, view d1 j = view d j ∨ j = i ∧ view d1 j = freed <$> view d j)
    as [Hok1 Hv1].
  { unfold release_for_force in H1. destruct (get_machine d i) as [m|] eqn:Hm; [|injection H1 as <-; auto].
    destruct (_ && force); [|injection H1 as <-; auto].
    apply result_bind_Ok in H1 as (stuck & _ & [= <-]).
    set (d0 := match stuck with Some r => cancel_stuck now r d | None => d end).
    assert (db_machines d0 = db_machines d) as Hd0.
    { unfold d0, cancel_stuck. destruct stuck; [|done]. by destruct (Request.cancel _ _ _). }
    assert (Machine.machine_id m = i) as Hi by (by apply Hok). split.
    - intros j m'. unfold set_holder. rewrite get_machine_save. cbn. rewrite Hi.
      case_decide as Hj; [intros [= <-]; by subst|]. unfold get_machine. rewrite Hd0. apply Hok.
    - intros j. unfold set_holder. rewrite view_save. cbn. rewrite Hi.
      case_decide as Hj; [subst j; right|left; by rewrite (view_machines d d0)].
      split; [done|]. unfold view. by rewrite Hm. }
  destruct (IH d1 Hok1 H) as [Hok' Hv']. split; [done|]. intros j.
  destruct (Hv1 j) as [Ha|[Hji Ha]], (Hv' j) as [Hb|[Hj Hb]]; rewrite Ha in Hb; auto;
    right; (split; [set_solver|]); rewrite Hb; try done. by destruct (view d j).
Qed.

Lemma release_all_unforced now ids d : release_all now false ids d = Ok d.
Proof.
  revert d. induction ids as [|i ids IH]; intros d; [done|]. cbn [release_all].
  unfold release_for_force. destruct (get_machine d i); [rewrite andb_false_r|]; cbn; apply IH.
Qed.

(** A claim that commits. *)
Lemma claim_spec now ids request force w w' :
  world_ok w → _cancel_validate_and_persist now ids request force w = (Ok (), w') →
  let d0 := w_db (after_encounters 1 w) in
  let rid := Request.request_id request in
  get_request (w_db w') rid = Some (persisted request (Request.version request)) ∧
  (∀ i, i ∈ ids → view (w_db w') i = claimed rid <$> view d0 i) ∧
  (∀ j, j ∉ ids → view (w_db w') j = view d0 j).
Proof.
  intros Hok H. unfold _cancel_validate_and_persist in H.
  apply action_bind_Ok in H as (events & w1 & H & [= <-]).
  apply unit_of_work_Ok in H as (d' & Hb & ->). apply result_bind_Ok in Hb as (d1 & Hrel & [= <- <-]).
  pose proof (after_encounters_ok 1 w Hok) as [[_ Hm0] _].
  apply release_all_views in Hrel as [Hok1 Hv1]; [|done]. cbn zeta.
  set (d0 := w_db (after_encounters 1 w)) in *. set (rid := Request.request_id request) in *.
  set (d2 := save_request None request d1).
  destruct (fold_updates _ _ ids d2 (claim_one_updates rid)) as (_ & Hreq & Hv); [done|done|].
  cbn [w_db]. split_and!.
  - change (get_request (foldl (claim_one rid) d2 ids) rid =
            Some (persisted request (written (Request.version request) None))).
    unfold get_request. rewrite Hreq.
    change (get_request d2 rid = Some (persisted request (written (Request.version request) None))).
    unfold d2. rewrite get_request_save, decide_True by done. done.
  - intros i Hi. change (view (foldl (claim_one rid) d2 ids) i = claimed rid <$> view d0 i).
    rewrite Hv, bool_decide_eq_true_2 by done. change (view d2 i) with (view d1 i).
    destruct (Hv1 i) as [->|[_ ->]]; [done|]. by destruct (view d0 i).
  - intros j Hj. change (view (foldl (claim_one rid) d2 ids) j = view d0 j).
    rewrite Hv, bool_decide_eq_false_2 by done. change (view d2 j) with (view d1 j).
    by destruct (Hv1 j) as [->|[? _]].
Qed.

Lemma filter_loop_spec d force ids :
  let '(valid, skipped) := filter_loop d force ids in
  valid ++ skipped.*1 ≡ₚ ids ∧
  Forall (λ i, skip_reason d force i = None) valid ∧
  Forall (λ s, skip_reason d force s.1 = Some s.2) skipped.
Proof.
  induction ids as [|i ids IH]; [done|]. cbn [filter_loop].
  destruct (filter_loop d force ids) as [valid skipped]. destruct IH as (Hp & Hv & Hs).
  destruct (skip_reason d force i) as [reason|] eqn:Hr; (split_and!; [|auto..]).
  - cbn. rewrite <-Hp. symmetry. apply Permutation_middle.
  - cbn. by rewrite Hp.
Qed.

(** ** Theorems *)


(** A machine without a resource is reported shutting down although nobody
    asked the provider to terminate it.  When no machine of a return names its
    resource, the handler calls no provider (the statement holds for one that
    refuses every operation), yet every machine becomes SHUTTING_DOWN and stays
    held by the request, which is PARTIAL and therefore settled. *)
Theorem unroutable_marked_shutting_down {Template Config} (p : @ports Template Config) sm max_retries
    clock rid ids d published :
  0 ≤ max_retries → RequestId._is_valid_format rid = true →
  db_ok d → return_in rid d RequestStatus.PENDING → NoDup ids → ids ≠ [] →
  (∀ i, i ∈ ids → ∃ v, view d i = Some v ∧ updatable v = true ∧ unroutable None d i = true) →
  ∃ d' published',
    _execute_deprovisioning_for_request p sm max_retries clock ids rid (quiet d published) =
      (Ok (), quiet d' published') ∧
    return_in rid d' RequestStatus.PARTIAL ∧
    ∀ i, i ∈ ids → view d' i = shutting <$> view d i.
Proof.
  intros Hret Hrid Hok Hr Hnd Hne Hids.
  destruct (deprovision_quiet p sm max_retries clock Hret rid Hrid ids d published)
    as (res & d' & pub' & Hx & Hp & Hsucc & Hfail & _ & _ & Hr' & Hv); [done..| |].
  { intros i Hi. destruct (Hids i Hi) as (v & Hvi & Hu & _). eauto. }
  assert (List.filter (unroutable None d) ids = ids) as Hf.
  { clear -Hids. induction ids as [|i ids IH]; [done|]. cbn.
    destruct (Hids i) as (v & _ & _ & ->); [by left|]. f_equal. apply IH.
    intros j Hj. apply Hids. by right. }
  rewrite Hf in *. exists d', pub'. split; [done|].
  assert (dp_failed_instance_ids res = []) as Hnil.
  { apply Permutation_length in Hp. rewrite !length_app in Hp.
    destruct (dp_failed_instance_ids res); [done|]. cbn in Hp. lia. }
  assert (dp_success res = true) as Hs by (destruct (dp_success res); [done|]; by destruct (Hfail eq_refl)).
  unfold outcome_status, outcome_view in *. rewrite Hs in *. split.
  - destruct ids as [|i ids']; [done|]. exact Hr'.
  - intros i Hi. by rewrite Hv, bool_decide_eq_true_2.
Qed.

(** A claim does not look at who holds the machine.  Between the check that a
    machine has no pending return and the claim, another return may have taken
    it; the claim, which is documented to validate the machines in the same
    transaction, takes the machine over without [force_return], leaving the other
    request in place. *)
Theorem claim_takes_over now ids request w w' i s other t :
  world_ok w → _cancel_validate_and_persist now ids request false w = (Ok (), w') →
  i ∈ ids → view (w_db (after_encounters 1 w)) i = Some (s, Some other, t) →
  other ≠ Request.request_id request →
  view (w_db w') i = Some (s, Some (Request.request_id request), t) ∧
  get_request (w_db w') other = get_request (w_db (after_encounters 1 w)) other.
Proof.
  intros Hok H Hi Hv Hne. pose proof (claim_spec _ _ _ _ _ _ Hok H) as (_ & Hc & _).
  split; [by rewrite (Hc i Hi), Hv|]. clear Hc. unfold _cancel_validate_and_persist in H.
  apply action_bind_Ok in H as (events & w1 & H & [= <-]).
  apply unit_of_work_Ok in H as (d' & Hb & ->). apply result_bind_Ok in Hb as (d1 & Hrel & [= <- <-]).
  pose proof (after_encounters_ok 1 w Hok) as [[_ Hm0] _].
  rewrite release_all_unforced in Hrel. injection Hrel as <-.
  set (rid := Request.request_id request) in *. set (d0 := w_db (after_encounters 1 w)) in *.
  destruct (fold_updates _ _ ids (save_request None request d0) (claim_one_updates rid))
    as (_ & Hreq & _); [done|done|].
  change (get_request (foldl (claim_one rid) (save_request None request d0) ids) other = get_request d0 other).
  unfold get_request at 1. rewrite Hreq.
  change (get_request (save_request None request d0) other = get_request d0 other).
  by rewrite get_request_save, decide_False.
Qed.

(** A failed return keeps the machines it skipped.  When the provider refuses
    to terminate the machines it was asked about, the request is FAILED and those
    machines are released; a machine of the same request that was skipped is not:
    it stays held by a settled request, and a later return of it is refused
    unless it is forced. *)
Theorem skipped_held_by_failed_request {Template Config} (p : @ports Template Config) sm max_retries
    clock rid ids d published i0 i s t :
  0 ≤ max_retries → RequestId._is_valid_format rid = true →
  db_ok d → return_in rid d RequestStatus.PENDING → NoDup ids →
  (∀ i, i ∈ ids → ∃ v, view d i = Some v ∧ updatable v = true) →
  (∀ name op, ∃ e, execute_operation p name op = Err e) →
  i0 ∈ ids → unroutable None d i0 = false →
  i ∈ ids → unroutable None d i = true → view d i = Some (s, Some rid, t) →
  ∃ d' published',
    _execute_deprovisioning_for_request p sm max_retries clock ids rid (quiet d published) =
      (Ok (), quiet d' published') ∧
    return_in rid d' RequestStatus.FAILED ∧ view d' i = Some (s, Some rid, t) ∧
    ∃ m, validate_command [i] false (quiet d' published') =
         (Err (RequestValidationError m), quiet d' published').
Proof.
  intros Hret Hrid Hok Hr Hnd Hids Hdown Hi0 Hr0 Hi Hri Hvi.
  destruct (deprovision_quiet p sm max_retries clock Hret rid Hrid ids d published)
    as (res & d' & pub' & Hx & Hp & Hsucc & Hfail & Hpart & Hconf & Hr' & Hv); [done..|].
  set (skipped := List.filter (unroutable None d) ids) in *.
  assert (dp_successful_instance_ids res = []) as HS.
  { destruct (dp_successful_instance_ids res) as [|j S]; [done|].
    destruct (Hconf j) as (key & ms & op & answer & _ & _ & _ & _ & _ & _ & He & _); [by left|].
    destruct (Hdown key.1.1 op) as [e He']. congruence. }
  rewrite HS in *. cbn [app Request.is_nil negb] in *. rewrite andb_false_r in Hpart.
  assert (∀ j, j ∈ skipped ↔ unroutable None d j = true ∧ j ∈ ids) as Hsk.
  { intros j. unfold skipped. rewrite !list_elem_of_In, filter_In. tauto. }
  assert (dp_success res = false) as Hs.
  { destruct (dp_success res); [|done]. rewrite Hsucc in Hp by done.
    assert (i0 ∈ skipped) as [? _]%Hsk by (by rewrite Hp). congruence. }
  assert (i ∉ dp_failed_instance_ids res) as HF.
  { rewrite <-Hp in Hnd. apply NoDup_app in Hnd as (_ & Hd & _). intros HiF.
    apply (Hd i HiF), Hsk. done. }
  unfold outcome_status, outcome_view in *. rewrite Hs, Hpart in *.
  assert (view d' i = Some (s, Some rid, t)) as Hv'.
  { rewrite Hv, Hvi, HS. cbn. by rewrite !bool_decide_eq_false_2 by (done || apply not_elem_of_nil). }
  exists d', pub'. split_and!; [done|done|done|].
  unfold validate_command. rewrite unit_of_work_quiet. unfold view in Hv'.
  destruct (get_machine d' i) as [m|]; [|done]. cbn in Hv'. injection Hv' as _ Hh _. rewrite Hh.
  assert (str_truthy (Some rid) = true) as ->.
  { unfold str_truthy. by destruct rid. }
  cbn. by eexists.
Qed.

(** The machines of a return of several are split into those it takes and those it
    skips, each once; a machine is taken exactly when it exists and is not
    already being returned, or the return is forced. *)
Theorem machines_filtered ids force w valid skipped w' :
  _filter_machines ids force w = (Ok (valid, skipped), w') →
  valid ++ skipped.*1 ≡ₚ ids ∧
  ∀ i, i ∈ ids → i ∈ valid ↔
    ∃ m, get_machine (w_db w') i = Some m ∧
         (force = true ∨ str_truthy (Machine.return_request_id m) = false).
Proof.
  intros H. apply unit_of_work_Ok in H as (d' & [= Hf <-] & ->).
  pose proof (filter_loop_spec (encounter w).2 force ids) as Hs. rewrite Hf in Hs.
  destruct Hs as (Hp & Hval & Hsk). split; [done|]. intros i Hi.
  cbn [w_db after_encounters]. change (w_db _) with (encounter w).2.
  assert (i ∈ valid ↔ skip_reason (encounter w).2 force i = None) as ->.
  { rewrite Forall_forall in Hval. split; [apply Hval|]. intros Hr. rewrite <-Hp in Hi.
    apply elem_of_app in Hi as [?|Hi]; [done|]. apply list_elem_of_fmap in Hi as ([j reason] & -> & Hi).
    rewrite Forall_forall in Hsk. specialize (Hsk _ Hi). cbn in *. congruence. }
  unfold skip_reason. destruct (get_machine _ i) as [m|].
  - destruct (str_truthy (Machine.return_request_id m)) eqn:Ht, force; cbn;
      (split; [|intros (m' & [= <-] & [?|?]); congruence]); try done; intros _; exists m; auto.
  - split; [done|]. by intros (m & ? & _).
Qed.

(** Only the two built-in prefixes work.  The prefix of return identifiers is
    configurable, but an identifier must start with [req-] or [ret-]; with any
    other configured prefix every return that has a machine to return raises, and
    nothing is stored. *)
Theorem custom_prefix_refused clock prefix uuid metadata force key
    machine_ids groups w :
  startswith "req-" (prefix +:+ uuid 0%nat) = false →
  startswith "ret-" (prefix +:+ uuid 0%nat) = false →
  ∃ e, create_all clock prefix uuid metadata force 0 ((key, machine_ids) :: groups) w = (Err e, w).
Proof.
  intros H1 H2. destruct key as [[ptype pname] papi]. cbn [create_all].
  unfold mbind at 1, action_bind at 1, call, new_return_request, RequestId.make,
    RequestId._is_valid_format, RequestId.REQUEST_ID_PREFIX_ACQUIRE, RequestId.REQUEST_ID_PREFIX_RETURN.
  rewrite H1, H2. cbn. by eexists.
Qed.

(** ** Witnesses *)

Definition demo_rid : string := "ret-00000000-0000-0000-0000-000000000001".

(** A return request that has claimed its machines. *)
Definition demo_return (ids : list string) : Request.t :=
  Request.fresh demo_rid RequestType.RETURN "return-request" (Z.of_nat (length ids)) "aws"
    (Some "aws-1") (Some "EC2Fleet") ids [] 5 0.
Definition demo_claimed (ids : list string) : db :=
  foldl (claim_one demo_rid) (save_request None (demo_return ids) demo_machines) ids.

Definition demo_sm : FulfilmentStateMachine.t := FulfilmentStateMachine.init 60.

Lemma demo_machines_db_ok : db_ok demo_machines.
Proof. exact (proj1 demo_machines_ok). Qed.

Lemma demo_claimed_ok ids : db_ok (demo_claimed ids).
Proof.
  unfold demo_claimed.
  pose proof (save_request_ok None (demo_return ids) demo_machines demo_machines_db_ok) as [Hr Hm].
  destruct (fold_updates _ _ ids _ (claim_one_updates demo_rid) (λ _, eq_refl) Hm) as (Hm' & Hreq & _).
  split; [|exact Hm']. unfold get_request in *. rewrite Hreq. exact Hr.
Qed.

Lemma demo_in_progress ids : return_in demo_rid (demo_claimed ids) RequestStatus.PENDING.
Proof.
  pose proof (save_request_ok None (demo_return ids) demo_machines demo_machines_db_ok) as [_ Hm].
  destruct (fold_updates _ _ ids _ (claim_one_updates demo_rid) (λ _, eq_refl) Hm) as (_ & Hreq & _).
  unfold return_in, demo_claimed, get_request. rewrite Hreq. by eexists.
Qed.


Lemma unroutable_marked_shutting_down_witness :
  ∃ d' published',
    _execute_deprovisioning_for_request (demo_ports (failing_answer [] [])) demo_sm 3 (λ _, 10)
      ["i-3"] demo_rid (quiet (demo_claimed ["i-3"]) []) = (Ok (), quiet d' published') ∧
    return_in demo_rid d' RequestStatus.PARTIAL.
Proof.
  destruct (unroutable_marked_shutting_down (demo_ports (failing_answer [] [])) demo_sm 3 (λ _, 10)
    demo_rid ["i-3"] (demo_claimed ["i-3"]) []) as (d' & pub' & Hx & Hr & _).
  - lia.
  - reflexivity.
  - apply demo_claimed_ok.
  - apply demo_in_progress.
  - by apply (bool_decide_unpack _).
  - discriminate.
  - intros i [->|Hi]%elem_of_cons; [eexists; split_and!; reflexivity|by apply elem_of_nil in Hi].
  - exists d', pub'. split; [exact Hx|exact Hr].
Defined.

(** A provider that raises on every operation. *)
Definition demo_down : @ports unit unit :=
  mk_ports (λ _, None) (λ _, Ok (Some ())) (λ _, Ok ()) (λ _, Ok ())
    (λ _ _, Err (OtherError "ProviderNotReadyError" "down")).

Lemma skipped_held_by_failed_request_witness :
  ∃ d' published',
    _execute_deprovisioning_for_request demo_down demo_sm 3 (λ _, 10)
      ["i-1"; "i-3"] demo_rid (quiet (demo_claimed ["i-1"; "i-3"]) []) = (Ok (), quiet d' published') ∧
    return_in demo_rid d' RequestStatus.FAILED.
Proof.
  destruct (skipped_held_by_failed_request demo_down demo_sm 3 (λ _, 10) demo_rid ["i-1"; "i-3"]
    (demo_claimed ["i-1"; "i-3"]) [] "i-1" "i-3" MachineStatus.RUNNING []) as (d' & pub' & Hx & Hr & _).
  - lia.
  - reflexivity.
  - apply demo_claimed_ok.
  - apply demo_in_progress.
  - by apply (bool_decide_unpack _).
  - intros i Hi. repeat (apply elem_of_cons in Hi as [->|Hi]);
      [eexists; split_and!; reflexivity..|by apply elem_of_nil in Hi].
  - intros name op. by eexists.
  - by left.
  - reflexivity.
  - right; by left.
  - reflexivity.
  - reflexivity.
  - exists d', pub'. split; [exact Hx|exact Hr].
Defined.

(** Another return takes the machine just before the claim. *)
Definition demo_rival : interference := λ d,
  (None, claim_one "ret-00000000-0000-0000-0000-000000000002" d "i-1").

Lemma claim_takes_over_witness :
  let w := mk_world demo_machines [demo_rival] [] in
  ∃ w', _cancel_validate_and_persist 10 ["i-1"] (demo_return ["i-1"]) false w = (Ok (), w') ∧
        view (w_db w') "i-1" = Some (MachineStatus.RUNNING, Some demo_rid, []).
Proof.
  intros w. eexists. split; [vm_compute; reflexivity|].
  refine (proj1 (claim_takes_over 10 ["i-1"] (demo_return ["i-1"]) w
    (_cancel_validate_and_persist 10 ["i-1"] (demo_return ["i-1"]) false w).2 "i-1" MachineStatus.RUNNING
    "ret-00000000-0000-0000-0000-000000000002" [] _ _ _ _ _)).
  - split; [exact demo_machines_db_ok|]. apply Forall_singleton. intros d [Hr Hm].
    destruct (claim_one_updates "ret-00000000-0000-0000-0000-000000000002" d "i-1" Hm) as (Hm' & Hreq & _).
    split; [|exact Hm']. unfold get_request in *. cbn. rewrite Hreq. exact Hr.
  - vm_compute. reflexivity.
  - by left.
  - vm_compute. reflexivity.
  - discriminate.
Defined.

Lemma machines_filtered_witness :
  ∃ valid skipped w', _filter_machines ["i-1"; "i-9"] false (mk_world demo_machines [] []) =
    (Ok (valid, skipped), w') ∧ valid ++ skipped.*1 ≡ₚ ["i-1"; "i-9"].
Proof.
  do 3 eexists. split; [vm_compute; reflexivity|].
  refine (proj1 (machines_filtered ["i-1"; "i-9"] false (mk_world demo_machines [] []) _ _
    (_filter_machines ["i-1"; "i-9"] false (mk_world demo_machines [] [])).2 _)).
  vm_compute. reflexivity.
Defined.

Lemma custom_prefix_refused_witness :
  ∃ e, create_all (λ _, 10) "return-" (λ _, "00000000-0000-0000-0000-000000000001") [] false 0
         [(("aws", "aws-1", "EC2Fleet"), ["i-1"])] (mk_world demo_machines [] []) =
       (Err e, mk_world demo_machines [] []).
Proof. by apply (custom_prefix_refused (λ _, 10) "return-"). Defined.
