(* ===== verification/MachineSync.v ===== *)
(** * Machines as the provider sees them

    [orb/application/services/machine_sync_service.py]: asking the provider about
    the machines of a request, turning its answer into machines, and writing them
    over the stored ones, with the stamp that says when the request was last
    checked.  The store, its units of work and the other writers are those of
    [Lifecycle].

    A provider's answer is a list of records; a value in one is a JSON value or a
    moment.  Arguments are what pydantic makes of a launch time that is neither a
    text nor a moment, the order in which Python walks a set of identifiers, and
    the provider.  Of ISO texts, those [isoformat] writes are read. *)

From stdpp Require Import base gmap strings list.
From Stdlib Require Import Ascii ZArith Lia.
From S2P Require Import Prelude RequestTypes Diagnostic RequestAggregate FulfilmentSM.
From S2P Require Import MachineAggregate StatusService TimeText Lifecycle Deprovisioning ReturnMachines.
Open Scope Z_scope.

(** ** Python equality *)

(** [d == d'] of two dictionaries, whatever the order of their keys. *)
Definition dict_eqb {V} (eqb : V → V → bool) (d d' : dict V) : bool :=
  (length d =? length d')%nat &&
  forallb (λ kv, match dget kv.1 d' with Some v => eqb kv.2 v | None => false end) d.

Definition tags_eqb : Tags.t → Tags.t → bool := dict_eqb (λ a b, a ≟ b).

Definition json_number (j : json) : option Z :=
  match j with JInt z => Some z | JBool b => Some (if b then 1 else 0) | _ => None end.

Fixpoint json_eqb (a b : json) {struct a} : bool :=
  match a, b with
  | JNull, JNull => true
  | JStr s, JStr t => s ≟ t
  | JList l, JList l' =>
      (fix lists (l l' : list json) : bool :=
         match l, l' with
         | [], [] => true
         | x :: l, y :: l' => json_eqb x y && lists l l'
         | _, _ => false
         end) l l'
  | JDict d, JDict d' =>
      (length d =? length d')%nat &&
      (fix dicts (d : list (string * json)) : bool :=
         match d with
         | [] => true
         | (k, x) :: d => match dget k d' with Some y => json_eqb x y | None => false end && dicts d
         end) d
  | _, _ => match json_number a, json_number b with Some x, Some y => x =? y | _, _ => false end
  end.

(** No dictionary in a value has a key twice. *)
Fixpoint json_wf (j : json) : Prop :=
  match j with
  | JList l => (fix all (l : list json) : Prop :=
                  match l with [] => True | x :: l => json_wf x ∧ all l end) l
  | JDict d => dict_wf d ∧
               (fix all (d : list (string * json)) : Prop :=
                  match d with [] => True | (_, x) :: d => json_wf x ∧ all d end) d
  | _ => True
  end.

(** ** Records of instances *)

Inductive pyval :=
| PJson (j : json)
| PTime (t : datetime).

Abbreviation instance_data := (dict pyval).

(** Whitespace of [str.strip], of ASCII texts. *)
Definition is_space (c : ascii) : bool :=
  let n := Ascii.nat_of_ascii c in
  ((9 <=? n) && (n <=? 13) || (28 <=? n) && (n <=? 32))%nat.

Fixpoint lstrip (l : list ascii) : list ascii :=
  match l with [] => [] | c :: l' => if is_space c then lstrip l' else l end.

Definition strip (s : string) : string :=
  String.string_of_list_ascii (rev (lstrip (rev (lstrip (String.list_ascii_of_string s))))).

(** A value object that holds a stripped text. *)
Definition stripped_text (message : string) (v : pyval) : result string :=
  match v with
  | PJson (JStr s) => if strip s ≟ EmptyString then Err (ValidationError message) else Ok (strip s)
  | _ => Err (ValidationError "Input should be a valid string")
  end.

(** [MachineId(value=v)] and [InstanceType(value=v)]. *)
Definition make_machine_id : pyval → result string := stripped_text "Resource ID cannot be empty".
Definition make_instance_type : pyval → result string :=
  stripped_text "Instance type must be a non-empty string".

Definition py_truthy (v : pyval) : bool := match v with PJson j => truthy j | PTime _ => true end.

(** Fields as pydantic reads them: [Optional[str]], [str], [list[str]], [dict]. *)
Definition optional_text_field (v : option pyval) : result (option string) :=
  match v with
  | None | Some (PJson JNull) => Ok None
  | Some (PJson (JStr s)) => Ok (Some s)
  | _ => Err (ValidationError "Input should be a valid string")
  end.

Definition text_field (v : pyval) : result string :=
  match v with
  | PJson (JStr s) => Ok s
  | _ => Err (ValidationError "Input should be a valid string")
  end.

Definition text_list_field (v : pyval) : result (list string) :=
  match v with
  | PJson (JList l) => mapM_result (λ j, text_field (PJson j)) l
  | _ => Err (ValidationError "Input should be a valid list")
  end.

Definition mapping_field (v : pyval) : result (dict json) :=
  match v with
  | PJson (JDict d) => Ok d
  | _ => Err (ValidationError "Input should be a valid dictionary")
  end.

(** [d.get(k, dflt)] and [d.get(k) or dflt]. *)
Definition get_or (k : string) (dflt : pyval) (d : instance_data) : pyval := dget_default k d dflt.
Definition get_truthy (k : string) (dflt : pyval) (d : instance_data) : pyval :=
  match dget k d with Some v => if py_truthy v then v else dflt | None => dflt end.

Definition required {A} (o : option A) : result A :=
  match o with Some a => Ok a | None => Err (ValidationError "Input should be a valid string") end.

Definition enum_status (v : pyval) : result MachineStatus.t :=
  match (match v with PJson (JStr s) => enum_of_value s | _ => None end) with
  | Some s => Ok s
  | None => Err (ValueError "not a valid MachineStatus")
  end.

(** [s.replace("Z", "+00:00")]. *)
Fixpoint replace_z (s : string) : string :=
  match s with
  | EmptyString => EmptyString
  | String c s' => if decide (c = "Z"%char) then "+00:00" +:+ replace_z s'
                   else String c (replace_z s')
  end.

(** [{**instance_data, "request_id": ..., "resource_id": ...}]. *)
Definition processed (request : Request.t) (data : instance_data) : instance_data :=
  dset "resource_id" (PJson (JStr (default EmptyString (head (Request.resource_ids request)))))
    (dset "request_id" (PJson (JStr (Request.request_id request))) data).

Definition instance_id_of (data : instance_data) : option string :=
  match dget "instance_id" data with Some (PJson (JStr i)) => Some i | _ => None end.

Definition terminal_states : list string := ["shutting-down"; "terminated"; "stopping"; "stopped"].

(** ** Copies of a stored machine *)

Definition _create_terminated_machine (existing : Machine.t) : result Machine.t :=
  Machine.rebuilt (existing <| Machine.status := MachineStatus.TERMINATED |>
                            <| Machine.status_reason := Some "Terminated" |>
                            <| Machine.version := Machine.version existing + 1 |>).

Definition _create_machine_with_status (existing : Machine.t) (status : MachineStatus.t)
  : result Machine.t :=
  Machine.rebuilt (existing <| Machine.status := status |>
                            <| Machine.version := Machine.version existing + 1 |>).

(** [image_id in (None, "", "unknown")]. *)
Definition unset_image (image_id : string) : bool := image_id ∈? [EmptyString; "unknown"].

Definition _should_adopt_image_id (existing provider_machine : Machine.t) : bool :=
  negb (unset_image (Machine.image_id provider_machine)) && unset_image (Machine.image_id existing).

(** The reason stored with the status the provider reports. *)
Definition settled_reason (provider_machine : Machine.t) : option string :=
  let reason := Machine.status_reason provider_machine in
  if (Machine.status provider_machine ≟ MachineStatus.TERMINATED)
     && (negb (str_truthy reason) || contains "in progress" (str_lower (default EmptyString reason)))
  then Some "Terminated" else reason.

(** The provider's tags go in as a [Tags] object, which validates as it is. *)
Definition _apply_provider_state (existing provider_machine : Machine.t) : Machine.t :=
  existing
    <| Machine.status := Machine.status provider_machine |>
    <| Machine.private_ip := Machine.private_ip provider_machine |>
    <| Machine.public_ip := Machine.public_ip provider_machine |>
    <| Machine.name := if str_truthy (Machine.name existing) then Machine.name existing
                       else Machine.name provider_machine |>
    <| Machine.private_dns_name := Machine.private_dns_name provider_machine |>
    <| Machine.public_dns_name := Machine.public_dns_name provider_machine |>
    <| Machine.price_type := Machine.price_type provider_machine |>
    <| Machine.instance_type := Machine.instance_type provider_machine |>
    <| Machine.status_reason := settled_reason provider_machine |>
    <| Machine.provider_data := Machine.provider_data provider_machine |>
    <| Machine.launch_time := match Machine.launch_time provider_machine with
                              | Some t => Some t | None => Machine.launch_time existing end |>
    <| Machine.subnet_id := Machine.subnet_id provider_machine |>
    <| Machine.security_group_ids := Machine.security_group_ids provider_machine |>
    <| Machine.vpc_id := Machine.vpc_id provider_machine |>
    <| Machine.version := Machine.version existing + 1 |>
    <| Machine.tags := Machine.tags provider_machine |>
    <| Machine.resource_id :=
         if str_truthy (Machine.resource_id provider_machine)
            && negb (str_truthy (Machine.resource_id existing))
         then Machine.resource_id provider_machine else Machine.resource_id existing |>
    <| Machine.image_id := if _should_adopt_image_id existing provider_machine
                           then Machine.image_id provider_machine else Machine.image_id existing |>
    <| Machine.domain_events := [] |>.

(** ** Fetching *)

(** The operation handed to the provider; the request goes with both kinds. *)
Inductive fetch_operation :=
| GET_INSTANCE_STATUS (instance_ids : list string) (template_id : string)
    (coordinates : dict machine_coordinates) (request : Request.t)
| DESCRIBE_RESOURCE_INSTANCES (resource_ids : list string) (provider_api : option string)
    (template_id : string) (requested_count : Z) (request : Request.t).

(** What the provider answers: [data] is falsy, or has instances, or has none. *)
Record fetch_result := mk_fetch_result {
  fr_success : bool;
  fr_data : option (option (list instance_data));
  fr_metadata : provider_metadata
}.

Record sync_ports := mk_sync_ports {
  sp_instance_config : string → result unit;
  (* the registry's [execute_operation]; [None] without a registry *)
  sp_execute : option (string → fetch_operation → result fetch_result);
  (* pydantic's reading of a launch time that is neither text nor moment *)
  sp_moment : json → result (option datetime);
  (* the order in which a set of identifiers is walked *)
  sp_walk : list string → list string
}.

(** [FailedProviderFetch] is the list of stored machines under another class. *)
Inductive provider_fetch :=
| Fetched (machines : list Machine.t)
| FailedProviderFetch (machines : list Machine.t).

Definition no_metadata : provider_metadata := mk_provider_metadata false None.
Definition fetch_failed_metadata : provider_metadata := mk_provider_metadata true None.

(** [{str(m.machine_id.value): m for m in machines}]. *)
Definition by_id (machines : list Machine.t) : dict Machine.t :=
  foldl (λ acc m, dset (Machine.machine_id m) m acc) [] machines.

(** [except Exception] lets the cancellation of the task through: that is how a
    provider that does not answer in time ends. *)
Definition unless_cancelled {A} (a : A) (e : exn) : action A :=
  if is_cancelled e then raise e else mret a.

Section service.
Context (p : sync_ports).

Definition read_launch_time (v : option pyval) : result (option datetime) :=
  match v with
  | None | Some (PJson JNull) => Ok None
  | Some (PTime t) => Ok (Some t)
  | Some (PJson (JStr s)) => Ok (fromisoformat (replace_z s))
  | Some (PJson j) => sp_moment p j
  end.

Definition _create_machine_from_processed_data (data : instance_data) (request : Request.t)
    (now : datetime) : result Machine.t :=
  launch_time ← read_launch_time (dget "launch_time" data);
  raw_id ← match dget "instance_id" data with Some v => Ok v | None => Err (KeyError "instance_id") end;
  machine_id ← make_machine_id raw_id;
  name ← optional_text_field (dget "name" data);
  provider_name ← required (Request.provider_name request);
  provider_api ← required (Request.provider_api request);
  _ ← (if provider_api ≟ EmptyString
       then Err (ValidationError "String should have at least 1 character") else Ok ());
  resource_id ← optional_text_field (dget "resource_id" data);
  instance_type ← make_instance_type (get_truthy "instance_type" (PJson (JStr "unknown")) data);
  image_id ← text_field (get_or "image_id" (PJson (JStr "unknown")) data);
  price_type ← optional_text_field (dget "price_type" data);
  status ← enum_status (get_or "status" (PJson (JStr "pending")) data);
  status_reason ← optional_text_field (dget "status_reason" data);
  private_ip ← optional_text_field (dget "private_ip" data);
  public_ip ← optional_text_field (dget "public_ip" data);
  private_dns_name ← optional_text_field (dget "private_dns_name" data);
  public_dns_name ← optional_text_field (dget "public_dns_name" data);
  subnet_id ← optional_text_field (dget "subnet_id" data);
  vpc_id ← optional_text_field (dget "vpc_id" data);
  security_group_ids ← text_list_field (get_or "security_group_ids" (PJson (JList [])) data);
  raw_tags ← mapping_field (get_truthy "tags" (PJson (JDict [])) data);
  tags ← mapM_result Tags.as_tag raw_tags;
  metadata ← mapping_field (get_or "metadata" (PJson (JDict [])) data);
  provider_data ← mapping_field (get_truthy "provider_data" (PJson (JDict [])) data);
  Ok {| Machine.machine_id := machine_id; Machine.name := name;
        Machine.template_id := Request.template_id request;
        Machine.request_id := Some (Request.request_id request);
        Machine.return_request_id := None;
        Machine.provider_type := Request.provider_type request;
        Machine.provider_name := provider_name; Machine.provider_api := provider_api;
        Machine.resource_id := resource_id; Machine.instance_type := instance_type;
        Machine.image_id := image_id; Machine.price_type := price_type;
        Machine.private_ip := private_ip; Machine.public_ip := public_ip;
        Machine.private_dns_name := private_dns_name;
        Machine.public_dns_name := public_dns_name; Machine.subnet_id := subnet_id;
        Machine.security_group_ids := security_group_ids; Machine.vpc_id := vpc_id;
        Machine.status := status; Machine.status_reason := status_reason;
        Machine.launch_time := launch_time; Machine.provisioning_started_at := None;
        Machine.termination_time := None; Machine.tags := tags; Machine.metadata := metadata;
        Machine.provider_data := provider_data; Machine.version := 0;
        Machine.created_at := Some now; Machine.persisted_revision := 0;
        Machine.domain_events := [] |}.

(** One record of the answer: the machine it makes, or the exception that drops it. *)
Definition convert (request : Request.t) (stored : dict Machine.t) (now : datetime)
    (data : instance_data) : result Machine.t :=
  let data := processed request data in
  let reported := match dget "status" data with Some (PJson (JStr s)) => s | _ => EmptyString end in
  let existing := i ← instance_id_of data; dget i stored in
  match existing with
  | Some existing =>
      if reported ∈? terminal_states then
        status ← enum_status (PJson (JStr reported));
        _create_machine_with_status existing status
      else _create_machine_from_processed_data data request now
  | None => _create_machine_from_processed_data data request now
  end.

(** The loop over the answer: the machines made, and the identifiers they were
    reported under. *)
Fixpoint convert_all (request : Request.t) (stored : dict Machine.t) (now : datetime)
    (instances : list instance_data) : list Machine.t * list string :=
  match instances with
  | [] => ([], [])
  | data :: rest =>
      let '(machines, ids) := convert_all request stored now rest in
      match convert request stored now data with
      | Ok m => (m :: machines, from_option (λ i, i :: ids) ids (instance_id_of data))
      | Err _ => (machines, ids)
      end
  end.

(** The stored machines of the identifiers the answer left out. *)
Fixpoint terminate_missing (db_machines : list Machine.t) (missing : list string)
  : result (list Machine.t) :=
  match missing with
  | [] => Ok []
  | i :: rest =>
      match List.find (λ m, Machine.machine_id m ≟ i) db_machines with
      | Some existing =>
          m ← _create_terminated_machine existing;
          ms ← terminate_missing db_machines rest;
          Ok (m :: ms)
      | None => terminate_missing db_machines rest
      end
  end.

Definition is_return (request : Request.t) : bool := Request.request_type request ≟ RequestType.RETURN.

Definition choose_operation (request : Request.t) (db_machines : list Machine.t)
  : action (option fetch_operation) :=
  if is_return request && negb (Request.is_nil (Request.machine_ids request)) then
    coordinates ← load_machine_coordinates (Request.machine_ids request);
    mret (Some (GET_INSTANCE_STATUS (Request.machine_ids request) (Request.template_id request)
                  coordinates request))
  else if negb (Request.is_nil (Request.resource_ids request)) then
    mret (Some (DESCRIBE_RESOURCE_INSTANCES (Request.resource_ids request)
                  (Request.provider_api request) (Request.template_id request)
                  (Request.requested_count request) request))
  else if negb (Request.is_nil db_machines) then
    let instance_ids := Machine.machine_id <$> db_machines in
    coordinates ← load_machine_coordinates instance_ids;
    mret (Some (GET_INSTANCE_STATUS instance_ids (Request.template_id request) coordinates request))
  else mret None.

Definition queried_ids (operation : fetch_operation) : list string :=
  match operation with GET_INSTANCE_STATUS ids _ _ _ => ids | _ => [] end.

(** What an answer makes of the machines. *)
Definition read_answer (request : Request.t) (db_machines : list Machine.t)
    (operation : fetch_operation) (now : datetime) (instances : list instance_data)
  : result (list Machine.t) :=
  let '(machines, returned_ids) := convert_all request (by_id db_machines) now instances in
  if is_return request then
    let missing := filter (λ i, i ∉ returned_ids) (dedup_by id (queried_ids operation)) in
    terminated ← terminate_missing db_machines (sp_walk p missing);
    Ok (machines ++ terminated)
  else Ok machines.

Definition fetch_provider_machines (request : Request.t) (db_machines : list Machine.t)
    (now : datetime) : action (provider_fetch * provider_metadata) :=
  let provider := or_str (Request.provider_name request) EmptyString in
  try_except
    (operation ← choose_operation request db_machines;
     match operation with
     | None => mret (Fetched [], no_metadata)
     | Some operation =>
         _ ← call (sp_instance_config p provider);
         match sp_execute p with
         | None => raise (RuntimeError "ProviderRegistryService is required for this operation")
         | Some execute_operation =>
             answer ← call (execute_operation provider operation);
             match fr_success answer, fr_data answer with
             | true, Some instances =>
                 machines ← call (read_answer request db_machines operation now (default [] instances));
                 mret (Fetched machines, fr_metadata answer)
             | _, _ => mret (FailedProviderFetch db_machines, fetch_failed_metadata)
             end
         end
     end)
    (unless_cancelled (FailedProviderFetch db_machines, fetch_failed_metadata)).
End service.

(** ** Writing *)

Definition stamp_stored (request_id : string) (now : datetime) (d : db) : result (unit * db) :=
  match get_request d request_id with
  | None => Ok ((), d)
  | Some current =>
      if RequestStatus.is_terminal (Request.status current) || Request.awaiting_resources current
      then Ok ((), d)
      else Ok ((), save_request (Some (Request.version current))
                     (Request.record_status_check current now) d)
  end.

Definition _stamp_status_check (request : Request.t) (now : datetime) : action unit :=
  attempts 2 0 () (λ _, unit_of_work (stamp_stored (Request.request_id request) now)).

Definition write_stored (provider_machine : Machine.t) (expected : option Machine.t) (d : db)
  : result (Machine.t * db) :=
  match get_machine d (Machine.machine_id provider_machine), expected with
  | None, Some expected => Ok (expected, d)
  | None, None => Ok (provider_machine, save_machine None provider_machine d)
  | Some current, _ =>
      let saved := _apply_provider_state current provider_machine in
      Ok (saved, save_machine (Some (Machine.version current)) saved d)
  end.

Definition _write_machine (provider_machine : Machine.t) (expected : option Machine.t)
  : action Machine.t :=
  attempts 2 0 provider_machine (λ _, unit_of_work (write_stored provider_machine expected)).

(** ** Syncing *)

Definition needs_update (existing provider_machine : Machine.t) : bool :=
  negb (Machine.status existing ≟ Machine.status provider_machine)
  || negb (Machine.private_ip existing ≟ Machine.private_ip provider_machine)
  || negb (Machine.public_ip existing ≟ Machine.public_ip provider_machine)
  || negb (Machine.private_dns_name existing ≟ Machine.private_dns_name provider_machine)
  || negb (Machine.public_dns_name existing ≟ Machine.public_dns_name provider_machine)
  || negb (Machine.price_type existing ≟ Machine.price_type provider_machine)
  || negb (Machine.instance_type existing ≟ Machine.instance_type provider_machine)
  || negb (tags_eqb (Machine.tags existing) (Machine.tags provider_machine))
  || negb (Machine.subnet_id existing ≟ Machine.subnet_id provider_machine)
  || negb (Machine.security_group_ids existing ≟ Machine.security_group_ids provider_machine)
  || negb (Machine.vpc_id existing ≟ Machine.vpc_id provider_machine)
  || negb (Machine.status_reason existing ≟ Machine.status_reason provider_machine)
  || negb (json_eqb (JDict (Machine.provider_data existing)) (JDict (Machine.provider_data provider_machine)))
  || (str_truthy (Machine.resource_id provider_machine) && negb (str_truthy (Machine.resource_id existing)))
  || _should_adopt_image_id existing provider_machine.

(** A place of [updated_machines]: a stored machine that stays, or one to write,
    whose result goes to the same place. *)
Inductive slot :=
| Keep (existing : Machine.t)
| Upsert (provider_machine : Machine.t) (existing : option Machine.t).

Definition slot_of (existing_by_id : dict Machine.t) (provider_machine : Machine.t) : slot :=
  match dget (Machine.machine_id provider_machine) existing_by_id with
  | Some existing =>
      if needs_update existing provider_machine then Upsert provider_machine (Some existing)
      else Keep existing
  | None => Upsert provider_machine None
  end.

Definition write_slot (s : slot) : action Machine.t :=
  match s with
  | Keep existing => mret existing
  | Upsert provider_machine existing => _write_machine provider_machine existing
  end.

Fixpoint write_slots (slots : list slot) : action (list Machine.t) :=
  match slots with
  | [] => mret []
  | s :: rest => m ← write_slot s; ms ← write_slots rest; mret (m :: ms)
  end.

Definition is_conflict (e : exn) : bool := match e with ConcurrencyError _ _ => true | _ => false end.

(** [except ConcurrencyError: raise] before [except Exception: ...]. *)
Definition unless_conflict {A} (a : A) (e : exn) : action A :=
  if is_conflict e then raise e else mret a.

Definition sync_machines_with_provider (request : Request.t) (db_machines : list Machine.t)
    (fetched : provider_fetch) (now : datetime) : action (list Machine.t) :=
  let provider_machines := match fetched with Fetched ms | FailedProviderFetch ms => ms end in
  try_except
    (updated_machines ← write_slots (slot_of (by_id db_machines) <$> provider_machines);
     match fetched with
     | FailedProviderFetch _ => mret updated_machines
     | Fetched _ =>
         _ ← try_except (_stamp_status_check request now) (unless_conflict ());
         mret updated_machines
     end)
    (unless_conflict db_machines).

(** ** Lemmas: equality *)

Lemma dget_In {V} (d : dict V) k v : dict_wf d → In (k, v) d → dget k d = Some v.
Proof.
  unfold dict_wf, dkeys. induction d as [|[k' v'] d IH]; cbn; [done|].
  intros Hnd. apply NoDup_cons in Hnd as [Hk Hnd]. intros [[= -> ->]|Hin].
  - by rewrite decide_True.
  - rewrite decide_False; [by apply IH|]. intros ->. apply Hk, list_elem_of_fmap.
    exists (k, v). split; [done|by apply list_elem_of_In].
Qed.

Lemma dict_eqb_refl {V} (eqb : V → V → bool) d :
  dict_wf d → (∀ k v, In (k, v) d → eqb v v = true) → dict_eqb eqb d d = true.
Proof.
  intros Hwf Heq. unfold dict_eqb. rewrite Nat.eqb_refl. apply forallb_forall.
  intros [k v] Hin. cbn. rewrite (dget_In _ k v) by done. by eapply Heq.
Qed.

Fixpoint json_eqb_refl (j : json) {struct j} : json_wf j → json_eqb j j = true.
Proof.
  destruct j as [|b|z|s|l|d]; cbn [json_eqb json_wf json_number].
  - done.
  - intros _. apply Z.eqb_refl.
  - intros _. apply Z.eqb_refl.
  - intros _. by apply bool_decide_eq_true.
  - revert l. fix IHl 1. intros [|x l]; [reflexivity|]. intros [Hx Hl].
    rewrite (json_eqb_refl x Hx). exact (IHl l Hl).
  - intros [Hwf Hall]. rewrite Nat.eqb_refl. cbn [andb].
    assert (Hin : ∀ k v, In (k, v) d → dget k d = Some v) by (intros; by apply dget_In).
    revert Hin. generalize d at 2 3 as d0. intros d0. clear Hwf. revert d Hall.
    fix IHd 1. intros [|[k x] d]; [reflexivity|]. intros [Hx Hd] Hin.
    rewrite (Hin k x) by (by left). rewrite (json_eqb_refl x Hx). apply (IHd d Hd).
    intros k' v' Hv. apply Hin. by right.
Qed.

(** The dictionaries of a machine are dictionaries. *)
Definition machine_dicts (m : Machine.t) : Prop :=
  dict_wf (Machine.tags m) ∧ json_wf (JDict (Machine.provider_data m)).

Lemma tags_eqb_refl tags : dict_wf tags → tags_eqb tags tags = true.
Proof. intros Hwf. apply dict_eqb_refl; [done|]. intros. by apply bool_decide_eq_true. Qed.

Lemma adopt_irrefl m : _should_adopt_image_id m m = false.
Proof. unfold _should_adopt_image_id. by destruct (unset_image _). Qed.

(** ** Lemmas: syncing twice *)

Lemma adopt_adopted e p :
  _should_adopt_image_id (_apply_provider_state e p) p = false.
Proof.
  unfold _should_adopt_image_id at 1. cbn [_apply_provider_state Machine.image_id].
  unfold _apply_provider_state. cbn.
  destruct (_should_adopt_image_id e p) eqn:Ha; unfold _should_adopt_image_id in Ha.
  - by destruct (unset_image (Machine.image_id p)).
  - done.
Qed.

Lemma resource_adopted e p :
  str_truthy (Machine.resource_id p)
  && negb (str_truthy (Machine.resource_id (_apply_provider_state e p))) = false.
Proof.
  unfold _apply_provider_state. cbn.
  destruct (str_truthy (Machine.resource_id p)) eqn:Hp, (str_truthy (Machine.resource_id e)) eqn:He;
    cbn; by rewrite ?Hp, ?He.
Qed.

Lemma needs_update_same e p :
  machine_dicts p →
  (Machine.status e, Machine.private_ip e, Machine.public_ip e, Machine.private_dns_name e,
   Machine.public_dns_name e, Machine.price_type e, Machine.instance_type e, Machine.tags e,
   Machine.subnet_id e, Machine.security_group_ids e, Machine.vpc_id e, Machine.provider_data e) =
  (Machine.status p, Machine.private_ip p, Machine.public_ip p, Machine.private_dns_name p,
   Machine.public_dns_name p, Machine.price_type p, Machine.instance_type p, Machine.tags p,
   Machine.subnet_id p, Machine.security_group_ids p, Machine.vpc_id p, Machine.provider_data p) →
  str_truthy (Machine.resource_id p) && negb (str_truthy (Machine.resource_id e)) = false →
  _should_adopt_image_id e p = false →
  needs_update e p = negb (Machine.status_reason e ≟ Machine.status_reason p).
Proof.
  intros [Htags Hdata] [= H1 H2 H3 H4 H5 H6 H7 H8 H9 H10 H11 H12] Hres Hadopt.
  unfold needs_update. rewrite Hres, Hadopt, H1, H2, H3, H4, H5, H6, H7, H8, H9, H10, H11, H12.
  rewrite tags_eqb_refl, json_eqb_refl by done.
  rewrite !(bool_decide_eq_true_2 (_ = _)) by done. cbn [negb orb]. by rewrite !orb_false_r.
Qed.

Lemma needs_update_irrefl m : machine_dicts m → needs_update m m = false.
Proof.
  intros Hm. rewrite needs_update_same; try done.
  - by rewrite bool_decide_eq_true_2.
  - by destruct (str_truthy _).
  - apply adopt_irrefl.
Qed.

(** ** Lemmas: machines by identifier *)

Lemma by_id_snoc ms m : by_id (ms ++ [m]) = dset (Machine.machine_id m) m (by_id ms).
Proof. unfold by_id. by rewrite foldl_app. Qed.

Lemma by_id_Some ms i m : dget i (by_id ms) = Some m → m ∈ ms ∧ Machine.machine_id m = i.
Proof.
  induction ms as [|m' ms IH] using rev_ind; [done|]. rewrite by_id_snoc, dget_dset.
  case_decide as Hi; [intros [= <-]|intros H; apply IH in H]; set_solver.
Qed.

Lemma by_id_None ms i : dget i (by_id ms) = None ↔ i ∉ Machine.machine_id <$> ms.
Proof.
  induction ms as [|m' ms IH] using rev_ind; [set_solver|].
  rewrite by_id_snoc, dget_dset, fmap_app. case_decide; set_solver.
Qed.

Lemma by_id_own ms m :
  NoDup (Machine.machine_id <$> ms) → m ∈ ms → dget (Machine.machine_id m) (by_id ms) = Some m.
Proof.
  induction ms as [|m' ms IH] using rev_ind; [set_solver|].
  rewrite by_id_snoc, dget_dset, fmap_app. intros (Hnd & Hd & _)%NoDup_app Hm.
  apply elem_of_app in Hm as [Hm| ->%list_elem_of_singleton]; [|by rewrite decide_True].
  rewrite decide_False; [auto|]. intros Heq.
  apply (Hd (Machine.machine_id m)); [by apply list_elem_of_fmap_2|set_solver].
Qed.

(** ** Lemmas: what a handler keeps, whoever else writes *)

(** [I] holds, and the rest of the system keeps it. *)
Definition stable (I : db → Prop) (w : world) : Prop :=
  I (w_db w) ∧ Forall (λ f : interference, ∀ d, I d → I (f d).2) (w_env w).

Lemma stable_and I J w : stable I w → stable J w → stable (λ d, I d ∧ J d) w.
Proof.
  intros [HI HfI] [HJ HfJ]. split; [done|]. apply Forall_forall. intros f Hf d [Hd Hd'].
  by split; [apply (proj1 (Forall_forall _ _) HfI)|apply (proj1 (Forall_forall _ _) HfJ)].
Qed.

Lemma stable_encounter I w : stable I w → stable I (after_encounters 1 w).
Proof.
  destruct w as [d env ev]. intros [Hd He]. unfold stable, encounter. cbn in *.
  destruct He as [|f env Hf He]; split; cbn; auto.
Qed.

Definition preserves {A} (I : db → Prop) (m : action A) : Prop := ∀ w, stable I w → stable I (m w).2.

Section preserves.
Context (I : db → Prop).

Lemma preserves_ret {A} (a : A) : preserves I (mret a).
Proof. by intros w. Qed.
Lemma preserves_raise {A} (e : exn) : preserves I (raise e : action A).
Proof. by intros w. Qed.
Lemma preserves_call {A} (r : result A) : preserves I (call r).
Proof. by intros w. Qed.
Lemma preserves_bind {A B} (m : action A) (f : A → action B) :
  preserves I m → (∀ a, preserves I (f a)) → preserves I (m ≫= f).
Proof.
  intros Hm Hf w Hw. unfold mbind, action_bind. specialize (Hm w Hw).
  destruct (m w) as [[a|e] w']; [by apply Hf|done].
Qed.
Lemma preserves_try {A} (m : action A) h :
  preserves I m → (∀ e, preserves I (h e)) → preserves I (try_except m h).
Proof.
  intros Hm Hh w Hw. unfold try_except. specialize (Hm w Hw).
  destruct (m w) as [[a|e] w']; [done|by apply Hh].
Qed.
Lemma preserves_unit {A} (body : db → result (A * db)) :
  (∀ d a d', body d = Ok (a, d') → I d → I d') → preserves I (unit_of_work body).
Proof.
  intros Hb w Hw. apply stable_encounter in Hw.
  destruct (unit_of_work_cases body w) as [(e & _ & ->)|[_ ->]]; [done|].
  destruct (body _) as [[a d']|e] eqn:H; [|done]. destruct Hw as [Hd He].
  split; [by eapply Hb|done].
Qed.
Lemma preserves_attempts {A} n k (ft : A) body :
  (∀ k, preserves I (body k)) → preserves I (attempts n k ft body).
Proof.
  intros Hb. revert k. induction n as [|n IH]; intros k w Hw; [done|]. cbn [attempts].
  specialize (Hb k w Hw). destruct (body k w) as [[a|[]] w']; try done.
  destruct n; [done|by apply IH].
Qed.
Lemma preserves_read {A} (f : db → result A) : preserves I (unit_of_work (λ d, x ← f d; Ok (x, d))).
Proof.
  apply preserves_unit. intros d a d' H. by apply result_bind_Ok in H as (x & _ & [= _ <-]).
Qed.
End preserves.

Create HintDb preserves.
#[export] Hint Resolve preserves_ret preserves_raise preserves_call preserves_bind preserves_try
  preserves_attempts preserves_read : preserves.

(** The changes a sync makes to the store. *)
Inductive sync_step (request_id : string) (now : datetime) (db_machines provider_machines : list Machine.t)
  : db → db → Prop :=
| overlaid p current d :
    p ∈ provider_machines → get_machine d (Machine.machine_id p) = Some current →
    sync_step request_id now db_machines provider_machines d
      (save_machine (Some (Machine.version current)) (_apply_provider_state current p) d)
| discovered p d :
    p ∈ provider_machines → Machine.machine_id p ∉ Machine.machine_id <$> db_machines →
    get_machine d (Machine.machine_id p) = None →
    sync_step request_id now db_machines provider_machines d (save_machine None p d)
| stamped current d :
    get_request d request_id = Some current →
    RequestStatus.is_terminal (Request.status current) = false →
    Request.awaiting_resources current = false →
    sync_step request_id now db_machines provider_machines d
      (save_request (Some (Request.version current)) (Request.record_status_check current now) d).

Definition machines_of (fetched : provider_fetch) : list Machine.t :=
  match fetched with Fetched ms | FailedProviderFetch ms => ms end.

Lemma write_slots_preserves I request_id now dbm ps ps' :
  (∀ d d', sync_step request_id now dbm ps d d' → I d → I d') → ps' ⊆ ps →
  preserves I (write_slots (slot_of (by_id dbm) <$> ps')).
Proof.
  intros Hstep. induction ps' as [|p ps' IH]; intros Hsub; cbn [fmap list_fmap write_slots].
  { apply preserves_ret. }
  assert (Hp : p ∈ ps) by set_solver. assert (Hsub' : ps' ⊆ ps) by set_solver.
  specialize (IH Hsub'). apply preserves_bind; [|eauto with preserves]. unfold slot_of.
  assert (Hw : ∀ expected, (expected = None → Machine.machine_id p ∉ Machine.machine_id <$> dbm) →
    preserves I (_write_machine p expected)).
  { intros expected He. apply preserves_attempts. intros _. apply preserves_unit.
    intros d a d'. unfold write_stored. destruct (get_machine d _) as [current|] eqn:Hg.
    - intros [= _ <-]. apply Hstep. by apply overlaid.
    - destruct expected as [expected|]; intros [= _ <-]; [done|]. apply Hstep.
      apply discovered; auto. }
  destruct (dget _ (by_id dbm)) as [existing|] eqn:Hg; [destruct (needs_update existing p)|].
  - by apply Hw.
  - apply preserves_ret.
  - apply by_id_None in Hg. by apply Hw.
Qed.

Lemma unless_conflict_preserves I {A} (a : A) e : preserves I (unless_conflict a e).
Proof. unfold unless_conflict. destruct (is_conflict e); auto with preserves. Qed.
#[export] Hint Resolve unless_conflict_preserves : preserves.

(** Whatever the steps of a sync and the rest of the system keep, the sync keeps. *)
Lemma sync_preserves I request dbm fetched now :
  (∀ d d', sync_step (Request.request_id request) now dbm (machines_of fetched) d d' → I d → I d') →
  preserves I (sync_machines_with_provider request dbm fetched now).
Proof.
  intros Hstep. unfold sync_machines_with_provider. apply preserves_try; [|auto with preserves].
  apply preserves_bind; [by eapply write_slots_preserves; [exact Hstep|]|].
  intros ms. destruct fetched; [|auto with preserves].
  apply preserves_bind; [|auto with preserves]. apply preserves_try; [|auto with preserves].
  apply preserves_attempts. intros _. apply preserves_unit. intros d a d'. unfold stamp_stored.
  destruct (get_request d _) as [current|] eqn:Hg; [|by intros [= _ <-]].
  destruct (RequestStatus.is_terminal _) eqn:Ht; [by intros [= _ <-]|].
  destruct (Request.awaiting_resources _) eqn:Ha; [by intros [= _ <-]|].
  intros [= _ <-]. apply Hstep. by apply stamped.
Qed.

(** ** Lemmas: reading an answer *)

Lemma text_field_Ok v s : text_field v = Ok s → v = PJson (JStr s).
Proof. destruct v as [[]|]; cbn; by intros [= <-]. Qed.

Lemma make_machine_id_Ok v i : make_machine_id v = Ok i → ∃ s, v = PJson (JStr s) ∧ i = strip s.
Proof.
  destruct v as [[]|]; cbn; try done. case_bool_decide; [done|]. intros [= <-]. eauto.
Qed.

(** A record that became a machine had an identifier, which the machine carries
    stripped, and a text for its image. *)
Lemma from_processed_Ok p data request now m :
  _create_machine_from_processed_data p data request now = Ok m →
  (∃ i, instance_id_of data = Some i ∧ Machine.machine_id m = strip i) ∧
  ∃ image, get_or "image_id" (PJson (JStr "unknown")) data = PJson (JStr image).
Proof.
  unfold _create_machine_from_processed_data. intros H.
  repeat (apply result_bind_Ok in H as (? & ? & H)).
  injection H as <-. cbn [Machine.machine_id]. split.
  - unfold instance_id_of. destruct (dget "instance_id" data) as [v|]; [|done].
    match goal with E : Ok v = Ok _ |- _ => injection E as <- end.
    match goal with E : make_machine_id v = Ok _ |- _ => apply make_machine_id_Ok in E as (s & -> & ->) end.
    eauto.
  - match goal with E : text_field (get_or "image_id" _ _) = Ok _ |- _ => apply text_field_Ok in E end.
    eauto.
Qed.

Lemma dget_processed k request data :
  k ≠ "resource_id" → k ≠ "request_id" → dget k (processed request data) = dget k data.
Proof. intros H1 H2. unfold processed. by rewrite !dget_dset, !decide_False by congruence. Qed.

Lemma instance_id_processed request data : instance_id_of (processed request data) = instance_id_of data.
Proof. unfold instance_id_of. by rewrite dget_processed. Qed.

Lemma rebuilt_Ok m m' : Machine.rebuilt m = Ok m' → m' = m <| Machine.domain_events := [] |>.
Proof. rewrite Machine.rebuilt_spec. destruct (dmem _ _); [done|]. by intros [= <-]. Qed.

Lemma convert_Ok p request dbm now data m :
  convert p request (by_id dbm) now data = Ok m →
  ∃ i, instance_id_of data = Some i ∧ (Machine.machine_id m = i ∨ Machine.machine_id m = strip i).
Proof.
  unfold convert. rewrite instance_id_processed. destruct (instance_id_of data) as [i|] eqn:Hi.
  - intros H. exists i. split; [done|]. cbn [mbind option_bind] in H.
    assert (Hnew : _create_machine_from_processed_data p (processed request data) request now = Ok m →
                   Machine.machine_id m = strip i).
    { intros [(j & Hj & ->) _]%from_processed_Ok. rewrite instance_id_processed, Hi in Hj. by injection Hj as ->. }
    destruct (dget i (by_id dbm)) as [existing|] eqn:Hg; [|auto].
    case_bool_decide; [|auto]. left. apply result_bind_Ok in H as (s & _ & H).
    apply rebuilt_Ok in H as ->. cbn. by apply by_id_Some in Hg as [_ ->].
  - cbn. intros [(j & Hj & _) _]%from_processed_Ok. by rewrite instance_id_processed, Hi in Hj.
Qed.

Lemma convert_all_spec p request dbm now instances ms ids :
  convert_all p request (by_id dbm) now instances = (ms, ids) →
  (∀ m, m ∈ ms ↔ ∃ data, data ∈ instances ∧ convert p request (by_id dbm) now data = Ok m) ∧
  (∀ i, i ∈ ids ↔ ∃ data m, data ∈ instances ∧ instance_id_of data = Some i ∧
                            convert p request (by_id dbm) now data = Ok m).
Proof.
  revert ms ids. induction instances as [|data rest IH]; intros ms ids; cbn [convert_all].
  { intros [= <- <-]. split; set_solver. }
  destruct (convert_all p request (by_id dbm) now rest) as [ms' ids'] eqn:Hall.
  destruct (IH _ _ eq_refl) as [IHm IHi]. clear IH.
  destruct (convert p request (by_id dbm) now data) as [m|e] eqn:Hc.
  - pose proof (convert_Ok _ _ _ _ _ _ Hc) as (j & Hj & _). rewrite Hj. cbn [from_option].
    intros [= <- <-]. split.
    + intros m'. rewrite elem_of_cons, IHm. split.
      * intros [->|(x & ? & ?)]; [exists data|exists x]; set_solver.
      * intros (x & [->|Hx]%elem_of_cons & Hcx); [left; congruence|eauto].
    + intros i. rewrite elem_of_cons, IHi. split.
      * intros [->|(x & m' & ? & ? & ?)]; [exists data, m|exists x, m']; set_solver.
      * intros (x & m' & [->|Hx]%elem_of_cons & Hi & Hcx); [left; congruence|eauto 6].
  - intros [= <- <-]. split.
    + intros m'. rewrite IHm. split; [intros (x & ? & ?); exists x; set_solver|].
      intros (x & [->|Hx]%elem_of_cons & Hcx); [congruence|eauto].
    + intros i. rewrite IHi. split; [intros (x & m' & ? & ? & ?); exists x, m'; set_solver|].
      intros (x & m' & [->|Hx]%elem_of_cons & Hi & Hcx); [congruence|eauto 6].
Qed.

Lemma terminate_missing_spec dbm missing ms :
  terminate_missing dbm missing = Ok ms →
  ∀ i m, i ∈ missing → m ∈ dbm → Machine.machine_id m = i →
    ∃ m', m' ∈ ms ∧ Machine.machine_id m' = i ∧ Machine.status m' = MachineStatus.TERMINATED.
Proof.
  revert ms. induction missing as [|j missing IH]; intros ms; cbn [terminate_missing]; [set_solver|].
  intros H i m Hi Hm Hid.
  destruct (List.find _ dbm) as [existing|] eqn:Hf.
  - apply result_bind_Ok in H as (t & Ht & H). apply result_bind_Ok in H as (ms' & Hms & [= <-]).
    apply elem_of_cons in Hi as [->|Hi].
    + apply List.find_some in Hf as [_ Hf]. apply bool_decide_eq_true in Hf.
      apply rebuilt_Ok in Ht as ->. eexists. split; [by left|]. done.
    + destruct (IH _ Hms i m) as (m' & ? & ?); try done. exists m'. split; [by right|done].
  - apply elem_of_cons in Hi as [->|Hi]; [|by eapply IH].
    pose proof (List.find_none _ _ Hf m (proj1 (list_elem_of_In _ _) Hm)) as Hn.
    by apply bool_decide_eq_false in Hn.
Qed.

(** What an answer says of a machine being returned. *)
Lemma read_answer_covers p request dbm operation now instances ms :
  (∀ l, sp_walk p l ≡ₚ l) → is_return request = true →
  read_answer p request dbm operation now instances = Ok ms →
  ∀ i m, i ∈ queried_ids operation → m ∈ dbm → Machine.machine_id m = i → strip i = i →
    ∃ m', m' ∈ ms ∧ Machine.machine_id m' = i ∧
      ((∃ data, data ∈ instances ∧ instance_id_of data = Some i ∧
                convert p request (by_id dbm) now data = Ok m') ∨
       (Machine.status m' = MachineStatus.TERMINATED ∧
        ∀ data, data ∈ instances → instance_id_of data = Some i →
                ∃ e, convert p request (by_id dbm) now data = Err e)).
Proof.
  intros Hwalk Hret. unfold read_answer.
  destruct (convert_all _ _ _ _ _) as [made ids] eqn:Hall. rewrite Hret.
  intros H. apply result_bind_Ok in H as (gone & Hgone & [= <-]).
  destruct (convert_all_spec _ _ _ _ _ _ _ Hall) as [Hm Hids].
  intros i m Hi Hmdb Hid Hstrip. destruct (decide (i ∈ ids)) as [Hin|Hout].
  - pose proof (proj1 (Hids i) Hin) as (data & m' & Hd & Hdi & Hc). exists m'.
    split; [apply elem_of_app; left; apply Hm; eauto|].
    destruct (convert_Ok _ _ _ _ _ _ Hc) as (j & Hj & Hmid). rewrite Hdi in Hj. injection Hj as <-.
    rewrite Hstrip in Hmid. split; [naive_solver|]. left. eauto.
  - destruct (terminate_missing_spec _ _ _ Hgone i m) as (m' & Hm' & Hid' & Hst); [|done..|].
    { rewrite Hwalk. apply list_elem_of_filter. split; [done|]. by apply elem_of_dedup_ids. }
    exists m'. split; [set_solver|]. split; [done|]. right. split; [done|].
    intros data Hd Hdi. destruct (convert p request (by_id dbm) now data) as [x|e] eqn:Hc; [|eauto].
    destruct Hout. apply Hids. eauto.
Qed.

(** What the request and return flows record on a machine. *)
Definition ownership (m : Machine.t) :=
  (Machine.request_id m, Machine.return_request_id m, Machine.template_id m,
   (Machine.provider_type m, Machine.provider_name m, Machine.provider_api m),
   (Machine.created_at m, Machine.provisioning_started_at m, Machine.termination_time m)).

Definition owned (i : string) o (d : db) : Prop :=
  ∃ m, get_machine d i = Some m ∧ ownership m = o.
Definition absent (i : string) (d : db) : Prop := get_machine d i = None.
Definition stored (i : string) (r : Request.t) (d : db) : Prop := get_request d i = Some r.
Definition has_status (i : string) (s : RequestStatus.t) (d : db) : Prop :=
  ∃ r, get_request d i = Some r ∧ Request.status r = s.

(** Finished, or still owned by the flow that creates it. *)
Definition not_stamped (r : Request.t) : bool :=
  RequestStatus.is_terminal (Request.status r) || Request.awaiting_resources r.

Lemma get_request_save_machine e m d i : get_request (save_machine e m d) i = get_request d i.
Proof. done. Qed.
Lemma get_machine_save_request e r d i : get_machine (save_request e r d) i = get_machine d i.
Proof. done. Qed.

Lemma save_machine_ok e m d : db_ok d → db_ok (save_machine e m d).
Proof.
  intros [Hr Hm]. split; [done|]. intros j m'. rewrite get_machine_save. case_decide; [|by apply Hm].
  by intros [= <-].
Qed.

Section steps.
Context {rid : string} {now : datetime} {dbm ps : list Machine.t} {d d' : db}.
Context (Hstep : sync_step rid now dbm ps d d') (Hok : db_ok d).

Lemma sync_step_ok : db_ok d'.
Proof. destruct Hstep; [by apply save_machine_ok..|by apply save_request_ok]. Qed.

Lemma sync_step_owned i o : owned i o d → owned i o d'.
Proof.
  intros (m & Hg & <-). destruct Hstep as [p current d Hp Hc|p d Hp Hn Hc|current d Hc Ht Ha].
  - unfold owned. rewrite get_machine_save. case_decide as Hi; [|eauto]. eexists. split; [done|].
    change (Machine.machine_id current = i) in Hi. rewrite (proj2 Hok _ _ Hc) in Hi. subst i.
    rewrite Hc in Hg. by injection Hg as ->.
  - unfold owned. rewrite get_machine_save. case_decide as Hi; [|eauto]. congruence.
  - by exists m.
Qed.

Lemma sync_step_absent i : i ∈ Machine.machine_id <$> dbm → absent i d → absent i d'.
Proof.
  unfold absent. intros Hi Hg. destruct Hstep as [p current d Hp Hc|p d Hp Hn Hc|current d Hc Ht Ha].
  - rewrite get_machine_save. case_decide as Hi'; [|done].
    change (Machine.machine_id current = i) in Hi'. rewrite (proj2 Hok _ _ Hc) in Hi'. congruence.
  - rewrite get_machine_save. case_decide as Hi'; [|done]. by subst i.
  - done.
Qed.

Lemma sync_step_stored i r : i ≠ rid ∨ not_stamped r = true → stored i r d → stored i r d'.
Proof.
  unfold stored. intros Hi Hg. destruct Hstep as [p current d Hp Hc|p d Hp Hn Hc|current d Hc Ht Ha];
    [done..|].
  rewrite get_request_save. case_decide as Hi'; [|done].
  change (Request.request_id current = i) in Hi'. rewrite (proj1 Hok _ _ Hc) in Hi'. subst i.
  destruct Hi as [Hi|Hi]; [done|]. rewrite Hc in Hg. injection Hg as ->.
  unfold not_stamped in Hi. by rewrite Ht, Ha in Hi.
Qed.

Lemma sync_step_status i s : has_status i s d → has_status i s d'.
Proof.
  intros (r & Hg & Hs). destruct Hstep as [p current d Hp Hc|p d Hp Hn Hc|current d Hc Ht Ha];
    [by exists r..|].
  unfold has_status. rewrite get_request_save. case_decide as Hi'; [|eauto].
  eexists. split; [done|]. change (Request.request_id current = i) in Hi'.
  rewrite (proj1 Hok _ _ Hc) in Hi'. subst i. rewrite Hc in Hg. injection Hg as ->. exact Hs.
Qed.
End steps.

(** Carry a property through a sync, along with [db_ok]. *)
Lemma sync_carries (J : db → Prop) request dbm fetched now w r w' :
  (∀ d d', sync_step (Request.request_id request) now dbm (machines_of fetched) d d' →
           db_ok d → J d → J d') →
  sync_machines_with_provider request dbm fetched now w = (r, w') →
  world_ok w → stable J w → J (w_db w').
Proof.
  intros Hstep Hs Hok HJ.
  destruct (sync_preserves (λ d, db_ok d ∧ J d) request dbm fetched now) with (w := w)
    as [[_ H] _]; [|by apply stable_and|by rewrite Hs in H].
  intros d d' Hd [Hdb Hj]. split; [by eapply sync_step_ok|by eapply Hstep].
Qed.

(** ** Lemmas: no other writer *)

Lemma write_machine_quiet pm expected d published :
  _write_machine pm expected (quiet d published) =
  match write_stored pm expected d with
  | Ok (m, d') => (Ok m, quiet d' published)
  | Err e => (Err e, quiet d published)
  end.
Proof.
  unfold _write_machine. cbn [attempts]. rewrite unit_of_work_quiet.
  unfold write_stored. repeat case_match; congruence.
Qed.

Lemma stamp_quiet request now d published :
  _stamp_status_check request now (quiet d published) =
  match stamp_stored (Request.request_id request) now d with
  | Ok (_, d') => (Ok (), quiet d' published)
  | Err e => (Err e, quiet d published)
  end.
Proof.
  unfold _stamp_status_check. cbn [attempts]. rewrite unit_of_work_quiet.
  unfold stamp_stored. repeat case_match; congruence.
Qed.

Lemma saved_overlay current pm :
  let saved := _apply_provider_state current pm in
  saved <| Machine.version := written (Machine.version saved) (Some (Machine.version current)) |>
        <| Machine.domain_events := [] |> = saved.
Proof.
  destruct current, pm. unfold _apply_provider_state, written. cbn. by rewrite Z.max_id.
Qed.

Lemma saved_new pm :
  Machine.domain_events pm = [] →
  pm <| Machine.version := written (Machine.version pm) None |> <| Machine.domain_events := [] |> = pm.
Proof. destruct pm. cbn. by intros ->. Qed.

(** What the provider owns of a machine and always reports. *)
Definition reported_state (m : Machine.t) :=
  (Machine.status m, Machine.instance_type m, Machine.price_type m,
   (Machine.private_ip m, Machine.public_ip m, Machine.private_dns_name m, Machine.public_dns_name m),
   (Machine.subnet_id m, Machine.security_group_ids m, Machine.vpc_id m)).

(** What becomes of a reported machine that was stored as [old], or not at all: a new
    one is stored as reported; a known one takes over what the provider owns and
    keeps the rest, its name and resource too once it has them. *)
Definition recorded (old : option Machine.t) (pm m : Machine.t) : Prop :=
  match old with
  | None => m = pm
  | Some old =>
      reported_state m = reported_state pm ∧
      (Machine.tags m = Machine.tags pm ∨ tags_eqb (Machine.tags m) (Machine.tags pm) = true) ∧
      Machine.machine_id m = Machine.machine_id old ∧ ownership m = ownership old ∧
      Machine.metadata m = Machine.metadata old ∧
      (str_truthy (Machine.name old) = true → Machine.name m = Machine.name old) ∧
      (str_truthy (Machine.resource_id old) = true → Machine.resource_id m = Machine.resource_id old) ∧
      (m = old ∨ Machine.version m = Machine.version old + 1)
  end.

Lemma overlay_recorded old pm : recorded (Some old) pm (_apply_provider_state old pm).
Proof.
  unfold recorded, _apply_provider_state. cbn. split_and!; auto.
  - by intros ->.
  - intros ->. by rewrite andb_false_r.
Qed.

Lemma unchanged_recorded old pm : needs_update old pm = false → recorded (Some old) pm old.
Proof.
  unfold needs_update. intros H.
  repeat match type of H with _ || _ = false => apply orb_false_iff in H as [H ?] end.
  repeat match goal with H : negb (bool_decide _) = false |- _ =>
    apply negb_false_iff, bool_decide_eq_true in H end.
  repeat match goal with H : negb _ = false |- _ => apply negb_false_iff in H end.
  unfold recorded, reported_state. split_and!; auto. congruence.
Qed.

(** The slot of a reported machine, written: what comes back is what is stored. *)
Lemma write_slot_quiet dbm pm d published :
  db_ok d → Machine.domain_events pm = [] →
  (∀ m, m ∈ dbm → Machine.machine_id m = Machine.machine_id pm →
        get_machine d (Machine.machine_id pm) = Some m) →
  ∃ m d', write_slot (slot_of (by_id dbm) pm) (quiet d published) = (Ok m, quiet d' published) ∧
    get_machine d' (Machine.machine_id pm) = Some m ∧
    recorded (get_machine d (Machine.machine_id pm)) pm m ∧
    (∀ i, i ≠ Machine.machine_id pm → get_machine d' i = get_machine d i) ∧
    db_requests d' = db_requests d ∧ db_ok d'.
Proof.
  intros Hok Hev Hdb.
  assert (Hup : ∀ expected, (expected ≠ None → is_Some (get_machine d (Machine.machine_id pm))) →
    ∃ m d', _write_machine pm expected (quiet d published) = (Ok m, quiet d' published) ∧
      get_machine d' (Machine.machine_id pm) = Some m ∧
      recorded (get_machine d (Machine.machine_id pm)) pm m ∧
      (∀ i, i ≠ Machine.machine_id pm → get_machine d' i = get_machine d i) ∧
      db_requests d' = db_requests d ∧ db_ok d').
  { intros expected He. rewrite write_machine_quiet. unfold write_stored.
    destruct (get_machine d _) as [current|] eqn:Hg.
    - pose proof (proj2 Hok _ _ Hg) as Hid. do 2 eexists. split; [reflexivity|].
      split; [|split; [apply overlay_recorded|split; [|split; [reflexivity|by apply save_machine_ok]]]].
      + rewrite get_machine_save, saved_overlay. by rewrite decide_True.
      + intros i Hi. rewrite get_machine_save. rewrite decide_False; [done|].
        change (Machine.machine_id current ≠ i). congruence.
    - destruct expected as [e|]; [by destruct (He ltac:(done))|]. do 2 eexists. split; [reflexivity|].
      split; [|split; [reflexivity|split; [|split; [reflexivity|by apply save_machine_ok]]]].
      + rewrite get_machine_save, saved_new by done. by rewrite decide_True.
      + intros i Hi. rewrite get_machine_save. by rewrite decide_False. }
  unfold slot_of. destruct (dget _ (by_id dbm)) as [existing|] eqn:Hg.
  - apply by_id_Some in Hg as [Hin Hid]. pose proof (Hdb _ Hin Hid) as Hst.
    destruct (needs_update existing pm) eqn:Hn; [apply Hup; eauto|].
    exists existing, d. split_and!; try done. rewrite Hst. by apply unchanged_recorded.
  - by apply Hup.
Qed.

Lemma write_slots_quiet dbm ps d published :
  db_ok d → Forall (λ pm, Machine.domain_events pm = []) ps → NoDup (Machine.machine_id <$> ps) →
  (∀ m, m ∈ dbm → Machine.machine_id m ∈ Machine.machine_id <$> ps →
        get_machine d (Machine.machine_id m) = Some m) →
  ∃ ms d', write_slots (slot_of (by_id dbm) <$> ps) (quiet d published) = (Ok ms, quiet d' published) ∧
    Forall2 (λ pm m, get_machine d' (Machine.machine_id pm) = Some m ∧
                     recorded (get_machine d (Machine.machine_id pm)) pm m) ps ms ∧
    (∀ i, i ∉ Machine.machine_id <$> ps → get_machine d' i = get_machine d i) ∧
    db_requests d' = db_requests d ∧ db_ok d'.
Proof.
  revert d. induction ps as [|pm ps IH]; intros d Hok Hev Hnd Hdb.
  { exists [], d. split_and!; try done. }
  apply Forall_cons in Hev as [He Hev]. cbn [fmap list_fmap] in *.
  apply NoDup_cons in Hnd as [Hpm Hnd].
  destruct (write_slot_quiet dbm pm d published) as (m & d1 & Hw & Hg & Hs & Hframe & Hreq & Hok1);
    [done|done|intros m Hm Hid; rewrite <-Hid; apply Hdb; set_solver|].
  destruct (IH d1) as (ms & d' & Hws & Hall & Hframe' & Hreq' & Hok'); [done|done|done| |].
  { intros m' Hm' Hid. rewrite Hframe; [apply Hdb; set_solver|]. intros Heq. by rewrite Heq in Hid. }
  exists (m :: ms), d'. cbn [write_slots]. unfold mbind, action_bind. rewrite Hw, Hws.
  split_and!; try done.
  - constructor; [split; [by rewrite Hframe'|done]|]. apply Forall2_same_length_lookup_2.
    { by eapply Forall2_length. }
    intros k pm' m' Hpm' Hm'. destruct (Forall2_lookup_lr _ _ _ _ _ _ Hall Hpm' Hm') as [Hg' Hrec].
    split; [done|]. rewrite <-Hframe; [done|]. intros Heq. apply Hpm. rewrite <-Heq.
    apply list_elem_of_lookup_2 in Hpm'. by apply list_elem_of_fmap_2.
  - intros i [Hne Hni]%not_elem_of_cons. rewrite Hframe' by done. by apply Hframe.
  - congruence.
Qed.

Lemma try_Ok {A} (m : action A) h w a w' :
  try_except m h w = (Ok a, w') →
  m w = (Ok a, w') ∨ ∃ e w1, m w = (Err e, w1) ∧ h e w1 = (Ok a, w').
Proof. unfold try_except. destruct (m w) as [[a'|e] w1]; [by left|right; eauto]. Qed.

(** What a fetch of a return request that was answered says. *)
Lemma fetch_answered p request dbm now w ms md w' :
  is_return request = true → Request.machine_ids request ≠ [] →
  fetch_provider_machines p request dbm now w = (Ok (Fetched ms, md), w') →
  ∃ execute operation answer instances,
    sp_execute p = Some execute ∧
    execute (or_str (Request.provider_name request) EmptyString) operation = Ok answer ∧
    fr_success answer = true ∧ fr_data answer = Some instances ∧ md = fr_metadata answer ∧
    queried_ids operation = Request.machine_ids request ∧
    read_answer p request dbm operation now (default [] instances) = Ok ms.
Proof.
  intros Hret Hids H. unfold fetch_provider_machines in H.
  apply try_Ok in H as [H|(e & w1 & _ & H)]; [|unfold unless_cancelled in H; by destruct (is_cancelled e)].
  apply action_bind_Ok in H as (operation & w2 & Hop & H).
  unfold choose_operation in Hop. rewrite Hret in Hop. cbn [andb] in Hop.
  replace (negb _) with true in Hop by (by destruct (Request.machine_ids request)).
  apply action_bind_Ok in Hop as (c & w3 & _ & [= <- <-]).
  apply action_bind_Ok in H as ([] & w4 & _ & H).
  destruct (sp_execute p) as [execute|]; [|done].
  apply action_bind_Ok in H as (answer & w5 & Ha & H). injection Ha as Ha <-.
  destruct (fr_success answer) eqn:Hs; [|done].
  destruct (fr_data answer) as [instances|] eqn:Hd; [|done].
  apply action_bind_Ok in H as (made & w6 & Hr & [= <- <- <-]). injection Hr as Hr <-.
  by do 4 eexists.
Qed.

(** ** Theorems *)

(** C21: A sync takes from the provider only what the provider owns.  Whatever
    other writers do meanwhile, and however the sync ends: who a machine belongs to
    (the request that asked for it, the return that claimed it, its template and
    provider) is what the other flows make it; a machine removed meanwhile is not
    brought back; a request that is finished, or not yet provisioned, and every
    request but the synced one is left exactly as it is; and no request changes
    its status. *)
Theorem sync_safe request dbm fetched now w r w' :
  sync_machines_with_provider request dbm fetched now w = (r, w') → world_ok w →
  (∀ i o, stable (owned i o) w → owned i o (w_db w')) ∧
  (∀ i, i ∈ Machine.machine_id <$> dbm → stable (absent i) w → absent i (w_db w')) ∧
  (∀ i cur, i ≠ Request.request_id request ∨ not_stamped cur = true →
            stable (stored i cur) w → stored i cur (w_db w')) ∧
  (∀ i s, stable (has_status i s) w → has_status i s (w_db w')).
Proof.
  intros Hs Hok. split_and!; intros; eapply sync_carries; try done; intros.
  - by eapply sync_step_owned.
  - by eapply sync_step_absent.
  - by eapply sync_step_stored.
  - by eapply sync_step_status.
Qed.

(** A poll the provider did not answer changes nothing: the sync that follows
    a failed fetch hands back the stored machines, writes none of them, and does
    not refresh the moment the request was last checked. *)
Theorem failed_fetch_changes_nothing request dbm now w :
  NoDup (Machine.machine_id <$> dbm) → Forall machine_dicts dbm →
  sync_machines_with_provider request dbm (FailedProviderFetch dbm) now w = (Ok dbm, w).
Proof.
  intros Hnd Hd. unfold sync_machines_with_provider, try_except.
  assert (Hw : ∀ ms, ms ⊆ dbm → write_slots (slot_of (by_id dbm) <$> ms) w = (Ok ms, w)).
  { induction ms as [|m ms IH]; intros Hsub; [done|]. cbn [fmap list_fmap].
    assert (Hm : m ∈ dbm) by set_solver. unfold slot_of at 1. rewrite by_id_own by done.
    rewrite needs_update_irrefl by (by apply (proj1 (Forall_forall _ _) Hd)).
    cbn [write_slots write_slot]. unfold mbind, action_bind, mret, action_ret.
    rewrite IH by set_solver. done. }
  unfold mbind, action_bind. by rewrite Hw.
Qed.

(** When a sync has something to write.  A machine written from what the
    provider reports needs no second write while the provider reports the same,
    except when the sync replaced the reported reason: a terminated machine
    reported without a reason, or with one that says [in progress], is stored with
    another reason than the one reported, so every later sync writes it again. *)
Theorem sync_settles_iff existing p :
  machine_dicts p →
  needs_update (_apply_provider_state existing p) p = false ↔
  ¬ (Machine.status p = MachineStatus.TERMINATED ∧
     Machine.status_reason p ≠ Some "Terminated" ∧
     (str_truthy (Machine.status_reason p) = false ∨
      contains "in progress" (str_lower (default EmptyString (Machine.status_reason p))) = true)).
Proof.
  intros Hp. rewrite needs_update_same; [|done|done|apply resource_adopted|apply adopt_adopted].
  rewrite negb_false_iff, bool_decide_eq_true.
  change (Machine.status_reason (_apply_provider_state existing p)) with (settled_reason p).
  unfold settled_reason. case_bool_decide as Hs; cbn [andb]; [|naive_solver].
  destruct (decide (Machine.status_reason p = Some "Terminated")) as [Hr|Hr].
  { rewrite Hr. cbn. naive_solver. }
  destruct (str_truthy (Machine.status_reason p)), (contains _ _); cbn [negb orb]; naive_solver.
Qed.

(** C22: A poll that is answered is recorded.  Take distinct reported machines without
    pending events and copies of the stored ones that are up to date, with no other writer
    at work.  A
    reported machine that is new is stored as reported, in every field; a known one is
    stored with the reported status, type, price, addresses and network and the reported
    tags, keeps who it belongs to, its provider, its template, its dates and its
    metadata, and its name and resource once it has them, and is either unchanged or at
    the next version.  The list handed on is what is stored, in the order reported; other
    machines are untouched; and the request is stamped as checked, unless it is finished
    or not yet provisioned. *)
Theorem sync_records request dbm ps now d published :
  db_ok d → Forall (λ pm, Machine.domain_events pm = []) ps → NoDup (Machine.machine_id <$> ps) →
  (∀ m, m ∈ dbm → get_machine d (Machine.machine_id m) = Some m) →
  ∃ ms d', sync_machines_with_provider request dbm (Fetched ps) now (quiet d published)
             = (Ok ms, quiet d' published) ∧
    Forall2 (λ pm m, get_machine d' (Machine.machine_id pm) = Some m ∧
                     recorded (get_machine d (Machine.machine_id pm)) pm m) ps ms ∧
    (∀ i, i ∉ Machine.machine_id <$> ps → get_machine d' i = get_machine d i) ∧
    ∀ r, get_request d (Request.request_id request) = Some r →
      ∃ r', get_request d' (Request.request_id request) = Some r' ∧
        if not_stamped r then r' = r
        else Request.last_status_check r' = Some now ∧ Request.status r' = Request.status r ∧
             Request.first_status_check r' = Some (default now (Request.first_status_check r)).
Proof.
  intros Hok Hev Hnd Hdb.
  destruct (write_slots_quiet dbm ps d published) as (ms & d' & Hw & Hall & Hframe & Hreq & Hok');
    [done..|intros m Hm _; by apply Hdb|].
  assert (Hget : ∀ i, get_request d' i = get_request d i) by (intros; unfold get_request; by rewrite Hreq).
  unfold sync_machines_with_provider, try_except, mbind, action_bind. rewrite Hw, stamp_quiet.
  unfold stamp_stored. rewrite Hget.
  destruct (get_request d _) as [r|] eqn:Hg.
  - fold (not_stamped r). destruct (not_stamped r) eqn:Hn.
    + do 2 eexists. split; [done|]. split_and!; try done. intros r' [= <-]. exists r.
      by rewrite Hget, Hn.
    + do 2 eexists. split; [done|]. split_and!; try done. intros r' [= <-]. eexists. split.
      { rewrite get_request_save.
        change (Request.request_id (Request.record_status_check r now)) with (Request.request_id r).
        rewrite (proj1 Hok _ _ Hg), decide_True; done. }
      by rewrite Hn.
  - do 2 eexists. split; [done|]. split_and!; done.
Qed.

(** Every machine being returned is accounted for.  When the provider answers
    a poll of a return request, each stored machine the poll asked about appears in
    what the sync is given: as the machine a record of the answer makes, or as
    terminated, when no record of it could be read. *)
Theorem return_fetch_covers p request dbm now w ms md w' i m :
  (∀ l, sp_walk p l ≡ₚ l) → is_return request = true →
  fetch_provider_machines p request dbm now w = (Ok (Fetched ms, md), w') →
  i ∈ Request.machine_ids request → m ∈ dbm → Machine.machine_id m = i → strip i = i →
  ∃ m', m' ∈ ms ∧ Machine.machine_id m' = i ∧
    ((∃ data, instance_id_of data = Some i ∧ convert p request (by_id dbm) now data = Ok m') ∨
     Machine.status m' = MachineStatus.TERMINATED).
Proof.
  intros Hwalk Hret Hf Hi Hm Hid Hstrip.
  assert (Hne : Request.machine_ids request ≠ []) by (intros Hnil; by rewrite Hnil in Hi; set_solver).
  destruct (fetch_answered _ _ _ _ _ _ _ _ Hret Hne Hf)
    as (ex & op & ans & inst & _ & _ & _ & _ & _ & Hq & Hr).
  rewrite <-Hq in Hi.
  destruct (read_answer_covers _ _ _ _ _ _ _ Hwalk Hret Hr i m) as (m' & ? & ? & [(x & ? & ? & ?)|[? _]]);
    eauto 8.
Qed.

(** A record that cannot be read counts as a terminated machine.  A record
    with a null image, which the Kubernetes and AWS handlers write when they do not
    know the image, is dropped; when the machine is being returned, it is then
    taken for gone, although the provider just reported it running. *)
Theorem null_image_counts_terminated p request dbm now w ms md w' i m execute answer instances :
  (∀ l, sp_walk p l ≡ₚ l) → is_return request = true →
  sp_execute p = Some execute → (∀ name operation, execute name operation = Ok answer) →
  fr_data answer = Some (Some instances) →
  fetch_provider_machines p request dbm now w = (Ok (Fetched ms, md), w') →
  i ∈ Request.machine_ids request → m ∈ dbm → Machine.machine_id m = i → strip i = i →
  (∀ data, data ∈ instances → instance_id_of data = Some i →
     dget "image_id" data = Some (PJson JNull) ∧ dget "status" data = Some (PJson (JStr "running"))) →
  ∃ m', m' ∈ ms ∧ Machine.machine_id m' = i ∧ Machine.status m' = MachineStatus.TERMINATED.
Proof.
  intros Hwalk Hret Hex Hans Hdata Hf Hi Hm Hid Hstrip Hnull.
  assert (Hne : Request.machine_ids request ≠ []) by (intros Hnil; by rewrite Hnil in Hi; set_solver).
  destruct (fetch_answered _ _ _ _ _ _ _ _ Hret Hne Hf)
    as (ex & op & ans & inst & Hex' & Ha & _ & Hd & _ & Hq & Hr).
  rewrite Hex in Hex'. injection Hex' as <-. rewrite Hans in Ha. injection Ha as <-.
  rewrite Hdata in Hd. injection Hd as <-. rewrite <-Hq in Hi.
  destruct (read_answer_covers _ _ _ _ _ _ _ Hwalk Hret Hr i m)
    as (m' & Hm' & Hid' & [(data & Hin & Hdi & Hc)|[Hst _]]); try done; [|by exists m'].
  exfalso. destruct (Hnull data Hin Hdi) as [Himg Hstat]. revert Hc. unfold convert.
  rewrite (dget_processed "status"), Hstat by done.
  assert (Hnew : _create_machine_from_processed_data p (processed request data) request now ≠ Ok m').
  { intros [_ (image & Himage)]%from_processed_Ok. unfold get_or, dget_default in Himage.
    by rewrite dget_processed, Himg in Himage. }
  destruct (_ ≫= _) as [existing|]; [|done]. by rewrite bool_decide_eq_false_2 by (vm_compute; set_solver).
Qed.

(** ** Witnesses *)

(** A provider that answers with given records. *)
Definition demo_sync (instances : list instance_data) : sync_ports :=
  mk_sync_ports (λ _, Ok ())
    (Some (λ _ _, Ok (mk_fetch_result true (Some (Some instances)) no_metadata)))
    (λ _, Err (ValidationError "Input should be a valid datetime")) id.

Definition running_record (i : string) (image : json) : instance_data :=
  [("instance_id", PJson (JStr i)); ("status", PJson (JStr "running")); ("image_id", PJson image);
   ("launch_time", PJson (JStr "2024-01-01T00:00:00Z"))].

(** What the provider reports of [i-1]: it has stopped running. *)
Definition demo_report : Machine.t :=
  demo_machine "i-1" (Some "fleet-1") <| Machine.status := MachineStatus.TERMINATED |>.

Lemma sync_safe_witness :
  owned "i-1" (ownership (demo_machine "i-1" (Some "fleet-1")))
    (w_db (sync_machines_with_provider demo_request [demo_machine "i-1" (Some "fleet-1")]
             (Fetched [demo_report]) 10 (mk_world demo_machines [conflicting] [])).2).
Proof.
  destruct (sync_safe demo_request [demo_machine "i-1" (Some "fleet-1")] (Fetched [demo_report]) 10
    (mk_world demo_machines [conflicting] [])
    (sync_machines_with_provider demo_request [demo_machine "i-1" (Some "fleet-1")]
       (Fetched [demo_report]) 10 (mk_world demo_machines [conflicting] [])).1
    (sync_machines_with_provider demo_request [demo_machine "i-1" (Some "fleet-1")]
       (Fetched [demo_report]) 10 (mk_world demo_machines [conflicting] [])).2) as (Hown & _).
  - apply surjective_pairing.
  - split; [exact demo_machines_db_ok|by apply Forall_singleton].
  - apply Hown. split; [by eexists|by apply Forall_singleton].
Defined.

Lemma failed_fetch_changes_nothing_witness :
  sync_machines_with_provider demo_request [demo_report] (FailedProviderFetch [demo_report]) 10
    (mk_world demo_machines [] []) = (Ok [demo_report], mk_world demo_machines [] []).
Proof.
  apply (failed_fetch_changes_nothing demo_request [demo_report] 10 (mk_world demo_machines [] []));
    [apply NoDup_singleton|].
  apply Forall_singleton. repeat split; apply NoDup_nil_2.
Defined.

Lemma sync_settles_iff_witness :
  needs_update (_apply_provider_state (demo_machine "i-1" None) demo_report) demo_report ≠ false.
Proof.
  intros H. apply (sync_settles_iff (demo_machine "i-1" None) demo_report) in H.
  - apply H. split_and!; [done|done|by left].
  - repeat split; apply NoDup_nil_2.
Defined.

Lemma sync_records_witness :
  ∃ ms d', sync_machines_with_provider demo_request [] (Fetched [demo_report]) 10
             (quiet demo_machines []) = (Ok ms, quiet d' []) ∧
    Machine.status <$> get_machine d' "i-1" = Some MachineStatus.TERMINATED.
Proof.
  destruct (sync_records demo_request [] [demo_report] 10 demo_machines [])
    as (ms & d' & Hs & Hall & _); [exact demo_machines_db_ok|by apply Forall_singleton
    |apply NoDup_singleton|set_solver|].
  exists ms, d'. split; [exact Hs|]. apply Forall2_cons_inv_l in Hall as (m & ms' & [Hg [Hst _]] & _ & _).
  change (Machine.machine_id demo_report) with "i-1" in Hg. rewrite Hg. injection Hst as Hst. cbn.
  by rewrite Hst.
Defined.

Lemma return_fetch_covers_witness :
  ∃ ms md w', fetch_provider_machines (demo_sync []) (demo_return ["i-1"])
                [demo_machine "i-1" (Some "fleet-1")] 10 (quiet (demo_claimed ["i-1"]) [])
              = (Ok (Fetched ms, md), w') ∧
    ∃ m', m' ∈ ms ∧ Machine.machine_id m' = "i-1".
Proof.
  do 3 eexists. split; [vm_compute; reflexivity|].
  destruct (return_fetch_covers (demo_sync []) (demo_return ["i-1"])
    [demo_machine "i-1" (Some "fleet-1")] 10 (quiet (demo_claimed ["i-1"]) [])
    [demo_report <| Machine.status_reason := Some "Terminated" |> <| Machine.version := 1 |>]
    no_metadata (quiet (demo_claimed ["i-1"]) []) "i-1" (demo_machine "i-1" (Some "fleet-1")))
    as (m' & Hm & Hid & _); [done|done|vm_compute; reflexivity|by left|by left|done|done|].
  exists m'. split; [exact Hm|exact Hid].
Defined.

Lemma null_image_counts_terminated_witness :
  ∃ ms md w', fetch_provider_machines (demo_sync [running_record "i-1" JNull]) (demo_return ["i-1"])
                [demo_machine "i-1" (Some "fleet-1")] 10 (quiet (demo_claimed ["i-1"]) [])
              = (Ok (Fetched ms, md), w') ∧
    ∃ m', m' ∈ ms ∧ Machine.machine_id m' = "i-1" ∧ Machine.status m' = MachineStatus.TERMINATED.
Proof.
  do 3 eexists. split; [vm_compute; reflexivity|].
  destruct (null_image_counts_terminated (demo_sync [running_record "i-1" JNull]) (demo_return ["i-1"])
    [demo_machine "i-1" (Some "fleet-1")] 10 (quiet (demo_claimed ["i-1"]) [])
    [demo_report <| Machine.status_reason := Some "Terminated" |> <| Machine.version := 1 |>]
    no_metadata (quiet (demo_claimed ["i-1"]) []) "i-1" (demo_machine "i-1" (Some "fleet-1"))
    (λ _ _, Ok (mk_fetch_result true (Some (Some [running_record "i-1" JNull])) no_metadata))
    (mk_fetch_result true (Some (Some [running_record "i-1" JNull])) no_metadata)
    [running_record "i-1" JNull]) as (m' & Hm & Hid & Hst);
    [done|done|reflexivity|done|reflexivity|vm_compute; reflexivity|by left|by left|done|done| |].
  - intros data Hdata _. apply list_elem_of_singleton in Hdata as ->. split; reflexivity.
  - exists m'. split; [exact Hm|]. split; [exact Hid|exact Hst].
Defined.

(** A readable record: the machine runs, with its launch time. *)
Example running_read :
  Machine.launch_time <$> convert (demo_sync []) (demo_return ["i-1"])
    (by_id [demo_machine "i-1" (Some "fleet-1")]) 10 (running_record "i-1" (JStr "ami-2"))
  = Ok (Some 1704067200000000).
Proof. vm_compute. reflexivity. Qed.
