(* ===== verification/Reconciler.v ===== *)
(** * Keeping requests in step with their providers

    [orb/application/services/request_reconciler.py], the background loop that
    refreshes every request in flight, with what it runs for each: the queries of
    [request_query_service.py], the commands of
    [orb/application/commands/request_sync_handlers.py], the sync of [MachineSync]
    and the status writes of [StatusService].

    A pass starts one task per request.  The tasks interleave only where one waits
    for a provider, and they meet only in the store and in counters they add to; to
    each, the others are part of the rest of the system, so the pass is modelled as
    the tasks one after the other in a world where anything may happen between two
    units of work.  A provider that does not answer within the time limit has the
    task cancelled: [CancelledError], which no handler catches.  Durations are in
    microseconds; reading the settings, and starting and stopping the loop, are not
    modelled. *)

From stdpp Require Import base gmap strings list.
From Stdlib Require Import ZArith Lia.
From S2P Require Import Prelude RequestTypes Diagnostic RequestAggregate FulfilmentSM.
From S2P Require Import MachineAggregate StatusService Lifecycle Deprovisioning ReturnMachines.
From S2P Require Import MachineSync.
Open Scope Z_scope.

(** ** Queries *)

Definition RequestNotFoundError (i : string) : exn := EntityNotFoundError "Request" i.

Definition query_request (i : string) : action Request.t :=
  unit_of_work (λ d,
    found ← find_request d i;
    match found with Some r => Ok (r, d) | None => Err (RequestNotFoundError i) end).

Definition machines_where (f : Machine.t → bool) (d : db) : list Machine.t :=
  List.filter f (map_to_list (db_machines d)).*2.

Definition get_machines_for_request (request : Request.t) : action (list Machine.t) :=
  let owner m := if is_return request then Machine.return_request_id m else Machine.request_id m in
  try_except
    (unit_of_work (λ d,
       Ok (machines_where (λ m, owner m ≟ Some (Request.request_id request)) d, d)))
    (λ _, mret []).

(** ** Writing the status, as a unit of work *)

(** The read-change-save loop of the status service on the store of the handlers,
    where a unit of work is atomic ([StatusService] proves that it may be taken so). *)
Definition write_change (request : Request.t) (change : Request.t → change_result) (d : db)
  : result (Request.t * db) :=
  match get_request d (Request.request_id request) with
  | None => Ok (request, d)
  | Some current =>
      match change current with
      | Return r => Ok (r, d)
      | Raise e => Err e
      | Save updated =>
          let updated := updated <| Request.version := Request.version current + 1 |> in
          Ok (updated, save_request (Some (Request.version current)) updated d)
      end
  end.

Definition write_request (request : Request.t) (change : Request.t → change_result)
  : action Request.t :=
  attempts _WRITE_ATTEMPTS 0 request (λ _, unit_of_work (write_change request change)).

Definition write_status (sm : FulfilmentStateMachine.t) (request : Request.t)
    (status message : string) (pm : provider_metadata) (now : datetime) : action Request.t :=
  let f := provider_fulfilment pm in
  if bool_decide (f = None) && bool_decide (_synthesise_fulfilment status message = None)
  then mret request
  else write_request request (status_change sm status message f now).

Definition sweep_deadline (request : Request.t) (now : datetime) : action Request.t :=
  write_request request (sweep_change now).

(** ** The counters of a pass *)

Record ReconcileSummary := mk_summary {
  reconciled : Z;
  skipped_recent : Z;
  skipped_open_circuit : Z;
  skipped_provisioning : Z;
  timed_out : Z;
  failed : Z
}.

Definition no_summary : ReconcileSummary := mk_summary 0 0 0 0 0 0.

(** Where a task counts itself; one that finds the loop stopped counts nowhere. *)
Inductive bucket := Reconciled | SkippedRecent | SkippedOpenCircuit | SkippedProvisioning
  | TimedOut | Failed | Stopped.

Definition count (s : ReconcileSummary) (b : bucket) : ReconcileSummary :=
  let '(mk_summary r sr so sp t f) := s in
  match b with
  | Reconciled => mk_summary (r + 1) sr so sp t f
  | SkippedRecent => mk_summary r (sr + 1) so sp t f
  | SkippedOpenCircuit => mk_summary r sr (so + 1) sp t f
  | SkippedProvisioning => mk_summary r sr so (sp + 1) t f
  | TimedOut => mk_summary r sr so sp (t + 1) f
  | Failed => mk_summary r sr so sp t (f + 1)
  | Stopped => s
  end.

(** What a task leaves: where it counts itself, and the outcome it recorded. *)
Abbreviation task_result := (bucket * option (string * bool))%type.

Section handlers.
Context (p : sync_ports) (sm : FulfilmentStateMachine.t).
(* the discovery of machine identifiers, by the selection port *)
Context (discover : option string → Request.t → result fetch_result).

(** ** Populating machine identifiers *)

Definition reported_id (data : instance_data) : option string :=
  i ← instance_id_of data; if i ≟ EmptyString then None else Some i.

Definition _discover_machine_ids (request : Request.t) : action (list string) :=
  try_except
    (if Request.is_nil (Request.resource_ids request) then mret []
     else
       answer ← call (discover (Request.provider_name request) request);
       mret match fr_success answer, fr_data answer with
            | true, Some (Some instances) => omap reported_id instances
            | _, _ => []
            end)
    (unless_cancelled []).

Definition store_machine_ids (i : string) (discovered_ids : list string) (d : db)
  : result (unit * db) :=
  match get_request d i with
  | None => Ok ((), d)
  | Some current =>
      if RequestStatus.is_terminal (Request.status current)
         || negb (Request.needs_machine_id_population current)
      then Ok ((), d)
      else
        let updated := Request.update_machine_ids current discovered_ids
                         <| Request.version := Request.version current + 1 |> in
        Ok ((), save_request (Some (Request.version current)) updated d)
  end.

(** [PopulateMachineIdsHandler]. *)
Definition populate_command (i : string) : action unit :=
  rid ← call (RequestId.make i);
  found ← unit_of_work (λ d, Ok (get_request d rid, d));
  match found with
  | None => mret ()
  | Some request =>
      if negb (Request.needs_machine_id_population request) then mret ()
      else
        discovered_ids ← _discover_machine_ids request;
        match discovered_ids with
        | [] => mret ()
        | _ => attempts 2 0 () (λ _, unit_of_work (store_machine_ids rid discovered_ids))
        end
  end.

Definition populate_missing_machine_ids (request : Request.t) : action unit :=
  if Request.needs_machine_id_population request
  then try_except (populate_command (Request.request_id request)) (unless_cancelled ())
  else mret ().

(** ** What follows a poll *)

Definition conclude (request : Request.t) (db_machines : list Machine.t) (fetched : provider_fetch)
    (pm : provider_metadata) (now : datetime) : action unit :=
  synced_machines ← sync_machines_with_provider request db_machines fetched now;
  '(new_status, status_message) ←
    call (determine_status_from_machines db_machines synced_machines request pm);
  if str_truthy new_status then
    _ ← write_status sm request (default EmptyString new_status)
          (or_str status_message EmptyString) pm now;
    mret ()
  else mret ().

(** [SyncRequestHandler]. *)
Definition sync_command (i : string) (now : datetime) : action unit :=
  request ← unit_of_work (λ d,
    rid ← RequestId.make i;
    match get_request d rid with
    | Some r => Ok (r, d)
    | None => Err (EntityNotFoundError "Request" i)
    end);
  db_machines ← get_machines_for_request request;
  '(fetched, pm) ← fetch_provider_machines p request db_machines now;
  conclude request db_machines fetched pm now.

(** ** One request *)

Inductive polled :=
| NothingToPoll
| Polled (request : Request.t) (db_machines : list Machine.t) (fetched : provider_fetch)
    (pm : provider_metadata).

Definition poll (request : Request.t) (now : datetime) : action polled :=
  _ ← populate_missing_machine_ids request;
  request ← query_request (Request.request_id request);
  if not_stamped request then mret NothingToPoll
  else
    db_machines ← get_machines_for_request request;
    '(fetched, pm) ← fetch_provider_machines p request db_machines now;
    mret (Polled request db_machines fetched pm).

Definition provider_of (request : Request.t) : string := or_str (Request.provider_name request) EmptyString.

Definition ProviderFetchFailed (i : string) : exn :=
  OtherError "ProviderFetchFailed" ("provider fetch failed for request " +:+ i).

(** The outcome is what the call appends under the provider's name, which stays
    when the call then raises. *)
Definition reconcile_request (request : Request.t) (now : datetime) (w : world)
  : result unit * option (string * bool) * world :=
  match poll request now w with
  | (Err e, w') => (Err e, None, w')
  | (Ok NothingToPoll, w') => (Ok (), None, w')
  | (Ok (Polled request db_machines (FailedProviderFetch _) pm), w') =>
      (Err (ProviderFetchFailed (Request.request_id request)), Some (provider_of request, false), w')
  | (Ok (Polled request db_machines (Fetched machines) pm), w') =>
      let '(res, w'') := conclude request db_machines (Fetched machines) pm now w' in
      (res, Some (provider_of request, true), w'')
  end.

(** ** One pass *)

Definition is_recently_synced (request : Request.t) (window : Z) (now : datetime) : bool :=
  (0 <? window) &&
  match Request.last_status_check request with Some checked => now - checked <? window | None => false end.

(* the breaker's [has_state] and [is_open], asked once per provider *)
Context (breaker : string → result (bool * bool)).
Context (interval : Z) (clock : nat → datetime) (stop_requested : nat → bool).

Definition _circuit_open (provider : string) : bool :=
  match breaker ("provider:" +:+ provider) with
  | Ok (has_state, is_open) => has_state && is_open
  | Err _ => false
  end.

(** The statuses in the order of the class, without the terminal ones. *)
Definition live_statuses : list RequestStatus.t :=
  List.filter (λ s, negb (RequestStatus.is_terminal s)) enum_members.

Definition requests_with (s : RequestStatus.t) (d : db) : list Request.t :=
  List.filter (λ r, Request.status r ≟ s) (map_to_list (db_requests d)).*2.

Definition in_flight (d : db) : list Request.t :=
  dedup_by Request.request_id (concat ((λ s, requests_with s d) <$> live_statuses)).

Definition _in_flight_requests : action (list Request.t) := unit_of_work (λ d, Ok (in_flight d, d)).

Definition one (k : nat) (request : Request.t) (w : world) : task_result * world :=
  if Request.awaiting_resources request then
    ((SkippedProvisioning, None), (sweep_deadline request (clock k) w).2)
  else if _circuit_open (provider_of request) then ((SkippedOpenCircuit, None), w)
  else if is_recently_synced request interval (clock k) then ((SkippedRecent, None), w)
  else if stop_requested k then ((Stopped, None), w)
  else
    let '(res, outcome, w') := reconcile_request request (clock k) w in
    match res with
    | Ok _ => ((Reconciled, outcome), w')
    | Err e => ((if is_cancelled e then TimedOut else Failed, outcome), w')
    end.

Fixpoint run_tasks (k : nat) (requests : list Request.t) (w : world) : list task_result * world :=
  match requests with
  | [] => ([], w)
  | request :: rest =>
      let '(t, w1) := one k request w in
      let '(ts, w2) := run_tasks (Datatypes.S k) rest w1 in
      (t :: ts, w2)
  end.

Definition summary_of (ts : list task_result) : ReconcileSummary := foldl count no_summary ts.*1.

(** [outcomes.setdefault(provider, []).append(fetched)], task after task. *)
Definition outcomes_of (ts : list task_result) : dict (list bool) :=
  foldl (λ acc '(provider, fetched), append_to provider fetched acc) [] (omap snd ts).

(** What is fed into the breaker of each provider, once per pass. *)
Definition recorded_of (ts : list task_result) : list (string * bool) :=
  (λ kv, (kv.1, existsb id kv.2)) <$> outcomes_of ts.

Definition reconcile_once : action (ReconcileSummary * list (string * bool)) := λ w,
  match _in_flight_requests w with
  | (Err e, w') => (Err e, w')
  | (Ok requests, w') =>
      let '(ts, w'') := run_tasks 0 requests w' in
      (Ok (summary_of ts, recorded_of ts), w'')
  end.
End handlers.

(** ** Lemmas: what the handlers keep *)

Lemma preserves_bind_post {A B} I (Q : A → Prop) (m : action A) (f : A → action B) :
  preserves I m → (∀ w a w', stable I w → m w = (Ok a, w') → Q a) →
  (∀ a, Q a → preserves I (f a)) → preserves I (m ≫= f).
Proof.
  intros Hm HQ Hf w Hw. unfold mbind, action_bind. pose proof (Hm w Hw) as Hw'.
  destruct (m w) as [[a|e] w'] eqn:H; [|done]. apply Hf; [exact (HQ _ _ _ Hw H)|done].
Qed.

Lemma unless_cancelled_preserves I {A} (a : A) e : preserves I (unless_cancelled a e).
Proof. unfold unless_cancelled. destruct (is_cancelled e); auto with preserves. Qed.
#[export] Hint Resolve unless_cancelled_preserves : preserves.

Lemma coordinates_preserves I ids : preserves I (load_machine_coordinates ids).
Proof. destruct ids; cbn [load_machine_coordinates]; auto with preserves. Qed.
#[export] Hint Resolve coordinates_preserves : preserves.

(** The changes the flows of this file make to the store, all to one request. *)
Inductive reconcile_step (rid : string) : db → db → Prop :=
| by_sync now dbm ps d d' : sync_step rid now dbm ps d d' → reconcile_step rid d d'
| by_write current u d :
    get_request d rid = Some current → Request.request_id u = Request.request_id current →
    RequestStatus.can_transition_to (Request.status current) (Request.status u) = true →
    reconcile_step rid d
      (save_request (Some (Request.version current))
         (u <| Request.version := Request.version current + 1 |>) d).

(** A change of the status service that follows the transition table. *)
Definition sound_change (change : Request.t → change_result) : Prop :=
  ∀ cur u, change cur = Save u →
    Request.request_id u = Request.request_id cur ∧
    RequestStatus.can_transition_to (Request.status cur) (Request.status u) = true.

Lemma status_change_sound sm status message f now : sound_change (status_change sm status message f now).
Proof.
  intros cur u. unfold status_change.
  destruct (_build_status_update _ _ _ _ _ _) as [[r' []]|e] eqn:Hb; cbn; [|done|by destruct e].
  intros [= <-]. apply build_status_update_spec in Hb as (? & ? & _). done.
Qed.

Lemma sweep_change_sound now : sound_change (sweep_change now).
Proof.
  intros cur u. unfold sweep_change. destruct (RequestStatus.is_terminal _); [done|].
  rewrite evaluate_deadline_eq. destruct (expired cur now) eqn:He; [|done]. cbn [negb orb].
  case_bool_decide; [done|]. intros [= <-]. split.
  - apply mutates_id. left. apply deadline_transition_mutates.
  - rewrite deadline_transition_status. by apply deadline_outcome_allowed, (expired_status cur now).
Qed.

Section keeps.
Context (J : db → Prop) (rid : string).
Context (HJok : ∀ d, J d → db_ok d) (Hstep : ∀ d d', reconcile_step rid d d' → J d → J d').
Context (p : sync_ports) (sm : FulfilmentStateMachine.t).
Context (discover : option string → Request.t → result fetch_result).

Lemma write_request_preserves request change :
  Request.request_id request = rid → sound_change change →
  preserves J (write_request request change).
Proof.
  intros Hid Hs. apply preserves_attempts. intros _. apply preserves_unit. intros d a d'.
  unfold write_change. rewrite Hid. destruct (get_request d rid) as [cur|] eqn:Hg; [|by intros [= _ <-]].
  destruct (change cur) as [r|e|u] eqn:Hc; [by intros [= _ <-]|done|]. intros [= _ <-].
  apply Hstep. destruct (Hs _ _ Hc). by apply by_write.
Qed.

Lemma write_status_preserves request status message pm now :
  Request.request_id request = rid → preserves J (write_status sm request status message pm now).
Proof.
  intros Hid. unfold write_status. destruct (_ && _); [auto with preserves|].
  apply write_request_preserves; [done|apply status_change_sound].
Qed.

Lemma populate_preserves request :
  Request.request_id request = rid → preserves J (populate_missing_machine_ids discover request).
Proof.
  intros Hid. unfold populate_missing_machine_ids.
  destruct (Request.needs_machine_id_population request); [|auto with preserves].
  apply preserves_try; [|auto with preserves]. unfold populate_command.
  apply (preserves_bind_post _ (λ r, r = rid)); [auto with preserves| |].
  { intros w a w' _. unfold RequestId.make, call. destruct (RequestId._is_valid_format _); [|done].
    intros [= <- _]. done. }
  intros r ->. apply preserves_bind; [apply preserves_unit; by intros d a d' [= _ <-]|].
  intros [r|]; [|auto with preserves]. destruct (negb _); [auto with preserves|].
  apply preserves_bind.
  { unfold _discover_machine_ids. apply preserves_try; [|auto with preserves].
    destruct (Request.is_nil _); auto with preserves. }
  intros [|i ids]; [auto with preserves|]. apply preserves_attempts. intros _. apply preserves_unit.
  intros d a d'. unfold store_machine_ids.
  destruct (get_request d rid) as [cur|] eqn:Hg; [|by intros [= _ <-]].
  destruct (_ || _); [by intros [= _ <-]|]. intros [= _ <-]. apply Hstep.
  apply (by_write rid cur (Request.update_machine_ids cur (i :: ids))); [done|done|].
  apply can_transition_refl.
Qed.

Lemma machines_query_preserves request : preserves J (get_machines_for_request request).
Proof.
  apply preserves_try; [|auto with preserves]. apply preserves_unit. by intros d a d' [= _ <-].
Qed.

Lemma fetch_preserves request dbm now : preserves J (fetch_provider_machines p request dbm now).
Proof.
  apply preserves_try; [|auto with preserves]. apply preserves_bind.
  - unfold choose_operation. repeat case_match; auto with preserves.
  - intros [op|]; [|auto with preserves]. apply preserves_bind; [auto with preserves|]. intros _.
    destruct (sp_execute p); [|auto with preserves]. apply preserves_bind; [auto with preserves|].
    intros answer. destruct (fr_success answer), (fr_data answer); auto with preserves.
Qed.

Lemma conclude_preserves request dbm fetched pm now :
  Request.request_id request = rid → preserves J (conclude sm request dbm fetched pm now).
Proof.
  intros Hid. unfold conclude. apply preserves_bind.
  { apply sync_preserves. rewrite Hid. intros d d' Hd. apply Hstep. by eapply by_sync. }
  intros ms. apply preserves_bind; [auto with preserves|]. intros [new_status message].
  destruct (str_truthy new_status); [|auto with preserves].
  apply preserves_bind; [by apply write_status_preserves|auto with preserves].
Qed.

(** A request the queries find is the one asked for. *)
Lemma query_request_id i w r w' :
  stable J w → query_request i w = (Ok r, w') → Request.request_id r = i.
Proof.
  intros Hw H. apply stable_encounter in Hw as [Hd _].
  apply unit_of_work_Ok in H as (d' & Hb & _). apply result_bind_Ok in Hb as (o & Ho & Hb).
  apply find_request_Ok in Ho as ->.
  destruct (get_request _ i) as [r'|] eqn:Hg; [|done]. injection Hb as <- _.
  by apply (proj1 (HJok _ Hd)) in Hg.
Qed.

(** A polled request is the one asked for. *)
Definition polled_ok (o : polled) : Prop :=
  match o with Polled r _ _ _ => Request.request_id r = rid | NothingToPoll => True end.

Lemma poll_preserves request now :
  Request.request_id request = rid →
  preserves J (poll p discover request now) ∧
  ∀ w o w', stable J w → poll p discover request now w = (Ok o, w') → polled_ok o.
Proof.
  intros Hid.
  assert (Hq : preserves J (query_request (Request.request_id request))).
  { apply preserves_unit. intros d a d' H. apply result_bind_Ok in H as (o & _ & H).
    destruct o; [by injection H as _ <-|done]. }
  split.
  - unfold poll. apply preserves_bind; [by apply populate_preserves|]. intros _.
    apply preserves_bind; [done|]. intros r. destruct (not_stamped r); [auto with preserves|].
    apply preserves_bind; [apply machines_query_preserves|]. intros dbm.
    apply preserves_bind; [apply fetch_preserves|]. intros [f pm]. auto with preserves.
  - intros w o w' Hw H. apply action_bind_Ok in H as (u & w1 & H1 & H).
    apply action_bind_Ok in H as (r & w2 & H2 & H).
    assert (Hr : Request.request_id r = rid).
    { rewrite <-Hid. eapply query_request_id; [|exact H2].
      pose proof (populate_preserves request Hid w Hw) as Hw1. by rewrite H1 in Hw1. }
    destruct (not_stamped r); [by injection H as <- _|].
    apply action_bind_Ok in H as (dbm & w3 & _ & H).
    apply action_bind_Ok in H as ([f pm] & w4 & _ & [= <- _]). done.
Qed.

Lemma reconcile_preserves request now w :
  Request.request_id request = rid → stable J w →
  stable J (reconcile_request p sm discover request now w).2.
Proof.
  intros Hid Hw. destruct (poll_preserves request now Hid) as [Hp Ho].
  unfold reconcile_request. specialize (Hp w Hw).
  destruct (poll p discover request now w) as [[[|r dbm f pm]|e] w1] eqn:H; [done| |done].
  destruct f as [ms|ms]; [|done]. specialize (Ho _ _ _ Hw H). cbn in Ho.
  pose proof (conclude_preserves r dbm (Fetched ms) pm now Ho w1 Hp) as Hc.
  by destruct (conclude sm r dbm (Fetched ms) pm now w1).
Qed.
End keeps.

(** ** Lemmas: the steps *)

Section steps.
Context {rid : string} {d d' : db}.
Context (Hstep : reconcile_step rid d d') (Hok : db_ok d).

Lemma reconcile_step_ok : db_ok d'.
Proof. destruct Hstep; [by eapply sync_step_ok|by apply save_request_ok]. Qed.

Lemma reconcile_step_owned i o : owned i o d → owned i o d'.
Proof. destruct Hstep; [by eapply sync_step_owned|done]. Qed.

Lemma reconcile_step_stored i r : i ≠ rid → stored i r d → stored i r d'.
Proof.
  intros Hi. destruct Hstep as [now dbm ps d d' Hs|cur u d Hg Hid Ht].
  - eapply sync_step_stored; eauto.
  - unfold stored. rewrite get_request_save. case_decide as Hi'; [|done].
    change (Request.request_id u = i) in Hi'. rewrite Hid, (proj1 Hok _ _ Hg) in Hi'. congruence.
Qed.

Lemma reconcile_step_status i s :
  RequestStatus.is_terminal s = true → s ≠ RequestStatus.PARTIAL →
  has_status i s d → has_status i s d'.
Proof.
  intros Hs Hne Hst. destruct Hstep as [now dbm ps d d' Hd|cur u d Hg Hid Ht].
  { by eapply sync_step_status. }
  destruct Hst as (r & Hr & Hrs). unfold has_status. rewrite get_request_save.
  case_decide as Hi; [|eauto]. eexists. split; [done|]. change (Request.status u = s).
  change (Request.request_id u = i) in Hi. rewrite Hid, (proj1 Hok _ _ Hg) in Hi. subst i.
  rewrite Hg in Hr. injection Hr as ->. rewrite Hrs in Ht.
  destruct (decide (Request.status u = s)) as [|Hn]; [done|].
  destruct (RequestStatus.moves_out_of_terminal s (Request.status u)) as [? _]; [done| |done].
  split; congruence.
Qed.
End steps.

(** A pass makes no other changes. *)
Lemma pass_preserves (J : db → Prop) p sm discover breaker interval clock stop_requested :
  (∀ d, J d → db_ok d) → (∀ rid d d', reconcile_step rid d d' → J d → J d') →
  preserves J (reconcile_once p sm discover breaker interval clock stop_requested).
Proof.
  intros HJok Hstep.
  assert (Hone : ∀ k r w, stable J w →
    stable J (one p sm discover breaker interval clock stop_requested k r w).2).
  { intros k r w Hw. unfold one. destruct (Request.awaiting_resources r).
    { refine (write_request_preserves J (Request.request_id r) (Hstep _) r _ eq_refl _ w Hw).
      apply sweep_change_sound. }
    destruct (_circuit_open breaker _); [done|]. destruct (is_recently_synced _ _ _); [done|].
    destruct (stop_requested k); [done|].
    pose proof (reconcile_preserves J (Request.request_id r) HJok (Hstep _) p sm discover r (clock k) w eq_refl Hw) as Hr.
    by destruct (reconcile_request _ _ _ _ _ _) as [[[u|e] o] w']. }
  intros w Hw. unfold reconcile_once, _in_flight_requests.
  assert (Hin : preserves J (unit_of_work (λ d, Ok (in_flight d, d))))
    by (apply preserves_unit; by intros d a d' [= _ <-]).
  specialize (Hin w Hw). destruct (unit_of_work _ w) as [[requests|e] w1]; [|done].
  generalize 0%nat. revert w1 Hin. induction requests as [|r rs IH]; intros w1 Hw1 k; [done|].
  cbn [run_tasks]. specialize (Hone k r w1 Hw1). cbn [snd] in *.
  destruct (one _ _ _ _ _ _ _ k r w1) as [t w2]. specialize (IH w2 Hone (Datatypes.S k)).
  by destruct (run_tasks _ _ _ _ _ _ _ (Datatypes.S k) rs w2).
Qed.

(** ** Lemmas: the outcomes of a pass *)









(** ** Lemmas: no other writer *)

#[local] Hint Resolve reads_ret reads_raise reads_call reads_bind reads_try reads_only : reads.

Lemma coordinates_reads ids : reads (load_machine_coordinates ids).
Proof. destruct ids; cbn [load_machine_coordinates]; auto with reads. Qed.
#[local] Hint Resolve coordinates_reads : reads.

Lemma unless_cancelled_reads {A} (a : A) e : reads (unless_cancelled a e).
Proof. unfold unless_cancelled. destruct (is_cancelled e); auto with reads. Qed.
#[local] Hint Resolve unless_cancelled_reads : reads.

Lemma fetch_reads p request dbm now : reads (fetch_provider_machines p request dbm now).
Proof.
  apply reads_try; [|auto with reads]. apply reads_bind.
  - unfold choose_operation. repeat case_match; auto with reads.
  - intros [op|]; [|auto with reads]. apply reads_bind; [auto with reads|]. intros _.
    destruct (sp_execute p); [|auto with reads]. apply reads_bind; [auto with reads|].
    intros answer. destruct (fr_success answer), (fr_data answer); auto with reads.
Qed.

Lemma poll_reads p discover request now :
  Request.needs_machine_id_population request = false → reads (poll p discover request now).
Proof.
  intros Hn. unfold poll, populate_missing_machine_ids. rewrite Hn.
  apply reads_bind; [auto with reads|]. intros _. apply reads_bind.
  { apply reads_unit_of_work. intros d a d' H. apply result_bind_Ok in H as (o & _ & H).
    destruct o; [by injection H as _ <-|done]. }
  intros r. destruct (not_stamped r); [auto with reads|]. apply reads_bind.
  { apply reads_try; [|auto with reads]. apply reads_unit_of_work. by intros d a d' [= _ <-]. }
  intros dbm. apply reads_bind; [apply fetch_reads|]. intros [f pm]. auto with reads.
Qed.

(** The store of the handlers is one the status service can work on. *)
Definition db_save (d : db) (e : Z) (r : Request.t) : result unit * db :=
  match get_request d (Request.request_id r) with
  | Some cur =>
      if Request.version cur =? e then (Ok (), save_request (Some e) r d)
      else (Err (ConcurrencyError (Request.request_id r) (Some e)), d)
  | None => (Err (ConcurrencyError (Request.request_id r) (Some e)), d)
  end.

#[export] Program Instance db_store : RequestStore db :=
  { rs_ok := db_ok; rs_get := get_request; rs_save := db_save }.
Next Obligation.
  intros d e r cur Hok Hcur <-. unfold db_save. rewrite Hcur, Z.eqb_refl. eexists. split; [done|].
  split; [by apply save_request_ok|]. intros i. by rewrite get_request_save.
Qed.
Next Obligation.
  intros d e r Hok Hst. unfold db_save. destruct (get_request d _) as [cur|] eqn:Hcur; [|by do 2 eexists].
  destruct (Z.eqb_spec (Request.version cur) e); [by destruct (Hst cur)|by do 2 eexists].
Qed.
Next Obligation. intros d i cur [Hr _] Hcur. by apply Hr. Qed.

Lemma write_request_quiet request on_change d published :
  db_ok d → keeps_id on_change → (∀ cur i v, on_change cur ≠ Raise (ConcurrencyError i v)) →
  write_request request on_change (quiet d published) =
  let '(r, d') := write_loop request request on_change _WRITE_ATTEMPTS [] d in (r, quiet d' published).
Proof.
  intros Hok Hkeep Hraise. unfold write_request, _WRITE_ATTEMPTS. cbn [attempts write_loop].
  rewrite unit_of_work_quiet. unfold write_change. change (@rs_get db db_store) with get_request.
  destruct (get_request d (Request.request_id request)) as [cur|] eqn:Hg; [|done].
  destruct (on_change cur) as [r|e|u] eqn:Hc; [done| |].
  - destruct (conflict_or_not (Err e : result unit)) as [(i & v & [= ->])|Hn];
      [by destruct (Hraise cur i v)|].
    destruct e; try done. by destruct (Hn entity_id expected_version).
  - unfold interfere. cbn [head default from_option]. unfold id.
    change (@rs_save db db_store) with db_save. unfold db_save.
    change (Request.request_id (u <| Request.version := Request.version cur + 1 |>))
      with (Request.request_id u).
    rewrite (Hkeep _ _ Hc), (proj1 Hok _ _ Hg), Hg, Z.eqb_refl. done.
Qed.

(** ** Theorems *)

(** Refreshing a request leaves the rest alone.  Whatever other writers do
    meanwhile and however it ends, a refresh keeps who every machine belongs to,
    leaves every other request exactly as it is, and does not reopen a request
    that was completed, failed, cancelled or timed out, its own included. *)
Theorem reconcile_request_safe p sm discover request now w res outcome w' :
  reconcile_request p sm discover request now w = (res, outcome, w') → world_ok w →
  (∀ i o, stable (owned i o) w → owned i o (w_db w')) ∧
  (∀ i cur, i ≠ Request.request_id request → stable (stored i cur) w → stored i cur (w_db w')) ∧
  (∀ i s, RequestStatus.is_terminal s = true → s ≠ RequestStatus.PARTIAL →
          stable (has_status i s) w → has_status i s (w_db w')).
Proof.
  intros H Hok.
  assert (Hcarry : ∀ J : db → Prop,
    (∀ d d', reconcile_step (Request.request_id request) d d' → db_ok d → J d → J d') →
    stable J w → J (w_db w')).
  { intros J HJ Hst.
    destruct (reconcile_preserves (λ d, db_ok d ∧ J d) (Request.request_id request) (λ d, @proj1 _ _))
      with (p := p) (sm := sm) (discover := discover) (request := request) (now := now) (w := w)
      as [[_ Hj] _]; [|done|by apply stable_and|by rewrite H in Hj].
    intros d d' Hd [Hdb Hj]. split; [by eapply reconcile_step_ok|by eapply HJ]. }
  split_and!; intros; eapply Hcarry; try done; intros.
  - by eapply reconcile_step_owned.
  - by eapply reconcile_step_stored.
  - by eapply reconcile_step_status.
Qed.


(** A whole pass, too, keeps who the machines belong to and reopens no settled
    request, whatever happens between its tasks. *)
Theorem pass_safe p sm discover breaker interval clock stop_requested w r w' :
  reconcile_once p sm discover breaker interval clock stop_requested w = (r, w') → world_ok w →
  (∀ i o, stable (owned i o) w → owned i o (w_db w')) ∧
  (∀ i s, RequestStatus.is_terminal s = true → s ≠ RequestStatus.PARTIAL →
          stable (has_status i s) w → has_status i s (w_db w')).
Proof.
  intros H Hok.
  assert (Hcarry : ∀ J : db → Prop,
    (∀ rid d d', reconcile_step rid d d' → db_ok d → J d → J d') → stable J w → J (w_db w')).
  { intros J HJ Hst.
    destruct (pass_preserves (λ d, db_ok d ∧ J d) p sm discover breaker interval clock stop_requested
      (λ d, @proj1 _ _)) with (w := w) as [[_ Hj] _]; [|by apply stable_and|by rewrite H in Hj].
    intros rid d d' Hd [Hdb Hj]. split; [by eapply reconcile_step_ok|by eapply HJ]. }
  split; intros; eapply Hcarry; try done; intros.
  - by eapply reconcile_step_owned.
  - by eapply reconcile_step_status.
Qed.

(** A provider that does not answer leaves no trace.  With no other writer at
    work, a refresh whose fetch failed or was cut off by the time limit, or that
    found nothing to poll, has changed neither machines nor requests; and a failed
    fetch is raised and recorded against the provider. *)
Theorem unanswered_poll_changes_nothing p sm discover request now d published res outcome w' :
  Request.needs_machine_id_population request = false →
  reconcile_request p sm discover request now (quiet d published) = (res, outcome, w') →
  (∀ provider, outcome ≠ Some (provider, true)) →
  w' = quiet d published ∧
  (∀ provider, outcome = Some (provider, false) → ∃ i, res = Err (ProviderFetchFailed i)).
Proof.
  intros Hn H Hout. pose proof (poll_reads p discover request now Hn d published) as Hr.
  unfold reconcile_request in H.
  destruct (poll p discover request now (quiet d published)) as [[[|r dbm f pm]|e] w1]; cbn in Hr; subst w1.
  - by injection H as <- <- <-.
  - destruct f as [ms|ms].
    + destruct (conclude _ _ _ _ _ _ _) as [res' w2]. injection H as <- <- <-.
      by destruct (Hout (provider_of r)).
    + injection H as <- <- <-. split; [done|eauto].
  - by injection H as <- <- <-.
Qed.

(** The status write of a refresh is the status service's.  On a store nobody
    else writes to, writing a status as one unit of work gives the result and the
    store of the service's read-change-save loop. *)
Theorem write_status_refines sm request status message pm now d published :
  db_ok d →
  write_status sm request status message pm now (quiet d published) =
  let '(r, d') := update_request_status sm request status message (Some pm) now [] d in
  (r, quiet d' published).
Proof.
  intros Hok. unfold write_status, update_request_status. cbn [mbind option_bind].
  destruct (_ && _); [done|]. apply write_request_quiet; [done|apply status_change_keeps_id|].
  intros cur i v. apply status_change_raise.
Qed.

(** ** Witnesses *)

(** A request in progress with one machine. *)
Definition live_request : Request.t :=
  demo_request <| Request.provider_name := Some "aws-1" |> <| Request.provider_api := Some "EC2Fleet" |>
    <| Request.machine_ids := ["i-1"] |>.
Definition live_machine : Machine.t :=
  demo_machine "i-1" (Some "fleet-1") <| Machine.request_id := Some demo_id |>.
Definition live_db : db :=
  save_machine None live_machine (save_request None live_request (mk_db ∅ ∅)).

Definition no_discovery (name : option string) (r : Request.t) : result fetch_result :=
  Err (RuntimeError "not available").
Definition no_breaker (key : string) : result (bool * bool) := Ok (false, false).

(** Providers: one that answers with given records, one that cannot be reached. *)
Definition unreachable : sync_ports :=
  mk_sync_ports (λ _, Ok ()) (Some (λ _ _, Err (RuntimeError "connection refused")))
    (λ _, Err (ValidationError "Input should be a valid datetime")) id.

Lemma live_db_ok : db_ok live_db.
Proof. apply save_machine_ok, save_request_ok. by split. Qed.

Lemma reconcile_request_safe_witness :
  let w' := (reconcile_request (demo_sync [running_record "i-1" (JStr "ami-1")]) demo_sm no_discovery
               live_request 10 (quiet live_db [])).2 in
  owned "i-1" (ownership live_machine) (w_db w').
Proof.
  destruct (reconcile_request_safe (demo_sync [running_record "i-1" (JStr "ami-1")]) demo_sm
    no_discovery live_request 10 (quiet live_db [])
    (reconcile_request (demo_sync [running_record "i-1" (JStr "ami-1")]) demo_sm no_discovery
       live_request 10 (quiet live_db [])).1.1
    (reconcile_request (demo_sync [running_record "i-1" (JStr "ami-1")]) demo_sm no_discovery
       live_request 10 (quiet live_db [])).1.2
    (reconcile_request (demo_sync [running_record "i-1" (JStr "ami-1")]) demo_sm no_discovery
       live_request 10 (quiet live_db [])).2) as (Hown & _).
  - by destruct (reconcile_request _ _ _ _ _ _) as [[? ?] ?].
  - split; [exact live_db_ok|constructor].
  - apply Hown. split; [|constructor]. eexists. split; vm_compute; reflexivity.
Defined.


Lemma unanswered_poll_changes_nothing_witness :
  (reconcile_request unreachable demo_sm no_discovery live_request 10 (quiet live_db [])).2
  = quiet live_db [].
Proof.
  destruct (unanswered_poll_changes_nothing unreachable demo_sm no_discovery live_request 10 live_db []
    (Err (ProviderFetchFailed demo_id)) (Some ("aws-1", false))
    (reconcile_request unreachable demo_sm no_discovery live_request 10 (quiet live_db [])).2)
    as [H _]; [reflexivity|vm_compute; reflexivity|done|exact H].
Defined.

Lemma write_status_refines_witness :
  ∃ r d', write_status demo_sm live_request "failed" "boom" no_metadata 10 (quiet live_db []) =
          (Ok r, quiet d' []) ∧ Request.status r = RequestStatus.FAILED.
Proof.
  rewrite (write_status_refines demo_sm live_request "failed" "boom" no_metadata 10 live_db [] live_db_ok).
  do 2 eexists. split; vm_compute; reflexivity.
Defined.

Lemma pass_safe_witness :
  owned "i-1" (ownership live_machine)
    (w_db (reconcile_once unreachable demo_sm no_discovery no_breaker 60 (λ _, 10) (λ _, false)
             (quiet live_db [])).2).
Proof.
  destruct (pass_safe unreachable demo_sm no_discovery no_breaker 60 (λ _, 10) (λ _, false)
    (quiet live_db [])
    (reconcile_once unreachable demo_sm no_discovery no_breaker 60 (λ _, 10) (λ _, false)
       (quiet live_db [])).1
    (reconcile_once unreachable demo_sm no_discovery no_breaker 60 (λ _, 10) (λ _, false)
       (quiet live_db [])).2) as (Hown & _).
  - apply surjective_pairing.
  - split; [exact live_db_ok|constructor].
  - apply Hown. split; [|constructor]. eexists. split; vm_compute; reflexivity.
Defined.
