(* ===== verification/MachineRow.v ===== *)
(** * Machines as stored rows

    [MachineSerializer] and the reads of [MachineRepositoryImpl] of
    [orb/infrastructure/storage/repositories/machine_repository.py], on a JSON
    strategy.

    The rows a strategy hands out are the ones it caches, and reading a row of the
    old layout changes it in place, so [_normalize_on_read] gives two rows: the one
    to validate and what the caller's has become.  Pydantic is outside the model:
    how it reads integers and timestamps, and how it writes timestamps, are
    arguments.  The columns [id], [updated_at] (which nothing sets) and the schema
    version are no fields of the modelled aggregate.  Where the code copies a
    dictionary, another truthy value is refused. *)

From stdpp Require Import base strings list numbers sets.
From Stdlib Require Import Ascii ZArith Lia.
From S2P Require Import Prelude RequestTypes Diagnostic RequestAggregate MachineAggregate.
From S2P Require Import TimeText JsonText RequestRow JsonStore RequestRepo MachineSync.
Open Scope Z_scope.

Abbreviation row := (dict json).

Definition _CURRENT_SCHEMA_VERSION : string := "2.0.0".

(** ** Reading old layouts *)

Definition nullable_defaults (data : row) : row :=
  let data := set_if_null "tags" (JDict []) data in
  let data := set_if_null "metadata" (JDict []) data in
  let data := set_if_null "provider_data" (JDict []) data in
  let data := set_if_null "security_group_ids" (JList []) data in
  set_if_null "health_checks" (JList []) data.

(** [dict(data.get(k) or {})]. *)
Definition copied_dict (k : string) (data : row) : result (dict json) :=
  match jget k data with
  | JDict d => Ok d
  | j => if truthy j then Err (TypeError "object is not a mapping") else Ok []
  end.

Definition migrated_keys : list string := ["vcpus"; "availability_zone"; "region"].

(** The loop that moves keys from the metadata to the provider data. *)
Fixpoint migrate (keys : list string) (metadata provider_data : dict json) (moved : bool)
  : dict json * dict json * bool :=
  match keys with
  | [] => (metadata, provider_data, moved)
  | k :: keys =>
      match dget k metadata with
      | Some v =>
          if dmem k provider_data then migrate keys metadata provider_data moved
          else migrate keys (dpop k metadata) (dset k v provider_data) true
      | None => migrate keys metadata provider_data moved
      end
  end.

(** The nested envelope, when the provider data holds one. *)
Definition envelope (provider_data : json) : option (dict json * dict json) :=
  match provider_data with
  | JDict pd =>
      match dget "provider_data" pd with
      | Some (JDict nested) => Some (nested, dpop "provider_data" pd)
      | _ => None
      end
  | _ => None
  end.

Section serializer.
Context (lax_int : json → result Z).
Context (read_moment : json → result (option datetime)) (dump_moment : datetime → string).
(** [find_row] is [storage_backend.find_by_id]. *)
Definition _backfill_provider_api (find_row : string → result (option json)) (data : row) : option string :=
  match jget "request_id" data with
  | JStr request_id =>
      if request_id ≟ EmptyString then None
      else match find_row request_id with
           | Ok (Some (JDict request_data)) =>
               if truthy (jget "provider_api" request_data)
               then Some (json_str (jget "provider_api" request_data)) else None
           | _ => None
           end
  | _ => None
  end.

Definition backfilled (find_row : string → result (option json)) (data : row) : row :=
  if truthy (jget "provider_api" data) then data
  else match _backfill_provider_api find_row data with
       | Some recovered => dset "provider_api" (JStr recovered) data
       | None => dpop "provider_api" data
       end.

Definition is_current (data : row) : bool :=
  match jget "schema_version" data with JStr v => v ≟ _CURRENT_SCHEMA_VERSION | _ => false end.

Definition named (data : row) : row :=
  if truthy (jget "name" data) then data
  else dset "name" (dget_default "machine_id" data (JStr EmptyString)) data.

Definition with_legacy_tags (data : row) : result row :=
  if truthy (jget "tags" data) then Ok data
  else
    metadata ← copied_dict "metadata" data;
    let legacy_tags := jget "tags" metadata in
    Ok (if truthy legacy_tags then dset "tags" legacy_tags data else data).

(** The row to validate, and what the caller's row has become: the envelope is
    popped from a dictionary the two share, unless the migration replaced it. *)
Definition _normalize_on_read (find_row : string → result (option json)) (caller : row)
  : result row * row :=
  let data := backfilled find_row (nullable_defaults caller) in
  if is_current data then (Ok data, caller)
  else
    match with_legacy_tags (named data) with
    | Err e => (Err e, caller)
    | Ok data =>
        match copied_dict "metadata" data, copied_dict "provider_data" data with
        | Ok metadata, Ok provider_data =>
            let '(metadata, provider_data, moved) := migrate migrated_keys metadata provider_data false in
            let data := if moved : bool then dset "provider_data" (JDict provider_data)
                                        (dset "metadata" (JDict metadata) data) else data in
            let '(data, caller) :=
              match envelope (jget "provider_data" data) with
              | Some (nested, outer) =>
                  (dset "provider_data" (JDict (dmerge nested outer)) data,
                   if moved then caller else dset "provider_data" (JDict outer) caller)
              | None => (data, caller)
              end in
            (Ok (if dmem "provider_type" data then data
                 else dset "provider_type" (JStr "aws") data), caller)
        | Err e, _ => (Err e, caller)
        | _, Err e => (Err e, caller)
        end
    end.

(** ** Fields *)

(** A value object of one stripped text, from a text or the old form. *)
Definition text_object (make : pyval → result string) (j : json) : result string :=
  match j with
  | JDict d => match dget "value" d with
               | Some v => make (PJson v)
               | None => Err (ValidationError "Field required")
               end
  | _ => make (PJson j)
  end.

(** The identifier [Machine.__init__] finds. *)
Definition machine_id_field (data : row) : result string :=
  match dget "machine_id" data with
  | Some j => text_object make_machine_id j
  | None => match dget "instance_id" data with
            | Some j => make_machine_id (PJson (JStr (json_str j)))
            | None => Err (ValidationError "Field required")
            end
  end.

Definition required_column (k : string) (data : row) : result json :=
  match dget k data with Some j => Ok j | None => Err (ValidationError "Field required") end.

Definition status_field (data : row) : result MachineStatus.t :=
  match dget "status" data with
  | None => Ok MachineStatus.PENDING
  | Some j => enum_field "MachineStatus" j
  end.

Definition created_column (data : row) (now : datetime) : result (option datetime) :=
  match dget "created_at" data with None => Ok (Some now) | Some j => read_moment j end.

(** [Machine.model_validate] of a row. *)
Definition validate (data : row) (now : datetime) (holder : nat) : result Machine.t :=
  machine_id ← machine_id_field data;
  name ← opt_str_field (jget "name" data);
  template_id ← (required_column "template_id" data ≫= str_field);
  request_id ← opt_str_field (jget "request_id" data);
  return_request_id ← opt_str_field (jget "return_request_id" data);
  provider_type ← (required_column "provider_type" data ≫= str_field);
  provider_name ← (required_column "provider_name" data ≫= str_field);
  provider_api ← (required_column "provider_api" data ≫= str_field);
  _ ← (if provider_api ≟ EmptyString
       then Err (ValidationError "String should have at least 1 character") else Ok ());
  resource_id ← opt_str_field (jget "resource_id" data);
  instance_type ← (required_column "instance_type" data ≫= text_object make_instance_type);
  image_id ← (required_column "image_id" data ≫= str_field);
  price_type ← opt_str_field (jget "price_type" data);
  private_ip ← opt_str_field (jget "private_ip" data);
  public_ip ← opt_str_field (jget "public_ip" data);
  private_dns_name ← opt_str_field (jget "private_dns_name" data);
  public_dns_name ← opt_str_field (jget "public_dns_name" data);
  subnet_id ← opt_str_field (jget "subnet_id" data);
  security_group_ids ← str_list_field (dget_default "security_group_ids" data (JList []));
  vpc_id ← opt_str_field (jget "vpc_id" data);
  status ← status_field data;
  status_reason ← opt_str_field (jget "status_reason" data);
  launch_time ← read_moment (jget "launch_time" data);
  provisioning_started_at ← read_moment (jget "provisioning_started_at" data);
  termination_time ← read_moment (jget "termination_time" data);
  tags ← Tags.model_validate (dget_default "tags" data (JDict []));
  metadata ← dict_field (dget_default "metadata" data (JDict []));
  provider_data ← dict_field (dget_default "provider_data" data (JDict []));
  version ← lax_int (dget_default "version" data (JInt 0));
  created_at ← created_column data now;
  Ok (Machine.mk machine_id name template_id request_id return_request_id provider_type
        provider_name provider_api resource_id instance_type image_id price_type private_ip
        public_ip private_dns_name public_dns_name subnet_id security_group_ids vpc_id status
        status_reason launch_time provisioning_started_at termination_time tags metadata
        provider_data version created_at holder []).

(** The machine with the version its holder is marked with, and the caller's row. *)
Definition from_dict (find_row : string → result (option json)) (caller : row) (now : datetime)
    (holder : nat) : result (Machine.t * Z) * row :=
  let '(data, caller) := _normalize_on_read find_row caller in
  ((data ← data;
    m ← validate data now holder;
    loaded ← int_or_zero (jget "version" data);
    Ok (m, loaded)), caller).

Definition moment (o : option datetime) : json :=
  match o with Some t => JStr (dump_moment t) | None => JNull end.

Definition to_dict (m : Machine.t) : row :=
  [("created_at", moment (Machine.created_at m)); ("updated_at", JNull);
   ("machine_id", JStr (Machine.machine_id m)); ("name", opt_text (Machine.name m));
   ("template_id", JStr (Machine.template_id m)); ("request_id", opt_text (Machine.request_id m));
   ("return_request_id", opt_text (Machine.return_request_id m));
   ("provider_type", JStr (Machine.provider_type m));
   ("provider_name", JStr (Machine.provider_name m));
   ("provider_api", JStr (Machine.provider_api m));
   ("resource_id", opt_text (Machine.resource_id m));
   ("instance_type", JStr (Machine.instance_type m)); ("image_id", JStr (Machine.image_id m));
   ("price_type", opt_text (Machine.price_type m)); ("private_ip", opt_text (Machine.private_ip m));
   ("public_ip", opt_text (Machine.public_ip m));
   ("private_dns_name", opt_text (Machine.private_dns_name m));
   ("public_dns_name", opt_text (Machine.public_dns_name m));
   ("subnet_id", opt_text (Machine.subnet_id m));
   ("security_group_ids", texts (Machine.security_group_ids m));
   ("vpc_id", opt_text (Machine.vpc_id m));
   ("status", JStr (MachineStatus.value (Machine.status m)));
   ("status_reason", opt_text (Machine.status_reason m));
   ("launch_time", moment (Machine.launch_time m));
   ("provisioning_started_at", moment (Machine.provisioning_started_at m));
   ("termination_time", moment (Machine.termination_time m));
   ("tags", Tags._serialize (Machine.tags m)); ("metadata", JDict (Machine.metadata m));
   ("provider_data", JDict (Machine.provider_data m)); ("version", JInt (Machine.version m));
   ("schema_version", JStr _CURRENT_SCHEMA_VERSION)].

(** ** The repository *)

Definition with_data (staged : _StagedWrite) (data : row) : _StagedWrite :=
  match JsonStore.op staged with
  | Put _ => mk_staged (Put data) (expected staged) (conflict staged)
  | JsonStore.Delete => staged
  end.

(** What reading a row leaves in the strategy that handed it out. *)
Definition touch (i : string) (data : row) (s : strategy) : strategy :=
  match dget i (_buffer s) with
  | Some staged => s <| _buffer := dset i (with_data staged data) (_buffer s) |>
  | None =>
      match _cache s with
      | Some (sec, signature) => s <| _cache := Some (dset i (JDict data) sec, signature) |>
      | None => s
      end
  end.

(** The strategy as the backend the serializer was given. *)
Definition backend (d : disk) (s : strategy) (i : string) : result (option json) :=
  (find_by_id d s i).1.1.

Definition _deserialize (d : disk) (s : strategy) (i : string) (data : json) (now : datetime)
    (holder : nat) : result (Machine.t * Z) * strategy :=
  match data with
  | JDict caller =>
      let '(m, caller) := from_dict (backend d s) caller now holder in (m, touch i caller s)
  | _ => (Err not_a_mapping, s)
  end.

Definition get_by_id (d : disk) (s : strategy) (i : string) (now : datetime) (holder : nat)
  : step (option (Machine.t * Z)) :=
  let '(r, d', s') := find_by_id d s i in
  match r with
  | Err e => (Err e, d', s')
  | Ok None => (Ok None, d', s')
  | Ok (Some data) =>
      if truthy data then
        let '(m, s'') := _deserialize d' s' i data now holder in (Some <$> m, d', s'')
      else (Ok None, d', s')
  end.

(** [find_by_criteria] for one field, with the identifiers the rows are filed under. *)
Fixpoint matching_entries (field value : string) (sec : section) : result (list (string * json)) :=
  match sec with
  | [] => Ok []
  | (i, data) :: sec' =>
      b ← matches field value data;
      rest ← matching_entries field value sec';
      Ok (if b : bool then (i, data) :: rest else rest)
  end.

Definition is_machine_row (data : json) : bool :=
  match data with JDict r => dmem "machine_id" r | _ => false end.

(** [find_by_criteria] of the strategy. *)
Definition criteria_entries (d : disk) (s : strategy) (field value : string)
  : step (list (string * json)) :=
  let '(r, d', s') := _visible_records d s in
  (wrap_error "Failed to search entities: " (all_data ← r; matching_entries field value all_data), d', s').

Definition machine_entries (d : disk) (s : strategy) (field value : string)
  : step (list (string * json)) :=
  let '(r, d', s') := criteria_entries d s field value in
  ((entries ← r; Ok (List.filter (λ e, is_machine_row e.2) entries)), d', s').

(** [_iter_deserialized_strict]: the first row that does not load raises. *)
Fixpoint load_strict (d : disk) (s : strategy) (entries : list (string * json)) (now : datetime)
    (holder : nat) : result (list (Machine.t * Z)) * strategy :=
  match entries with
  | [] => (Ok [], s)
  | (i, data) :: rest =>
      match _deserialize d s i data now holder with
      | (Err e, s') => (Err e, s')
      | (Ok m, s') =>
          let '(ms, s'') := load_strict d s' rest now (S holder) in ((λ ms, m :: ms) <$> ms, s'')
      end
  end.

(** [_safe_deserialize_iter]: rows that do not load are counted and left out; the
    counting itself fails on a record that is not a mapping. *)
Fixpoint load_safe (d : disk) (s : strategy) (entries : list (string * json)) (now : datetime)
    (holder : nat) (counters : dict Z) : result (list (Machine.t * Z) * dict Z) * strategy :=
  match entries with
  | [] => (Ok ([], counters), s)
  | (i, data) :: rest =>
      match _deserialize d s i data now holder with
      | (Ok m, s') =>
          let '(r, s'') := load_safe d s' rest now (S holder) counters in
          ((λ p : list (Machine.t * Z) * dict Z, (m :: p.1, p.2)) <$> r, s'')
      | (Err _, s') =>
          match data with
          | JDict row => load_safe d s' rest now (S holder) (bump (row_kind row) counters)
          | _ => (Err (OtherError "AttributeError" "object has no attribute 'get'"), s')
          end
      end
  end.

(** Rows found, deserialised with [_safe_deserialize_iter]. *)
Definition load_found (found : step (list (string * json))) (now : datetime) (holder : nat)
    (counters : dict Z) : step (list (Machine.t * Z) * dict Z) :=
  let '(r, d, s) := found in
  match r with
  | Err e => (Err e, d, s)
  | Ok entries => let '(ms, s') := load_safe d s entries now holder counters in (ms, d, s')
  end.

Definition find_by_return_request_id (d : disk) (s : strategy) (return_request_id : string)
    (now : datetime) (holder : nat) : step (list (Machine.t * Z)) :=
  let '(r, d', s') := machine_entries d s "return_request_id" return_request_id in
  match r with
  | Err e => (Err e, d', s')
  | Ok entries => let '(ms, s'') := load_strict d' s' entries now holder in (ms, d', s'')
  end.

Definition find_by_request_id (d : disk) (s : strategy) (request_id : string)
    (now : datetime) (holder : nat) (counters : dict Z) : step (list (Machine.t * Z) * dict Z) :=
  load_found (machine_entries d s "request_id" request_id) now holder counters.

(** [_load_by_criteria] of the mixin. *)
Definition load_by_criteria (d : disk) (s : strategy) (field value : string) (now : datetime)
    (holder : nat) (counters : dict Z) : step (list (Machine.t * Z) * dict Z) :=
  load_found (criteria_entries d s field value) now holder counters.

Definition find_by_template_id (d : disk) (s : strategy) (template_id : string) (now : datetime)
    (holder : nat) (counters : dict Z) :=
  load_by_criteria d s "template_id" template_id now holder counters.

Definition find_by_status (d : disk) (s : strategy) (status : MachineStatus.t) (now : datetime)
    (holder : nat) (counters : dict Z) :=
  load_by_criteria d s "status" (MachineStatus.value status) now holder counters.

Definition find_by_machine_id (d : disk) (s : strategy) (i : string) (now : datetime) (holder : nat)
    (counters : dict Z) : step (option (Machine.t * Z) * dict Z) :=
  let '(r, d', s') := load_by_criteria d s "machine_id" i now holder counters in
  ((λ p : list (Machine.t * Z) * dict Z, (head p.1, p.2)) <$> r, d', s').

Fixpoint find_by_statuses (d : disk) (s : strategy) (statuses : list MachineStatus.t) (now : datetime)
    (holder : nat) (counters : dict Z) : step (list (Machine.t * Z) * dict Z) :=
  match statuses with
  | [] => (Ok ([], counters), d, s)
  | status :: statuses =>
      match find_by_status d s status now holder counters with
      | (Err e, d', s') => (Err e, d', s')
      | (Ok (ms, counters'), d', s') =>
          let '(r, d'', s'') := find_by_statuses d' s' statuses now (holder + length ms) counters' in
          ((λ p : list (Machine.t * Z) * dict Z, (ms ++ p.1, p.2)) <$> r, d'', s'')
      end
  end.

Definition active_statuses : list MachineStatus.t :=
  [MachineStatus.PENDING; MachineStatus.RUNNING; MachineStatus.LAUNCHING].

Definition find_active_machines (d : disk) (s : strategy) (now : datetime) (holder : nat)
    (counters : dict Z) :=
  find_by_statuses d s active_statuses now holder counters.

Fixpoint find_by_ids (d : disk) (s : strategy) (machine_ids : list string) (now : datetime) (holder : nat)
  : step (list (Machine.t * Z)) :=
  match machine_ids with
  | [] => (Ok [], d, s)
  | i :: machine_ids =>
      match get_by_id d s i now holder with
      | (Err e, d', s') => (Err e, d', s')
      | (Ok found, d', s') =>
          let '(r, d'', s'') := find_by_ids d' s' machine_ids now (S holder) in
          ((λ rest, option_list found ++ rest) <$> r, d'', s'')
      end
  end.

Definition machine_find_all (d : disk) (s : strategy) (now : datetime) (holder : nat) (counters : dict Z)
  : step (list (Machine.t * Z) * dict Z) :=
  load_found (find_all d s) now holder counters.

(** The batch the two ways of saving give to the strategy: a machine comes with
    the version its holder is marked with. *)
Definition batch_items (machines : list (Machine.t * option Z)) : list versioned_item :=
  (λ x : Machine.t * option Z, (Machine.machine_id x.1, to_dict x.1, x.2)) <$> machines.

(** [save_batch]: the events that were pending, and the machines as they are then. *)
Definition machine_save_batch (d : disk) (s : strategy) (machines : list (Machine.t * option Z))
  : step (list MachineEvent * list Machine.t) :=
  match machines with
  | [] => (Ok ([], []), d, s)
  | _ =>
      let '(r, d', s') := save_versioned_batch false d s (batch_items machines) in
      ((written ← r;
        Ok (mjoin ((λ x : Machine.t * option Z, Machine.domain_events x.1) <$> machines),
            zip_with (λ x v, x.1 <| Machine.version := v |> <| Machine.domain_events := [] |>)
              machines written)), d', s')
  end.

Definition machine_save (d : disk) (s : strategy) (machine : Machine.t) (revision : option Z)
  : step (list MachineEvent * Machine.t) :=
  let '(r, d', s') := save_versioned false d s (Machine.machine_id machine) (to_dict machine) revision in
  ((written ← r;
    Ok (Machine.domain_events machine,
        machine <| Machine.version := written |> <| Machine.domain_events := [] |>)), d', s').

Definition machine_delete (d : disk) (s : strategy) (i : string) : step unit := delete_entity false d s i.

Definition machine_exists (d : disk) (s : strategy) (i : string) : step bool := exists_entity d s i.

(** ** Rows written are rows read *)

Context (Hint_field : ∀ z, lax_int (JInt z) = Ok z).
Context (Hnull : read_moment JNull = Ok None).
Context (Hmoment : ∀ t, in_range t → read_moment (JStr (dump_moment t)) = Ok (Some t)).

Definition nonblank (s : string) : Prop := strip s = s ∧ s ≠ EmptyString.

(** The machines the aggregate's own validation lets exist, with timestamps in the
    range of [datetime]. *)
Record storable (m : Machine.t) : Prop := mk_storable {
  st_id : nonblank (Machine.machine_id m);
  st_type : nonblank (Machine.instance_type m);
  st_api : Machine.provider_api m ≠ EmptyString;
  st_created : time_ok (Machine.created_at m);
  st_launch : time_ok (Machine.launch_time m);
  st_started : time_ok (Machine.provisioning_started_at m);
  st_ended : time_ok (Machine.termination_time m)
}.

Definition reloaded (m : Machine.t) (holder : nat) : Machine.t :=
  m <| Machine.persisted_revision := holder |> <| Machine.domain_events := [] |>.

Lemma moment_roundtrip o : time_ok o → read_moment (moment o) = Ok o.
Proof. destruct o as [t|]; [apply Hmoment|done]. Qed.

Lemma make_nonblank message s : nonblank s → stripped_text message (PJson (JStr s)) = Ok s.
Proof. intros [Hs Hne]. cbn. rewrite Hs. by rewrite bool_decide_eq_false_2. Qed.

Lemma status_value (x : MachineStatus.t) : enum_field "MachineStatus" (JStr (MachineStatus.value x)) = Ok x.
Proof. exact (enum_field_value "MachineStatus" x). Qed.

Lemma nullable_written m :
  nullable_defaults (to_dict m) = to_dict m ++ [("health_checks", JList [])].
Proof. reflexivity. Qed.

Lemma normalize_written find_row m :
  Machine.provider_api m ≠ EmptyString →
  _normalize_on_read find_row (to_dict m)
  = (Ok (to_dict m ++ [("health_checks", JList [])]), to_dict m).
Proof.
  intros Hapi. unfold _normalize_on_read. rewrite nullable_written. unfold backfilled.
  assert (truthy (jget "provider_api" (to_dict m ++ [("health_checks", JList [])])) = true) as ->.
  { change (negb (Machine.provider_api m ≟ EmptyString) = true). by rewrite bool_decide_eq_false_2. }
  reflexivity.
Qed.

Lemma machine_row find_row m now holder :
  storable m →
  from_dict find_row (to_dict m) now holder =
  (if dmem "tags" (Machine.tags m)
   then Err (ValidationError "Input should be a valid dictionary")
   else Ok (reloaded m holder, Machine.version m), to_dict m).
Proof.
  intros [Hid Hty Hapi Hc Hl Hs He]. unfold from_dict. rewrite normalize_written by done.
  f_equal. set (d := to_dict m ++ [("health_checks", JList [])]). rewrite result_bind_ret.
  unfold validate, machine_id_field, status_field, created_column, required_column, jget, dget_default.
  read_columns. cbn [default from_option mbind result_bind]. unfold id.
  cbn [text_object]. unfold make_machine_id, make_instance_type.
  rewrite !make_nonblank by done. cbn [mbind result_bind str_field].
  rewrite !opt_text_field. cbn [mbind result_bind]. rewrite bool_decide_eq_false_2 by done.
  cbn [mbind result_bind]. rewrite texts_field, status_value. cbn [mbind result_bind].
  rewrite !moment_roundtrip by done. cbn [mbind result_bind].
  rewrite Tags.model_validate_serialize. destruct (dmem "tags" (Machine.tags m)); [done|].
  cbn [mbind result_bind dict_field]. rewrite Hint_field. cbn [mbind result_bind int_or_zero].
  unfold reloaded. by destruct m.
Qed.

(** ** The types of the columns *)

Inductive coltype := CId | CText | CApi | COptText | CTexts | CStatus | CTime | CTags | CObject | CVersion.

Definition has_type (t : coltype) (j : json) : Prop :=
  match t with
  | CId => ∃ s, j = JStr s ∧ strip s ≠ EmptyString
  | CText => ∃ s, j = JStr s
  | CApi => ∃ s, j = JStr s ∧ s ≠ EmptyString
  | COptText => j = JNull ∨ ∃ s, j = JStr s
  | CTexts => j = JNull ∨ ∃ l, j = texts l
  | CStatus => ∃ s : MachineStatus.t, j = JStr (MachineStatus.value s)
  | CTime => ∃ o, read_moment j = Ok o
  | CTags => j = JNull ∨ ∃ tags, j = Tags._serialize tags ∧ dmem "tags" tags = false
  | CObject => j = JNull ∨ ∃ d, j = JDict d
  | CVersion => ∃ z, j = JInt z
  end.

(** The columns of the current schema, and whether a row must have them. *)
Definition schema : list (string * coltype * bool) :=
  [("machine_id", CId, true); ("name", COptText, false); ("template_id", CText, true);
   ("request_id", COptText, false); ("return_request_id", COptText, false);
   ("provider_type", CText, true); ("provider_name", CText, true); ("provider_api", CApi, true);
   ("resource_id", COptText, false); ("instance_type", CId, true); ("image_id", CText, true);
   ("price_type", COptText, false); ("private_ip", COptText, false); ("public_ip", COptText, false);
   ("private_dns_name", COptText, false); ("public_dns_name", COptText, false);
   ("subnet_id", COptText, false); ("security_group_ids", CTexts, false); ("vpc_id", COptText, false);
   ("status", CStatus, false); ("status_reason", COptText, false); ("launch_time", CTime, false);
   ("provisioning_started_at", CTime, false); ("termination_time", CTime, false);
   ("created_at", CTime, false); ("tags", CTags, false); ("metadata", CObject, false);
   ("provider_data", CObject, false); ("version", CVersion, false)].

Definition typed_column (data : row) (c : string * coltype * bool) : Prop :=
  match dget c.1.1 data with Some j => has_type c.1.2 j | None => c.2 = false end.

Definition row_typed (data : row) : Prop := is_current data = true ∧ Forall (typed_column data) schema.

Lemma dget_set_if_null k k' v data :
  dget k (set_if_null k' v data) =
  if decide (k' = k) then Some match dget k data with Some JNull | None => v | Some j => j end
  else dget k data.
Proof.
  unfold set_if_null, jget. destruct (decide (k' = k)) as [->|Hne].
  - destruct (dget k data) as [[]|] eqn:H; cbn; by rewrite ?dget_dset_eq.
  - destruct (default JNull (dget k' data)); try done. by rewrite dget_dset_ne.
Qed.

(** A column after the defaults for nulls: a container is never null. *)
Lemma dget_nullable k data :
  dget k (nullable_defaults data) =
  if k ∈? ["tags"; "metadata"; "provider_data"] then
    Some match dget k data with Some JNull | None => JDict [] | Some j => j end
  else if k ∈? ["security_group_ids"; "health_checks"] then
    Some match dget k data with Some JNull | None => JList [] | Some j => j end
  else dget k data.
Proof.
  unfold nullable_defaults. rewrite !dget_set_if_null.
  repeat (destruct (decide (_ = k)) as [<-|?]; [by destruct (dget _ data) as [[]|]|]).
  rewrite !bool_decide_eq_false_2; [done|..]; rewrite !not_elem_of_cons; repeat split; try congruence;
    apply not_elem_of_nil.
Qed.

Lemma bind_total {A B} (x : result A) (f : A → result B) :
  (∃ a, x = Ok a) → (∀ a, x = Ok a → ∃ b, f a = Ok b) → ∃ b, (x ≫= f) = Ok b.
Proof. intros [a Ha] Hf. destruct (Hf a Ha) as [b Hb]. exists b. by rewrite Ha. Qed.

Section columns.
Context (data : row) (Hrow : Forall (typed_column data) schema).
Let d1 := nullable_defaults data.

Lemma column k t req : In (k, t, req) schema → typed_column data (k, t, req).
Proof. intros Hin. apply (proj1 (Forall_forall _ _) Hrow). by apply list_elem_of_In. Qed.

Lemma plain_column k :
  k ∈? ["tags"; "metadata"; "provider_data"; "security_group_ids"; "health_checks"] = false →
  dget k d1 = dget k data.
Proof.
  intros Hk. apply bool_decide_eq_false in Hk. rewrite !not_elem_of_cons in Hk.
  destruct Hk as (? & ? & ? & ? & ? & _). unfold d1. rewrite dget_nullable.
  rewrite !bool_decide_eq_false_2; [done|..]; rewrite !not_elem_of_cons; repeat split; try congruence;
    apply not_elem_of_nil.
Qed.

Lemma opt_column k :
  In (k, COptText, false) schema → dget k d1 = dget k data → ∃ o, opt_str_field (jget k d1) = Ok o.
Proof.
  intros Hin Hk. apply column in Hin. unfold typed_column in Hin. cbn in Hin. unfold jget. rewrite Hk.
  destruct (dget k data) as [j|]; [|by eexists]. destruct Hin as [->|[s ->]]; by eexists.
Qed.

Lemma text_column k :
  In (k, CText, true) schema → dget k d1 = dget k data →
  ∃ s, (required_column k d1 ≫= str_field) = Ok s.
Proof.
  intros Hin Hk. apply column in Hin. unfold typed_column in Hin. cbn in Hin.
  unfold required_column. rewrite Hk. destruct (dget k data) as [j|]; [|done].
  destruct Hin as [s ->]. by eexists.
Qed.

Lemma time_column k :
  In (k, CTime, false) schema → dget k d1 = dget k data → ∃ o, read_moment (jget k d1) = Ok o.
Proof.
  intros Hin Hk. apply column in Hin. unfold typed_column in Hin. cbn in Hin. unfold jget. rewrite Hk.
  destruct (dget k data) as [j|]; [done|]. eexists. exact Hnull.
Qed.

Lemma object_column k dflt :
  In (k, CObject, false) schema → k ∈? ["tags"; "metadata"; "provider_data"] = true →
  ∃ o, dict_field (dget_default k d1 dflt) = Ok o.
Proof.
  intros Hin Hk. apply column in Hin. unfold typed_column in Hin. cbn in Hin.
  unfold dget_default, d1. rewrite dget_nullable, Hk. cbn [default from_option]. unfold id.
  destruct (dget k data) as [j|]; [|by eexists]. destruct Hin as [->|[x ->]]; by eexists.
Qed.

Lemma stripped_total message s :
  strip s ≠ EmptyString → ∃ x, stripped_text message (PJson (JStr s)) = Ok x.
Proof. intros Hs. cbn. rewrite bool_decide_eq_false_2 by done. by eexists. Qed.

Lemma id_column k :
  In (k, CId, true) schema → dget k d1 = dget k data →
  ∃ s, dget k d1 = Some (JStr s) ∧ strip s ≠ EmptyString.
Proof.
  intros Hin Hk. apply column in Hin. unfold typed_column in Hin. cbn in Hin. rewrite Hk.
  destruct (dget k data) as [j|]; [|done]. destruct Hin as (s & -> & Hs). eauto.
Qed.

Lemma api_column : ∃ s, dget "provider_api" d1 = Some (JStr s) ∧ s ≠ EmptyString.
Proof.
  pose proof (column "provider_api" CApi true ltac:(cbn; tauto)) as Hin. unfold typed_column in Hin.
  cbn in Hin. rewrite plain_column by done. destruct (dget "provider_api" data) as [j|]; [|done].
  destruct Hin as (s & -> & Hs). eauto.
Qed.

Lemma status_column : ∃ x, status_field d1 = Ok x.
Proof.
  pose proof (column "status" CStatus false ltac:(cbn; tauto)) as Hin. unfold typed_column in Hin.
  cbn in Hin. unfold status_field. rewrite plain_column by done.
  destruct (dget "status" data) as [j|]; [|by eexists]. destruct Hin as [x ->]. exists x. apply status_value.
Qed.

Lemma groups_column : ∃ l, str_list_field (dget_default "security_group_ids" d1 (JList [])) = Ok l.
Proof.
  pose proof (column "security_group_ids" CTexts false ltac:(cbn; tauto)) as Hin.
  unfold typed_column in Hin. cbn in Hin. unfold dget_default, d1. rewrite dget_nullable. cbn.
  destruct (dget "security_group_ids" data) as [j|]; [|by eexists].
  destruct Hin as [->|[l ->]]; [by eexists|]. exists l. apply texts_field.
Qed.

Lemma tags_column : ∃ t, Tags.model_validate (dget_default "tags" d1 (JDict [])) = Ok t.
Proof.
  pose proof (column "tags" CTags false ltac:(cbn; tauto)) as Hin. unfold typed_column in Hin.
  cbn in Hin. unfold dget_default, d1. rewrite dget_nullable. cbn [bool_decide default from_option].
  rewrite bool_decide_eq_true_2 by (by left). unfold id.
  destruct (dget "tags" data) as [j|]; [|by eexists].
  destruct Hin as [->|(t & -> & Ht)]; [by eexists|]. exists t.
  change (Tags.model_validate (Tags._serialize t) = Ok t). by rewrite Tags.model_validate_serialize, Ht.
Qed.

Lemma version_column :
  ∃ z, lax_int (dget_default "version" d1 (JInt 0)) = Ok z ∧ int_or_zero (jget "version" d1) = Ok z.
Proof.
  pose proof (column "version" CVersion false ltac:(cbn; tauto)) as Hin. unfold typed_column in Hin.
  cbn in Hin. unfold dget_default, jget. rewrite plain_column by done.
  destruct (dget "version" data) as [j|]; [|by exists 0; rewrite <-Hint_field].
  destruct Hin as [z ->]. exists z. cbn. by rewrite Hint_field.
Qed.

Lemma created_total now : ∃ o, created_column d1 now = Ok o.
Proof.
  pose proof (column "created_at" CTime false ltac:(cbn; tauto)) as Hin. unfold typed_column in Hin.
  cbn in Hin. unfold created_column. rewrite plain_column by done.
  destruct (dget "created_at" data) as [j|]; [done|by eexists].
Qed.

(** One field after the other, each by the lemma for its type. *)
Ltac read_field :=
  apply bind_total;
  [first [ apply opt_column; [cbn; tauto|by apply plain_column]
         | apply text_column; [cbn; tauto|by apply plain_column]
         | apply time_column; [cbn; tauto|by apply plain_column]
         | apply object_column; [cbn; tauto|done]
         | exact status_column | exact groups_column | exact tags_column | apply created_total ]
  |intros ? _].

Lemma validate_typed now holder : ∃ m, validate d1 now holder = Ok m.
Proof.
  unfold validate. apply bind_total.
  { destruct (id_column "machine_id") as (s & Hs & Hne); [cbn; tauto|by apply plain_column|].
    unfold machine_id_field. rewrite Hs. by apply stripped_total. }
  intros machine_id _. do 6 read_field.
  destruct api_column as (api & Hapi & Hne).
  assert ((required_column "provider_api" d1 ≫= str_field) = Ok api) as ->
    by (unfold required_column; by rewrite Hapi).
  cbn [mbind result_bind]. rewrite bool_decide_eq_false_2 by done. cbn [mbind result_bind].
  read_field. apply bind_total.
  { destruct (id_column "instance_type") as (s & Hs & Hs'); [cbn; tauto|by apply plain_column|].
    unfold required_column. rewrite Hs. cbn [mbind result_bind text_object]. by apply stripped_total. }
  intros instance_type _. do 17 read_field.
  destruct version_column as (z & Hz & _). rewrite Hz. cbn [mbind result_bind]. read_field. by eexists.
Qed.

Lemma typed_row_loads find_row now holder :
  is_current data = true → ∃ x, (from_dict find_row data now holder).1 = Ok x.
Proof.
  intros Hcur. unfold from_dict, _normalize_on_read. fold d1.
  assert (backfilled find_row d1 = d1) as ->.
  { destruct api_column as (s & Hs & Hne). unfold backfilled, jget. rewrite Hs. cbn.
    by rewrite bool_decide_eq_false_2. }
  assert (is_current d1 = true) as ->.
  { unfold is_current, jget. by rewrite plain_column. }
  cbn [fst mbind result_bind]. apply bind_total; [apply validate_typed|]. intros m _.
  destruct version_column as (z & _ & Hz). rewrite Hz. by eexists.
Qed.
End columns.

(** ** Rows of the old layout, read twice *)

(** Two rows that differ at most in their provider data. *)
Definition eq_but (a b : row) : Prop := ∀ k, k ≠ "provider_data" → dget k a = dget k b.

Lemma jget_eq_but a b k : eq_but a b → k ≠ "provider_data" → jget k a = jget k b.
Proof. intros H Hk. unfold jget. by rewrite H. Qed.

Lemma dset_eq_but k v a b : eq_but a b → eq_but (dset k v a) (dset k v b).
Proof. intros H k' Hk. rewrite !dget_dset. case_decide; [done|auto]. Qed.

Lemma dpop_eq_but k a b : eq_but a b → eq_but (dpop k a) (dpop k b).
Proof. intros H k' Hk. rewrite !dget_dpop. case_decide; [done|auto]. Qed.

Lemma nullable_eq_but a b : eq_but a b → eq_but (nullable_defaults a) (nullable_defaults b).
Proof. intros H k Hk. rewrite !dget_nullable. by rewrite (H k Hk). Qed.

Lemma backfilled_eq_but find_row a b :
  eq_but a b → eq_but (backfilled find_row a) (backfilled find_row b).
Proof.
  intros H. unfold backfilled, _backfill_provider_api.
  rewrite (jget_eq_but a b "provider_api"), (jget_eq_but a b "request_id") by done.
  destruct (truthy _); [done|]. case_match; auto using dset_eq_but, dpop_eq_but.
Qed.

Lemma named_eq_but a b : eq_but a b → eq_but (named a) (named b).
Proof.
  intros H. unfold named, dget_default. rewrite (jget_eq_but a b "name"), (H "machine_id") by done.
  destruct (truthy _); auto using dset_eq_but.
Qed.

Lemma legacy_tags_eq_but a b x :
  eq_but a b → with_legacy_tags a = Ok x → ∃ y, with_legacy_tags b = Ok y ∧ eq_but x y.
Proof.
  intros H. unfold with_legacy_tags, copied_dict.
  rewrite (jget_eq_but a b "tags"), (jget_eq_but a b "metadata") by done.
  destruct (truthy (jget "tags" b)); [intros [= <-]; eauto|].
  intros Hx. apply result_bind_Ok in Hx as (md & -> & [= <-]). cbn [mbind result_bind].
  eexists. split; [done|]. destruct (truthy _); auto using dset_eq_but.
Qed.

(** The stages before the envelope change three columns only. *)
Lemma prepared_column find_row a x k :
  with_legacy_tags (named (backfilled find_row (nullable_defaults a))) = Ok x →
  k ≠ "tags" → k ≠ "name" → k ≠ "provider_api" → dget k x = dget k (nullable_defaults a).
Proof.
  intros H Ht Hn Hp. transitivity (dget k (named (backfilled find_row (nullable_defaults a)))).
  - unfold with_legacy_tags in H. destruct (truthy _); [by injection H as <-|].
    apply result_bind_Ok in H as (md & _ & [= <-]). destruct (truthy _); [|done]. by rewrite dget_dset_ne.
  - transitivity (dget k (backfilled find_row (nullable_defaults a))).
    + unfold named. destruct (truthy _); [done|]. by rewrite dget_dset_ne.
    + unfold backfilled. destruct (truthy _); [done|].
      destruct (_backfill_provider_api _ _); [by rewrite dget_dset_ne|]. by rewrite dget_dpop, decide_False.
Qed.

Lemma validate_eq_but a b x y now holder m :
  eq_but a b → dget "provider_data" a = Some (JDict x) → dget "provider_data" b = Some (JDict y) →
  validate a now holder = Ok m →
  Machine.provider_data m = x ∧ validate b now holder = Ok (m <| Machine.provider_data := y |>).
Proof.
  intros H Ha Hb. assert (H' : ∀ k, k ≠ "provider_data" → dget k b = dget k a) by (intros; by rewrite H).
  unfold validate, machine_id_field, status_field, created_column, required_column, jget, dget_default.
  rewrite Ha, Hb. rewrite !H' by done. cbn [default from_option]. unfold id. cbn [dict_field]. intros Hv.
  repeat (apply result_bind_Ok in Hv as (? & ? & Hv)).
  match goal with E : Ok x = Ok _ |- _ => injection E as <- end. injection Hv as <-. split; [done|].
  repeat match goal with E : ?t = Ok _ |- context [?t] => rewrite E; cbn [mbind result_bind] end.
  reflexivity.
Qed.

(** A row of the old layout with an envelope and nothing to migrate. *)
Record enveloped (a : row) (pd nested : dict json) : Prop := mk_enveloped {
  en_old : is_current a = false;
  en_data : dget "provider_data" a = Some (JDict pd);
  en_nested : dget "provider_data" pd = Some (JDict nested);
  en_flat : ∀ md k, dget "metadata" a = Some (JDict md) → k ∈ migrated_keys → dget k md = None
}.

Lemma migrate_nothing keys md pd :
  (∀ k, k ∈ keys → dget k md = None) → migrate keys md pd false = (md, pd, false).
Proof.
  induction keys as [|k keys IH]; intros H; [done|]. cbn [migrate]. rewrite (H k) by (by left).
  apply IH. intros k' Hk. apply H. by right.
Qed.

Lemma is_current_prepared find_row a : is_current (backfilled find_row (nullable_defaults a)) = is_current a.
Proof.
  unfold is_current, jget. replace (dget "schema_version" (backfilled find_row (nullable_defaults a)))
    with (dget "schema_version" a); [done|].
  transitivity (dget "schema_version" (nullable_defaults a)); [by rewrite dget_nullable|].
  unfold backfilled. destruct (truthy _); [done|].
  destruct (_backfill_provider_api _ _); [by rewrite dget_dset_ne|]. by rewrite dget_dpop, decide_False.
Qed.

Definition with_provider_type (data : row) : row :=
  if dmem "provider_type" data then data else dset "provider_type" (JStr "aws") data.

Lemma provider_type_eq_but a b : eq_but a b → eq_but (with_provider_type a) (with_provider_type b).
Proof.
  intros H. unfold with_provider_type, dmem. rewrite (H "provider_type") by done.
  case_bool_decide; auto using dset_eq_but.
Qed.

Lemma provider_type_data a : dget "provider_data" (with_provider_type a) = dget "provider_data" a.
Proof. unfold with_provider_type. destruct (dmem _ _); [done|]. by rewrite dget_dset_ne. Qed.

Lemma nullable_provider_data a pd :
  dget "provider_data" a = Some (JDict pd) → dget "provider_data" (nullable_defaults a) = Some (JDict pd).
Proof. intros H. by rewrite dget_nullable, H. Qed.

(** Reading the metadata of a prepared row finds nothing to migrate. *)
Lemma migrate_prepared find_row a x md pd pd' nested :
  enveloped a pd' nested →
  with_legacy_tags (named (backfilled find_row (nullable_defaults a))) = Ok x →
  copied_dict "metadata" x = Ok md → migrate migrated_keys md pd false = (md, pd, false).
Proof.
  intros He Hx Hmd. apply migrate_nothing. intros k Hk.
  pose proof (prepared_column _ _ _ "metadata" Hx) as Hcol. do 3 specialize (Hcol ltac:(done)).
  unfold copied_dict, jget in Hmd. rewrite Hcol, dget_nullable in Hmd.
  rewrite bool_decide_eq_true_2 in Hmd by (right; by left). cbn [default from_option] in Hmd.
  pose proof (en_flat _ _ _ He) as Hflat.
  destruct (dget "metadata" a) as [[|[]|z|t|[|j l]|md0]|]; cbn in Hmd; try (by injection Hmd as <-);
    try discriminate.
  - destruct (negb _); [discriminate|by injection Hmd as <-].
  - destruct (negb _); [discriminate|by injection Hmd as <-].
  - injection Hmd as <-. by apply (Hflat md0).
Qed.

Lemma read_twice find_row a pd nested now holder m v a' :
  enveloped a pd nested →
  from_dict find_row a now holder = (Ok (m, v), a') →
  let outer := dpop "provider_data" pd in
  Machine.provider_data m = dmerge nested outer ∧
  a' = dset "provider_data" (JDict outer) a ∧
  (from_dict find_row a' now holder).1 = Ok (m <| Machine.provider_data := outer |>, v).
Proof.
  intros He H outer. set (b := dset "provider_data" (JDict outer) a).
  assert (Hab : eq_but a b) by (intros k Hk; unfold b; by rewrite dget_dset_ne).
  assert (Heb : is_current b = false).
  { rewrite <-(en_old _ _ _ He). unfold is_current, jget. by rewrite <-(Hab "schema_version"). }
  unfold from_dict, _normalize_on_read in H. rewrite is_current_prepared, (en_old _ _ _ He) in H.
  destruct (with_legacy_tags _) as [x|e] eqn:Hx; [|done].
  destruct (copied_dict "metadata" x) as [md|e] eqn:Hmd; [|done].
  pose proof (prepared_column _ _ _ "provider_data" Hx) as Hpd. do 3 specialize (Hpd ltac:(done)).
  rewrite (nullable_provider_data _ _ (en_data _ _ _ He)) in Hpd. assert (Hcp : copied_dict "provider_data" x = Ok pd) by (unfold copied_dict, jget; by rewrite Hpd).
  rewrite Hcp, (migrate_prepared _ _ _ _ _ _ _ He Hx Hmd) in H. cbv beta iota zeta in H.
  assert (Henv : envelope (jget "provider_data" x) = Some (nested, outer)).
  { unfold envelope, jget. rewrite Hpd. cbn [default from_option]. unfold id. by rewrite (en_nested _ _ _ He). }
  rewrite Henv in H. cbv beta iota zeta in H. fold (with_provider_type (dset "provider_data" (JDict (dmerge nested outer)) x)) in H.
  injection H as H <-.
  destruct (legacy_tags_eq_but _ _ x (named_eq_but _ _ (backfilled_eq_but find_row _ _
    (nullable_eq_but _ _ Hab))) Hx) as (y & Hy & Hxy).
  apply result_bind_Ok in H as (m' & Hv & H). apply result_bind_Ok in H as (z & Hz & [= <- <-]).
  pose proof (prepared_column _ _ _ "provider_data" Hy) as Hpy. do 3 specialize (Hpy ltac:(done)).
  rewrite (nullable_provider_data b outer) in Hpy by (unfold b; by rewrite dget_dset_eq).
  set (u := with_provider_type (dset "provider_data" (JDict (dmerge nested outer)) x)) in *.
  assert (Huy : eq_but u (with_provider_type y)).
  { apply provider_type_eq_but. intros k Hk. rewrite dget_dset_ne by done. by apply Hxy. }
  assert (Hud : dget "provider_data" u = Some (JDict (dmerge nested outer)))
    by (unfold u; by rewrite provider_type_data, dget_dset_eq).
  assert (Hyd : dget "provider_data" (with_provider_type y) = Some (JDict outer))
    by (by rewrite provider_type_data).
  destruct (validate_eq_but u (with_provider_type y) _ _ _ _ _ Huy Hud Hyd Hv) as [Hp Hv'].
  split; [done|]. split; [done|]. fold b.
  unfold from_dict, _normalize_on_read. rewrite is_current_prepared, Heb, Hy.
  assert (Hmdy : copied_dict "metadata" y = Ok md).
  { unfold copied_dict, jget. rewrite <-(Hxy "metadata") by done. exact Hmd. }
  assert (Hcpy : copied_dict "provider_data" y = Ok outer) by (unfold copied_dict, jget; by rewrite Hpy).
  rewrite Hmdy, Hcpy.
  assert (Hmig : migrate migrated_keys md outer false = (md, outer, false))
    by (exact (migrate_prepared _ _ _ _ outer _ _ He Hx Hmd)).
  rewrite Hmig. cbv beta iota zeta.
  assert (Henv' : envelope (jget "provider_data" y) = None).
  { unfold envelope, jget. rewrite Hpy. cbn [default from_option]. unfold id, outer.
    by rewrite dget_dpop, decide_True. }
  rewrite Henv'. cbv beta iota zeta. cbn [fst]. fold (with_provider_type y). cbn [mbind result_bind]. rewrite Hv'. cbn [mbind result_bind].
  rewrite <-(jget_eq_but _ _ "version" Huy), Hz by done. done.
Qed.

(** ** Lemmas: the columns of a normalised row *)

Lemma final_column find_row a x a' k :
  _normalize_on_read find_row a = (Ok x, a') →
  k ∉ ["tags"; "name"; "metadata"; "provider_data"; "provider_type"] →
  dget k x = dget k (backfilled find_row (nullable_defaults a)).
Proof.
  rewrite !not_elem_of_cons. intros H (Ht & Hn & Hm & Hp & Hpt & _). unfold _normalize_on_read in H.
  destruct (is_current _); [by injection H as <- _|].
  destruct (with_legacy_tags _) as [y|e] eqn:Hy; [|done].
  assert (Hyk : dget k y = dget k (backfilled find_row (nullable_defaults a))).
  { transitivity (dget k (named (backfilled find_row (nullable_defaults a)))).
    - unfold with_legacy_tags in Hy. destruct (truthy _); [by injection Hy as <-|].
      apply result_bind_Ok in Hy as (md & _ & [= <-]). destruct (truthy _); [|done].
      by rewrite dget_dset_ne.
    - unfold named. destruct (truthy _); [done|]. by rewrite dget_dset_ne. }
  destruct (copied_dict "metadata" y) as [md|e]; [|by destruct (copied_dict "provider_data" y)].
  destruct (copied_dict "provider_data" y) as [pd|e]; [|done].
  destruct (migrate migrated_keys md pd false) as [[md' pd'] moved].
  set (z := if moved then dset "provider_data" (JDict pd') (dset "metadata" (JDict md') y) else y) in H.
  assert (Hzk : dget k z = dget k y).
  { unfold z. destruct moved; [|done]. by rewrite !dget_dset_ne. }
  destruct (envelope (jget "provider_data" z)) as [[nested outer]|]; injection H as <- _;
    fold (with_provider_type (dset "provider_data" (JDict (dmerge nested outer)) z)) ||
    fold (with_provider_type z); unfold with_provider_type; destruct (dmem _ _);
    rewrite ?dget_dset_ne by done; congruence.
Qed.

Lemma validate_columns x now holder m :
  validate x now holder = Ok m →
  dget "provider_api" x ≠ None ∧
  opt_str_field (jget "return_request_id" x) = Ok (Machine.return_request_id m) ∧
  status_field x = Ok (Machine.status m).
Proof.
  unfold validate. intros H. repeat (apply result_bind_Ok in H as (? & ? & H)). injection H as <-.
  cbn [Machine.return_request_id Machine.status]. split; [|done]. intros Hnone.
  match goal with E : (required_column "provider_api" x ≫= _) = Ok _ |- _ =>
    unfold required_column in E; rewrite Hnone in E; done end.
Qed.

Lemma loaded_column find_row a x a' k :
  _normalize_on_read find_row a = (Ok x, a') →
  k ∉ ["tags"; "name"; "metadata"; "provider_data"; "provider_type"; "provider_api"; "security_group_ids";
       "health_checks"] →
  dget k x = dget k a.
Proof.
  intros Hn. rewrite !not_elem_of_cons. intros (? & ? & ? & ? & ? & ? & ? & ? & _).
  rewrite (final_column _ _ _ _ k Hn)
    by (rewrite !not_elem_of_cons; repeat split; try done; apply not_elem_of_nil).
  unfold backfilled. destruct (truthy _); [|case_match];
    rewrite ?dget_dset_ne, ?dget_dpop, ?decide_False by congruence;
    rewrite dget_nullable, !bool_decide_eq_false_2 by (rewrite !not_elem_of_cons; repeat split; try done; apply not_elem_of_nil);
    done.
Qed.

(** A machine that loads has a provider API, its own or one found for it, is held
    by the return its row names and has the row's status. *)
Lemma from_dict_Ok find_row a now holder m v a' :
  from_dict find_row a now holder = (Ok (m, v), a') →
  dget "provider_api" (backfilled find_row (nullable_defaults a)) ≠ None ∧
  opt_str_field (jget "return_request_id" a) = Ok (Machine.return_request_id m) ∧
  status_field a = Ok (Machine.status m).
Proof.
  unfold from_dict. destruct (_normalize_on_read find_row a) as [[x|e] a''] eqn:Hn; [|done].
  intros [= H _]. apply result_bind_Ok in H as (m' & Hv & H).
  apply result_bind_Ok in H as (z & _ & [= <- _]). apply validate_columns in Hv as (Hapi & Hret & Hst).
  assert (Hcol : ∀ k, k ∈ ["return_request_id"; "status"] → dget k x = dget k a).
  { intros k Hk. apply (loaded_column _ _ _ _ k Hn). rewrite !not_elem_of_cons.
    rewrite !elem_of_cons in Hk. destruct Hk as [->|[->|[]%not_elem_of_nil]];
      repeat split; try done; apply not_elem_of_nil. }
  split_and!.
  - rewrite <-(final_column _ _ _ _ "provider_api" Hn); [done|].
    rewrite !not_elem_of_cons. repeat split; try done. apply not_elem_of_nil.
  - rewrite <-Hret. unfold jget. by rewrite Hcol by (repeat constructor).
  - rewrite <-Hst. unfold status_field. by rewrite Hcol by (repeat constructor).
Qed.

(** ** Lemmas: the repository on a warm cache *)

Section warm.
Context (d : disk) (s : strategy) (sec : section) (signature : option nat).
Context (Hbuf : _buffer s = []) (Hcache : _cache s = Some (sec, signature)).
Context (Hsig : current_signature d (real_path s) = signature).

Lemma warm_find i : find_by_id d s i = (Ok (dget i sec), d, s).
Proof.
  unfold find_by_id, _lookup. rewrite Hbuf. cbn [dget]. unfold _load_data. rewrite Hcache.
  by rewrite bool_decide_eq_true_2.
Qed.

Lemma warm_get i a now holder :
  dget i sec = Some (JDict a) → a ≠ [] →
  get_by_id d s i now holder =
  (Some <$> (from_dict (backend d s) a now holder).1, d,
   s <| _cache := Some (dset i (JDict (from_dict (backend d s) a now holder).2) sec, signature) |>).
Proof.
  intros Hi Hne. unfold get_by_id. rewrite warm_find, Hi.
  replace (truthy (JDict a)) with true by (by destruct a). cbn [_deserialize].
  destruct (from_dict (backend d s) a now holder) as [m a']. unfold touch. rewrite Hbuf. cbn [dget].
  by rewrite Hcache.
Qed.
End warm.

Lemma backfilled_own find_row find_row' a :
  truthy (jget "provider_api" a) = true →
  from_dict find_row a = from_dict find_row' a.
Proof.
  intros H. assert (Hb : ∀ f, backfilled f (nullable_defaults a) = nullable_defaults a).
  { intros f. unfold backfilled. replace (jget "provider_api" (nullable_defaults a))
      with (jget "provider_api" a) by (unfold jget; by rewrite dget_nullable). by rewrite H. }
  unfold from_dict, _normalize_on_read. by rewrite !Hb.
Qed.

Lemma load_strict_spec d s entries now holder ms s' :
  load_strict d s entries now holder = (Ok ms, s') →
  Forall2 (λ e x, ∃ a, e.2 = JDict a ∧
    opt_str_field (jget "return_request_id" a) = Ok (Machine.return_request_id x.1)) entries ms.
Proof.
  clear Hint_field Hnull Hmoment.
  revert s holder ms. induction entries as [|[i data] rest IH]; intros s holder ms; cbn [load_strict].
  { intros [= <- <-]. constructor. }
  destruct (_deserialize d s i data now holder) as [[m|e] s1] eqn:Hd; [|done].
  destruct (load_strict d s1 rest now (S holder)) as [[ms'|e] s2] eqn:Hl; [|done].
  intros [= <- <-]. constructor; [|by eapply IH]. unfold _deserialize in Hd.
  destruct data as [| | | | |a]; try done.
  destruct (from_dict (backend d s) a now holder) as [r a'] eqn:Hf. injection Hd as -> <-.
  destruct m as [m v]. apply from_dict_Ok in Hf as (_ & Hf & _). exists a. done.
Qed.

Lemma wrap_error_Ok {A} prefix (r : result A) x : wrap_error prefix r = Ok x → r = Ok x.
Proof. by destruct r. Qed.

Lemma matching_entries_spec field value sec entries :
  matching_entries field value sec = Ok entries →
  entries ⊆ sec ∧ Forall (λ e, matches field value e.2 = Ok true) entries.
Proof.
  clear Hint_field Hnull Hmoment.
  revert entries. induction sec as [|[i data] sec IH]; intros entries; cbn [matching_entries].
  { intros [= <-]. split; [done|constructor]. }
  intros H. apply result_bind_Ok in H as (b & Hb & H). apply result_bind_Ok in H as (rest & Hr & [= <-]).
  destruct (IH rest Hr) as [Hsub Hall]. destruct b; [|split; [set_solver|done]].
  split; [set_solver|]. by constructor.
Qed.

Lemma load_safe_length d s entries now holder counters ms counters' s' :
  load_safe d s entries now holder counters = (Ok (ms, counters'), s') → (length ms ≤ length entries)%nat.
Proof.
  revert s holder counters ms. induction entries as [|[i data] rest IH];
    intros s holder counters ms; cbn [load_safe].
  { by intros [= <- _ _]. }
  destruct (_deserialize d s i data now holder) as [[m|e] s1].
  - destruct (load_safe d s1 rest now (S holder) counters) as [[[l c]|e'] s3] eqn:Hl; [|done].
    intros [= <- -> ->]. apply IH in Hl. cbn. lia.
  - destruct data as [| | | | |row]; try done. intros H%IH. cbn. lia.
Qed.

(** What the two ways of loading rows agree on. *)
Lemma load_safe_strict d s entries now holder counters ms s' :
  load_strict d s entries now holder = (Ok ms, s') ↔
  load_safe d s entries now holder counters = (Ok (ms, counters), s') ∧ length ms = length entries.
Proof.
  revert s holder counters ms. induction entries as [|[i data] rest IH];
    intros s holder counters ms; cbn [load_strict load_safe].
  { split; [intros [= <- <-]; done|intros [[= <- <-] _]; done]. }
  destruct (_deserialize d s i data now holder) as [[m|e] s1].
  - specialize (IH s1 (S holder) counters).
    destruct (load_strict d s1 rest now (S holder)) as [[l|e] s2],
      (load_safe d s1 rest now (S holder) counters) as [[[l' c]|e'] s3]; cbn.
    + split.
      * intros [= <- <-]. destruct (proj1 (IH l) eq_refl) as [[= -> -> ->] Hl]. split; [done|]. cbn. by rewrite Hl.
      * intros [[= <- -> <-] Hl]. injection (proj2 (IH l') (conj eq_refl ltac:(by injection Hl))) as -> ->. done.
    + split; [|by intros [? _]]. intros [= <- <-]. by destruct (proj1 (IH l) eq_refl).
    + split; [done|]. intros [[= <- -> <-] Hl]. by discriminate (proj2 (IH l') (conj eq_refl ltac:(by injection Hl))).
    + split; [done|by intros [? _]].
  - split; [done|]. intros [H Hl]. exfalso. destruct data as [| | | | |row]; try done.
    pose proof (load_safe_length d s1 rest now (S holder) (bump (row_kind row) counters) ms counters s' H).
    cbn in Hl. lia.
Qed.

Lemma load_safe_status d s entries st now holder counters ms counters' s' :
  Forall (λ e, matches "status" (MachineStatus.value st) e.2 = Ok true) entries →
  load_safe d s entries now holder counters = (Ok (ms, counters'), s') →
  Forall (λ x : Machine.t * Z, Machine.status x.1 = st) ms.
Proof.
  clear Hint_field Hnull Hmoment.
  revert s holder counters ms. induction entries as [|[i data] rest IH];
    intros s holder counters ms Hm; cbn [load_safe].
  { by intros [= <- _ _]. }
  apply Forall_cons in Hm as [Hi Hm].
  destruct (_deserialize d s i data now holder) as [[[m v]|e] s1] eqn:Hd.
  - destruct (load_safe d s1 rest now (S holder) counters) as [[[l c]|e'] s3] eqn:Hl; [|done].
    intros [= <- -> ->]. constructor; [|by eapply IH]. unfold _deserialize in Hd.
    destruct data as [| | | | |a]; try done.
    destruct (from_dict (backend d s) a now holder) as [r a'] eqn:Hf. injection Hd as -> _.
    apply from_dict_Ok in Hf as (_ & _ & Hst). unfold status_field in Hst. cbn in Hi |- *.
    destruct (dget "status" a) as [[| | | |l'|]|]; try done.
    injection Hi as Hi. apply bool_decide_eq_true in Hi. injection Hi as ->.
    rewrite status_value in Hst. by injection Hst.
  - destruct data as [| | | | |row]; try done. by apply IH.
Qed.

Lemma load_found_status d s st now holder counters ms counters' d' s' :
  load_found (criteria_entries d s "status" (MachineStatus.value st)) now holder counters
    = (Ok (ms, counters'), d', s') →
  Forall (λ x : Machine.t * Z, Machine.status x.1 = st) ms.
Proof.
  clear Hint_field Hnull Hmoment.
  unfold load_found, criteria_entries. destruct (_visible_records d s) as [[all d0] s0].
  destruct (wrap_error _ _) as [es|e] eqn:Hes; [|done].
  apply wrap_error_Ok, result_bind_Ok in Hes as (sec & _ & Hes). apply matching_entries_spec in Hes as [_ Hes].
  destruct (load_safe d0 s0 es now holder counters) as [r s1] eqn:Hl. intros [= -> -> ->].
  by eapply load_safe_status.
Qed.

Lemma dget_put_rows_ne rows sec i :
  i ∉ (λ x : versioned_item, x.1.1) <$> rows → dget i (put_rows sec rows) = dget i sec.
Proof.
  unfold put_rows. revert sec. induction rows as [|[[j data] e] rows IH]; intros sec; [done|].
  cbn. rewrite not_elem_of_cons. intros [Hij Hi]. rewrite IH by done. by rewrite dget_dset_ne.
Qed.

Lemma dget_put_rows rows sec i data e :
  NoDup ((λ x : versioned_item, x.1.1) <$> rows) → (i, data, e) ∈ rows →
  dget i (put_rows sec rows) = Some (JDict data).
Proof.
  revert sec. induction rows as [|[[j data'] e'] rows IH]; intros sec; [by intros _ ?%not_elem_of_nil|].
  cbn. rewrite NoDup_cons. intros [Hj Hnd] [[= <- <- <-]|Hin]%elem_of_cons; [|by apply IH].
  change (dget i (put_rows (dset i (JDict data) sec) rows) = Some (JDict data)).
  rewrite dget_put_rows_ne by done. apply dget_dset_eq.
Qed.

Lemma batch_ids machines :
  (λ x : versioned_item, x.1.1) <$> (versioned_row <$> batch_items machines)
  = (λ x : Machine.t * option Z, Machine.machine_id x.1) <$> machines.
Proof. unfold batch_items. rewrite <-!list_fmap_compose. by apply list_fmap_ext. Qed.

Definition written (x : Machine.t * option Z) : Z := _written_version (to_dict x.1) x.2.

Lemma batch_saved d s machines res d' s' :
  machines ≠ [] →
  save_versioned_batch false d s (batch_items machines) = (res, d', s') →
  match res with
  | Err _ => ∀ p et, JsonStore.stored d' p et = JsonStore.stored d p et
  | Ok _ => ∃ sec, JsonStore.stored d (real_path s) (entity_type s) = Ok sec ∧
      (∀ p et, JsonStore.stored d' p et =
         if decide ((real_path s, entity_type s) = (p, et))
         then Ok (put_rows sec (versioned_row <$> batch_items machines)) else JsonStore.stored d p et) ∧
      s' = s <| _cache := Some (put_rows sec (versioned_row <$> batch_items machines),
                                current_signature d' (real_path s)) |>
  end.
Proof.
  intros Hne. unfold save_versioned_batch.
  destruct (batch_items machines) as [|it items] eqn:Hit; [by destruct machines|].
  rewrite <-Hit. clear Hit it items.
  intros [(sec&w&x&_&Hf&_)|[(sec&w&x&Hst&Hf&->&_&Hall&->)|(e&->&Hfi&_&->)]]%mutate_inv.
  - by apply result_bind_Ok in Hf as (? & _ & Hf).
  - apply result_bind_Ok in Hf as (? & _ & [= <- _]). by exists sec.
  - intros p et. apply stored_files. by rewrite Hfi.
Qed.

Lemma find_by_statuses_in d s statuses now holder counters ms counters' d' s' :
  find_by_statuses d s statuses now holder counters = (Ok (ms, counters'), d', s') →
  Forall (λ x : Machine.t * Z, Machine.status x.1 ∈ statuses) ms.
Proof.
  revert d s holder counters ms counters'. induction statuses as [|st statuses IH];
    intros d s holder counters ms counters'; cbn [find_by_statuses].
  { by intros [= <- _ _ _]. }
  destruct (find_by_status d s st now holder counters) as [[[[l c]|e] d1] s1] eqn:Hf; [|done].
  destruct (find_by_statuses d1 s1 statuses now _ c) as [[[[rest c']|e] d2] s2] eqn:Hr; [|done].
  intros [= <- <- <- <-]. cbn [fst]. apply Forall_app. split.
  - unfold find_by_status, load_by_criteria in Hf. apply load_found_status in Hf.
    apply (Forall_impl _ _ _ Hf). intros x ->. by left.
  - apply IH in Hr. apply (Forall_impl _ _ _ Hr). intros x Hx. by right.
Qed.

(** ** Theorems *)

(** C27: A machine survives its row, unless it has a tag called ["tags"].  Writing a
    machine and reading the row back gives the machine, field for field, with an
    empty event queue and a holder marked with its version, and leaves the row as it
    was; a machine with a tag of that name is written without complaint and its row
    can never be read again. *)
Theorem machine_row_roundtrip find_row m now holder :
  storable m →
  from_dict find_row (to_dict m) now holder =
  (if dmem "tags" (Machine.tags m)
   then Err (ValidationError "Input should be a valid dictionary")
   else Ok (reloaded m holder, Machine.version m), to_dict m).
Proof. apply machine_row. Qed.

Lemma typed_id s : nonblank s → has_type CId (JStr s).
Proof. intros [Hs Hne]. exists s. by rewrite Hs. Qed.
Lemma typed_text s : has_type CText (JStr s).
Proof. by exists s. Qed.
Lemma typed_opt o : has_type COptText (opt_text o).
Proof. destruct o as [s|]; [right; by exists s|by left]. Qed.
Lemma typed_api s : s ≠ EmptyString → has_type CApi (JStr s).
Proof. by exists s. Qed.
Lemma typed_texts l : has_type CTexts (texts l).
Proof. right. by exists l. Qed.
Lemma typed_status x : has_type CStatus (JStr (MachineStatus.value x)).
Proof. by exists x. Qed.
Lemma typed_object d : has_type CObject (JDict d).
Proof. right. by exists d. Qed.
Lemma typed_version z : has_type CVersion (JInt z).
Proof. by exists z. Qed.
Lemma typed_tags t : dmem "tags" t = false → has_type CTags (Tags._serialize t).
Proof. right. by exists t. Qed.
Lemma typed_time o : time_ok o → has_type CTime (moment o).
Proof. intros H. exists o. by apply moment_roundtrip. Qed.

(** C26: The columns have types.  Every row a machine without such a tag is written
    to has, in every column, a value of the column's type, and has all required
    columns; and every row of the current schema with that property loads,
    whatever the values. *)
Theorem machine_rows_typed :
  (∀ m, storable m → dmem "tags" (Machine.tags m) = false → row_typed (to_dict m)) ∧
  (∀ find_row data now holder, row_typed data → ∃ x, (from_dict find_row data now holder).1 = Ok x).
Proof.
  split.
  - intros m [Hid Hty Hapi Hc Hl Hs He] Htags. split; [reflexivity|].
    apply Forall_forall. intros c Hc'. unfold schema in Hc'.
    repeat (apply elem_of_cons in Hc' as [->|Hc'];
      [first [ exact (typed_id _ Hid) | exact (typed_id _ Hty) | exact (typed_opt _) | exact (typed_text _)
             | exact (typed_time _ Hc) | exact (typed_time _ Hl) | exact (typed_time _ Hs)
             | exact (typed_time _ He) | exact (typed_api _ Hapi) | exact (typed_texts _)
             | exact (typed_status _) | exact (typed_object _) | exact (typed_version _)
             | exact (typed_tags _ Htags) ]|]).
    by apply elem_of_nil in Hc'.
  - intros find_row data now holder [Hcur Hrow]. by apply typed_row_loads.
Qed.

(** Reading a row of the old layout damages the cached copy.  The serializer
    promises never to change the caller's row; it pops the nested provider data out
    of a dictionary it shares with the strategy's cache.  The first read of such a
    machine has the nested keys, the next one, from the same cache, has lost them. *)
Theorem legacy_read_loses_data d s sec signature i a pd nested now holder m v d' s' :
  _buffer s = [] → _cache s = Some (sec, signature) → current_signature d (real_path s) = signature →
  dget i sec = Some (JDict a) → truthy (jget "provider_api" a) = true → enveloped a pd nested →
  get_by_id d s i now holder = (Ok (Some (m, v)), d', s') →
  let outer := dpop "provider_data" pd in
  Machine.provider_data m = dmerge nested outer ∧
  ∃ s'', get_by_id d' s' i now holder = (Ok (Some (m <| Machine.provider_data := outer |>, v)), d', s'').
Proof.
  intros Hbuf Hcache Hsig Hi Hapi He H outer.
  assert (Hne : a ≠ []) by (intros ->; by destruct He).
  rewrite (warm_get d s sec signature Hbuf Hcache Hsig i a now holder Hi Hne) in H.
  destruct (from_dict (backend d s) a now holder) as [[[m0 v0]|e] a'] eqn:Hf; [|done].
  injection H as <- <- <- <-. destruct (read_twice _ _ _ _ _ _ _ _ _ He Hf) as (Hp & Ha' & Hsecond).
  split; [done|]. fold outer in Hsecond.
  set (s1 := s <| _cache := Some (dset i (JDict a') sec, signature) |>).
  assert (Hi' : dget i (dset i (JDict a') sec) = Some (JDict a')) by apply dget_dset_eq.
  assert (Hne' : a' ≠ []).
  { intros Hnil. rewrite Hnil in Ha'. assert (Hx : dget "provider_data" [] = Some (JDict outer : json)).
    { rewrite Ha'. apply dget_dset_eq. } done. }
  assert (Hapi' : truthy (jget "provider_api" a') = true).
  { rewrite Ha'. unfold jget. by rewrite dget_dset_ne. }
  change (∃ s'', get_by_id d s1 i now holder =
    (Ok (Some (m0 <| Machine.provider_data := outer |>, v0)), d, s'')).
  rewrite (warm_get d s1 (dset i (JDict a') sec) signature Hbuf eq_refl Hsig i a' now holder Hi' Hne').
  rewrite (backfilled_own (backend d s1) (backend d s)) by done. rewrite Hsecond. by eexists.
Qed.

(** The provider API is never recovered from the request.  The serializer asks
    the strategy of the machines for the request's row; that strategy holds
    machines only, so a machine without a provider API does not load, whatever the
    stored requests say. *)
Theorem backfill_never_finds d s sec signature i a r now holder :
  _buffer s = [] → _cache s = Some (sec, signature) → current_signature d (real_path s) = signature →
  dget i sec = Some (JDict a) → truthy (jget "provider_api" a) = false →
  jget "request_id" a = JStr r → dget r sec = None →
  ∃ e s', get_by_id d s i now holder = (Err e, d, s').
Proof.
  intros Hbuf Hcache Hsig Hi Hapi Hr Hnone.
  assert (Hne : a ≠ []) by (intros ->; done).
  rewrite (warm_get d s sec signature Hbuf Hcache Hsig i a now holder Hi Hne).
  destruct (from_dict (backend d s) a now holder) as [[[m v]|e] a'] eqn:Hf; [|by do 2 eexists].
  exfalso. apply from_dict_Ok in Hf as [Hcol _]. apply Hcol. unfold backfilled.
  replace (jget "provider_api" (nullable_defaults a)) with (jget "provider_api" a)
    by (unfold jget; by rewrite dget_nullable).
  rewrite Hapi. unfold _backfill_provider_api.
  replace (jget "request_id" (nullable_defaults a)) with (JStr r)
    by (rewrite <-Hr; unfold jget; by rewrite dget_nullable).
  unfold backend. rewrite (warm_find d s sec signature Hbuf Hcache Hsig), Hnone. cbn [fst].
  destruct (r ≟ EmptyString); by rewrite dget_dpop, decide_True.
Qed.

(** The machines of a return are listed whole.  The lookup by return request
    either raises or gives one machine for every stored machine row that names the
    return, each held by it: no row is skipped. *)
Theorem return_lookup_complete d s rid now holder ms d' s' :
  find_by_return_request_id d s rid now holder = (Ok ms, d', s') →
  ∃ entries, (machine_entries d s "return_request_id" rid).1.1 = Ok entries ∧
    length ms = length entries ∧
    Forall (λ x : Machine.t * Z, Machine.return_request_id x.1 = Some rid) ms.
Proof.
  clear Hint_field Hnull Hmoment.
  unfold find_by_return_request_id. destruct (machine_entries _ _ _ _) as [[[entries|e] d1] s1] eqn:He; [|done].
  destruct (load_strict d1 s1 entries now holder) as [r s2] eqn:Hl. intros [= -> <- <-].
  apply load_strict_spec in Hl. exists entries. split; [done|].
  split; [symmetry; by eapply Forall2_length|].
  unfold machine_entries, criteria_entries in He. destruct (_visible_records d s) as [[all d0] s0].
  injection He as He _ _. apply result_bind_Ok in He as (es & Hes & [= <-]).
  apply wrap_error_Ok, result_bind_Ok in Hes as (sec & _ & Hes). apply matching_entries_spec in Hes as [_ Hes].
  assert (Hf : Forall (λ e, matches "return_request_id" rid e.2 = Ok true)
    (List.filter (λ e, is_machine_row e.2) es)).
  { apply Forall_forall. intros e He. apply list_elem_of_In, filter_In in He as [He _].
    by apply (proj1 (Forall_forall _ _) Hes), list_elem_of_In. }
  clear Hes. induction Hl as [|e x es' ms' (a & Ha & Hx) _ IH]; [constructor|].
  apply Forall_cons in Hf as [Hm Hf]. constructor; [|by apply IH]. rewrite Ha in Hm. cbn in Hm.
  unfold jget in Hx. destruct (dget "return_request_id" a) as [[| | | |l|]|]; try done; cbn in *.
  injection Hm as Hm. apply bool_decide_eq_true in Hm. injection Hm as ->. by injection Hx as <-.
Qed.
(** The strict lookup and the forgiving one differ only on rows that do not load.
    On the same rows, the strict loader succeeds exactly when the forgiving one skips
    none, and then both give the same machines, leave the strategy in the same state,
    and no skip is counted. *)
Theorem strict_lookup_agrees d s entries now holder counters ms s' :
  load_strict d s entries now holder = (Ok ms, s') ↔
  load_safe d s entries now holder counters = (Ok (ms, counters), s') ∧ length ms = length entries.
Proof. apply load_safe_strict. Qed.

(** The listing of active machines leaves out machines that are not terminated.
    It is documented as all machines that are not terminated; every machine it lists
    is pending, running or launching, so one that is stopping, stopped, shutting down
    or in an unknown state never appears. *)
Theorem active_listing_narrow d s now holder counters ms counters' d' s' :
  find_active_machines d s now holder counters = (Ok (ms, counters'), d', s') →
  Forall (λ x : Machine.t * Z, Machine.status x.1 ∈
    [MachineStatus.PENDING; MachineStatus.RUNNING; MachineStatus.LAUNCHING]) ms.
Proof. apply find_by_statuses_in. Qed.

(** A batch of machines is stored whole or not at all.  A batch that fails leaves
    every record as it was; one that succeeds leaves all records of other machines as
    they were, and every machine of the batch then loads by its identifier as it was
    saved, at the version written. *)
Theorem machine_batch_stored d s machines r d' s' :
  _buffer s = [] → NoDup ((λ x : Machine.t * option Z, Machine.machine_id x.1) <$> machines) →
  Forall (λ x : Machine.t * option Z, storable x.1 ∧ dmem "tags" (Machine.tags x.1) = false) machines →
  machine_save_batch d s machines = (r, d', s') →
  match r with
  | Err _ => ∀ p et, JsonStore.stored d' p et = JsonStore.stored d p et
  | Ok _ =>
      (∀ p et i sec, JsonStore.stored d p et = Ok sec →
         (p, et) ≠ (real_path s, entity_type s) ∨
         i ∉ (λ x : Machine.t * option Z, Machine.machine_id x.1) <$> machines →
         dget i <$> JsonStore.stored d' p et = Ok (dget i sec)) ∧
      ∀ x now holder, x ∈ machines →
        ∃ s'', get_by_id d' s' (Machine.machine_id x.1) now holder =
          (Ok (Some (reloaded (x.1 <| Machine.version := written x |>) holder, written x)), d', s'')
  end.
Proof.
  intros Hbuf Hnd Hall. unfold machine_save_batch.
  destruct (decide (machines = [])) as [->|Hne].
  { intros [= <- <- <-]. split; [by intros p et i sec ->|]. by intros x now holder ?%not_elem_of_nil. }
  destruct (save_versioned_batch false d s (batch_items machines)) as [[res d1] s1] eqn:Hsave.
  intros H. assert ((∃ e, r = Err e ∧ res = Err e) ∨ (∃ x y, r = Ok x ∧ res = Ok y)) as Hr.
  { destruct machines; [done|]. injection H as <- _ _. destruct res; [right|left]; eauto. }
  assert (d1 = d' ∧ s1 = s') as [<- <-] by (destruct machines; by simplify_eq).
  apply batch_saved in Hsave; [|done]. clear H.
  destruct Hr as [(e & -> & ->)|(saved & versions & -> & ->)]; [exact Hsave|].
  destruct Hsave as (sec & Hst & Hst' & ->). split.
  - intros p et i sec' Hsec Hi. rewrite Hst'. destruct (decide _) as [[= <- <-]|Hp]; [|by rewrite Hsec].
    destruct Hi as [?|Hi]; [done|]. cbn. rewrite dget_put_rows_ne by (by rewrite batch_ids). congruence.
  - intros x now holder Hx. pose proof (proj1 (Forall_forall _ _) Hall x Hx) as [Hstor Htags].
    set (m := x.1 <| Machine.version := written x |>).
    assert (Hrow : dget (Machine.machine_id x.1) (put_rows sec (versioned_row <$> batch_items machines))
                   = Some (JDict (to_dict m))).
    { apply (dget_put_rows _ _ _ _ x.2); [by rewrite batch_ids|].
      apply list_elem_of_fmap. exists (Machine.machine_id x.1, to_dict x.1, x.2). split; [done|].
      apply list_elem_of_fmap. by exists x. }
    revert Hrow. generalize (put_rows sec (versioned_row <$> batch_items machines)). intros sec' Hrow.
    set (s1 := s <| _cache := Some (sec', current_signature d1 (real_path s)) |>).
    rewrite (warm_get d1 s1 sec'
      (current_signature d1 (real_path s)) Hbuf eq_refl eq_refl (Machine.machine_id x.1) (to_dict m)) by done.
    rewrite machine_row by (by destruct Hstor). cbn [fst].
    change (Machine.tags m) with (Machine.tags x.1). rewrite Htags. by eexists.
Qed.

End serializer.

(** ** Witnesses *)

Definition int_of (j : json) : result Z :=
  match j with JInt z => Ok z | _ => Err (ValidationError "Input should be a valid integer") end.

Definition iso_moment (j : json) : result (option datetime) :=
  match j with
  | JNull => Ok None
  | JStr s => match fromisoformat s with
              | Some t => Ok (Some t)
              | None => Err (ValidationError "Input should be a valid datetime")
              end
  | _ => Err (ValidationError "Input should be a valid datetime")
  end.

Lemma iso_moment_reads t : in_range t → iso_moment (JStr (isoformat t)) = Ok (Some t).
Proof. intros Ht. unfold iso_moment. by rewrite fromisoformat_isoformat. Qed.

Definition stored_machine : Machine.t :=
  Machine.mk "i-1" (Some "worker") "t" (Some "req-1") (Some "ret-1") "aws" "aws-eu" "RunInstances" None
    "t3.micro" "ami-1" None (Some "10.0.0.1") None None None None ["sg-1"] None MachineStatus.RUNNING None
    (Some 86400000000) None None [("team", "hpc")] [] [("region", JStr "eu")] 3 (Some 0) 0 [].

Lemma stored_machine_ok : storable stored_machine.
Proof. by constructor. Qed.

Lemma machine_row_roundtrip_witness :
  from_dict int_of iso_moment (λ _, Ok None) (to_dict isoformat stored_machine) 5 2 =
  (Ok (reloaded stored_machine 2, 3), to_dict isoformat stored_machine).
Proof.
  apply (machine_row_roundtrip int_of iso_moment isoformat (λ z, eq_refl) eq_refl iso_moment_reads
    (λ _, Ok None) stored_machine 5 2 stored_machine_ok).
Defined.

Lemma machine_rows_typed_witness :
  row_typed iso_moment (to_dict isoformat stored_machine) ∧
  ∃ x, (from_dict int_of iso_moment (λ _, Ok None) (to_dict isoformat stored_machine) 5 2).1 = Ok x.
Proof.
  destruct (machine_rows_typed int_of iso_moment isoformat (λ z, eq_refl) eq_refl iso_moment_reads) as [Hw Hr].
  pose proof (Hw stored_machine stored_machine_ok eq_refl) as Ht. split; [exact Ht|].
  exact (Hr (λ _, Ok None) (to_dict isoformat stored_machine) 5 2%nat Ht).
Defined.

(** A row of the old layout, with the nested provider data. *)
Definition old_row : row :=
  [("machine_id", JStr "i-2"); ("template_id", JStr "t"); ("request_id", JStr "req-1");
   ("provider_name", JStr "aws-eu"); ("provider_api", JStr "ASG"); ("instance_type", JStr "t3.micro");
   ("image_id", JStr "ami-1"); ("return_request_id", JStr "ret-1"); ("status", JStr "running");
   ("provider_data", JDict [("method", JStr "fleet"); ("provider_data", JDict [("target_units", JInt 3)])])].

Definition machines_section : section :=
  [("i-2", JDict old_row); ("i-3", JDict (dpop "provider_api" old_row))].

Definition warm_machines : strategy :=
  init "machines.json" "machines" 5 true <| _cache := Some (machines_section, None) |>.

Lemma legacy_read_loses_data_witness :
  ∃ m v d' s' s'', get_by_id int_of iso_moment empty_disk warm_machines "i-2" 0 1 = (Ok (Some (m, v)), d', s') ∧
    dget "target_units" (Machine.provider_data m) = Some (JInt 3) ∧
    get_by_id int_of iso_moment d' s' "i-2" 0 1 =
      (Ok (Some (m <| Machine.provider_data := [("method", JStr "fleet")] |>, v)), d', s'').
Proof.
  destruct (get_by_id int_of iso_moment empty_disk warm_machines "i-2" 0 1) as [[[[[m v]|]|] d'] s'] eqn:H;
    [|vm_compute in H; discriminate..].
  destruct (legacy_read_loses_data int_of iso_moment empty_disk warm_machines machines_section None "i-2" old_row
    [("method", JStr "fleet"); ("provider_data", JDict [("target_units", JInt 3)])] [("target_units", JInt 3)]
    0 1 m v d' s') as [Hpd [s'' Hs]]; try reflexivity.
  - constructor; [reflexivity..|]. intros md k Hmd. discriminate Hmd.
  - exact H.
  - exists m, v, d', s', s''. split; [reflexivity|]. split; [rewrite Hpd; reflexivity|exact Hs].
Defined.

Lemma backfill_never_finds_witness :
  ∃ e s', get_by_id int_of iso_moment empty_disk warm_machines "i-3" 0 1 = (Err e, empty_disk, s').
Proof.
  apply (backfill_never_finds int_of iso_moment empty_disk warm_machines machines_section None "i-3"
    (dpop "provider_api" old_row) "req-1" 0 1); reflexivity.
Defined.

Definition one_machine : strategy :=
  init "machines.json" "machines" 5 true <| _cache := Some ([("i-2", JDict old_row)], None) |>.

Lemma return_lookup_complete_witness :
  ∃ ms d' s', find_by_return_request_id int_of iso_moment empty_disk one_machine "ret-1" 0 1 = (Ok ms, d', s') ∧
    length ms = 1%nat ∧ Forall (λ x : Machine.t * Z, Machine.return_request_id x.1 = Some "ret-1") ms.
Proof.
  destruct (find_by_return_request_id int_of iso_moment empty_disk one_machine "ret-1" 0 1)
    as [[[ms|] d'] s'] eqn:H; [|vm_compute in H; discriminate].
  destruct (return_lookup_complete int_of iso_moment empty_disk one_machine "ret-1" 0 1 ms d' s' H)
    as (entries & He & Hl & Hall).
  exists ms, d', s'. split; [reflexivity|]. split; [|exact Hall]. rewrite Hl.
  vm_compute in He. injection He as <-. reflexivity.
Defined.

Lemma active_listing_narrow_witness :
  ∃ ms c d' s', find_active_machines int_of iso_moment empty_disk one_machine 0 1 [] = (Ok (ms, c), d', s') ∧
    length ms = 1%nat ∧
    Forall (λ x : Machine.t * Z, Machine.status x.1 ∈
      [MachineStatus.PENDING; MachineStatus.RUNNING; MachineStatus.LAUNCHING]) ms.
Proof.
  destruct (find_active_machines int_of iso_moment empty_disk one_machine 0 1 [])
    as [[[[ms c]|] d'] s'] eqn:H; [|vm_compute in H; discriminate].
  pose proof (active_listing_narrow int_of iso_moment empty_disk one_machine 0 1 [] ms c d' s' H) as Hall.
  exists ms, c, d', s'. split; [reflexivity|]. split; [|exact Hall].
  vm_compute in H. injection H as <- _ _ _. reflexivity.
Defined.

Lemma machine_batch_stored_witness :
  ∃ r d' s', machine_save_batch isoformat empty_disk one_machine [(stored_machine, None)] = (Ok r, d', s') ∧
    ∃ s'', get_by_id int_of iso_moment d' s' "i-1" 0 1 =
      (Ok (Some (reloaded (stored_machine <| Machine.version := written isoformat (stored_machine, None) |>) 1,
                 written isoformat (stored_machine, None))), d', s'').
Proof.
  destruct (machine_save_batch isoformat empty_disk one_machine [(stored_machine, None)])
    as [[[r|] d'] s'] eqn:H; [|vm_compute in H; discriminate].
  assert (Hone : Forall (λ x : Machine.t * option Z, storable x.1 ∧ dmem "tags" (Machine.tags x.1) = false)
    [(stored_machine, None)]) by (constructor; [split; [apply stored_machine_ok|reflexivity]|constructor]).
  destruct (machine_batch_stored int_of iso_moment isoformat (λ z, eq_refl) eq_refl iso_moment_reads
    empty_disk one_machine [(stored_machine, None)] (Ok r) d' s' eq_refl (NoDup_singleton _) Hone H) as [_ Hget].
  exists r, d', s'. split; [reflexivity|].
  exact (Hget (stored_machine, None) 0 1%nat ltac:(by left)).
Defined.
