(* ===== verification/TemplateOverrides.v ===== *)
(** * Template overrides of one request

    [orb/application/services/template_overrides.py]: the fields of a template a
    caller may change for one request.

    A template is the dictionary of the fields of its DTO.  [validate] stands for
    pydantic's [model_validate] of the DTO's class.  JSON numbers are integers here,
    so a price is one; override names are texts. *)

From stdpp Require Import base strings list sets.
From Stdlib Require Import Ascii ZArith Lia.
From S2P Require Import Prelude Diagnostic MachineSync.
Open Scope Z_scope.

(** ** The tables *)

Definition OVERRIDABLE_FIELDS : list string :=
  ["subnet_ids"; "security_group_ids"; "machine_types"; "machine_types_ondemand";
   "machine_types_priority"; "price_type"; "max_price"; "network_zones"; "public_ip_assignment";
   "tags"].

Definition _ALIASES : dict string :=
  [("instance_type", "machine_type"); ("image_id", "machine_image");
   ("max_instances", "max_machines"); ("root_device_volume_size", "machine_disk_size_gb");
   ("volume_type", "machine_disk_type"); ("key_name", "machine_ssh_key");
   ("user_data", "machine_bootstrap"); ("instance_profile", "machine_role")].

Definition _PROTECTED_FIELDS : list string :=
  ["template_id"; "provider_type"; "provider_name"; "provider_api"; "provider_config";
   "provider_data"; "machine_role"; "machine_bootstrap"; "machine_ssh_key"; "encryption_key"].

Definition _RESERVED_TAG_PREFIXES : list string := ["orb:"; "aws:"].

Definition _NON_EMPTY_FIELDS : list string := ["subnet_ids"; "security_group_ids"; "machine_types"].

Definition _WEIGHTED_FIELDS : list string :=
  ["machine_types"; "machine_types_ondemand"; "machine_types_priority"].

Definition _PRICE_TYPES : list string := ["ondemand"; "spot"; "reserved"; "heterogeneous"].

(** ** The checks *)

Definition refuse {A} (message : string) : result A := Err (RequestValidationError message).

Definition sorted_names (l : list string) : list string := sorted_by String.leb l.

(** [if names: raise RequestValidationError(message(", ".join(sorted(names))))]. *)
Definition refuse_any (names : list string) (message : string → string) : result unit :=
  match names with
  | [] => Ok ()
  | _ => refuse (message (str_join ", " (sorted_names names)))
  end.

Fixpoint normalize_loop (normalized overrides : dict json) : result (dict json) :=
  match overrides with
  | [] => Ok normalized
  | (key, value) :: rest =>
      let canonical := dget_default key _ALIASES key in
      if dmem canonical normalized then
        refuse ("Template override '" +:+ key +:+ "' duplicates another override for '" +:+
                canonical +:+ "'")
      else normalize_loop (dset canonical value normalized) rest
  end.

Definition normalize_override_keys (overrides : dict json) : result (dict json) :=
  normalize_loop [] overrides.

Definition _is_blank_string (value : json) : bool :=
  match value with JStr s => strip s ≟ EmptyString | _ => true end.

(** The check of a list of identifiers. *)
Definition check_names (overrides : dict json) (field : string) : result unit :=
  match dget field overrides with
  | None => Ok ()
  | Some values =>
      if match values with JList l => existsb _is_blank_string l | _ => true end then
        refuse ("Template override '" +:+ field +:+ "' must be a list of non-empty strings")
      else Ok ()
  end.

Definition bad_weight (entry : string * json) : bool :=
  (strip entry.1 ≟ EmptyString) || match entry.2 with JInt z => z <=? 0 | _ => true end.

Definition check_weights (overrides : dict json) (field : string) : result unit :=
  match dget field overrides with
  | None => Ok ()
  | Some weights =>
      if match weights with JDict d => existsb bad_weight d | _ => true end then
        refuse ("Template override '" +:+ field +:+
                "' must map non-empty machine type names to positive integer weights")
      else Ok ()
  end.

Definition check_price (overrides : dict json) : result unit :=
  match dget "max_price" overrides with
  | None => Ok ()
  | Some price =>
      if match price with JInt z => z <=? 0 | _ => true end then
        refuse "Template override 'max_price' must be a finite number greater than 0"
      else Ok ()
  end.

Fixpoint each (f : string → result unit) (l : list string) : result unit :=
  match l with [] => Ok () | x :: l' => _ ← f x; each f l' end.

Definition _validate_override_values (overrides : dict json) : result unit :=
  _ ← each (check_names overrides) ["subnet_ids"; "security_group_ids"];
  _ ← each (check_weights overrides) _WEIGHTED_FIELDS;
  check_price overrides.

Definition is_text (j : json) : bool := match j with JStr _ => true | _ => false end.

Definition reserved_tag (key : string) : bool :=
  existsb (λ p, startswith p (str_lower key)) _RESERVED_TAG_PREFIXES.

Definition _validate_override_tags (tags : json) : result (dict json) :=
  match tags with
  | JDict d =>
      _ ← refuse_any (List.filter (λ k, negb (is_text (jget k d))) (dkeys d))
            (λ names, "Template override tag keys and values must be strings: " +:+ names);
      _ ← refuse_any (List.filter reserved_tag (dkeys d))
            (λ names, "Template override tags may not use the reserved 'orb:' or 'aws:' prefixes: " +:+ names);
      Ok d
  | _ => refuse "Template override 'tags' must be a mapping"
  end.

Definition check_price_type (normalized : dict json) : result unit :=
  match dget "price_type" normalized with
  | None => Ok ()
  | Some j =>
      if match j with JStr s => s ∈? _PRICE_TYPES | _ => false end then Ok ()
      else refuse ("Invalid template override 'price_type': " +:+ json_repr j +:+ ". Allowed: " +:+
                   str_join ", " (sorted_names _PRICE_TYPES))
  end.

(** The checks [apply_template_overrides] makes itself, on the resolved names. *)
Definition check_overrides (normalized : dict json) : result unit :=
  _ ← refuse_any (List.filter (λ k, k ∈? _PROTECTED_FIELDS) (dkeys normalized))
        (λ names, "Template overrides cannot change: " +:+ names);
  _ ← refuse_any (List.filter (λ k, negb (k ∈? OVERRIDABLE_FIELDS)) (dkeys normalized))
        (λ names, "Unsupported template overrides: " +:+ names +:+ ". Allowed: " +:+
                  str_join ", " (sorted_names OVERRIDABLE_FIELDS));
  _ ← refuse_any (List.filter (λ k, (k ∈? _NON_EMPTY_FIELDS) && negb (truthy (jget k normalized)))
                    (dkeys normalized))
        (λ names, "Template overrides may not be empty: " +:+ names);
  _ ← check_price_type normalized;
  _validate_override_values normalized.

(** [{**template.tags, **checked}]. *)
Definition merged_tags (template tags : dict json) : result json :=
  match jget "tags" template with
  | JDict own => Ok (JDict (dmerge own tags))
  | _ => Err (TypeError "object is not a mapping")
  end.

(** The data that is validated again. *)
Definition override_data (template overrides : dict json) : result (dict json) :=
  normalized ← normalize_override_keys overrides;
  _ ← check_overrides normalized;
  merged ← match dget "tags" normalized with
           | None => Ok normalized
           | Some tags =>
               checked ← _validate_override_tags tags;
               all_tags ← merged_tags template checked;
               Ok (dset "tags" all_tags normalized)
           end;
  Ok (dmerge template merged).

Section apply.
Context (validate : dict json → result (dict json)).

Definition apply_template_overrides (template overrides : dict json) : result (dict json) :=
  match overrides with
  | [] => Ok template
  | _ =>
      data ← override_data template overrides;
      match validate data with
      | Ok template' => Ok template'
      | Err e => refuse ("Invalid template override: " +:+ exn_str e)
      end
  end.
End apply.

(** ** Lemmas *)

Lemma refuse_any_Ok names message : refuse_any names message = Ok () ↔ names = [].
Proof. by destruct names. Qed.

Lemma filter_none {A} (f : A → bool) l x : List.filter f l = [] → x ∈ l → f x = false.
Proof.
  intros Hnil Hx. destruct (f x) eqn:Hf; [|done]. apply list_elem_of_In in Hx.
  assert (In x []) as []. rewrite <-Hnil. by apply filter_In.
Qed.

Lemma dget_dmerge_other {V} k (d1 d2 : dict V) : k ∉ dkeys d2 → dget k (dmerge d1 d2) = dget k d1.
Proof.
  unfold dmerge. revert d1. induction d2 as [|[k2 v2] d2 IH]; intros d1; [done|].
  cbn. rewrite not_elem_of_cons. intros [Hne Hk]. rewrite IH by done. by apply dget_dset_ne.
Qed.

Lemma normalize_loop_wf acc overrides n :
  dict_wf acc → normalize_loop acc overrides = Ok n → dict_wf n.
Proof.
  revert acc. induction overrides as [|[k v] rest IH]; intros acc Hwf; cbn; [by intros [= <-]|].
  destruct (dmem _ acc); [done|]. apply IH. by apply dict_wf_dset.
Qed.

Lemma normalized_wf overrides n : normalize_override_keys overrides = Ok n → dict_wf n.
Proof. apply normalize_loop_wf. constructor. Qed.

(** What an override of identifiers, and an entry of an override of weights, has to
    be. *)
Definition named_list (j : json) : Prop :=
  ∃ l, j = JList l ∧ l ≠ [] ∧ Forall (λ e, ∃ s, e = JStr s ∧ strip s ≠ EmptyString) l.
Definition weighted (e : string * json) : Prop :=
  strip e.1 ≠ EmptyString ∧ ∃ z, e.2 = JInt z ∧ 0 < z.

(** A tag name under one of the reserved prefixes, in any case. *)
Definition reserved_name (k : string) : Prop :=
  ∃ rest, str_lower k = "orb:" +:+ rest ∨ str_lower k = "aws:" +:+ rest.

Lemma startswith_app p s : startswith p (p +:+ s) = true.
Proof.
  unfold startswith. induction p as [|c p IH]; [by destruct s|].
  change (String c p +:+ s) with (String c (p +:+ s)). unfold String.prefix; fold String.prefix.
  destruct (ascii_dec c c) as [e|n]; [exact IH|by destruct n].
Qed.

Lemma reserved_tag_spec k : reserved_name k → reserved_tag k = true.
Proof.
  intros [rest [H|H]]; unfold reserved_tag, _RESERVED_TAG_PREFIXES; cbn [existsb]; rewrite H;
    rewrite startswith_app; [done|by rewrite orb_true_r].
Qed.

Lemma existsb_none {A} (f : A → bool) l : existsb f l = false → Forall (λ x, f x = false) l.
Proof.
  intros Hl. apply Forall_forall. intros x Hx. destruct (f x) eqn:Hf; [|done].
  assert (existsb f l = true) by (apply existsb_exists; exists x; by rewrite <-list_elem_of_In).
  congruence.
Qed.

Lemma weighted_spec e : bad_weight e = false → weighted e.
Proof.
  unfold bad_weight, weighted. intros [Hs%bool_decide_eq_false Hz]%orb_false_iff. split; [done|].
  destruct (e.2); try done. eexists. split; [done|]. by apply Z.leb_gt.
Qed.

Lemma blank_spec e : _is_blank_string e = false → ∃ s, e = JStr s ∧ strip s ≠ EmptyString.
Proof. destruct e; try done. intros H%bool_decide_eq_false. by eexists. Qed.

(** What the checks establish of the resolved overrides. *)
Record acceptable (n : dict json) : Prop := mk_acceptable {
  ac_known : ∀ k, k ∈ dkeys n → k ∈ OVERRIDABLE_FIELDS;
  ac_names : ∀ k j, k ∈ ["subnet_ids"; "security_group_ids"] → dget k n = Some j → named_list j;
  ac_weights : ∀ k j, k ∈ ["machine_types"; "machine_types_ondemand"; "machine_types_priority"] →
    dget k n = Some j → ∃ d, j = JDict d ∧ Forall weighted d;
  ac_types : ∀ j, dget "machine_types" n = Some j → j ≠ JDict [];
  ac_price_type : ∀ j, dget "price_type" n = Some j →
    j ∈ JStr <$> ["ondemand"; "spot"; "reserved"; "heterogeneous"]
}.

Lemma each_Ok f l : each f l = Ok () → ∀ x, x ∈ l → f x = Ok ().
Proof.
  induction l as [|y l IH]; [by intros _ x ?%not_elem_of_nil|]. cbn. intros H x Hx.
  apply result_bind_Ok in H as ([] & Hy & H). apply elem_of_cons in Hx as [->|Hx]; [done|by apply IH].
Qed.

Lemma check_overrides_Ok n : check_overrides n = Ok () → acceptable n.
Proof.
  unfold check_overrides. intros H.
  apply result_bind_Ok in H as ([] & Hprot & H). apply result_bind_Ok in H as ([] & Hknown & H).
  apply result_bind_Ok in H as ([] & Hempty & H). apply result_bind_Ok in H as ([] & Hprice & H).
  apply result_bind_Ok in H as ([] & Hnames & H). apply result_bind_Ok in H as ([] & Hweights & _).
  apply refuse_any_Ok in Hknown, Hempty.
  assert (Hne : ∀ k j, k ∈ _NON_EMPTY_FIELDS → dget k n = Some j → truthy j = true).
  { intros k j Hk Hj. assert (k ∈ dkeys n) as Hin by (apply dmem_elem_of; unfold dmem; by rewrite Hj).
    apply (filter_none _ _ k Hempty) in Hin. rewrite bool_decide_eq_true_2 in Hin by done.
    unfold jget in Hin. rewrite Hj in Hin. by apply negb_false_iff in Hin. }
  constructor.
  - intros k Hk. apply (filter_none _ _ k Hknown), negb_false_iff, bool_decide_eq_true in Hk. done.
  - intros k j Hk Hj. assert (truthy j = true) as Ht by (apply (Hne k); [set_solver|done]).
    apply (each_Ok _ _ Hnames) in Hk. unfold check_names in Hk. rewrite Hj in Hk.
    destruct j as [| | | |l|]; try done. destruct (existsb _is_blank_string l) eqn:Hl; [done|].
    exists l. split; [done|]. split; [by intros ->|].
    eapply Forall_impl; [by apply existsb_none|apply blank_spec].
  - intros k j Hk Hj. apply (each_Ok _ _ Hweights) in Hk. unfold check_weights in Hk. rewrite Hj in Hk.
    destruct j as [| | | | |d]; try done. destruct (existsb bad_weight d) eqn:Hd; [done|].
    exists d. split; [done|]. eapply Forall_impl; [by apply existsb_none|apply weighted_spec].
  - intros j Hj ->. by apply Hne in Hj; [|set_solver].
  - intros j Hj. unfold check_price_type in Hprice. rewrite Hj in Hprice. destruct j as [| | |s| |]; try done.
    destruct (decide (s ∈ _PRICE_TYPES)); [by apply list_elem_of_fmap_2|].
    rewrite bool_decide_eq_false_2 in Hprice; done.
Qed.

Lemma checked_tags tags d k :
  _validate_override_tags tags = Ok d → k ∈ dkeys d → reserved_tag k = false ∧ is_text (jget k d) = true.
Proof.
  unfold _validate_override_tags. destruct tags as [| | | | |t]; try done. intros H Hk.
  apply result_bind_Ok in H as ([] & Htext & H). apply result_bind_Ok in H as ([] & Hres & [= <-]).
  apply refuse_any_Ok in Htext, Hres. split; [by apply (filter_none _ _ k Hres)|].
  by apply (filter_none _ _ k Htext), negb_false_iff in Hk.
Qed.

Definition tags_of (template : dict json) : dict json :=
  match jget "tags" template with JDict d => d | _ => [] end.

(** The parts of an accepted override. *)
Lemma override_data_Ok template overrides data :
  override_data template overrides = Ok data →
  ∃ n merged, acceptable n ∧ dict_wf merged ∧ data = dmerge template merged ∧
    dkeys merged = dkeys n ∧ (∀ k, k ≠ "tags" → dget k merged = dget k n) ∧
    (dget "tags" n = None ∨
     ∃ own checked, jget "tags" template = JDict own ∧ dget "tags" merged = Some (JDict (dmerge own checked)) ∧
       ∀ k, k ∈ dkeys checked → reserved_tag k = false).
Proof.
  unfold override_data. intros H. apply result_bind_Ok in H as (n & Hn & H).
  apply result_bind_Ok in H as ([] & Hc & H). apply result_bind_Ok in H as (merged & Hm & [= <-]).
  apply normalized_wf in Hn. apply check_overrides_Ok in Hc. exists n, merged. split; [done|].
  destruct (dget "tags" n) as [tags|] eqn:Ht; [|injection Hm as <-; auto 10].
  apply result_bind_Ok in Hm as (checked & Hchk & Hm).
  apply result_bind_Ok in Hm as (all & Hall & [= <-]). unfold merged_tags in Hall.
  destruct (jget "tags" template) as [| | | | |own] eqn:Hown; try done. injection Hall as <-.
  split; [by apply dict_wf_dset|]. split; [done|]. split.
  { rewrite dkeys_dset. rewrite decide_True; [done|]. apply dmem_elem_of. unfold dmem. by rewrite Ht. }
  split; [intros k Hk; by apply dget_dset_ne|]. right. exists own, checked. split; [done|].
  split; [apply dget_dset_eq|]. intros k Hk. by apply (checked_tags _ _ _ Hchk).
Qed.

(** ** Theorems *)

(** C8: An override changes what it may and nothing else.  Whatever names a caller
    uses, aliases included, a field outside the allowlist, and each of the ten fields
    that make up the template's identity, provider, credentials and boot code, reaches
    the validation with the template's value.  No tag whose name starts with orb: or
    aws:, in any case, is changed.  Subnets and security groups, when changed, are
    non-empty lists of non-blank names; machine types are not emptied; each of the three
    maps of weights, when changed, gives named machine types positive whole numbers; and
    a changed price type is one of the four there are. *)
Theorem overrides_confined template overrides data :
  override_data template overrides = Ok data →
  (∀ k, k ∉ OVERRIDABLE_FIELDS → dget k data = dget k template) ∧
  (∀ k, k ∈ ["template_id"; "provider_type"; "provider_name"; "provider_api"; "provider_config";
             "provider_data"; "machine_role"; "machine_bootstrap"; "machine_ssh_key"; "encryption_key"] →
     dget k data = dget k template) ∧
  (∀ k, (∃ rest, str_lower k = "orb:" +:+ rest ∨ str_lower k = "aws:" +:+ rest) →
     dget k (tags_of data) = dget k (tags_of template)) ∧
  (∀ k, k ∈ ["subnet_ids"; "security_group_ids"] → dget k data = dget k template ∨
     ∃ l, dget k data = Some (JList l) ∧ l ≠ [] ∧
       Forall (λ e, ∃ s, e = JStr s ∧ strip s ≠ EmptyString) l) ∧
  (∀ k, k ∈ ["machine_types"; "machine_types_ondemand"; "machine_types_priority"] →
     dget k data = dget k template ∨
     ∃ d, dget k data = Some (JDict d) ∧ (k = "machine_types" → d ≠ []) ∧
       Forall (λ e, strip e.1 ≠ EmptyString ∧ ∃ z, e.2 = JInt z ∧ 0 < z) d) ∧
  (dget "price_type" data = dget "price_type" template ∨
   ∃ s, dget "price_type" data = Some (JStr s) ∧ s ∈ ["ondemand"; "spot"; "reserved"; "heterogeneous"]).
Proof.
  intros (n & merged & [Hknown Hn Hw Hty Hp] & Hwf & -> & Hkeys & Hsame & Htags)%override_data_Ok.
  assert (Hout : ∀ k, k ∉ dkeys n → dget k (dmerge template merged) = dget k template).
  { intros k Hk. apply dget_dmerge_other. by rewrite Hkeys. }
  assert (Hin : ∀ k j, dget k n = Some j → k ≠ "tags" → dget k (dmerge template merged) = Some j).
  { intros k j Hj Hk. rewrite dget_dmerge by done. by rewrite Hsame, Hj. }
  assert (Hcase : ∀ k, k ≠ "tags" → dget k (dmerge template merged) = dget k template ∨
    ∃ j, dget k n = Some j ∧ dget k (dmerge template merged) = Some j).
  { intros k Hk. destruct (dget k n) as [j|] eqn:Hj; [right; eauto|left; apply Hout; by apply dget_None]. }
  split_and!.
  - intros k Hk. apply Hout. by intros ?%Hknown.
  - intros k Hk. apply Hout. intros Hov%Hknown.
    apply (bool_decide_eq_true_2 _) in Hov.
    repeat (apply elem_of_cons in Hk as [->|Hk]; [discriminate Hov|]). by apply not_elem_of_nil in Hk.
  - intros k Hk%reserved_tag_spec. unfold tags_of, jget. destruct Htags as [Hnone|(own & checked & Hown & Hm & Hres)].
    { rewrite Hout by (by apply dget_None). done. }
    rewrite dget_dmerge, Hm by done. cbn. unfold jget in Hown. rewrite Hown.
    apply dget_dmerge_other. intros Hc%Hres. congruence.
  - intros k Hk. destruct (Hcase k) as [?|(j & Hj & Hd)]; [set_solver|by left|right].
    destruct (Hn k j Hk Hj) as (l & -> & ?). by exists l.
  - intros k Hk. destruct (Hcase k) as [?|(j & Hj & Hd)]; [set_solver|by left|right].
    destruct (Hw k j Hk Hj) as (d & -> & Hall). exists d. split; [done|]. split; [|done].
    intros -> ->. by apply Hty in Hj.
  - destruct (Hcase "price_type") as [?|(j & Hj & Hd)]; [done|by left|right].
    apply Hp in Hj. apply list_elem_of_fmap in Hj as (s & -> & Hs). by exists s.
Qed.

Lemma refuse_any_err names message e : refuse_any names message = Err e → ∃ m, e = RequestValidationError m.
Proof. destruct names; [done|]. intros [= <-]. by eexists. Qed.

Lemma bind_err {A B} (x : result A) (f : A → result B) e :
  (x ≫= f) = Err e → x = Err e ∨ ∃ a, x = Ok a ∧ f a = Err e.
Proof. destruct x as [a|e']; cbn; [right; by exists a|left; congruence]. Qed.

Lemma each_err f l e : each f l = Err e → ∃ x, x ∈ l ∧ f x = Err e.
Proof.
  induction l as [|y l IH]; [done|]. cbn. intros [H|([] & _ & H)]%bind_err.
  - exists y. split; [by left|done].
  - destruct (IH H) as (x & Hx & He). exists x. split; [by right|done].
Qed.

Lemma normalize_err acc overrides e : normalize_loop acc overrides = Err e → ∃ m, e = RequestValidationError m.
Proof.
  revert acc. induction overrides as [|[k v] rest IH]; intros acc; cbn; [done|].
  destruct (dmem _ acc); [intros [= <-]; by eexists|apply IH].
Qed.

Lemma check_overrides_err n e : check_overrides n = Err e → ∃ m, e = RequestValidationError m.
Proof.
  unfold check_overrides, _validate_override_values.
  repeat (intros [H|([] & _ & H)]%bind_err; [by apply refuse_any_err in H|revert H]).
  intros [H|([] & _ & H)]%bind_err.
  { unfold check_price_type in H. destruct (dget _ _) as [j|]; [|done].
    destruct (match j with JStr s => _ | _ => _ end); [done|]. injection H as <-. by eexists. }
  revert H. intros [H|([] & _ & H)]%bind_err.
  { apply each_err in H as (f & _ & H). unfold check_names in H. destruct (dget _ _) as [j|]; [|done].
    destruct (match j with JList l => _ | _ => _ end); [|done]. injection H as <-. by eexists. }
  revert H. intros [H|([] & _ & H)]%bind_err.
  { apply each_err in H as (f & _ & H). unfold check_weights in H. destruct (dget _ _) as [j|]; [|done].
    destruct (match j with JDict l => _ | _ => _ end); [|done]. injection H as <-. by eexists. }
  unfold check_price in H. destruct (dget _ _) as [j|]; [|done].
  destruct (match j with JInt l => _ | _ => _ end); [|done]. injection H as <-. by eexists.
Qed.

(** A refused override is always a validation error.  Whatever the caller sends,
    and whatever the validation of the changed template raises, an override is
    either applied or answered with [RequestValidationError], which callers report
    as the caller's mistake. *)
Theorem overrides_refused_cleanly validate template overrides own :
  jget "tags" template = JDict own →
  (∃ t, apply_template_overrides validate template overrides = Ok t) ∨
  ∃ m, apply_template_overrides validate template overrides = Err (RequestValidationError m).
Proof.
  intros Hown. destruct (apply_template_overrides validate template overrides) as [t|e] eqn:H;
    [left; by eexists|right]. enough (∃ m, e = RequestValidationError m) as [m ->] by eauto.
  unfold apply_template_overrides in H. destruct overrides as [|o os] eqn:Ho; [done|]. rewrite <-Ho in H.
  revert H. intros [H|(data & _ & H)]%bind_err.
  2: { destruct (validate data); [done|]. injection H as <-. by eexists. }
  revert H. unfold override_data. intros [H|(n & _ & H)]%bind_err; [by eapply normalize_err|].
  revert H. intros [H|([] & _ & H)]%bind_err; [by eapply check_overrides_err|].
  revert H. intros [H|(m & _ & H)]%bind_err; [|done].
  destruct (dget "tags" n) as [tags|]; [|done].
  revert H. intros [H|(checked & _ & H)]%bind_err.
  - unfold _validate_override_tags in H. destruct tags as [| | | | |t]; try (injection H as <-; by eexists).
    revert H. intros [H|([] & _ & H)]%bind_err; [by apply refuse_any_err in H|].
    revert H. intros [H|([] & _ & H)]%bind_err; [by apply refuse_any_err in H|done].
  - unfold merged_tags in H. rewrite Hown in H. done.
Qed.

(** ** Witnesses *)

Definition demo_template : dict json :=
  [("template_id", JStr "t"); ("machine_role", JStr "role"); ("machine_types", JDict [("t3.micro", JInt 1)]);
   ("tags", JDict [("orb:managed", JStr "yes"); ("team", JStr "hpc")])].

Definition demo_overrides : dict json :=
  [("machine_types", JDict [("m5.large", JInt 2)]); ("tags", JDict [("team", JStr "ml")])].

Lemma overrides_confined_witness :
  ∃ data, override_data demo_template demo_overrides = Ok data ∧
    dget "machine_role" data = Some (JStr "role") ∧
    dget "orb:managed" (tags_of data) = Some (JStr "yes").
Proof.
  destruct (override_data demo_template demo_overrides) as [data|e] eqn:H; [|vm_compute in H; discriminate].
  destruct (overrides_confined demo_template demo_overrides data H) as (_ & Hout & Htags & _).
  exists data. split; [reflexivity|]. split.
  - rewrite Hout; [reflexivity|]. apply (bool_decide_eq_true_1 ("machine_role" ∈ _)). reflexivity.
  - rewrite Htags; [reflexivity|]. exists "managed". left. reflexivity.
Defined.

Lemma overrides_refused_cleanly_witness :
  ∃ m, apply_template_overrides Ok demo_template [("user_data", JStr "#!/bin/sh")] = Err (RequestValidationError m).
Proof.
  destruct (overrides_refused_cleanly Ok demo_template [("user_data", JStr "#!/bin/sh")] _ eq_refl)
    as [[t H]|H]; [vm_compute in H; discriminate|exact H].
Defined.
