(* ===== verification/AcquireMachines.v ===== *)
(** * Requests for machines

    [CreateMachineRequestHandler] of
    [orb/application/commands/request_creation_handlers.py] with the services it
    runs: [request_creation_service.py], [provider_validation_service.py], and
    [update_request_from_provisioning] of [request_status_management_service.py].

    The handler lives in the world of [Lifecycle]; the provisioning between its
    units of work is the loop of [Provisioning], on the store that [Reconciler] makes of
    the database.  A
    template is the dictionary of its fields, as in [TemplateOverrides].  Copies of
    an aggregate share its queue of events, and a save empties it when the row is
    staged: the handler's own request has an empty queue after every attempt to
    save it, also after one whose commit met a conflict. *)

From stdpp Require Import base gmap strings list sets.
From Stdlib Require Import ZArith Lia.
From S2P Require Import Prelude RequestTypes Diagnostic RequestAggregate FulfilmentSM MachineAggregate.
From S2P Require Import StatusService StatusManagement Provisioning TimeText Lifecycle Deprovisioning.
From S2P Require Import ReturnMachines MachineSync Reconciler TemplateOverrides.
Open Scope Z_scope.

(** ** Creating the request *)

Record command := mk_command {
  c_request_id : option string;
  c_template_id : string;
  c_requested_count : Z;
  c_metadata : dict json;
  c_additional_data : dict json;
  c_template_overrides : dict json;
  c_dry_run : bool
}.

Record selection := mk_selection {
  sel_provider_type : string;
  sel_provider_name : string;
  sel_reason : string;
  sel_confidence : json
}.

(** What the handler is given: the query bus, the provider port, pydantic's
    readings, the event publisher by event and attempt. *)
Record acquire_ports := mk_acquire_ports {
  ap_template : string → result (option (dict json));
  ap_select : dict json → result selection;
  ap_validator : option (dict json → result (bool * list string));
  ap_requirements : dict json → string → result (bool * list string);
  ap_validate_template : dict json → result (dict json);
  ap_diagnostic : dict json → option FulfilmentDiagnostic;
  ap_moment : json → result (option datetime);
  ap_can_tag : option string → result bool;
  ap_publish : RequestEvent → nat → bool
}.

Definition ApplicationError (message : string) : exn := OtherError "ApplicationError" message.

Definition RESERVED_METADATA_KEYS : list string := [SNAPSHOT_METADATA_KEY; "template_overrides"].

(** [capture_template_snapshot] of a template DTO. *)
Definition capture_template_snapshot (template : dict json) : dict json :=
  omap (λ k, (λ v, (k, v)) <$> dget k template) SNAPSHOT_FIELDS.

Definition unless_nil (k : string) (d : dict json) : dict json :=
  match d with [] => [] | _ => [(k, JDict d)] end.

Definition request_metadata (cmd : command) (template : dict json) (sel : selection) : dict json :=
  foldl dmerge (c_metadata cmd)
    [c_additional_data cmd; [("dry_run", JBool (c_dry_run cmd))];
     unless_nil SNAPSHOT_METADATA_KEY (capture_template_snapshot template);
     unless_nil "template_overrides" (c_template_overrides cmd);
     [("provider_selection_reason", JStr (sel_reason sel)); ("provider_confidence", sel_confidence sel)]].

Definition create_machine_request (cmd : command) (template : dict json) (sel : selection)
    (uuid : string) (now : datetime) (holder : nat) : result Request.t :=
  _ ← refuse_any (List.filter (λ k, k ∈? RESERVED_METADATA_KEYS) (dkeys (c_additional_data cmd)))
        (λ names, "additional_data may not set reserved keys: " +:+ names);
  request ← Request.create_new_request RequestType.ACQUIRE (c_template_id cmd) (c_requested_count cmd)
              (sel_provider_type sel) (Some (sel_provider_name sel)) None
              (Some (request_metadata cmd template sel)) (c_request_id cmd) uuid now holder;
  if truthy (jget "provider_api" template)
  then Ok (request <| Request.provider_api := Some (json_str (jget "provider_api" template)) |>)
  else refuse ("Template " +:+ json_str (jget "template_id" template) +:+ " has no provider_api configured").

Section handler.
Context (p : acquire_ports) (sm : FulfilmentStateMachine.t).

Definition checked (answer : bool * list string) : result unit :=
  if answer.1 then Ok () else Err (ApplicationError (str_join "; " answer.2)).

Definition select_and_validate_provider (template : dict json) : result selection :=
  sel ← ap_select p template;
  _ ← match ap_validator p with
      | Some validator => validator template ≫= checked
      | None => Ok ()
      end;
  _ ← (ap_requirements p template (sel_provider_name sel) ≫= checked);
  Ok sel.

Definition _load_template (template_id : string) : result (dict json) :=
  found ← ap_template p template_id;
  match found with
  | Some template => Ok template
  | None => Err (EntityNotFoundError "Template" template_id)
  end.

Definition validate_command (cmd : command) : result unit :=
  if c_template_id cmd ≟ EmptyString then Err (ValueError "template_id is required")
  else if c_requested_count cmd <=? 0 then Err (ValueError "requested_count must be positive")
  else Ok ().

(** The handler up to the identifier it gives the caller. *)
Definition prepare (cmd : command) (uuid : string) (now : datetime) (holder : nat)
  : result (dict json * selection * Request.t) :=
  template ← _load_template (c_template_id cmd);
  template ← apply_template_overrides (ap_validate_template p) template (c_template_overrides cmd);
  sel ← select_and_validate_provider template;
  request ← create_machine_request cmd template sel uuid now holder;
  Ok (template, sel, request).

(** ** Saving *)

(** One attempt of [save_provisioning_state]; [revision] is what the aggregate's
    holder is marked with. *)
Definition merge_stored (revision : option Z) (request : Request.t) (d : db)
  : result (list RequestEvent * db) :=
  let stored := get_request d (Request.request_id request) in
  let merged := apply_onto_stored request stored in
  match stored, revision with
  | None, Some e => Err (ConcurrencyError (Request.request_id request) (Some e))
  | None, None => Ok (Request.domain_events merged, save_request None merged d)
  | Some st, _ => Ok (Request.domain_events merged, save_request (Some (Request.version st)) merged d)
  end.

(** [save_provisioning_state]: the events the save released. *)
Definition save_state (revision : option Z) (request : Request.t) : action (list RequestEvent) := λ w,
  match unit_of_work (merge_stored revision request) w with
  | (Err (ConcurrencyError _ _), w') =>
      unit_of_work (merge_stored revision (Request.clear_domain_events request)) w'
  | r => r
  end.

Definition publishable (event : RequestEvent) : bool := existsb (ap_publish p event) [1%nat; 2%nat; 3%nat].

Definition _persist_and_publish (revision : option Z) (request : Request.t) : action unit :=
  events ← save_state revision request;
  publish (List.filter publishable events).

(** ** The machines *)

(** A launch time that is not a text is pydantic's to read. *)
Definition launch_time_of (v : option json) : result (option datetime) :=
  match v with
  | None | Some JNull => Ok None
  | Some (JStr s) => Ok (fromisoformat (replace_z s))
  | Some j => ap_moment p j
  end.

Definition optional_text (k : string) (data : dict json) : result (option string) :=
  optional_text_field (PJson <$> dget k data).

Definition _create_machine_aggregate (instance_data : json) (request : Request.t) (now : datetime)
  : result Machine.t :=
  match instance_data with
  | JDict data =>
      launch_time ← launch_time_of (dget "launch_time" data);
      raw_id ← match dget "instance_id" data with Some v => Ok v | None => Err (KeyError "instance_id") end;
      machine_id ← make_machine_id (PJson raw_id);
      instance_type ← make_instance_type (PJson (dget_default "instance_type" data (JStr "t2.micro")));
      provider_name ← required (Request.provider_name request);
      provider_api ← required (Request.provider_api request);
      _ ← (if provider_api ≟ EmptyString
           then Err (ValidationError "String should have at least 1 character") else Ok ());
      resource_id ← optional_text "resource_id" data;
      image_id ← text_field (PJson (dget_default "image_id" data (JStr "unknown")));
      private_ip ← optional_text "private_ip" data;
      public_ip ← optional_text "public_ip" data;
      name ← optional_text "name" data;
      metadata ← mapping_field (PJson (dget_default "metadata" data (JDict [])));
      Ok {| Machine.machine_id := machine_id; Machine.name := name;
            Machine.template_id := Request.template_id request;
            Machine.request_id := Some (Request.request_id request);
            Machine.return_request_id := None;
            Machine.provider_type := Request.provider_type request;
            Machine.provider_name := provider_name; Machine.provider_api := provider_api;
            Machine.resource_id := resource_id; Machine.instance_type := instance_type;
            Machine.image_id := image_id; Machine.price_type := None;
            Machine.private_ip := private_ip; Machine.public_ip := public_ip;
            Machine.private_dns_name := None; Machine.public_dns_name := None;
            Machine.subnet_id := None; Machine.security_group_ids := []; Machine.vpc_id := None;
            Machine.status := MachineStatus.PENDING; Machine.status_reason := None;
            Machine.launch_time := launch_time; Machine.provisioning_started_at := None;
            Machine.termination_time := None; Machine.tags := []; Machine.metadata := metadata;
            Machine.provider_data := []; Machine.version := 0; Machine.created_at := Some now;
            Machine.persisted_revision := 0; Machine.domain_events := [] |}
  | _ => Err (OtherError "AttributeError" "object has no attribute 'get'")
  end.

(** The names of the nodes a SLURM request is for. *)
Definition expanded_node_names (request : Request.t) : list json :=
  match jget "node_names" (Request.metadata request) with
  | JList l => l
  | JStr s => if s ≟ EmptyString then [] else [JStr s]
  | _ => []
  end.

Definition name_node (machine : Machine.t) (node_name : option json) : result Machine.t :=
  match node_name with
  | None => Ok machine
  | Some (JStr s) => Ok (machine <| Machine.name := Some s |>
                                 <| Machine.tags := Tags.add (Machine.tags machine) "orb:node-name" s |>)
  | Some _ => Err (ValidationError "Input should be a valid string")
  end.

Fixpoint create_machines (instances node_names : list json) (request : Request.t) (now : datetime)
  : result (list Machine.t) :=
  match instances with
  | [] => Ok []
  | instance_data :: rest =>
      machine ← _create_machine_aggregate instance_data request now;
      machine ← name_node machine (head node_names);
      machines ← create_machines rest (tail node_names) request now;
      Ok (machine :: machines)
  end.

Definition save_machines (machines : list Machine.t) (d : db) : db :=
  foldl (λ d m, save_machine None m d) d machines.

(** ** Recording the result *)

Definition provider_errors_of (res : ProvisioningResult) : json :=
  dget_default "fleet_errors" (provider_data res) (JList []).

Definition error_records (errors : json) : result (list (dict json)) :=
  match errors with
  | JList l => mapM_result (λ e, match e with
                                 | JDict d => Ok d
                                 | _ => Err (OtherError "AttributeError" "object has no attribute 'get'")
                                 end) l
  | JDict _ | JStr _ => Err (OtherError "AttributeError" "'str' object has no attribute 'get'")
  | _ => Err (TypeError "object is not iterable")
  end.

Definition _merge_provider_diagnostic (request : Request.t) (provider_data : dict json) : Request.t :=
  match jget "fulfilment_diagnostic" provider_data with
  | JDict ((_ :: _) as raw) =>
      match ap_diagnostic p raw with
      | Some diagnostic => Request.set_fulfilment_diagnostic request diagnostic
      | None => request
      end
  | _ => request
  end.

(** What a success adds to the request before the machines are created. *)
Definition absorb (request : Request.t) (res : ProvisioningResult) : Request.t :=
  let request := foldl Request.add_resource_id request (resource_ids res) in
  let request := match _extract_machine_ids res with
                 | [] => request
                 | ids => Request.add_machine_ids request ids
                 end in
  let request := match provider_data res with
                 | [] => request
                 | data => Request.set_provider_data request (dmerge (Request.provider_data request) data)
                 end in
  let errors := provider_errors_of res in
  let request := if truthy errors && negb (truthy (jget "fleet_errors" (Request.metadata request)))
                 then Request.update_metadata request [("fleet_errors", errors)] else request in
  _merge_provider_diagnostic request (provider_data res).

Definition update_request_from_provisioning (request : Request.t) (res : ProvisioningResult)
    (now : datetime) : action Request.t :=
  if negb (success res) then call (_handle_provisioning_failure sm request res now now)
  else
    let request := absorb request res in
    let errors := provider_errors_of res in
    _ ← match instances res with
        | [] => mret ()
        | l =>
            machines ← call (create_machines l (expanded_node_names request) request now);
            unit_of_work (λ d, Ok ((), save_machines machines d))
        end;
    records ← call (if truthy errors then error_records errors else Ok []);
    call (StatusManagement._update_request_status sm request (Z.of_nat (length (instances res)))
            (Request.requested_count request) (truthy errors) records
            (is_final res && negb (_has_unsettled_instances (instances res))) now).

(** ** The handler *)

(** The tags sent to the provider, by machine; a failure is only logged. *)
Definition _sync_machine_tags_to_provider (request : Request.t) : action (list (dict Tags.t)) :=
  try_except
    (supported ← call (ap_can_tag p (Request.provider_name request));
     if negb supported then mret []
     else
       machines ← unit_of_work (λ d,
         Ok (machines_where (λ m, Machine.request_id m ≟ Some (Request.request_id request)) d, d));
       let instance_tags :=
         foldl (λ acc m, match Machine.tags m with
                         | [] => acc
                         | tags => dset (Machine.machine_id m) tags acc
                         end) [] machines in
       mret (match instance_tags with [] => [] | _ => [instance_tags] end))
    (λ _, mret []).

Context (config : fulfilment_config) (ticks : Z → tick (S := db)) (started : datetime).
(** The provider's answers by attempt, request and count, and how their errors read. *)
Context (answer : Z → Request.t → Z → result reply).
Context (fields_of : exn → option string * option string * option string * option string).
Context (dispatch_timeout : Z).

Definition dispatch (n : Z) (request : Request.t) (count : Z) : result (attempt_result * list breaker_event) :=
  _dispatch_single_attempt fields_of dispatch_timeout (answer n request count).

(** The loop on the database; the handler keeps its own copy of the request. *)
Definition provision (request : Request.t) : action ProvisioningResult := λ w,
  match provisioning_loop sm config ticks dispatch (loop_fuel config) started (initial request (w_db w)) with
  | Again l | Break l => (Ok (provisioning_result l), w <| w_db := ls_store l |>)
  | Raised e l => (Err e, w <| w_db := ls_store l |>)
  end.

Definition is_dry_run (request : Request.t) : bool :=
  truthy (dget_default "dry_run" (Request.metadata request) (JBool false)).

(** [execute_command] from the first save on. *)
Definition fulfil (request : Request.t) (now : datetime) : action (list (dict Tags.t)) :=
  _ ← _persist_and_publish None request;
  let revision := Some (Request.version request) in
  let request := Request.clear_domain_events request in
  if is_dry_run request then
    request ← call (Request.update_status request RequestStatus.COMPLETED
                      (Some "Request created successfully (dry-run)") false now);
    _ ← _persist_and_publish revision request;
    mret []
  else
    res ← provision request;
    request ← update_request_from_provisioning request res now;
    tags ← (if success res && truthy (jget "node_names" (Request.metadata request))
            then _sync_machine_tags_to_provider request else mret []);
    _ ← _persist_and_publish revision request;
    mret tags.

Definition handle_acquire (cmd : command) (uuid : string) (now : datetime) (holder : nat)
  : action (string * list (dict Tags.t)) :=
  _ ← call (validate_command cmd);
  '(_, _, request) ← call (prepare cmd uuid now holder);
  tags ← fulfil request now;
  mret (Request.request_id request, tags).
End handler.

(** ** Lemmas: what a success adds *)

Lemma add_resource_ids_fields r ids :
  let r' := foldl Request.add_resource_id r ids in
  (∀ x, x ∈ Request.resource_ids r' ↔ x ∈ Request.resource_ids r ∨ x ∈ ids) ∧
  Request.machine_ids r' = Request.machine_ids r ∧ Request.same_identity r r' ∧
  Request.status r' = Request.status r ∧ Request.deadline_at r' = Request.deadline_at r ∧
  Request.metadata r' = Request.metadata r ∧ Request.successful_count r' = Request.successful_count r ∧
  Request.domain_events r' = Request.domain_events r ∧ Request.started_at r' = Request.started_at r ∧
  Request.provider_name r' = Request.provider_name r.
Proof.
  revert r. induction ids as [|i ids IH]; intros r; cbn [foldl].
  { split_and!; try done. intros x. rewrite elem_of_nil. tauto. }
  specialize (IH (Request.add_resource_id r i)). cbn zeta in IH.
  destruct IH as (Hr & Hm & Hi & Hs & Hd & Hmd & Hc & He & Hst & Hn).
  assert (Hone : (∀ x, x ∈ Request.resource_ids (Request.add_resource_id r i) ↔
                       x ∈ Request.resource_ids r ∨ x = i) ∧
    Request.same_identity r (Request.add_resource_id r i) ∧
    Request.machine_ids (Request.add_resource_id r i) = Request.machine_ids r ∧
    Request.status (Request.add_resource_id r i) = Request.status r ∧
    Request.deadline_at (Request.add_resource_id r i) = Request.deadline_at r ∧
    Request.metadata (Request.add_resource_id r i) = Request.metadata r ∧
    Request.successful_count (Request.add_resource_id r i) = Request.successful_count r ∧
    Request.domain_events (Request.add_resource_id r i) = Request.domain_events r ∧
    Request.started_at (Request.add_resource_id r i) = Request.started_at r ∧
    Request.provider_name (Request.add_resource_id r i) = Request.provider_name r).
  { unfold Request.add_resource_id. case_bool_decide as Hin; cbn [negb].
    - split_and!; try done. intros x. split; [by left|]. by intros [?| ->].
    - rewrite Request.rebuild_preserving_eq. cbn. split_and!; try done.
      intros x. by rewrite elem_of_app, list_elem_of_singleton. }
  destruct Hone as (H1 & H2 & H3 & H4 & H5 & H6 & H7 & H8 & H9 & H10).
  split_and!; try congruence.
  - intros x. rewrite Hr, H1, elem_of_cons. tauto.
  - unfold Request.same_identity in *. destruct H2, Hi. intuition congruence.
Qed.

(** The identifiers a request has collected. *)
Definition same_ids (r r' : Request.t) : Prop :=
  Request.same_identity r r' ∧ Request.resource_ids r' = Request.resource_ids r ∧
  Request.machine_ids r' = Request.machine_ids r ∧ Request.metadata r' = Request.metadata r.

Lemma transition_same_ids r s now msg diag deadline clear :
  same_ids r (Request._transition r s now msg diag deadline clear).
Proof.
  unfold same_ids, Request._transition, Request.add_domain_event, Request.same_identity.
  destruct (s ≟ RequestStatus.COMPLETED); cbn; by split_and!.
Qed.

Lemma apply_same_ids sm r event now f diag message reason r' b :
  FulfilmentStateMachine.apply sm r event now f diag message reason = Ok (r', b) → same_ids r r'.
Proof.
  rewrite apply_eq. destruct (_ && _).
  { intros [= <- _]. unfold deadline_transition. destruct (FulfilmentStateMachine.deadline_outcome r now) as [[? ?] ?].
    apply transition_same_ids. }
  destruct (event ≟ _); [by intros [= <- _]|].
  intros ([[target m] d] & _ & H)%result_bind_Ok. unfold FulfilmentStateMachine.settle in H.
  destruct (target ≟ _).
  { destruct d as [d|]; injection H as <- _; [|done].
    unfold Request.set_fulfilment_diagnostic. rewrite Request.rebuild_preserving_eq. by unfold same_ids. }
  destruct (negb _); [done|]. injection H as <- _. apply transition_same_ids.
Qed.

Lemma verdict_same_ids sm r state message event f final diag now r' :
  _apply_verdict sm r state message event f final diag now = Ok r' → same_ids r r'.
Proof.
  unfold _apply_verdict. destruct (event ≟ _);
    (destruct (FulfilmentStateMachine.apply _ _ _ _ _ _ _ _) as [[u b]|e] eqn:Ha;
     [intros [= <-]; by apply apply_same_ids in Ha|destruct e; try done; by intros [= <-]]).
Qed.

Lemma status_same_ids sm r n requested errs perrs final now r' :
  StatusManagement._update_request_status sm r n requested errs perrs final now = Ok r' → same_ids r r'.
Proof.
  unfold StatusManagement._update_request_status. set (r1 := r <| Request.successful_count := _ |>).
  destruct (provisioning_verdict _ _ _ _ _ _) as [[state message] fin]. intros H%verdict_same_ids.
  exact H.
Qed.

Lemma rebuilt_same r u : Request.domain_events u = Request.domain_events r → Request._rebuild_preserving_events r u = u.
Proof. rewrite Request.rebuild_preserving_eq. intros <-. by destruct u. Qed.

Section absorbed.
Context (p : acquire_ports) (request : Request.t) (res : ProvisioningResult).

(** The steps of [absorb], whatever they do to metadata and data. *)
Lemma absorb_fields :
  let r := absorb p request res in
  Request.same_identity request r ∧ Request.status r = Request.status request ∧
  Request.deadline_at r = Request.deadline_at request ∧
  Request.domain_events r = Request.domain_events request ∧
  Request.provider_name r = Request.provider_name request ∧
  (∀ x, x ∈ Request.resource_ids r ↔ x ∈ Request.resource_ids request ∨ x ∈ resource_ids res) ∧
  (∀ x, x ∈ Request.machine_ids r ↔ x ∈ Request.machine_ids request ∨ x ∈ _extract_machine_ids res).
Proof.
  destruct (add_resource_ids_fields request (resource_ids res)) as
    (Hr & Hm & Hi & Hs & Hd & _ & _ & He & _ & Hn).
  unfold absorb. cbn zeta. set (r1 := foldl _ _ _) in *.
  set (r2 := match _extract_machine_ids res with [] => _ | _ => _ end).
  assert (H2 : same_ids r1 (r2 <| Request.machine_ids := Request.machine_ids r1 |>) ∧
    Request.status r2 = Request.status r1 ∧ Request.deadline_at r2 = Request.deadline_at r1 ∧
    Request.domain_events r2 = Request.domain_events r1 ∧ Request.provider_name r2 = Request.provider_name r1 ∧
    ∀ x, x ∈ Request.machine_ids r2 ↔ x ∈ Request.machine_ids r1 ∨ x ∈ _extract_machine_ids res).
  { unfold r2. destruct (_extract_machine_ids res) as [|i ids] eqn:Hx.
    - split_and!; try done. intros x. rewrite elem_of_nil. tauto.
    - split_and!; try done. intros x. rewrite <-elem_of_app.
      exact (Request.elem_of_set_order (Request.machine_ids r1 ++ i :: ids) x). }
  set (r3 := match provider_data res with [] => r2 | _ => _ end).
  assert (H3 : ∃ pd v, r3 = r2 <| Request.provider_data := pd |> <| Request.version := v |>).
  { unfold r3. destruct (provider_data res).
    - exists (Request.provider_data r2), (Request.version r2). by destruct r2.
    - unfold Request.set_provider_data. rewrite rebuilt_same by done. by do 2 eexists. }
  set (r4 := if _ && _ then _ else r3).
  assert (H4 : ∃ md v, r4 = r3 <| Request.metadata := md |> <| Request.version := v |>).
  { unfold r4. destruct (_ && _).
    - unfold Request.update_metadata. rewrite rebuilt_same by done. by do 2 eexists.
    - exists (Request.metadata r3), (Request.version r3). by destruct r3. }
  assert (H5 : ∃ dg v, _merge_provider_diagnostic p r4 (provider_data res)
                       = r4 <| Request.fulfilment_diagnostic := dg |> <| Request.version := v |>).
  { unfold _merge_provider_diagnostic.
    assert (Hsame : ∃ dg v, r4 = r4 <| Request.fulfilment_diagnostic := dg |> <| Request.version := v |>)
      by (exists (Request.fulfilment_diagnostic r4), (Request.version r4); by destruct r4).
    destruct (jget "fulfilment_diagnostic" (provider_data res)) as [| | | | |[|kv raw]]; try exact Hsame. destruct (ap_diagnostic p (kv :: raw)); [|done].
    unfold Request.set_fulfilment_diagnostic. rewrite rebuilt_same by done. by do 2 eexists. }
  destruct H5 as (dg & v5 & ->), H4 as (md & v4 & ->), H3 as (pd & v3 & ->).
  destruct H2 as ((H2i & H2r & _ & _) & H2s & H2d & H2e & H2n & H2m). cbn.
  unfold Request.same_identity in *. cbn in *. rewrite H2s, H2d, H2e, H2n, H2r, Hs, Hd, He, Hn.
  split; [intuition congruence|]. split_and!; try done. intros x. by rewrite H2m, Hm.
Qed.
End absorbed.

(** ** Lemmas: saving *)

(** What a save of a request that was stored before writes: the row found, merged
    with the request, whose queue may have been emptied. *)
Lemma save_state_Ok v request w events w' :
  save_state (Some v) request w = (Ok events, w') →
  ∃ k cur, let d := w_db (after_encounters k w) in
    get_request d (Request.request_id request) = Some cur ∧
    w_db w' = save_request (Some (Request.version cur)) (apply_onto_stored request (Some cur)) d ∧
    w_published w' = w_published w.
Proof.
  assert (Hone : ∀ r w events w', Request.request_id r = Request.request_id request →
    unit_of_work (merge_stored (Some v) r) w = (Ok events, w') →
    ∃ cur, let d := w_db (after_encounters 1 w) in
      get_request d (Request.request_id request) = Some cur ∧
      w_db w' = save_request (Some (Request.version cur)) (apply_onto_stored r (Some cur)) d ∧
      w_published w' = w_published w).
  { intros r w0 events0 w0' Hid (d' & Hb & ->)%unit_of_work_Ok. unfold merge_stored in Hb. rewrite Hid in Hb.
    destruct (get_request _ _) as [cur|] eqn:Hg; [|done]. injection Hb as _ <-.
    exists cur. split; [done|]. split; [done|].
    change (w_published (after_encounters 1 w0) = w_published w0). apply after_encounters_published. }
  unfold save_state. destruct (unit_of_work _ w) as [[ev|e] w1] eqn:Hu.
  - intros [= <- <-]. exists 1%nat. by apply Hone in Hu.
  - destruct e; try done. intros (cur & Hg & Hdb & Hp)%Hone; [|done]. exists 2%nat, cur.
    assert (w1 = after_encounters 1 w) as ->.
    { destruct (unit_of_work_cases (merge_stored (Some v) request) w) as [(e & _ & Hc)|[_ Hc]].
      - rewrite Hu in Hc. by injection Hc as _ ->.
      - rewrite Hu in Hc. destruct (merge_stored _ _ _) as [[]|]; [done|]. by injection Hc as _ ->. }
    split; [done|]. split; [exact Hdb|]. rewrite Hp. apply (after_encounters_published 1).
Qed.

Lemma persist_row p v request w w' :
  _persist_and_publish p (Some v) request w = (Ok (), w') →
  ∃ k cur row, get_request (w_db (after_encounters k w)) (Request.request_id request) = Some cur ∧
    get_request (w_db w') (Request.request_id request) = Some row ∧
    (∀ x, x ∈ Request.resource_ids row ↔ x ∈ Request.resource_ids cur ∨ x ∈ Request.resource_ids request) ∧
    (∀ x, x ∈ Request.machine_ids row ↔ x ∈ Request.machine_ids cur ∨ x ∈ Request.machine_ids request) ∧
    Request.status row = (if RequestStatus.is_terminal (Request.status cur)
                          then Request.status cur else Request.status request).
Proof.
  unfold _persist_and_publish. intros (events & w1 & Hs & [= <-])%action_bind_Ok.
  apply save_state_Ok in Hs as (k & cur & Hg & Hdb & _). exists k, cur. cbn [w_db]. eexists.
  split; [exact Hg|]. split.
  { transitivity (get_request (w_db w1) (Request.request_id request)); [done|].
    rewrite Hdb, get_request_save, decide_True by done. reflexivity. }
  cbn. split; [intros x; apply elem_of_union_ids|].
  split; [intros x; apply elem_of_union_ids|].
  by destruct (RequestStatus.is_terminal (Request.status cur)).
Qed.



(** ** Lemmas: one attempt on a quiet database *)

(** The result of provisioning when the only attempt succeeded. *)
Definition result_of (rp : reply) : ProvisioningResult :=
  let a := ar_result (successful_attempt rp) in
  mk_provisioning true (rp_resource_ids rp) (rp_instance_ids rp) (rp_instances rp)
    (dmerge [] (provider_data a)) None (is_final a) None None None None.

(** The copy the loop works on differs from the handler's in metadata only. *)
Definition annotated (r r' : Request.t) : Prop :=
  ∃ md v, r' = r <| Request.metadata := md |> <| Request.version := v |>.

Lemma annotated_update r md : annotated r (Request.update_metadata r md).
Proof. unfold Request.update_metadata, annotated. rewrite rebuilt_same by done. by do 2 eexists. Qed.

Lemma annotated_trans r1 r2 r3 : annotated r1 r2 → annotated r2 r3 → annotated r1 r3.
Proof. intros (md & v & ->) (md' & v' & ->). by exists md', v'. Qed.

Lemma annotated_fields r r' : annotated r r' →
  Request.request_id r' = Request.request_id r ∧ Request.status r' = Request.status r ∧
  Request.deadline_at r' = Request.deadline_at r ∧ Request.machine_ids r' = Request.machine_ids r.
Proof. by intros (md & v & ->). Qed.

Section one_attempt.
Context (sm : FulfilmentStateMachine.t) (config : fulfilment_config).
Context (ticks : Z → tick (S := db)) (started : datetime) (answer : Z → Request.t → Z → result reply).
Context (fields_of : exn → option string * option string * option string * option string).
Context (dispatch_timeout : Z).
Context (request : Request.t) (rp : reply).
Context (Hretries : 0 ≤ max_retries config) (Hcount : 0 < Request.requested_count request).
Context (Htime : tk_check (ticks 1) - started < seconds (timeout_seconds config)).
Context (Hquiet : tk_env_checkpoint (ticks 1) = []).
Context (Hanswer : answer 1 (Request.update_metadata request [("provisioning_attempt", JInt 1)])
  (Z.min (Request.requested_count request) (batch_size config)) = Ok rp) (Hsuccess : rp_success rp = true).

Lemma provision_success d published :
  ∃ r, annotated request r ∧
    provision sm config ticks started answer fields_of dispatch_timeout request (quiet d published) =
    (Ok (result_of rp),
     quiet (match rp_resource_ids rp with
            | [] => d
            | rids => (_persist_resource_ids_checkpoint sm r rids (tk_write (ticks 1)) [] d).2
            end) published).
Proof.
  set (count := Z.min (Request.requested_count request) (batch_size config)) in *.
  set (l0 := begin_attempt 1 count (initial request d)).
  set (a := successful_attempt rp).
  set (l1 := log_attempt 1 count a (ticks 1) (accumulate a (tell_breaker [RecordSuccess] l0))).
  assert (Hturn : one_turn sm config ticks (dispatch answer fields_of dispatch_timeout) started (initial request d)
                  = Break (checkpoint sm a (ticks 1) l1)).
  { unfold one_turn. cbn [initial ls_remaining ls_attempt].
    rewrite (proj2 (Z.ltb_lt 0 _) Hcount), (proj2 (Z.leb_le 0 _) Hretries). cbn [andb negb]. cbn zeta.
    change (0 + 1) with 1. rewrite (proj2 (Z.leb_gt _ _) Htime).
    change (ls_remaining (initial request d)) with (Request.requested_count request). fold count.
    fold l0. unfold dispatch at 1.
    change (ls_request l0) with (Request.update_metadata request [("provisioning_attempt", JInt 1)]).
    rewrite Hanswer. cbn [_dispatch_single_attempt]. rewrite Hsuccess. fold a.
    unfold after_dispatch. cbn zeta.
    assert (Hz : 3 <=? ls_zeros (accumulate a (tell_breaker [RecordSuccess] l0)) = false).
    { cbn [accumulate ls_zeros]. by destruct (_ && _). }
    rewrite Hz. change (success (ar_result a)) with true. cbn [negb]. fold l1.
    assert (Hend : ∃ o, ar_outcome a = Some o ∧ (o = Accepted ∨ o = Completed ∧ is_final (ar_result a) = true)).
    { unfold a, successful_attempt. cbn. destruct (truthy _); eexists; auto. }
    destruct Hend as (o & Ho & Hend). rewrite Ho. destruct Hend as [->|[-> Hf]]; [done|].
    unfold Provisioning.conclude. by rewrite Hf, andb_false_r. }
  exists (ls_request l1). split.
  { eapply annotated_trans; apply annotated_update. }
  unfold provision.
  change (w_db (quiet d published)) with d.
  assert (provisioning_loop sm config ticks (dispatch answer fields_of dispatch_timeout) (loop_fuel config) started
    (initial request d) = Break (checkpoint sm a (ticks 1) l1)) as ->.
  { destruct (loop_fuel config); cbn [provisioning_loop]; by rewrite Hturn. }
  unfold checkpoint. change (resource_ids (ar_result a)) with (rp_resource_ids rp). rewrite Hquiet.
  destruct (rp_resource_ids rp) as [|rid rids] eqn:Hrids.
  - unfold result_of, provisioning_result. rewrite Hrids. cbn. rewrite Hrids. done.
  - unfold result_of, provisioning_result. rewrite Hrids. cbn. rewrite Hrids. done.
Qed.
End one_attempt.

Lemma checkpoint_quiet sm r rids now d row :
  db_ok d → get_request d (Request.request_id r) = Some row →
  RequestStatus.is_terminal (Request.status row) = false →
  Request.status r = RequestStatus.PENDING → Request.deadline_at r = None →
  ∃ m, (_persist_resource_ids_checkpoint sm r rids now [] d).2 = save_request (Some (Request.version row)) m d ∧
    Request.request_id m = Request.request_id r ∧ Request.status m = RequestStatus.ACQUIRING ∧
    Request.machine_ids m = _union (Request.machine_ids row) (Request.machine_ids r).
Proof.
  intros Hok Hrow Hlive Hst Hdl. unfold _persist_resource_ids_checkpoint.
  destruct (add_resource_ids_fields r rids) as (_ & Hm & (Hid & _) & Hs & Hd & _). cbn zeta in *.
  set (u := foldl _ _ _) in *. rewrite Hs, Hst, bool_decide_eq_true_2 by done.
  assert (∃ t, resources_created sm u now None = Ok t ∧ Request.status t = RequestStatus.ACQUIRING ∧
    Request.request_id t = Request.request_id r ∧ Request.machine_ids t = Request.machine_ids r)
    as (t & -> & Ht & Htid & Htm).
  { unfold resources_created. rewrite apply_eq. unfold expired. rewrite Hs, Hst. cbn [overrides_deadline].
    rewrite (bool_decide_eq_false_2 (RequestStatus.PENDING ∈ _))
      by (rewrite !not_elem_of_cons; repeat split; try done; apply not_elem_of_nil).
    rewrite andb_false_r, andb_false_l, andb_false_r.
    rewrite (bool_decide_eq_false_2 (FulfilmentEvent.RESOURCES_CREATED = _)) by done.
    cbn [FulfilmentStateMachine._resolve_target mbind result_bind]. unfold FulfilmentStateMachine.settle.
    rewrite Hs, Hst. rewrite (bool_decide_eq_false_2 (RequestStatus.ACQUIRING = _)) by done.
    change (RequestStatus.can_transition_to RequestStatus.PENDING RequestStatus.ACQUIRING) with true. cbn [negb].
    eexists. split; [reflexivity|]. cbn [fst].
    edestruct Request.transition_fields as (-> & _ & (-> & _) & _ & -> & _). auto. }
  unfold persist, save_provisioning_state, _WRITE_ATTEMPTS. cbn [save_loop].
  change (@rs_get db db_store) with get_request. rewrite Htid, Hrow.
  change (@rs_save db db_store) with db_save. unfold interfere. cbn [head default from_option]. unfold id.
  unfold db_save. change (Request.request_id (apply_onto_stored t (Some row))) with (Request.request_id t).
  rewrite Htid, Hrow, Z.eqb_refl. exists (apply_onto_stored t (Some row)).
  split; [done|]. split; [done|]. cbn. rewrite Hlive. split; [done|]. by rewrite Htm.
Qed.

(** ** Lemmas: the machines *)

Lemma created_machine p data request now m :
  _create_machine_aggregate p data request now = Ok m →
  Machine.request_id m = Some (Request.request_id request) ∧ Machine.status m = MachineStatus.PENDING ∧
  Machine.domain_events m = [] ∧
  ∃ fields v, data = JDict fields ∧ dget "instance_id" fields = Some v ∧
    make_machine_id (PJson v) = Ok (Machine.machine_id m).
Proof.
  unfold _create_machine_aggregate. destruct data as [| | | | |data]; try done. intros H.
  apply result_bind_Ok in H as (t & _ & H). apply result_bind_Ok in H as (v & Hv & H).
  apply result_bind_Ok in H as (i & Hi & H).
  repeat (apply result_bind_Ok in H as (? & _ & H)). injection H as <-. split_and!; try done.
  exists data, v. destruct (dget "instance_id" data); [|done]. by injection Hv as ->.
Qed.

Lemma created_machines p instances names request now ms :
  create_machines p instances names request now = Ok ms →
  Forall2 (λ data m, Machine.request_id m = Some (Request.request_id request) ∧
     Machine.status m = MachineStatus.PENDING ∧ Machine.domain_events m = [] ∧
     ∃ fields v, data = JDict fields ∧ dget "instance_id" fields = Some v ∧
       make_machine_id (PJson v) = Ok (Machine.machine_id m)) instances ms.
Proof.
  revert names ms. induction instances as [|i instances IH]; intros names ms; cbn; [by intros [= <-]; constructor|].
  intros H. apply result_bind_Ok in H as (m & Hm & H). apply result_bind_Ok in H as (m' & Hn & H).
  apply result_bind_Ok in H as (ms' & Hms & [= <-]). apply IH in Hms as Hall.
  constructor; [|done]. apply created_machine in Hm.
  unfold name_node in Hn. destruct (head names) as [[]|]; try done; by injection Hn as <-.
Qed.

Lemma created_quiet p instances names request now ms :
  create_machines p instances names request now = Ok ms →
  Forall (λ m, Machine.domain_events m = []) ms.
Proof. intros H%created_machines. induction H as [|? ? ? ? (_ & _ & ? & _)]; by constructor. Qed.

Lemma save_machines_spec ms d :
  Forall (λ m, Machine.domain_events m = []) ms →
  (∀ i, get_machine (save_machines ms d) i =
     match last (filter (λ m, Machine.machine_id m = i) ms) with
     | Some m => Some m
     | None => get_machine d i
     end) ∧
  (∀ i, get_request (save_machines ms d) i = get_request d i).
Proof.
  intros Hev. induction ms as [|m ms IH] using rev_ind.
  { by split. }
  apply Forall_app in Hev as [Hev [Hm _]%Forall_cons]. destruct (IH Hev) as (H1 & H3).
  assert (Hlast : ∀ i, get_machine (save_machines (ms ++ [m]) d) i =
    if decide (Machine.machine_id m = i) then Some m else get_machine (save_machines ms d) i).
  { intros i. unfold save_machines. rewrite foldl_app. cbn [foldl]. rewrite get_machine_save.
    case_decide; [|done]. f_equal. cbn [Lifecycle.written]. destruct m; cbn in Hm. by subst. }
  split.
  - intros i. rewrite Hlast, filter_app, filter_cons, filter_nil.
    case_decide; [by rewrite last_snoc|by rewrite app_nil_r].
  - intros i. unfold save_machines. rewrite foldl_app. cbn [foldl]. rewrite get_request_save_machine. apply H3.
Qed.

Lemma save_machines_ext ms d1 d2 :
  (∀ i, get_machine d1 i = get_machine d2 i) →
  ∀ i, get_machine (save_machines ms d1) i = get_machine (save_machines ms d2) i.
Proof.
  unfold save_machines. revert d1 d2. induction ms as [|m ms IH]; intros d1 d2 Hd; [done|].
  cbn [foldl]. apply IH. intros i. rewrite !get_machine_save. by rewrite Hd.
Qed.

Lemma is_nil_ext {A} (l l' : list A) : (∀ x, x ∈ l ↔ x ∈ l') → Request.is_nil l = Request.is_nil l'.
Proof.
  intros H. destruct l as [|x l], l' as [|y l']; try done; exfalso.
  - apply (not_elem_of_nil y), H. by left.
  - apply (not_elem_of_nil x), H. by left.
Qed.

Lemma sync_tags_reads p request : reads (_sync_machine_tags_to_provider p request).
Proof.
  unfold _sync_machine_tags_to_provider. apply reads_try; [|intros; apply reads_ret].
  apply reads_bind; [apply reads_call|]. intros []; cbn [negb]; [|apply reads_ret].
  apply reads_bind; [|intros; apply reads_ret]. apply reads_unit_of_work. by intros d a d' [= _ ->].
Qed.

Lemma sync_tags_Ok p request w : ∃ tags w', _sync_machine_tags_to_provider p request w = (Ok tags, w').
Proof.
  unfold _sync_machine_tags_to_provider, try_except.
  match goal with |- context [match ?m with _ => _ end] => destruct m as [[tags|e] w'] end; by do 2 eexists.
Qed.

(** ** Lemmas: the handler on a quiet database *)

Lemma first_save p request d published :
  get_request d (Request.request_id request) = None →
  _persist_and_publish p None request (quiet d published) =
  (Ok (), quiet (save_request None request d)
            (published ++ List.filter (publishable p) (Request.domain_events request))).
Proof.
  intros Hnone. unfold _persist_and_publish, save_state, mbind, action_bind. rewrite unit_of_work_quiet.
  unfold merge_stored. by rewrite Hnone.
Qed.

Lemma later_save p v request d published cur :
  get_request d (Request.request_id request) = Some cur →
  ∃ published', _persist_and_publish p (Some v) request (quiet d published) =
  (Ok (), quiet (save_request (Some (Request.version cur)) (apply_onto_stored request (Some cur)) d) published').
Proof.
  intros Hcur. unfold _persist_and_publish, save_state, mbind, action_bind. rewrite unit_of_work_quiet.
  unfold merge_stored. rewrite Hcur. by eexists.
Qed.

(** A request as it is created for acquisition. *)
Record fresh_acquire (r : Request.t) : Prop := mk_fresh_acquire {
  fa_status : Request.status r = RequestStatus.PENDING;
  fa_type : Request.request_type r = RequestType.ACQUIRE;
  fa_deadline : Request.deadline_at r = None;
  fa_machines : Request.machine_ids r = [];
  fa_resources : Request.resource_ids r = [];
  fa_count : 0 < Request.requested_count r;
  fa_real : is_dry_run r = false
}.

Lemma created_dry_run cmd template sel :
  dget "dry_run" (request_metadata cmd template sel) = Some (JBool (c_dry_run cmd)).
Proof.
  unfold request_metadata. cbn [foldl].
  assert (Hn : ∀ k d, k ≠ "dry_run" → "dry_run" ∉ dkeys (unless_nil k d)).
  { intros k [|x d] Hk; cbn; [apply not_elem_of_nil|]. rewrite not_elem_of_cons. split; [done|apply not_elem_of_nil]. }
  rewrite dget_dmerge_other
    by (cbn; rewrite !not_elem_of_cons; repeat split; try done; apply not_elem_of_nil).
  rewrite dget_dmerge_other by (by apply Hn). rewrite dget_dmerge_other by (by apply Hn).
  unfold dmerge at 1. cbn [foldl fst snd]. apply dget_dset_eq.
Qed.

(** What the command prepares is such a request. *)
Lemma prepared_fresh p cmd uuid now holder template sel request :
  validate_command cmd = Ok () → c_dry_run cmd = false →
  prepare p cmd uuid now holder = Ok (template, sel, request) → fresh_acquire request.
Proof.
  unfold validate_command. destruct (c_template_id cmd ≟ _); [done|].
  destruct (Z.leb_spec (c_requested_count cmd) 0) as [|Hpos]; [done|]. intros _ Hdry.
  unfold prepare. intros H. apply result_bind_Ok in H as (t0 & _ & H).
  apply result_bind_Ok in H as (t & _ & H). apply result_bind_Ok in H as (sl & _ & H).
  apply result_bind_Ok in H as (r & Hr & [= -> -> ->]). unfold create_machine_request in Hr.
  apply result_bind_Ok in Hr as ([] & _ & Hr). apply result_bind_Ok in Hr as (r0 & Hr0 & Hr).
  unfold Request.create_new_request in Hr0. apply result_bind_Ok in Hr0 as (rid & _ & [= <-]).
  destruct (truthy _); [|done]. injection Hr as <-. constructor; try done.
  unfold is_dry_run, dget_default. cbn [Request.metadata Request.add_domain_event Request.fresh].
  change (truthy (default (JBool false) (dget "dry_run" (request_metadata cmd template sel))) = false).
  by rewrite created_dry_run, Hdry.
Qed.

Section quiet_run.
Context (p : acquire_ports) (sm : FulfilmentStateMachine.t) (config : fulfilment_config).
Context (ticks : Z → tick (S := db)) (started : datetime) (answer : Z → Request.t → Z → result reply).
Context (fields_of : exn → option string * option string * option string * option string).
Context (dispatch_timeout : Z) (request : Request.t) (rp : reply) (now : datetime).
Context (d : db) (published : list RequestEvent).
Local Abbreviation local := (Request.clear_domain_events request).
Local Abbreviation absorbed := (absorb p local (result_of rp)).
Local Abbreviation provision := (provision sm config ticks started answer fields_of dispatch_timeout).
Local Abbreviation fulfil := (fulfil p sm config ticks started answer fields_of dispatch_timeout).
Context (Hok : db_ok d) (Hnew : get_request d (Request.request_id request) = None).
Context (Hfresh : fresh_acquire request).
Context (Hretries : 0 ≤ max_retries config).
Context (Htime : tk_check (ticks 1) - started < seconds (timeout_seconds config)).
Context (Hquiet : tk_env_checkpoint (ticks 1) = []).
Context (Hanswer : answer 1 (Request.update_metadata local [("provisioning_attempt", JInt 1)])
  (Z.min (Request.requested_count request) (batch_size config)) = Ok rp) (Hsuccess : rp_success rp = true).

(** After the provisioning: the row is live, in the status of the checkpoint. *)
Lemma provision_quiet published1 :
  ∃ d1 row1, provision local (quiet (save_request None request d) published1)
      = (Ok (result_of rp), quiet d1 published1) ∧
    get_request d1 (Request.request_id request) = Some row1 ∧ Request.machine_ids row1 = [] ∧
    Request.status row1 = (if Request.is_nil (rp_resource_ids rp) then RequestStatus.PENDING
                           else RequestStatus.ACQUIRING) ∧
    (∀ i, get_machine d1 i = get_machine d i).
Proof.
  destruct Hfresh as [Hst Hty Hdl Hmi Hri Hc Hdry].
  set (d0 := save_request None request d).
  assert (Hrow : get_request d0 (Request.request_id request)
                 = Some (persisted request (Lifecycle.written (Request.version request) None))).
  { unfold d0. by rewrite get_request_save, decide_True. }
  assert (Hok0 : db_ok d0).
  { destruct Hok as [Hr Hm]. split; [|intros j m; unfold d0; rewrite get_machine_save_request; apply Hm].
    intros j r. unfold d0. rewrite get_request_save. case_decide; [by intros [= <-]|apply Hr]. }
  destruct (provision_success sm config ticks started answer fields_of dispatch_timeout local rp
    Hretries Hc Htime Hquiet Hanswer Hsuccess d0 published1) as (r & Hann & ->).
  apply annotated_fields in Hann as (Hrid & Hrst & Hrdl & Hrmi).
  destruct (rp_resource_ids rp) as [|rid rids]; cbn [Request.is_nil].
  { exists d0. eexists. split; [done|]. split; [exact Hrow|]. split; [exact Hmi|]. split; [exact Hst|].
    intros i. apply get_machine_save_request. }
  change (Request.request_id local) with (Request.request_id request) in Hrid. rewrite <-Hrid in Hrow.
  destruct (checkpoint_quiet sm r (rid :: rids) (tk_write (ticks 1)) d0 _ Hok0 Hrow)
    as (m & -> & Hid & Hms & Hmm); [cbn; by rewrite Hst|by rewrite Hrst|by rewrite Hrdl|].
  eexists _, _. split; [reflexivity|]. split.
  { rewrite get_request_save, decide_True by congruence. reflexivity. }
  split; [cbn; rewrite Hmm, Hrmi; cbn; by rewrite Hmi|]. split; [exact Hms|].
  intros i. rewrite get_machine_save_request. apply get_machine_save_request.
Qed.

Lemma fulfil_start :
  ∃ published1, fulfil request now (quiet d published) =
    (res ← provision local;
     updated ← update_request_from_provisioning p sm local res now;
     tags ← (if success res && truthy (jget "node_names" (Request.metadata updated))
             then _sync_machine_tags_to_provider p updated else mret []);
     _ ← _persist_and_publish p (Some (Request.version request)) updated;
     mret tags) (quiet (save_request None request d) published1).
Proof.
  unfold AcquireMachines.fulfil at 1. unfold mbind at 1, action_bind at 1. rewrite first_save by done.
  eexists. change (is_dry_run local) with (is_dry_run request). rewrite (fa_real _ Hfresh). reflexivity.
Qed.

Lemma update_success res w :
  success res = true →
  update_request_from_provisioning p sm local res now w =
  (_ ← match instances res with
       | [] => mret ()
       | l =>
           machines ← call (create_machines p l (expanded_node_names (absorb p local res)) (absorb p local res) now);
           unit_of_work (λ d, Ok ((), save_machines machines d))
       end;
   records ← call (if truthy (provider_errors_of res) then error_records (provider_errors_of res) else Ok []);
   call (StatusManagement._update_request_status sm (absorb p local res) (Z.of_nat (length (instances res)))
           (Request.requested_count (absorb p local res)) (truthy (provider_errors_of res)) records
           (is_final res && negb (_has_unsettled_instances (instances res))) now)) w.
Proof. intros H. unfold update_request_from_provisioning. by rewrite H. Qed.

(** The database with the machines stored. *)
Lemma machines_step machines d1 published1 :
  create_machines p (rp_instances rp) (expanded_node_names absorbed) absorbed now = Ok machines →
  (match rp_instances rp with
   | [] => mret ()
   | l =>
       machines ← call (create_machines p l (expanded_node_names absorbed) absorbed now);
       unit_of_work (λ d, Ok ((), save_machines machines d))
   end : action unit) (quiet d1 published1) = (Ok (), quiet (save_machines machines d1) published1).
Proof.
  intros Hm. destruct (rp_instances rp) as [|i l] eqn:Hi; [by injection Hm as <-|].
  unfold mbind, action_bind, call. rewrite Hm. by rewrite unit_of_work_quiet.
Qed.

(** The whole run, when every record of the answer makes a machine. *)
Lemma fulfil_quiet machines records :
  create_machines p (rp_instances rp) (expanded_node_names absorbed) absorbed now = Ok machines →
  (if truthy (provider_errors_of (result_of rp)) then error_records (provider_errors_of (result_of rp)) else Ok [])
    = Ok records →
  ∃ published1 d1 row1 tags d' published' row,
    provision local (quiet (save_request None request d) published1) = (Ok (result_of rp), quiet d1 published1) ∧
    get_request d1 (Request.request_id request) = Some row1 ∧
    Request.status row1 = (if Request.is_nil (rp_resource_ids rp) then RequestStatus.PENDING
                           else RequestStatus.ACQUIRING) ∧
    fulfil request now (quiet d published) = (Ok tags, quiet d' published') ∧
    get_request d' (Request.request_id request) = Some row ∧
    Request.status row =
      provisioned_status (rp_resource_ids rp) (Z.of_nat (length (rp_instances rp)))
        (Request.requested_count request)
        (is_final (result_of rp) && negb (_has_unsettled_instances (rp_instances rp))) ∧
    ∀ i, get_machine d' i = get_machine (save_machines machines d) i.
Proof.
  intros Hm Hrec. destruct fulfil_start as [published1 Hstart].
  destruct (provision_quiet published1) as (d1 & row1 & Hprov & Hrow1 & _ & Hst1 & Hmach).
  destruct (absorb_fields p local (result_of rp)) as ((Hid & Hty & _ & _ & Hcnt & _) & Hst & Hdl & _ & _ & Hres & _).
  destruct Hfresh as [Fst Fty Fdl Fmi Fri Fc Fdry].
  assert (Hev : Forall (λ m, Machine.domain_events m = []) machines)
    by (eapply created_quiet; exact Hm).
  destruct (save_machines_spec machines d1 Hev) as (_ & Hreq).
  destruct (outcome_table sm absorbed (Z.of_nat (length (rp_instances rp))) (Request.requested_count absorbed)
    (truthy (provider_errors_of (result_of rp))) records
    (is_final (result_of rp) && negb (_has_unsettled_instances (rp_instances rp))) now)
    as (updated & Hupd & Hust & _).
  { by rewrite Hty. }
  { rewrite Hst. cbn. rewrite Fst. by left. }
  { unfold expired. rewrite Hst. cbn. rewrite Fst.
    rewrite (bool_decide_eq_false_2 (RequestStatus.PENDING ∈ _))
      by (rewrite !not_elem_of_cons; repeat split; try done; apply not_elem_of_nil).
    by rewrite andb_false_r. }
  assert (Hnil : Request.is_nil (Request.resource_ids absorbed) = Request.is_nil (rp_resource_ids rp)).
  { apply is_nil_ext. intros x. rewrite Hres. change (Request.resource_ids local) with (Request.resource_ids request).
    rewrite Fri, elem_of_nil. change (resource_ids (result_of rp)) with (rp_resource_ids rp). tauto. }
  assert (Hud : Request.request_id updated = Request.request_id request).
  { apply status_same_ids in Hupd as ((Hi & _) & _). by rewrite Hi, Hid. }
  assert (Hu : update_request_from_provisioning p sm local (result_of rp) now (quiet d1 published1)
               = (Ok updated, quiet (save_machines machines d1) published1)).
  { rewrite update_success by done. unfold mbind at 1, action_bind at 1.
    change (instances (result_of rp)) with (rp_instances rp). rewrite (machines_step machines) by done.
    unfold mbind, action_bind, call. rewrite Hrec. by rewrite Hupd. }
  set (w2 := quiet (save_machines machines d1) published1) in *.
  assert (∃ tags, (if success (result_of rp) && truthy (jget "node_names" (Request.metadata updated))
     then _sync_machine_tags_to_provider p updated else mret []) w2 = (Ok tags, w2)) as [tags Htags].
  { change (success (result_of rp)) with true. cbn [andb].
    destruct (truthy (jget "node_names" (Request.metadata updated))); [|by exists []]. destruct (sync_tags_Ok p updated w2) as (tags & w' & Hs).
    exists tags. rewrite Hs. f_equal. pose proof (sync_tags_reads p updated (save_machines machines d1) published1) as Hr.
    fold w2 in Hr. rewrite Hs in Hr. exact Hr. }
  destruct (later_save p (Request.version request) updated (save_machines machines d1) published1 row1) as [published' Hsave].
  { by rewrite Hud, Hreq. }
  exists published1, d1, row1, tags. eexists _, published', _. split; [done|]. split; [done|]. split; [done|].
  rewrite Hstart. unfold mbind at 1, action_bind at 1. rewrite Hprov.
  unfold mbind at 1, action_bind at 1. rewrite Hu.
  unfold mbind at 1, action_bind at 1. rewrite Htags.
  unfold mbind at 1, action_bind at 1. fold w2 in Hsave. rewrite Hsave. split; [reflexivity|].
  rewrite <-Hud. split; [rewrite get_request_save, decide_True by done; reflexivity|]. split.
  - cbn. replace (RequestStatus.is_terminal (Request.status row1)) with false
      by (rewrite Hst1; by destruct (Request.is_nil _)).
    rewrite Hust, Hcnt. unfold provisioned_status. rewrite Hnil. reflexivity.
  - intros i. rewrite get_machine_save_request. by apply save_machines_ext.
Qed.
End quiet_run.

(** ** Theorems *)

Section theorems.
Context (p : acquire_ports) (sm : FulfilmentStateMachine.t) (config : fulfilment_config).
Context (ticks : Z → tick (S := db)) (started : datetime) (answer : Z → Request.t → Z → result reply).
Context (fields_of : exn → option string * option string * option string * option string).
Context (dispatch_timeout : Z).
Local Abbreviation provision := (provision sm config ticks started answer fields_of dispatch_timeout).
Local Abbreviation fulfil := (fulfil p sm config ticks started answer fields_of dispatch_timeout).


(** A conflict silences a change.  The events of a change are taken from the
    request when its row is staged, before the commit.  When the commit then meets a
    version conflict, the second attempt stores the change but finds the queue
    empty: the new status is stored and nothing is published. *)
Theorem conflict_drops_events v request w w' :
  conflicts w → _persist_and_publish p (Some v) request w = (Ok (), w') →
  w_published w' = w_published w ∧
  ∃ row, get_request (w_db w') (Request.request_id request) = Some row ∧
    (Request.status row = Request.status request ∨ RequestStatus.is_terminal (Request.status row) = true).
Proof.
  intros (i & v' & Hc) H. split; [|destruct (persist_row _ _ _ _ _ H) as (k & cur & row & _ & ? & _ & _ & Hst)].
  2: { exists row. split; [done|]. destruct (RequestStatus.is_terminal (Request.status cur)) eqn:Ht; rewrite Hst; auto. }
  unfold _persist_and_publish in H. apply action_bind_Ok in H as (events & w1 & Hs & [= <-]). cbn.
  pose proof (save_state_Ok _ _ _ _ _ Hs) as (k & cur & _ & _ & Hp). rewrite Hp.
  enough (events = []) as -> by apply app_nil_r. unfold save_state in Hs.
  destruct (unit_of_work_cases (merge_stored (Some v) request) w) as [(e & He & Hu)|[He _]]; [|congruence].
  rewrite He in Hc. injection Hc as ->. rewrite Hu in Hs.
  apply unit_of_work_Ok in Hs as (d' & Hb & _). unfold merge_stored in Hb.
  destruct (get_request _ _) as [c|]; [|done]. injection Hb as <- _. cbn.
  by destruct (RequestStatus.is_terminal _).
Qed.

Section quiet.
Context (request : Request.t) (rp : reply) (now : datetime) (d : db) (published : list RequestEvent).
Local Abbreviation local := (Request.clear_domain_events request).
Local Abbreviation absorbed := (absorb p local (result_of rp)).
Context (Hok : db_ok d) (Hnew : get_request d (Request.request_id request) = None).
Context (Hfresh : fresh_acquire request) (Hretries : 0 ≤ max_retries config).
Context (Htime : tk_check (ticks 1) - started < seconds (timeout_seconds config)).
Context (Hquiet : tk_env_checkpoint (ticks 1) = []).
Context (Hanswer : answer 1 (Request.update_metadata local [("provisioning_attempt", JInt 1)])
  (Z.min (Request.requested_count request) (batch_size config)) = Ok rp) (Hsuccess : rp_success rp = true).


(** The handler takes a request back against the transition table.  An answer with
    resources makes the checkpoint store the status ACQUIRING.  The handler goes on with
    the copy it has, still pending, and saves what comes of that: when the instances
    have yet to start the stored request goes from ACQUIRING to IN_PROGRESS, a move the
    table does not have. *)
Theorem acquire_leaves_table machines records :
  create_machines p (rp_instances rp) (expanded_node_names absorbed) absorbed now = Ok machines →
  (if truthy (provider_errors_of (result_of rp)) then error_records (provider_errors_of (result_of rp)) else Ok [])
    = Ok records →
  rp_resource_ids rp ≠ [] →
  rp_instances rp = [] ∨ is_final (result_of rp) && negb (_has_unsettled_instances (rp_instances rp)) = false →
  ∃ w1 res w2 row1 tags w' row,
    provision local w1 = (Ok res, w2) ∧
    get_request (w_db w2) (Request.request_id request) = Some row1 ∧
    fulfil request now (quiet d published) = (Ok tags, w') ∧
    get_request (w_db w') (Request.request_id request) = Some row ∧
    Request.status row1 = RequestStatus.ACQUIRING ∧ Request.status row = RequestStatus.IN_PROGRESS ∧
    RequestStatus.can_transition_to (Request.status row1) (Request.status row) = false.
Proof.
  intros Hm Hrec Hres Hopen.
  destruct (fulfil_quiet p sm config ticks started answer fields_of dispatch_timeout request rp now d published
    Hok Hnew Hfresh Hretries Htime Hquiet Hanswer Hsuccess machines records Hm Hrec)
    as (pub1 & d1 & row1 & tags & d' & pub' & row & Hprov & Hrow1 & Hst1 & Hrun & Hrow & Hst & _).
  assert (Hnil : Request.is_nil (rp_resource_ids rp) = false) by (by destruct (rp_resource_ids rp)).
  rewrite Hnil in Hst1. pose proof (fa_count _ Hfresh) as Hc.
  assert (Hip : Request.status row = RequestStatus.IN_PROGRESS).
  { rewrite Hst. unfold provisioned_status. rewrite Hnil. destruct Hopen as [-> | ->].
    - change (Z.of_nat (length ([] : list json))) with 0. by rewrite (proj2 (Z.eqb_neq 0 _)) by lia.
    - by repeat case_match. }
  do 7 eexists. split; [exact Hprov|]. split; [exact Hrow1|]. split; [exact Hrun|]. split; [exact Hrow|].
  rewrite Hst1, Hip. done.
Qed.

(** One bad record loses the whole batch.  When the provider created instances and
    one of their records does not make a machine, because a field is null or missing,
    the handler raises: no machine of the request is stored, the stored request stays
    open and names none of the instances, although they run. *)
Theorem bad_record_loses_batch e :
  rp_instances rp ≠ [] →
  create_machines p (rp_instances rp) (expanded_node_names absorbed) absorbed now = Err e →
  ∃ d' published' row, fulfil request now (quiet d published) = (Err e, quiet d' published') ∧
    (∀ i, get_machine d' i = get_machine d i) ∧
    get_request d' (Request.request_id request) = Some row ∧
    Request.machine_ids row = [] ∧ RequestStatus.is_terminal (Request.status row) = false.
Proof.
  intros Hne He.
  destruct (fulfil_start p sm config ticks started answer fields_of dispatch_timeout request now d published
    Hnew Hfresh) as [pub1 Hstart].
  destruct (provision_quiet sm config ticks started answer fields_of dispatch_timeout request rp d
    Hok Hfresh Hretries Htime Hquiet Hanswer Hsuccess pub1) as (d1 & row1 & Hprov & Hrow1 & Hmi & Hst1 & Hmach).
  exists d1, pub1, row1. split_and!; try done; [|rewrite Hst1; by destruct (Request.is_nil _)].
  rewrite Hstart. unfold mbind at 1, action_bind at 1. rewrite Hprov.
  unfold mbind at 1, action_bind at 1. rewrite update_success by done. unfold mbind at 1, action_bind at 1.
  change (instances (result_of rp)) with (rp_instances rp).
  destruct (rp_instances rp) as [|i l]; [done|]. unfold mbind at 1, action_bind at 1, call at 1. by rewrite He.
Qed.
End quiet.
End theorems.

(** ** Witnesses *)

Definition demo_ports : acquire_ports :=
  mk_acquire_ports (λ _, Ok None) (λ _, Ok (mk_selection "aws" "aws-eu" "only one" (JInt 1))) None
    (λ _ _, Ok (true, [])) Ok (λ _, None) (λ _, Ok None) (λ _, Ok true) (λ _ _, true).

Definition demo_acquire : Request.t :=
  Request.fresh Lifecycle.demo_id RequestType.ACQUIRE "t" 2 "aws" (Some "aws-eu") (Some "EC2Fleet") [] [] 0 0.

Definition demo_config : fulfilment_config := mk_fulfilment_config 3 300 1000.
Definition demo_ticks : Z → tick (S := db) := λ _, mk_tick 0 0 0 0 [] [].
Definition demo_fields : exn → option string * option string * option string * option string := λ _, no_fields.

Definition demo_instance (i : string) (image : json) : json :=
  JDict [("instance_id", JStr i); ("status", JStr "pending"); ("image_id", image)].

Definition demo_reply (second_image : json) : reply :=
  mk_reply true ["fleet-1"] ["i-1"; "i-2"] [demo_instance "i-1" (JStr "ami-1"); demo_instance "i-2" second_image]
    [] [] [] None.

Definition demo_run (second_image : json) (w : world) : result (list (dict Tags.t)) * world :=
  fulfil demo_ports (FulfilmentStateMachine.init 60) demo_config demo_ticks 0
    (λ _ _ _, Ok (demo_reply second_image)) demo_fields 300 demo_acquire 0 w.

Definition no_rows : db := mk_db ∅ ∅.
Lemma no_rows_ok : db_ok no_rows.
Proof. split; intros j x; unfold get_request, get_machine; cbn; by rewrite lookup_empty. Qed.

Lemma demo_acquire_fresh : fresh_acquire demo_acquire.
Proof. by constructor. Qed.


Definition conflicting_world : world :=
  mk_world (mk_db {[ Lifecycle.demo_id := demo_acquire ]} ∅)
    [λ d, (Some (ConcurrencyError Lifecycle.demo_id (Some 0)), d)] [].

Definition demo_started : Request.t :=
  Request._transition demo_acquire RequestStatus.IN_PROGRESS 0 None None None false.

Lemma conflict_drops_events_witness :
  ∃ w', _persist_and_publish demo_ports (Some 0) demo_started conflicting_world = (Ok (), w') ∧
    w_published w' = [] ∧ Request.domain_events demo_started ≠ [].
Proof.
  destruct (_persist_and_publish demo_ports (Some 0) demo_started conflicting_world) as [[[]|e] w'] eqn:H;
    [|vm_compute in H; discriminate].
  destruct (conflict_drops_events demo_ports 0 demo_started conflicting_world w') as [Hp _];
    [by do 2 eexists|exact H|].
  exists w'. split; [reflexivity|]. split; [exact Hp|]. intros Hnil. discriminate Hnil.
Defined.


Lemma acquire_leaves_table_witness :
  ∃ w' row, demo_run (JStr "ami-1") (quiet no_rows []) = (Ok [], w') ∧
    get_request (w_db w') Lifecycle.demo_id = Some row ∧ Request.status row = RequestStatus.IN_PROGRESS.
Proof.
  destruct (create_machines demo_ports (rp_instances (demo_reply (JStr "ami-1"))) [] 
    (absorb demo_ports (Request.clear_domain_events demo_acquire) (result_of (demo_reply (JStr "ami-1")))) 0)
    as [machines|e] eqn:Hm; [|vm_compute in Hm; discriminate].
  destruct (acquire_leaves_table demo_ports (FulfilmentStateMachine.init 60) demo_config demo_ticks 0
    (λ _ _ _, Ok (demo_reply (JStr "ami-1"))) demo_fields 300 demo_acquire (demo_reply (JStr "ami-1")) 0 no_rows []
    no_rows_ok eq_refl demo_acquire_fresh ltac:(vm_compute; discriminate) ltac:(vm_compute; reflexivity) eq_refl eq_refl eq_refl machines [] Hm eq_refl
    ltac:(discriminate) ltac:(right; reflexivity))
    as (w1 & res & w2 & row1 & tags & w' & row & _ & _ & Hrun & Hrow & _ & Hst & _).
  exists w', row. split; [|split; [exact Hrow|exact Hst]].
  unfold demo_run. rewrite Hrun. f_equal. f_equal. vm_compute in Hrun. by injection Hrun as <- _.
Defined.

Lemma bad_record_loses_batch_witness :
  ∃ e d' published', demo_run JNull (quiet no_rows []) = (Err e, quiet d' published') ∧
    get_machine d' "i-1" = None.
Proof.
  destruct (create_machines demo_ports (rp_instances (demo_reply JNull)) [] 
    (absorb demo_ports (Request.clear_domain_events demo_acquire) (result_of (demo_reply JNull))) 0)
    as [machines|e] eqn:Hm; [vm_compute in Hm; discriminate|].
  destruct (bad_record_loses_batch demo_ports (FulfilmentStateMachine.init 60) demo_config demo_ticks 0
    (λ _ _ _, Ok (demo_reply JNull)) demo_fields 300 demo_acquire (demo_reply JNull) 0 no_rows []
    no_rows_ok eq_refl demo_acquire_fresh ltac:(vm_compute; discriminate) ltac:(vm_compute; reflexivity) eq_refl eq_refl eq_refl e
    ltac:(discriminate) Hm) as (d' & pub' & row & Hrun & Hmach & _).
  exists e, d', pub'. split; [exact Hrun|]. rewrite Hmach. reflexivity.
Defined.
