(* ===== verification/StatusQuery.v ===== *)
(** * Asking for the status of a request

    [SyncAndGetRequestHandler] and [SyncAndListActiveRequestsHandler] of
    [orb/application/queries/request_query_handlers.py]: a query about a request
    that is not finished first refreshes it from its provider, with the services of
    [Reconciler], [MachineSync] and [StatusService], then ends it when its deadline
    has passed, and answers with a [RequestDTO] ([request_dto_factory.py],
    [application/request/dto.py], [application/machine/result_mapping.py]).  Answers
    about finished requests are kept by [in_memory_cache_service.py].

    Of the [RequestDTO] the fields derived by floating-point arithmetic (duration,
    success rate), the capacity units and the dumped diagnostic are left out. *)

From stdpp Require Import base gmap strings list.
From Stdlib Require Import ZArith Lia.
From S2P Require Import Prelude ListRequests RequestTypes Diagnostic RequestAggregate FulfilmentSM.
From S2P Require Import MachineAggregate StatusService Lifecycle Deprovisioning ReturnMachines.
From S2P Require Import MachineSync Reconciler.
Open Scope Z_scope.

(** ** Answers *)

Inductive ResultStatus := SUCCEED | EXECUTING | FAIL.

#[export] Instance result_status_eq_dec : EqDecision ResultStatus.
Proof. solve_decision. Defined.

Definition result_value (r : ResultStatus) : string :=
  match r with SUCCEED => "succeed" | EXECUTING => "executing" | FAIL => "fail" end.

Definition map_machine_status_to_result (status : string) (request_type : string) : ResultStatus :=
  if request_type ≟ "return" then
    if status ∈? ["terminated"; "stopped"] then SUCCEED
    else if status ∈? ["shutting-down"; "stopping"; "pending"; "terminating"; "running"] then EXECUTING
    else FAIL
  else if status ≟ "running" then SUCCEED
  else if status ∈? ["pending"; "launching"] then EXECUTING
  else if status ∈? ["terminated"; "failed"; "error"] then FAIL
  else EXECUTING.

Record MachineReferenceDTO := mk_reference {
  ref_machine_id : string;
  ref_name : string;
  ref_result : ResultStatus;
  ref_status : string;
  ref_private_ip_address : option string;
  ref_public_ip_address : option string;
  ref_instance_type : option string;
  ref_price_type : option string;
  ref_tags : option (dict string);
  ref_cloud_host_id : option string;
  ref_vpc_id : option string;
  ref_launch_time : Z;
  ref_request_id : option string;
  ref_return_request_id : option string;
  ref_message : string
}.

Record RequestDTO := mk_dto {
  dto_request_id : string;
  dto_status : string;
  dto_template_id : option string;
  dto_requested_count : Z;
  dto_created_at : datetime;
  dto_last_status_check : option datetime;
  dto_first_status_check : option datetime;
  dto_machine_references : list MachineReferenceDTO;
  dto_machine_ids : list string;
  dto_message : string;
  dto_resource_id : option string;
  dto_provider_api : option string;
  dto_provider_name : option string;
  dto_provider_type : option string;
  dto_launch_template_id : option string;
  dto_launch_template_version : option string;
  dto_metadata : dict json;
  dto_request_type : string;
  dto_desired_capacity : Z;
  dto_successful_count : Z;
  dto_failed_count : Z;
  dto_started_at : option datetime;
  dto_completed_at : option datetime;
  dto_error_details : dict json;
  dto_provider_data : dict json;
  dto_version : Z;
  dto_resource_ids : list string;
  dto_error : option (dict json)
}.

(** A field declared [Optional[str]], given a value of a dictionary. *)
Definition optional_text (o : option json) : result (option string) :=
  match o with
  | None | Some JNull => Ok None
  | Some (JStr s) => Ok (Some s)
  | Some _ => Err (ValidationError "Input should be a valid string")
  end.

Definition nonempty_text (s : string) : option string := if s ≟ EmptyString then None else Some s.

Definition reference_of (request : Request.t) (machine : Machine.t) : result MachineReferenceDTO :=
  host ← optional_text (dget "cloud_host_id" (Machine.provider_data machine));
  Ok {| ref_machine_id := Machine.machine_id machine;
        ref_name := Machine.display_name machine;
        ref_result := map_machine_status_to_result (MachineStatus.value (Machine.status machine))
                        (RequestType.value (Request.request_type request));
        ref_status := MachineStatus.value (Machine.status machine);
        ref_private_ip_address := or_opt_str (Machine.private_ip machine) None;
        ref_public_ip_address := Machine.public_ip machine;
        ref_instance_type := nonempty_text (Machine.instance_type machine);
        ref_price_type := Machine.price_type machine;
        ref_tags := match Machine.tags machine with [] => None | tags => Some tags end;
        ref_cloud_host_id := host;
        ref_vpc_id := Machine.vpc_id machine;
        ref_launch_time := match Machine.launch_time machine with
                           | Some t => Z.quot t 1000000 | None => 0 end;
        ref_request_id := Machine.request_id machine;
        ref_return_request_id := Machine.return_request_id machine;
        ref_message := or_str (Machine.status_reason machine) EmptyString |}.

(** [error_details.get("provider_error") or error_details.get("aws_error")], which
    must be a dictionary. *)
Definition error_block (details : dict json) : result (option (dict json)) :=
  match jor (dget_default "provider_error" details JNull) (dget_default "aws_error" details JNull) with
  | JNull => Ok None
  | JDict d => Ok (Some d)
  | _ => Err (ValidationError "Input should be a valid dictionary")
  end.

Definition from_domain (request : Request.t) (references : list MachineReferenceDTO)
  : result RequestDTO :=
  error ← error_block (Request.error_details request);
  template ← optional_text (dget "launch_template_id" (Request.provider_data request));
  template_version ← optional_text (dget "launch_template_version" (Request.provider_data request));
  match Request.created_at request with
  | None => Err (ValidationError "Input should be a valid datetime")
  | Some created =>
      Ok {| dto_request_id := Request.request_id request;
            dto_status := RequestStatus.value (Request.status request);
            dto_template_id := nonempty_text (Request.template_id request);
            dto_requested_count := Request.requested_count request;
            dto_created_at := created;
            dto_last_status_check := Request.last_status_check request;
            dto_first_status_check := Request.first_status_check request;
            dto_machine_references := references;
            dto_machine_ids := Request.machine_ids request;
            dto_message := or_str (Request.status_message request) EmptyString;
            dto_resource_id := Request.resource_id request;
            dto_provider_api := Request.provider_api request;
            dto_provider_name := Request.provider_name request;
            dto_provider_type := Some (Request.provider_type request);
            dto_launch_template_id := template;
            dto_launch_template_version := template_version;
            dto_metadata := Request.metadata request;
            dto_request_type := RequestType.value (Request.request_type request);
            dto_desired_capacity := Request.desired_capacity request;
            dto_successful_count := Request.successful_count request;
            dto_failed_count := Request.failed_count request;
            dto_started_at := Request.started_at request;
            dto_completed_at := Request.completed_at request;
            dto_error_details := Request.error_details request;
            dto_provider_data := Request.provider_data request;
            dto_version := Request.version request;
            dto_resource_ids := Request.resource_ids request;
            dto_error := error |}
  end.

Definition create_from_domain (request : Request.t) (machines : list Machine.t) : result RequestDTO :=
  references ← mapM_result (reference_of request) machines;
  from_domain request references.

(** ** The cache *)

(** Keys with a value and the time it expires, by a clock that only goes forward. *)
Abbreviation cache := (dict (RequestDTO * option Z)).

Definition cache_key (i : string) : string := "request:" +:+ i.

Definition get_cached_request (i : string) (now : Z) (c : cache) : option RequestDTO * cache :=
  match dget (cache_key i) c with
  | None => (None, c)
  | Some (value, Some expiry) =>
      if expiry <? now then (None, dpop (cache_key i) c) else (Some value, c)
  | Some (value, None) => (Some value, c)
  end.

Definition cache_request (default_ttl : option Z) (i : string) (dto : RequestDTO) (now : Z) (c : cache)
  : cache := dset (cache_key i) (dto, (λ ttl, now + ttl) <$> default_ttl) c.

(** ** Ending a request whose deadline has passed *)

Section handlers.
Context (p : sync_ports) (sm : FulfilmentStateMachine.t).
Context (discover : option string → Request.t → result fetch_result).
(* the clock at each attempt of the sweep, and for the sync *)
Context (clock : nat → datetime) (now : datetime).

(** Saved in a unit of work of its own, and announced once that is committed; the
    saved object then has the version that was written. *)
Definition save_swept (loaded swept : Request.t) : action Request.t :=
  events ← repository_save (Request.version loaded) swept;
  _ ← publish events;
  mret (persisted swept (written (Request.version swept) (Some (Request.version loaded)))).

(** [swept is request or swept.status == request.status]. *)
Definition unswept (request : Request.t) (evaluated : Request.t * bool) : bool :=
  negb (snd evaluated) || (Request.status (fst evaluated) ≟ Request.status request).

Definition _MAX_RETRIES : nat := 3.

Fixpoint persist_sweep (n : nat) (attempt : nat) (loaded swept : Request.t) : action Request.t := λ w,
  match n with
  | O => (Ok swept, w)
  | Datatypes.S n' =>
      match save_swept loaded swept w with
      | (Ok saved, w') => (Ok saved, w')
      | (Err e, w') =>
          if is_conflict e then
            match n' with
            | O => (Ok swept, w')
            | _ =>
                (reloaded ← query_request (Request.request_id loaded);
                 if RequestStatus.is_terminal (Request.status reloaded) then mret reloaded
                 else
                   let evaluated := FulfilmentStateMachine.evaluate_deadline reloaded
                                      (clock (Datatypes.S attempt)) in
                   if unswept reloaded evaluated then mret reloaded
                   else persist_sweep n' (Datatypes.S attempt) reloaded (fst evaluated)) w'
            end
          else unless_cancelled swept e w'
      end
  end.

Definition _evaluate_deadline_and_persist (request : Request.t) : action Request.t :=
  if RequestStatus.is_terminal (Request.status request) then mret request
  else
    let evaluated := FulfilmentStateMachine.evaluate_deadline request (clock 0) in
    if unswept request evaluated then mret request
    else persist_sweep (Datatypes.S _MAX_RETRIES) 0 request (fst evaluated).

(** ** One request *)

(** What is at hand when a step raises: the request last read and the machines. *)
Abbreviation at_hand := (Request.t * list Machine.t)%type.
Abbreviation refreshed := ((exn * at_hand) + Request.t)%type.

Definition step {A} (held : at_hand) (m : action A) (k : A → world → refreshed * world)
  : world → refreshed * world := λ w,
  match m w with
  | (Ok a, w') => k a w'
  | (Err e, w') => (inl (e, held), w')
  end.

(** The body of the [try] around the refresh. *)
Definition refresh (request : Request.t) (i : string) : world → refreshed * world :=
  step (request, []) (populate_missing_machine_ids discover request) (λ _,
  step (request, []) (query_request i) (λ request,
  step (request, []) (get_machines_for_request request) (λ machines,
  step (request, machines) (fetch_provider_machines p request machines now) (λ fetched,
  step (request, machines) (conclude sm request machines (fst fetched) (snd fetched) now) (λ _,
  step (request, machines) (query_request i) (λ request,
  step (request, machines) (_evaluate_deadline_and_persist request) (λ request w, (inr request, w)))))))).

Definition reraised (e : exn) : bool :=
  match e with ProviderContractError _ => true | _ => is_cancelled e end.

(** The answer, and whether it may be cached. *)
Definition answer (request : Request.t) (machines : list Machine.t) (cacheable : bool)
  : action (RequestDTO * bool) :=
  dto ← call (create_from_domain request machines); mret (dto, cacheable).

Definition answer_refreshed (request : Request.t) (i : string) : action (RequestDTO * bool) := λ w,
  match refresh request i w with
  | (inl (e, (request, machines)), w') =>
      if reraised e then (Err e, w') else answer request machines false w'
  | (inr request, w') =>
      (machines ← get_machines_for_request request;
       answer request machines (RequestStatus.is_terminal (Request.status request))) w'
  end.

Definition read_through (i : string) (lightweight : bool) : action (RequestDTO * bool) :=
  request ← query_request i;
  if lightweight then
    request ← _evaluate_deadline_and_persist request;
    answer request [] false
  else
    request ← (if Request.awaiting_resources request
               then _evaluate_deadline_and_persist request else mret request);
    if not_stamped request then
      machines ← get_machines_for_request request;
      answer request machines false
    else answer_refreshed request i.

Record SyncAndGetRequestQuery := mk_query {
  sq_request_id : string;
  sq_lightweight : bool;
  sq_skip_cache : bool
}.

Context (default_ttl : option Z).

(** [t0] is when the cache is asked, [t1] when the answer is put there. *)
Definition execute_query (q : SyncAndGetRequestQuery) (t0 t1 : Z) (c : cache) (w : world)
  : result RequestDTO * cache * world :=
  let i := sq_request_id q in
  let '(hit, c1) := if sq_skip_cache q then (None, c) else get_cached_request i t0 c in
  match hit with
  | Some dto => (Ok dto, c1, w)
  | None =>
      match read_through i (sq_lightweight q) w with
      | (Ok (dto, cacheable), w') =>
          (Ok dto, if cacheable then cache_request default_ttl i dto t1 c1 else c1, w')
      | (Err e, w') => (Err e, c1, w')
      end
  end.

(** ** The requests in flight *)

Record SyncAndListActiveRequestsQuery := mk_active_query {
  aq_provider_name : option string;
  aq_provider_type : option string;
  aq_template_id : option string;
  aq_all_resources : bool;
  aq_limit : option Z;
  aq_offset : option Z
}.

(* how long stored state counts as recent, in microseconds *)
Context (staleness_window : Z).

Definition _do_sync (request : Request.t) : action unit :=
  _ ← populate_missing_machine_ids discover request;
  request ← query_request (Request.request_id request);
  machines ← get_machines_for_request request;
  '(fetched, pm) ← fetch_provider_machines p request machines now;
  conclude sm request machines fetched pm now.

(** Failures and time-outs are logged; the stored state is answered. *)
Definition _sync_one (request : Request.t) (w : world) : world :=
  if Request.awaiting_resources request then (sweep_deadline request now w).2
  else if is_recently_synced request staleness_window now then w
  else (_do_sync request w).2.

Definition active_statuses : list RequestStatus.t := [RequestStatus.PENDING; RequestStatus.IN_PROGRESS].

(** [x or dflt] of an optional number. *)
Definition or_int (o : option Z) (dflt : Z) : Z :=
  match o with Some z => if z =? 0 then dflt else z | None => dflt end.

Definition same_text (o : option string) (v : option string) : bool :=
  negb (str_truthy o) || (v ≟ o).

Definition find_all (d : db) : list Request.t := (map_to_list (db_requests d)).*2.

(** The page, and the number of requests it was cut from. *)
Definition active_page (q : SyncAndListActiveRequestsQuery) (d : db) : list Request.t * Z :=
  let requests := if aq_all_resources q then find_all d
                  else List.filter (λ r, Request.status r ∈? active_statuses) (find_all d) in
  let requests := if str_truthy (aq_template_id q)
                  then List.filter (λ r, Some (Request.template_id r) ≟ aq_template_id q) requests
                  else requests in
  let limit := Z.min (or_int (aq_limit q) 50) 1000 in
  let offset := or_int (aq_offset q) 0 in
  (* [requests[offset : offset + limit]] *)
  (slice requests offset (offset + limit), Z.of_nat (length requests)).

Definition dto_of (request : Request.t) : action RequestDTO :=
  request ← query_request (Request.request_id request);
  machines ← get_machines_for_request request;
  call (create_from_domain request machines).

Fixpoint dtos_of (requests : list Request.t) : action (list RequestDTO) :=
  match requests with
  | [] => mret []
  | r :: rs => dto ← dto_of r; dtos ← dtos_of rs; mret (dto :: dtos)
  end.

Definition list_active (q : SyncAndListActiveRequestsQuery) : action (list RequestDTO * Z) := λ w,
  match unit_of_work (λ d, Ok (active_page q d, d)) w with
  | (Err e, w') => (Err e, w')
  | (Ok (requests, total_count), w') =>
      (dtos ← dtos_of requests;
       let dtos := List.filter (λ d, same_text (aq_provider_name q) (dto_provider_name d)) dtos in
       let dtos := List.filter (λ d, same_text (aq_provider_type q) (dto_provider_type d)) dtos in
       mret (dtos, total_count)) (foldl (λ w r, _sync_one r w) w' requests)
  end.
End handlers.

(** ** Lemmas: what a query keeps *)

Lemma deadline_transition_id r now : Request.request_id (deadline_transition r now) = Request.request_id r.
Proof. apply mutates_id. left. apply deadline_transition_mutates. Qed.

Lemma unswept_spec r now :
  unswept r (FulfilmentStateMachine.evaluate_deadline r now) = negb (expired r now).
Proof.
  rewrite evaluate_deadline_eq. destruct (expired r now) eqn:He; [|done].
  unfold unswept. cbn [fst snd negb orb]. apply bool_decide_eq_false. intros Hs.
  pose proof (deadline_transition_terminal r now) as Ht. rewrite Hs in Ht.
  pose proof (sweepable_not_terminal _ (expired_status _ _ He)). congruence.
Qed.

Lemma swept_eq r now :
  expired r now = true → fst (FulfilmentStateMachine.evaluate_deadline r now) = deadline_transition r now.
Proof. intros He. by rewrite evaluate_deadline_eq, He. Qed.

(** The action leaves nothing of the rest of the system's doing that was not there. *)
Definition calm {A} (m : action A) : Prop :=
  ∀ (P : interference → Prop) w, Forall P (w_env w) → Forall P (w_env (m w).2).

Lemma calm_nil {A} (m : action A) w : calm m → w_env w = [] → w_env (m w).2 = [].
Proof.
  intros Hm Hw. pose proof (Hm (λ _, False) w) as H. rewrite Hw in H. specialize (H (Forall_nil_2 _)).
  by destruct H.
Qed.

Section calm.
Context {A : Type}.
Lemma calm_ret (a : A) : calm (mret a).
Proof. by intros P w. Qed.
Lemma calm_raise (e : exn) : calm (raise e : action A).
Proof. by intros P w. Qed.
Lemma calm_call (r : result A) : calm (call r).
Proof. by intros P w. Qed.
Lemma calm_bind {B} (m : action B) (f : B → action A) : calm m → (∀ b, calm (f b)) → calm (m ≫= f).
Proof.
  intros Hm Hf P w Hw. unfold mbind, action_bind. specialize (Hm P w Hw).
  destruct (m w) as [[b|e] w']; [by apply Hf|done].
Qed.
Lemma calm_try (m : action A) h : calm m → (∀ e, calm (h e)) → calm (try_except m h).
Proof.
  intros Hm Hh P w Hw. unfold try_except. specialize (Hm P w Hw).
  destruct (m w) as [[a|e] w']; [done|by apply Hh].
Qed.
Lemma calm_unit (body : db → result (A * db)) : calm (unit_of_work body).
Proof.
  intros P w Hw.
  assert (Forall P (w_env (after_encounters 1 w))) as Hw1 by (destruct w as [d env ev]; cbn in Hw |- *; by destruct Hw; cbn).
  destruct (unit_of_work_cases body w) as [(e & _ & ->)|[_ ->]]; [done|].
  by destruct (body _) as [[a d']|e].
Qed.
Lemma calm_attempts n k (ft : A) body : (∀ k, calm (body k)) → calm (attempts n k ft body).
Proof.
  intros Hb. revert k. induction n as [|n IH]; intros k P w Hw; [done|]. cbn [attempts].
  specialize (Hb k P w Hw). destruct (body k w) as [[a|[]] w']; try done. destruct n; [done|by apply IH].
Qed.
End calm.

Create HintDb calm.
#[local] Hint Resolve calm_ret calm_raise calm_call calm_unit : calm.
#[local] Hint Extern 2 (calm (_ ≫= _)) => apply calm_bind : calm.
#[local] Hint Extern 2 (calm (try_except _ _)) => apply calm_try : calm.
#[local] Hint Extern 2 (calm (attempts _ _ _ _)) => apply calm_attempts : calm.

Lemma unless_cancelled_calm {A} (a : A) e : calm (unless_cancelled a e).
Proof. unfold unless_cancelled. destruct (is_cancelled e); auto with calm. Qed.
Lemma unless_conflict_calm {A} (a : A) e : calm (unless_conflict a e).
Proof. unfold unless_conflict. destruct (is_conflict e); auto with calm. Qed.
#[local] Hint Resolve unless_cancelled_calm unless_conflict_calm : calm.

Lemma coordinates_calm ids : calm (load_machine_coordinates ids).
Proof. destruct ids; cbn [load_machine_coordinates]; auto with calm. Qed.
#[local] Hint Resolve coordinates_calm : calm.

Lemma query_calm i : calm (query_request i).
Proof. apply calm_unit. Qed.
Lemma machines_query_calm r : calm (get_machines_for_request r).
Proof. apply calm_try; auto with calm. Qed.
#[local] Hint Resolve query_calm machines_query_calm : calm.

Lemma populate_calm discover r : calm (populate_missing_machine_ids discover r).
Proof.
  unfold populate_missing_machine_ids. destruct (Request.needs_machine_id_population r); [|auto with calm].
  apply calm_try; [|auto with calm]. unfold populate_command. apply calm_bind; [auto with calm|].
  intros rid. apply calm_bind; [auto with calm|]. intros [r'|]; [|auto with calm].
  destruct (negb _); [auto with calm|]. apply calm_bind.
  - unfold _discover_machine_ids. apply calm_try; [|auto with calm].
    destruct (Request.is_nil _); auto with calm.
  - intros [|i ids]; auto with calm.
Qed.

Lemma fetch_calm p request dbm now : calm (fetch_provider_machines p request dbm now).
Proof.
  apply calm_try; [|auto with calm]. apply calm_bind.
  - unfold choose_operation. repeat case_match; auto with calm.
  - intros [op|]; [|auto with calm]. apply calm_bind; [auto with calm|]. intros _.
    destruct (sp_execute p); [|auto with calm]. apply calm_bind; [auto with calm|].
    intros a. destruct (fr_success a), (fr_data a); auto with calm.
Qed.

Lemma sync_calm request dbm f now : calm (sync_machines_with_provider request dbm f now).
Proof.
  apply calm_try; [|auto with calm]. apply calm_bind.
  - generalize (slot_of (by_id dbm) <$> match f with Fetched ms | FailedProviderFetch ms => ms end).
    intros slots. induction slots as [|s slots IH]; cbn [write_slots]; [auto with calm|].
    apply calm_bind; [|auto with calm]. destruct s; cbn [write_slot]; [auto with calm|].
    unfold _write_machine. auto with calm.
  - intros ms. destruct f; [|auto with calm]. apply calm_bind; [|auto with calm].
    apply calm_try; [|auto with calm]. unfold _stamp_status_check. auto with calm.
Qed.

Lemma conclude_calm sm request dbm f pm now : calm (conclude sm request dbm f pm now).
Proof.
  unfold conclude. apply calm_bind; [apply sync_calm|]. intros ms.
  apply calm_bind; [auto with calm|]. intros [st msg]. destruct (str_truthy st); [|auto with calm].
  apply calm_bind; [|auto with calm]. unfold write_status. destruct (_ && _); [auto with calm|].
  unfold write_request. auto with calm.
Qed.

(** Another writer keeps the request, and raises its version when it changes it. *)
Definition disciplined (rid : string) (f : interference) : Prop :=
  ∀ d r, db_ok d → get_request d rid = Some r →
    ∃ r', get_request (f d).2 rid = Some r' ∧ (r' = r ∨ Request.version r < Request.version r').

Section keeps.
Context (J : db → Prop) (rid : string).
Context (HJok : ∀ d, J d → db_ok d) (Hstep : ∀ d d', reconcile_step rid d d' → J d → J d').
(* the stored request, ended by its deadline *)
Context (Hsweep : ∀ loaded d now,
  J d → get_request d rid = Some loaded → expired loaded now = true →
  J (save_request (Some (Request.version loaded)) (deadline_transition loaded now) d)).
Context (p : sync_ports) (sm : FulfilmentStateMachine.t).
Context (discover : option string → Request.t → result fetch_result).
Context (clock : nat → datetime) (now : datetime).

(** The store is as it should be, and so are the other writers. *)
Definition live (w : world) : Prop := stable J w ∧ Forall (disciplined rid) (w_env w).

(** [r] was read from the store: it is still there, or a later version is. *)
Definition read_from (r : Request.t) (w : world) : Prop :=
  Request.request_id r = rid ∧
  ∃ cur, get_request (w_db w) rid = Some cur ∧ (cur = r ∨ Request.version r < Request.version cur).

Lemma live_action {A} (m : action A) w : preserves J m → calm m → live w → live (m w).2.
Proof. clear. intros Hp Hc [Hj Hd]. split; [by apply Hp|by apply Hc]. Qed.

Lemma live_encounter w : live w → live (after_encounters 1 w).
Proof.
  clear. intros [Hj Hd]. split; [by apply stable_encounter|]. destruct w as [d env ev]. cbn in Hd |- *. by destruct Hd; cbn.
Qed.

Lemma read_encounter r w : live w → read_from r w → read_from r (after_encounters 1 w).
Proof.
  clear Hstep Hsweep. intros [[Hj _] Hd] (Hid & cur & Hg & Hc). split; [done|].
  destruct w as [d env ev]. cbn in *. destruct Hd as [|f env Hf Hd]; [by exists cur|]. cbn.
  destruct (Hf d cur (HJok _ Hj) Hg) as (cur' & Hg' & Hc'). exists cur'. split; [done|].
  destruct Hc as [->|Hc], Hc' as [->|Hc']; auto; right; lia.
Qed.

Lemma query_preserves i : preserves J (query_request i).
Proof.
  clear. apply preserves_unit. intros d a d' H. apply result_bind_Ok in H as (o & _ & H).
  destruct o; [by injection H as _ <-|done].
Qed.

Lemma query_live w : live w → live (query_request rid w).2.
Proof. apply live_action; [apply query_preserves|apply query_calm]. Qed.

Lemma query_reads w r w' : live w → query_request rid w = (Ok r, w') → read_from r w'.
Proof.
  clear Hstep Hsweep. intros Hw H. apply live_encounter in Hw as [[Hd _] _].
  apply unit_of_work_Ok in H as (d' & Hb & ->). apply result_bind_Ok in Hb as (o & Ho & Hb).
  apply find_request_Ok in Ho as ->.
  destruct (get_request _ rid) as [r'|] eqn:Hg; [|done]. injection Hb as -> <-.
  split; [by apply (proj1 (HJok _ Hd))|]. exists r. split; [exact Hg|by left].
Qed.

Lemma save_swept_live loaded t w :
  live w → read_from loaded w → expired loaded t = true →
  live (save_swept loaded (deadline_transition loaded t) w).2.
Proof.
  clear Hstep. intros Hw Hr He. apply (read_encounter _ _ Hw) in Hr as (Hid & cur & Hg & Hc).
  assert (live (after_encounters 1 w)) as Hw1 by (by apply live_encounter).
  unfold save_swept, repository_save, mbind at 1, action_bind at 1.
  match goal with |- context [unit_of_work ?b w] =>
    destruct (unit_of_work_cases b w) as [(e & _ & ->)|[_ ->]]; [done|] end.
  rewrite deadline_transition_id, Hid, Hg.
  destruct (Z.eqb_spec (Request.version cur) (Request.version loaded)) as [Hv|]; [|done].
  assert (cur = loaded) as -> by (destruct Hc; [done|lia]).
  destruct Hw1 as [[Hj Hst] Hd]. split; [split|done]; [|exact Hst]. by apply Hsweep.
Qed.

Lemma persist_live n attempt loaded t w :
  live w → read_from loaded w → expired loaded t = true →
  live (persist_sweep clock n attempt loaded (deadline_transition loaded t) w).2.
Proof.
  clear Hstep. revert attempt loaded t w. induction n as [|n IH]; intros attempt loaded t w Hw Hr He; [done|].
  cbn [persist_sweep]. pose proof (save_swept_live loaded t w Hw Hr He) as Hw1.
  destruct (save_swept _ _ w) as [[saved|e] w1]; [done|]. cbn [snd] in Hw1.
  destruct (is_conflict e).
  2:{ by apply live_action; [apply unless_cancelled_preserves|apply unless_cancelled_calm|]. }
  destruct n as [|n']; [done|]. set (n := Datatypes.S n') in *. rewrite (proj1 Hr).
  unfold mbind, action_bind. pose proof (query_live w1 Hw1) as Hw2.
  destruct (query_request rid w1) as [[r|e'] w2] eqn:Hq; [|done].
  apply query_reads in Hq; [|done]. destruct (RequestStatus.is_terminal _); [done|].
  rewrite unswept_spec. destruct (expired r _) eqn:He'; cbn [negb]; [|done].
  rewrite swept_eq by done. by apply IH.
Qed.

Lemma sweep_live request w :
  live w → read_from request w → live (_evaluate_deadline_and_persist clock request w).2.
Proof.
  clear Hstep. intros Hw Hr. unfold _evaluate_deadline_and_persist.
  destruct (RequestStatus.is_terminal _); [done|]. rewrite unswept_spec.
  destruct (expired request _) eqn:He; cbn [negb]; [|done].
  rewrite swept_eq by done. by apply persist_live.
Qed.

Lemma step_live {A} (Q : A → world → Prop) held (m : action A) k w :
  live (m w).2 → (∀ a w', m w = (Ok a, w') → Q a w') →
  (∀ a w', live w' → Q a w' → live (k a w').2) → live (step held m k w).2.
Proof.
  clear. intros Hm HQ Hk. unfold step. destruct (m w) as [[a|e] w'] eqn:H; [|done]. eapply Hk; eauto.
Qed.

Lemma refresh_live request w :
  Request.request_id request = rid → live w → live (refresh p sm discover clock now request rid w).2.
Proof.
  intros Hid Hw. unfold refresh.
  apply (step_live (λ _ _, True)); [|done|]; intros.
  { apply live_action; [by apply (populate_preserves J rid)|apply populate_calm|done]. }
  apply (step_live read_from); [by apply query_live|by intros; eapply query_reads|]. intros r w1 Hw1 Hr.
  apply (step_live (λ _ _, True)); [|done|].
  { by apply live_action; [apply machines_query_preserves|apply machines_query_calm|]. }
  intros ms w2 Hw2 _. apply (step_live (λ _ _, True)); [|done|].
  { by apply live_action; [apply fetch_preserves|apply fetch_calm|]. }
  intros [f pm] w3 Hw3 _. apply (step_live (λ _ _, True)); [|done|].
  { apply live_action; [|apply conclude_calm|done]. by apply (conclude_preserves J rid); [|apply Hr]. }
  intros _ w4 Hw4 _.
  apply (step_live read_from); [by apply query_live|by intros; eapply query_reads|]. intros r' w5 Hw5 Hr'.
  by apply (step_live (λ _ _, True)); [by apply sweep_live|done|].
Qed.

Lemma answer_preserves request machines b : preserves J (answer request machines b).
Proof. unfold answer. auto with preserves. Qed.
Lemma answer_calm request machines b : calm (answer request machines b).
Proof. unfold answer. auto with calm. Qed.
Lemma answer_live request machines b w : live w → live (answer request machines b w).2.
Proof. apply live_action; [apply answer_preserves|apply answer_calm]. Qed.

Lemma listed_live request b w :
  live w → live ((machines ← get_machines_for_request request; answer request machines b) w).2.
Proof.
  apply live_action.
  - apply preserves_bind; [apply machines_query_preserves|intros; apply answer_preserves].
  - apply calm_bind; [apply machines_query_calm|intros; apply answer_calm].
Qed.

Lemma persist_id n attempt loaded t w r w' :
  live w → read_from loaded w → expired loaded t = true →
  persist_sweep clock n attempt loaded (deadline_transition loaded t) w = (Ok r, w') →
  Request.request_id r = rid.
Proof.
  clear Hstep. revert attempt loaded t w. induction n as [|n IH]; intros attempt loaded t w Hw Hr He;
    pose proof (proj1 Hr) as Hid.
  { intros [= <- _]. by rewrite deadline_transition_id. }
  cbn [persist_sweep]. pose proof (save_swept_live loaded t w Hw Hr He) as Hw1.
  destruct (save_swept _ _ w) as [[saved|e] w1] eqn:Hsave.
  { intros [= <- _]. apply action_bind_Ok in Hsave as (ev & w2 & _ & Hsave).
    apply action_bind_Ok in Hsave as (u & w3 & _ & [= <- _]).
    change (Request.request_id (deadline_transition loaded t) = rid). by rewrite deadline_transition_id. }
  cbn [snd] in Hw1. destruct (is_conflict e).
  2:{ unfold unless_cancelled. destruct (is_cancelled e); [done|]. intros [= <- _].
      by rewrite deadline_transition_id. }
  destruct n as [|n']; [intros [= <- _]; by rewrite deadline_transition_id|].
  set (n := Datatypes.S n') in *. rewrite Hid. intros H. apply action_bind_Ok in H as (r0 & w2 & Hq & H).
  pose proof (query_live w1 Hw1) as Hw2. rewrite Hq in Hw2. apply query_reads in Hq; [|done].
  destruct (RequestStatus.is_terminal _); [injection H as <- _; apply Hq|].
  rewrite unswept_spec in H. destruct (expired r0 _) eqn:He'; cbn [negb] in H.
  - rewrite swept_eq in H by done. by eapply IH.
  - injection H as <- _. apply Hq.
Qed.

Lemma sweep_id request w r w' :
  live w → read_from request w → _evaluate_deadline_and_persist clock request w = (Ok r, w') →
  Request.request_id r = rid.
Proof.
  clear Hstep. intros Hw Hr. unfold _evaluate_deadline_and_persist.
  destruct (RequestStatus.is_terminal _); [intros [= <- _]; apply Hr|].
  rewrite unswept_spec. destruct (expired request _) eqn:He; cbn [negb].
  - rewrite swept_eq by done. by eapply persist_id.
  - intros [= <- _]. apply Hr.
Qed.

(** The end of a full query. *)
Lemma answered_live r w :
  Request.request_id r = rid → live w →
  live ((if not_stamped r then machines ← get_machines_for_request r; answer r machines false
         else answer_refreshed p sm discover clock now r rid) w).2.
Proof.
  intros Hr Hw. destruct (not_stamped r); [by apply listed_live|]. unfold answer_refreshed.
  pose proof (refresh_live r w Hr Hw) as Hw3.
  destruct (refresh _ _ _ _ _ _ _ w) as [[[e [r' ms]]|r'] w3]; cbn [snd] in Hw3.
  - destruct (reraised e); [done|by apply answer_live].
  - by apply listed_live.
Qed.

Lemma read_through_live lightweight w :
  live w → live (read_through p sm discover clock now rid lightweight w).2.
Proof.
  intros Hw. unfold read_through. unfold mbind at 1, action_bind at 1.
  pose proof (query_live w Hw) as Hw1. destruct (query_request rid w) as [[request|e] w1] eqn:Hq; [|done].
  apply query_reads in Hq; [|done]. cbn [snd] in Hw1. pose proof (sweep_live request w1 Hw1 Hq) as Hs.
  destruct lightweight; unfold mbind at 1, action_bind at 1.
  { destruct (_evaluate_deadline_and_persist clock request w1) as [[r|e] w2]; [by apply answer_live|done]. }
  destruct (Request.awaiting_resources request).
  - destruct (_evaluate_deadline_and_persist clock request w1) as [[r|e] w2] eqn:Hm; [|done].
    apply answered_live; [exact (sweep_id request w1 r w2 Hw1 Hq Hm)|done].
  - apply answered_live; [apply Hq|done].
Qed.
End keeps.

(** A query keeps what every change to one request, and every deadline outcome of
    that request as it is stored, keeps. *)
Lemma query_carries p sm discover clock now ttl q t0 t1 c w r c' w' (K : db → Prop) :
  execute_query p sm discover clock now ttl q t0 t1 c w = (r, c', w') → world_ok w →
  Forall (disciplined (sq_request_id q)) (w_env w) →
  (∀ d d', reconcile_step (sq_request_id q) d d' → db_ok d → K d → K d') →
  (∀ loaded d t, db_ok d → K d → get_request d (sq_request_id q) = Some loaded → expired loaded t = true →
     K (save_request (Some (Request.version loaded)) (deadline_transition loaded t) d)) →
  stable K w → K (w_db w').
Proof.
  intros H Hok Hdis Hstep Hsweep HK. unfold execute_query in H. set (i := sq_request_id q) in *.
  destruct (if sq_skip_cache q then _ else _) as [[dto|] c1]; [by injection H as _ _ <-; destruct HK|].
  destruct (read_through_live (λ d, db_ok d ∧ K d) i) with (p := p) (sm := sm) (discover := discover)
    (clock := clock) (now := now) (lightweight := sq_lightweight q) (w := w) as [[[_ Hk] _] _].
  - by intros d [].
  - intros d d' Hd [Hdb Hk]. split; [by eapply reconcile_step_ok|by eapply Hstep].
  - intros loaded d t [Hdb Hk] Hl He. split; [by apply save_request_ok|by apply Hsweep].
  - split; [by apply stable_and|done].
  - destruct (read_through _ _ _ _ _ _ _ w) as [[[dto b]|e] w1]; by injection H as _ _ <-.
Qed.

(** ** Lemmas: the steps of a query *)

(** A change that keeps who every machine belongs to and every other request, and
    moves the request along the transition table. *)
Definition harmless (rid : string) (d d' : db) : Prop :=
  (∀ i m, get_machine d i = Some m → ∃ m', get_machine d' i = Some m' ∧ ownership m' = ownership m) ∧
  (∀ i, i ≠ rid → get_request d' i = get_request d i) ∧
  match get_request d rid with
  | None => get_request d' rid = None
  | Some r => ∃ r', get_request d' rid = Some r' ∧
                    RequestStatus.can_transition_to (Request.status r) (Request.status r') = true
  end.

(** A save of the request that follows the table is harmless. *)
Lemma save_harmless rid e cur u d :
  db_ok d → get_request d rid = Some cur → Request.request_id u = rid →
  RequestStatus.can_transition_to (Request.status cur) (Request.status u) = true →
  harmless rid d (save_request e u d).
Proof.
  intros Hok Hg Hid Ht. split; [|split].
  - intros i m Hm. by exists m.
  - intros i Hi. rewrite get_request_save, decide_False by congruence. done.
  - rewrite Hg, get_request_save, decide_True by done. by eexists.
Qed.

Lemma sync_step_harmless rid now dbm ps d d' :
  db_ok d → sync_step rid now dbm ps d d' → harmless rid d d'.
Proof.
  intros Hok Hs. assert (∀ i m, get_machine d i = Some m →
    ∃ m', get_machine d' i = Some m' ∧ ownership m' = ownership m) as Hown.
  { intros i m Hm. destruct (sync_step_owned Hs Hok i (ownership m)) as (m' & Hm' & Ho);
      [by exists m|by exists m']. }
  destruct Hs as [q cur d _ _|q d _ _ _|cur d Hg _ _].
  1,2: split; [done|]; split; [done|]; rewrite get_request_save_machine;
    destruct (get_request d rid) as [r|]; [|done]; exists r; split; [done|apply can_transition_refl].
  eapply save_harmless; [done|done| |].
  - by apply (proj1 Hok) in Hg.
  - apply can_transition_refl.
Qed.

Lemma reconcile_step_harmless rid d d' : db_ok d → reconcile_step rid d d' → harmless rid d d'.
Proof.
  intros Hok Hstep. destruct Hstep as [now dbm ps d1 d1' Hs|cur u d1 Hg Hid Ht]; [by eapply sync_step_harmless|].
  eapply save_harmless; [done|done| |exact Ht]. cbn. rewrite Hid. by apply (proj1 Hok) in Hg.
Qed.

Lemma sweep_harmless rid loaded t d :
  db_ok d → get_request d rid = Some loaded → expired loaded t = true →
  harmless rid d (save_request (Some (Request.version loaded)) (deadline_transition loaded t) d).
Proof.
  intros Hok Hg He. eapply save_harmless; [done|done| |].
  - rewrite deadline_transition_id. by apply (proj1 Hok) in Hg.
  - rewrite deadline_transition_status. by apply deadline_outcome_allowed, (expired_status loaded t).
Qed.

Lemma sweep_keeps_settled rid i s loaded t d :
  db_ok d → get_request d rid = Some loaded → expired loaded t = true →
  RequestStatus.is_terminal s = true → has_status i s d →
  has_status i s (save_request (Some (Request.version loaded)) (deadline_transition loaded t) d).
Proof.
  intros Hok Hl He Hs (r & Hr & Hst). unfold has_status.
  rewrite get_request_save, deadline_transition_id, (proj1 Hok _ _ Hl).
  case_decide as Hi; [|eauto]. subst i. rewrite Hl in Hr. injection Hr as ->.
  apply expired_status, sweepable_not_terminal in He. congruence.
Qed.

(** ** Lemmas: nobody else at work *)

Lemma create_from_domain_Ok r machines dto :
  create_from_domain r machines = Ok dto →
  dto_request_id dto = Request.request_id r ∧ dto_status dto = RequestStatus.value (Request.status r).
Proof.
  intros H. apply result_bind_Ok in H as (refs & _ & H). apply result_bind_Ok in H as (e & _ & H).
  apply result_bind_Ok in H as (t & _ & H). apply result_bind_Ok in H as (v & _ & H).
  destruct (Request.created_at r); [|done]. by injection H as <-.
Qed.

(** The store is in order and no one else works on it. *)
Definition undisturbed (w : world) : Prop := stable db_ok w ∧ w_env w = [].

Lemma undisturbed_after {A} (m : action A) w :
  preserves db_ok m → calm m → undisturbed w → undisturbed (m w).2.
Proof. intros Hp Hc [Hs He]. split; [by apply Hp|by apply calm_nil]. Qed.

Lemma stable_undisturbed (K : db → Prop) w : w_env w = [] → K (w_db w) → stable K w.
Proof. intros He Hk. split; [done|]. rewrite He. constructor. Qed.

Section undisturbed.
Context (rid : string) (p : sync_ports) (sm : FulfilmentStateMachine.t).
Context (discover : option string → Request.t → result fetch_result).
Context (clock : nat → datetime) (now : datetime).

Let keeps_ok d d' : reconcile_step rid d d' → db_ok d → db_ok d' := reconcile_step_ok.

Lemma query_found w r w' :
  undisturbed w → query_request rid w = (Ok r, w') →
  RequestId._is_valid_format rid = true ∧ get_request (w_db w') rid = Some r ∧ w' = w.
Proof.
  clear. destruct w as [d env ev]. intros [_ He]. cbn in He. subst env. unfold query_request.
  rewrite unit_of_work_quiet. unfold find_request, RequestId.make.
  destruct (RequestId._is_valid_format rid); [|done]. cbn [mbind result_bind].
  destruct (get_request d rid) eqn:Hg; [|done]. by intros [= <- <-].
Qed.

Lemma query_succeeds w :
  undisturbed w → RequestId._is_valid_format rid = true → is_Some (get_request (w_db w) rid) →
  ∃ r, query_request rid w = (Ok r, w).
Proof.
  clear. destruct w as [d env ev]. intros [_ He] Hf [r Hr]. cbn in He, Hr. subst env. exists r.
  unfold query_request. rewrite unit_of_work_quiet. unfold find_request, RequestId.make.
  rewrite Hf. cbn [mbind result_bind]. by rewrite Hr.
Qed.

Lemma sweep_undisturbed r w :
  undisturbed w → get_request (w_db w) rid = Some r →
  ∃ r' w', _evaluate_deadline_and_persist clock r w = (Ok r', w') ∧
    undisturbed w' ∧ get_request (w_db w') rid = Some r' ∧
    if expired r (clock 0) then Request.status r' = (FulfilmentStateMachine.deadline_outcome r (clock 0)).1.1
    else r' = r ∧ w' = w.
Proof.
  clear keeps_ok. destruct w as [d env ev]. intros [[Hok _] He] Hr. cbn in He, Hok, Hr. subst env.
  unfold _evaluate_deadline_and_persist. rewrite unswept_spec.
  destruct (expired r (clock 0)) eqn:Hx; cbn [negb].
  2:{ destruct (RequestStatus.is_terminal _); exists r, (quiet d ev); (split; [done|]);
        (split; [by split; [apply stable_undisturbed|]|done]). }
  rewrite (sweepable_not_terminal _ (expired_status _ _ Hx)), swept_eq by done.
  cbn [persist_sweep]. unfold save_swept, repository_save. unfold mbind at 1, action_bind at 1.
  rewrite unit_of_work_quiet, deadline_transition_id, (proj1 Hok _ _ Hr), Hr, Z.eqb_refl.
  set (u := deadline_transition r (clock 0)).
  exists (persisted u (written (Request.version u) (Some (Request.version r)))),
    (quiet (save_request (Some (Request.version r)) u d) (ev ++ Request.domain_events u)).
  split; [done|]. split; [|split].
  - split; [|done]. apply stable_undisturbed; [done|]. by apply save_request_ok.
  - cbn [w_db]. rewrite get_request_save, decide_True; [done|].
    rewrite <-(proj1 Hok _ _ Hr). apply deadline_transition_id.
  - apply deadline_transition_status.
Qed.

Lemma step_inr {A} held (m : action A) k w r w' :
  step held m k w = (inr r, w') → ∃ a w1, m w = (Ok a, w1) ∧ k a w1 = (inr r, w').
Proof. clear. unfold step. destruct (m w) as [[a|e] w1]; [eauto|done]. Qed.

Lemma step_inl {A} held (m : action A) k w e h w' :
  step held m k w = (inl (e, h), w') →
  (m w = (Err e, w') ∧ h = held) ∨ ∃ a w1, m w = (Ok a, w1) ∧ k a w1 = (inl (e, h), w').
Proof. clear. unfold step. destruct (m w) as [[a|e'] w1]; [eauto|]. intros [= -> <- ->]. by left. Qed.

Lemma try_raises {A} (m : action A) a w e w' :
  try_except m (unless_cancelled a) w = (Err e, w') → reraised e = true.
Proof.
  clear. unfold try_except. destruct (m w) as [[b|e'] w1]; [done|].
  unfold unless_cancelled. destruct (is_cancelled e') eqn:Hc; [|done]. intros [= <- _]. by destruct e'.
Qed.

Lemma populate_raises request w e w' :
  populate_missing_machine_ids discover request w = (Err e, w') → reraised e = true.
Proof.
  clear. unfold populate_missing_machine_ids.
  destruct (Request.needs_machine_id_population request); [apply try_raises|done].
Qed.

Lemma machines_query_total request w : ∃ ms w', get_machines_for_request request w = (Ok ms, w').
Proof.
  clear. unfold get_machines_for_request, try_except. destruct (unit_of_work _ w) as [[ms|e] w']; eauto.
Qed.

Lemma attempts_raise_stable I {A} n k (ft : A) (body : db → result (A * db)) w e w' :
  stable I w → attempts n k ft (λ _, unit_of_work body) w = (Err e, w') → stable I w'.
Proof.
  clear. revert k w. induction n as [|n IH]; intros k w Hw; [done|]. cbn [attempts].
  assert (He : ∀ e1 w1, unit_of_work body w = (Err e1, w1) → stable I w1).
  { intros e1 w1 Hu. apply stable_encounter in Hw as [Hd Ht].
    destruct (unit_of_work_cases body w) as [(e2 & _ & H)|[_ H]]; rewrite H in Hu.
    - by injection Hu as _ <-.
    - destruct (body _) as [[a d']|e2]; [done|]. by injection Hu as _ <-. }
  destruct (unit_of_work body w) as [[a|e1] w1] eqn:Hu; [done|]. specialize (He _ _ eq_refl).
  destruct e1; try (intros [= _ <-]; done). destruct n as [|n']; [by intros [= _ <-]|].
  by apply IH.
Qed.

(** A refresh that fails has not changed the status. *)
Lemma conclude_raises s request dbm f pm w e w' :
  Request.request_id request = rid → stable (has_status rid s) w →
  conclude sm request dbm f pm now w = (Err e, w') → stable (has_status rid s) w'.
Proof.
  clear keeps_ok. intros Hid Hw. unfold conclude, mbind, action_bind.
  assert (Hs : preserves (has_status rid s) (sync_machines_with_provider request dbm f now)).
  { apply sync_preserves. rewrite Hid. intros d d' Hd (r & Hr & Hst).
    destruct Hd as [| |cur d Hcur _ _]; [by exists r|by exists r|].
    rewrite Hr in Hcur. injection Hcur as <-. unfold has_status. rewrite get_request_save.
    case_decide; [|by exists r]. by eexists. }
  specialize (Hs w Hw). destruct (sync_machines_with_provider _ _ _ _ w) as [[ms|e1] w1];
    [|intros [= _ <-]; done]. cbn [snd] in Hs.
  unfold call. destruct (determine_status_from_machines _ _ _ _) as [[st msg]|e1]; [|intros [= _ <-]; done].
  destruct (str_truthy st); [|done]. unfold write_status. destruct (_ && _); [done|].
  destruct (write_request _ _ w1) as [[r|e1] w2] eqn:Hwr; [done|]. intros [= _ <-].
  by eapply attempts_raise_stable.
Qed.

Lemma present_kept d d' :
  reconcile_step rid d d' → is_Some (get_request d rid) → is_Some (get_request d' rid).
Proof.
  clear. intros Hs [r Hr].
  assert (Hsave : ∀ e u d, is_Some (get_request d rid) → is_Some (get_request (save_request e u d) rid)).
  { intros e u d0 H. rewrite get_request_save. by case_decide. }
  destruct Hs as [now dbm ps d d' [| |]|]; try (by exists r); apply Hsave; by exists r.
Qed.

Definition steady (w : world) : Prop := undisturbed w ∧ is_Some (get_request (w_db w) rid).

(** An action whose changes are those of the flows of [Reconciler]. *)
Definition follows {A} (m : action A) : Prop :=
  calm m ∧ ∀ K : db → Prop, (∀ d, K d → db_ok d) → (∀ d d', reconcile_step rid d d' → K d → K d') →
    preserves K m.

Lemma advance {A} (m : action A) w o w' : follows m → steady w → m w = (o, w') → steady w'.
Proof.
  intros [Hc Hp] [[[Hok _] He] Hin] Hm.
  destruct (Hp (λ d, db_ok d ∧ is_Some (get_request d rid))) with (w := w) as [[Hok' Hin'] _].
  - by intros d [].
  - intros d d' Hd [Hdb Hpr]. split; [by apply keeps_ok with d|by eapply present_kept].
  - by apply stable_undisturbed.
  - apply (calm_nil _ _ Hc) in He as Hc'. rewrite Hm in Hc', Hok', Hin'. cbn [snd] in *.
    split; [split; [by apply stable_undisturbed|done]|done].
Qed.

Lemma steady_query w :
  RequestId._is_valid_format rid = true → steady w →
  ∃ r, query_request rid w = (Ok r, w) ∧ get_request (w_db w) rid = Some r ∧ Request.request_id r = rid.
Proof.
  clear keeps_ok. intros Hf [Hw Hin]. destruct (query_succeeds w Hw Hf Hin) as [r Hq].
  exists r. destruct (query_found w r w Hw Hq) as (_ & Hr & _). split_and!; [done|done|].
  by apply (proj1 (proj1 (proj1 Hw))).
Qed.

(** The end of a refresh, once the sync is through. *)
Lemma refresh_tail held1 held2 w :
  RequestId._is_valid_format rid = true → steady w →
  ∃ r w', step held1 (query_request rid) (λ request,
            step (held2 request) (_evaluate_deadline_and_persist clock request)
              (λ request w, (inr request, w))) w = (inr r, w') ∧
    undisturbed w' ∧ get_request (w_db w') rid = Some r.
Proof.
  clear keeps_ok. intros Hf Hw. destruct (steady_query w Hf Hw) as (r2 & Hq & Hr2 & _).
  destruct (sweep_undisturbed r2 w (proj1 Hw) Hr2) as (r3 & w5 & Hs & Hw5 & Hr3 & _).
  exists r3, w5. unfold step. by rewrite Hq, Hs.
Qed.

Lemma populate_follows request :
  Request.request_id request = rid → follows (populate_missing_machine_ids discover request).
Proof. clear. intros Hid. split; [apply populate_calm|]. intros K HK Hs. by apply (populate_preserves K rid). Qed.

Lemma conclude_follows request dbm f pm :
  Request.request_id request = rid → follows (conclude sm request dbm f pm now).
Proof. clear. intros Hid. split; [apply conclude_calm|]. intros K HK Hs. by apply (conclude_preserves K rid). Qed.

(** What a refresh of a stored request ends with. *)
Lemma refresh_undisturbed request w out w' :
  Request.request_id request = rid → RequestId._is_valid_format rid = true → steady w →
  refresh p sm discover clock now request rid w = (out, w') →
  match out with
  | inr r => undisturbed w' ∧ get_request (w_db w') rid = Some r
  | inl (e, (r, _)) => reraised e = true ∨ has_status rid (Request.status r) (w_db w')
  end.
Proof.
  intros Hid Hf Hw Hrun. unfold refresh in Hrun. unfold step at 1 in Hrun.
  destruct (populate_missing_machine_ids discover request w) as [[u|e] w1] eqn:H1.
  2:{ injection Hrun as <- <-. left. by eapply populate_raises. }
  apply advance in H1 as Hw1; [|by apply populate_follows|done]. clear H1.
  destruct (steady_query w1 Hf Hw1) as (r1 & H2 & Hr1 & Hid1).
  unfold step at 1 in Hrun. rewrite H2 in Hrun.
  assert (Hs1 : stable (has_status rid (Request.status r1)) w1).
  { apply stable_undisturbed; [apply Hw1|by exists r1]. }
  destruct (machines_query_total r1 w1) as (ms & w2 & H3). unfold step at 1 in Hrun. rewrite H3 in Hrun.
  pose proof (machines_query_preserves _ r1 w1 Hs1) as Hs2. rewrite H3 in Hs2. cbn [snd] in Hs2.
  apply advance in H3 as Hw2; [|split; [apply machines_query_calm|]|done].
  2:{ intros K _ _. apply machines_query_preserves. }
  unfold step at 1 in Hrun. destruct (fetch_provider_machines p r1 ms now w2) as [f w3] eqn:H4.
  pose proof (fetch_preserves _ p r1 ms now w2 Hs2) as Hs3. rewrite H4 in Hs3. cbn [snd] in Hs3.
  apply advance in H4 as Hw3; [|split; [apply fetch_calm|]|done].
  2:{ intros K _ _. apply fetch_preserves. }
  destruct f as [[f pm]|e]; [|injection Hrun as <- <-; left; by eapply try_raises].
  unfold step at 1 in Hrun. cbn [fst snd] in Hrun.
  destruct (conclude sm r1 ms f pm now w3) as [[u'|e] w4] eqn:H5.
  2:{ injection Hrun as <- <-. right. by apply (conclude_raises _ r1 ms f pm w3 e w4 Hid1 Hs3 H5). }
  apply advance in H5 as Hw4; [|by apply conclude_follows|done].
  destruct (refresh_tail (r1, ms) (λ r, (r, ms)) w4 Hf Hw4) as (r & w5 & H6 & Hw5 & Hr).
  rewrite H6 in Hrun. by injection Hrun as <- <-.
Qed.

(** An answer shows the stored status; one that may be cached shows the stored
    request, which has ended. *)
Definition shows (dto : RequestDTO) (b : bool) (d : db) : Prop :=
  ∃ s, dto_status dto = RequestStatus.value s ∧ has_status rid s d ∧
       (b = true → RequestStatus.is_terminal s = true).

Lemma answer_shows r ms b' w dto b w' :
  answer r ms b' w = (Ok (dto, b), w') → has_status rid (Request.status r) (w_db w) →
  (b' = true → RequestStatus.is_terminal (Request.status r) = true) → shows dto b (w_db w').
Proof.
  clear. intros H Hst Hb. apply action_bind_Ok in H as (dto' & w1 & Hc & [= -> -> <-]).
  unfold call in Hc. injection Hc as Hc <-. apply create_from_domain_Ok in Hc as [_ Hs].
  by exists (Request.status r).
Qed.

(** The same, after the machines were read. *)
Lemma listed_shows r b' w dto b w' :
  undisturbed w → get_request (w_db w) rid = Some r →
  (machines ← get_machines_for_request r; answer r machines b') w = (Ok (dto, b), w') →
  (b' = true → RequestStatus.is_terminal (Request.status r) = true) → shows dto b (w_db w').
Proof.
  clear. intros Hw Hr H Hb. apply action_bind_Ok in H as (ms & w1 & Hm & H).
  apply (answer_shows r ms b' w1 dto b w' H); [|done].
  pose proof (machines_query_preserves (has_status rid (Request.status r)) r w) as Hp.
  rewrite Hm in Hp. apply Hp, stable_undisturbed; [apply Hw|by exists r].
Qed.

Lemma refreshed_shows r w dto b w' :
  RequestId._is_valid_format rid = true → undisturbed w → get_request (w_db w) rid = Some r →
  answer_refreshed p sm discover clock now r rid w = (Ok (dto, b), w') → shows dto b (w_db w').
Proof.
  intros Hf Hw Hr H. unfold answer_refreshed in H.
  destruct (refresh _ _ _ _ _ _ _ w) as [out w1] eqn:Hrun.
  apply refresh_undisturbed in Hrun; [|by apply (proj1 (proj1 (proj1 Hw)))|done|by split; [|exists r]].
  destruct out as [[e [r' ms]]|r'].
  - destruct Hrun as [Hre|Hst]; [by rewrite Hre in H|]. destruct (reraised e); [done|].
    by eapply answer_shows.
  - destruct Hrun as [Hw1 Hr']. by eapply listed_shows.
Qed.

Lemma read_through_shows lightweight w dto b w' :
  undisturbed w → read_through p sm discover clock now rid lightweight w = (Ok (dto, b), w') →
  shows dto b (w_db w').
Proof.
  intros Hw H. apply action_bind_Ok in H as (r & w1 & Hq & H).
  destruct (query_found w r w1 Hw Hq) as (Hf & Hr & ->).
  destruct (sweep_undisturbed r w Hw Hr) as (r' & w2 & Hs & Hw2 & Hr' & _).
  destruct lightweight; apply action_bind_Ok in H as (r2 & w3 & Hs2 & H).
  { rewrite Hs in Hs2. injection Hs2 as <- <-. eapply answer_shows; [done| |done]. by exists r'. }
  assert (undisturbed w3 ∧ get_request (w_db w3) rid = Some r2) as [Hw3 Hr2].
  { destruct (Request.awaiting_resources r); [|by injection Hs2 as <- <-].
    rewrite Hs in Hs2. by injection Hs2 as <- <-. }
  destruct (not_stamped r2); [by eapply listed_shows|by eapply refreshed_shows].
Qed.
End undisturbed.

(** ** Lemmas: the cache *)

Lemma cache_key_inj i j : cache_key i = cache_key j → i = j.
Proof. unfold cache_key. intros H. by repeat injection H as H. Qed.

(** The entries are answers about requests that have ended and, unless they ended
    short of machines, show the status they are stored with. *)
Definition cache_current (c : cache) (d : db) : Prop :=
  ∀ i dto expiry, dget (cache_key i) c = Some (dto, expiry) →
    ∃ s, dto_status dto = RequestStatus.value s ∧ RequestStatus.is_terminal s = true ∧
         (s ≠ RequestStatus.PARTIAL → has_status i s d).

Lemma get_cached_Some i t c dto c' :
  get_cached_request i t c = (Some dto, c') → c' = c ∧ ∃ expiry, dget (cache_key i) c = Some (dto, expiry).
Proof.
  unfold get_cached_request. destruct (dget _ c) as [[v [e|]]|]; [destruct (e <? t)| |];
    intros [= <- <-]; eauto.
Qed.

Lemma get_cached_current i t c d : cache_current c d → cache_current (get_cached_request i t c).2 d.
Proof.
  intros Hc. unfold get_cached_request. destruct (dget _ c) as [[v [e|]]|]; [|done..].
  destruct (e <? t); [|done]. cbn [snd]. intros j dto expiry. rewrite dget_dpop.
  case_decide; [done|apply Hc].
Qed.

Lemma cache_request_current ttl i dto t c d :
  cache_current c d → shows i dto true d → cache_current (cache_request ttl i dto t c) d.
Proof.
  intros Hc (s & Hs & Hst & Ht) j dto' expiry. unfold cache_request. rewrite dget_dset.
  case_decide as Hk; [|apply Hc]. apply cache_key_inj in Hk as <-. intros [= <- <-].
  exists s. auto.
Qed.

(** ** Lemmas: the listing *)

Section listing.
Context (J : db → Prop).
Context (HJok : ∀ d, J d → db_ok d) (Hstep : ∀ rid d d', reconcile_step rid d d' → J d → J d').
Context (p : sync_ports) (sm : FulfilmentStateMachine.t).
Context (discover : option string → Request.t → result fetch_result) (now window : datetime).

Lemma do_sync_preserves request : preserves J (_do_sync p sm discover now request).
Proof.
  unfold _do_sync. apply preserves_bind.
  { by apply (populate_preserves J (Request.request_id request) (Hstep _)). }
  intros _. apply (preserves_bind_post J (λ r, Request.request_id r = Request.request_id request)).
  { apply query_preserves. }
  { intros w r w'. by apply (query_request_id J HJok). }
  intros r Hr. apply preserves_bind; [apply machines_query_preserves|]. intros ms.
  apply preserves_bind; [apply fetch_preserves|]. intros [f pm].
  by apply (conclude_preserves J (Request.request_id request) (Hstep _)).
Qed.

Lemma sync_one_preserves request w :
  stable J w → stable J (_sync_one p sm discover now window request w).
Proof.
  intros Hw. unfold _sync_one. destruct (Request.awaiting_resources request).
  - apply (write_request_preserves J (Request.request_id request) (Hstep _)); auto using sweep_change_sound.
  - destruct (is_recently_synced _ _ _); [done|by apply do_sync_preserves].
Qed.

Lemma dtos_preserves requests : preserves J (dtos_of requests).
Proof.
  clear. induction requests as [|r rs IH]; cbn [dtos_of]; [auto with preserves|].
  apply preserves_bind; [|eauto with preserves]. unfold dto_of.
  apply preserves_bind; [apply query_preserves|]. intros r'.
  apply preserves_bind; [apply machines_query_preserves|auto with preserves].
Qed.

Lemma list_active_preserves q : preserves J (list_active p sm discover now window q).
Proof.
  intros w Hw. unfold list_active.
  assert (Hin : preserves J (unit_of_work (λ d, Ok (active_page q d, d)))).
  { apply preserves_unit. by intros d a d' [= _ <-]. }
  specialize (Hin w Hw). destruct (unit_of_work _ w) as [[[requests total]|e] w1]; [|done].
  cbn [snd] in Hin.
  assert (Hall : stable J (foldl (λ w r, _sync_one p sm discover now window r w) w1 requests)).
  { clear Hw. generalize dependent w1.
    induction requests as [|r rs IH]; intros w1 Hw1; [done|]. by apply IH, sync_one_preserves. }
  apply preserves_bind; [apply dtos_preserves|auto with preserves|done].
Qed.
End listing.

(** ** Theorems *)

(** C14: Asking for a status does no harm.  However the query ends, the store it
    leaves is reached from the store it found by steps each of which is either the
    change of one of the other writers or harmless at the moment it is made: a
    harmless step keeps who every machine belongs to, leaves every other request
    exactly as it is, and moves the request asked for only along the transition table,
    so a request that another writer has cancelled, failed or completed while the
    query was at work is not reopened by it.  The other writers may do anything else,
    but they do not delete the request asked for, raise its version when they change
    it, and keep rows under their own identifiers. *)
Theorem status_query_safe p sm discover clock now ttl q t0 t1 c w r c' w' :
  execute_query p sm discover clock now ttl q t0 t1 c w = (r, c', w') → world_ok w →
  Forall (disciplined (sq_request_id q)) (w_env w) →
  rtc (λ d d', (∃ f, f ∈ w_env w ∧ d' = (f d).2) ∨ harmless (sq_request_id q) d d') (w_db w) (w_db w').
Proof.
  intros H Hok Hdis. set (R := λ d d', _ ∨ _).
  apply (query_carries _ _ _ _ _ _ _ _ _ _ _ _ _ _ (rtc R (w_db w)) H Hok Hdis).
  - intros d d' Hs Hdb Hr. eapply rtc_r; [exact Hr|]. right. by apply reconcile_step_harmless.
  - intros loaded d t Hdb Hr Hl He. eapply rtc_r; [exact Hr|]. right. by apply sweep_harmless.
  - split; [done|]. apply Forall_forall. intros f Hf d Hr. eapply rtc_r; [exact Hr|]. left. by exists f.
Qed.

(** Cached answers stay true while the store changes under a query. *)
Lemma cache_current_carried p sm discover clock now ttl q t0 t1 c d published r c' w' :
  execute_query p sm discover clock now ttl q t0 t1 c (quiet d published) = (r, c', w') → db_ok d →
  ∀ c0, cache_current c0 d → cache_current c0 (w_db w').
Proof.
  intros H Hok c0 Hc i dto expiry Hg. destruct (Hc i dto expiry Hg) as (s & Hs & Ht & Hst).
  exists s. split_and!; [done|done|]. intros Hne. specialize (Hst Hne).
  apply (query_carries _ _ _ _ _ _ _ _ _ _ _ _ _ _ (has_status i s) H); [by split|constructor| | |].
  - intros d1 d' Hd Hdb. by apply (reconcile_step_status Hd Hdb).
  - intros loaded d1 t Hdb Hd Hl He. by apply (sweep_keeps_settled (sq_request_id q)).
  - by apply stable_undisturbed.
Qed.

(** C15: An answer shows what is stored.  With no other writer at work, the status
    in every answer is the one the request has in the store when the query is
    done, whether the provider was asked, could not be reached or had the request
    ended; only an answer that was cached for a request that ended short of
    machines may have been overtaken.  The cache keeps to answers about requests
    that have ended. *)
Theorem status_answers_current p sm discover clock now ttl q t0 t1 c d published r c' w' :
  execute_query p sm discover clock now ttl q t0 t1 c (quiet d published) = (r, c', w') →
  db_ok d → cache_current c d →
  cache_current c' (w_db w') ∧
  ∀ dto, r = Ok dto → ∃ s, dto_status dto = RequestStatus.value s ∧
    (has_status (sq_request_id q) s (w_db w') ∨
     (s = RequestStatus.PARTIAL ∧ sq_skip_cache q = false)).
Proof.
  intros H Hok Hc. pose proof (cache_current_carried _ _ _ _ _ _ _ _ _ _ _ _ _ _ _ H Hok) as Hcarry.
  unfold execute_query in H. set (i := sq_request_id q) in *.
  destruct (if sq_skip_cache q then _ else _) as [hit c1] eqn:Hhit.
  assert (Hc1 : cache_current c1 d).
  { destruct (sq_skip_cache q); [by injection Hhit as _ <-|].
    pose proof (get_cached_current i t0 c d Hc) as Hg. by rewrite Hhit in Hg. }
  destruct hit as [dto|].
  - injection H as <- <- <-. split; [done|]. intros dto' [= <-].
    destruct (sq_skip_cache q) eqn:Hsk; [done|].
    apply get_cached_Some in Hhit as (_ & expiry & Hg). destruct (Hc _ _ _ Hg) as (s & Hs & _ & Hst).
    exists s. split; [done|]. destruct (decide (s = RequestStatus.PARTIAL)); [by right|left; auto].
  - destruct (read_through _ _ _ _ _ _ _ _) as [[[dto b]|e] w1] eqn:Hr; injection H as <- <- <-.
    2:{ split; [by apply Hcarry|done]. }
    apply read_through_shows in Hr; [|by split; [apply stable_undisturbed|]].
    split.
    + destruct b; [|by apply Hcarry]. apply cache_request_current; [by apply Hcarry|done].
    + intros dto' [= <-]. destruct Hr as (s & Hs & Hst & _). exists s. auto.
Qed.

(** The lightweight query writes.  It is documented as a pure read, but a request
    whose deadline has passed is ended by it: with no other writer at work the
    outcome of the deadline is stored when the query is done. *)
Theorem lightweight_query_writes p sm discover clock now ttl i t0 t1 c d published request r c' w' :
  db_ok d → get_request d i = Some request → RequestId._is_valid_format i = true →
  expired request (clock 0%nat) = true →
  execute_query p sm discover clock now ttl (mk_query i true true) t0 t1 c (quiet d published)
    = (r, c', w') →
  has_status i (FulfilmentStateMachine.deadline_outcome request (clock 0%nat)).1.1 (w_db w') ∧
  RequestStatus.is_terminal (Request.status request) = false ∧
  RequestStatus.is_terminal (FulfilmentStateMachine.deadline_outcome request (clock 0%nat)).1.1 = true.
Proof.
  intros Hok Hg Hf He H. split_and!.
  2:{ by apply sweepable_not_terminal, (expired_status request (clock 0%nat)). }
  2:{ apply deadline_outcome_terminal. }
  assert (Hw : undisturbed (quiet d published)) by (by split; [apply stable_undisturbed|]).
  destruct (query_succeeds i (quiet d published) Hw Hf) as [r0 Hq]; [by exists request|].
  destruct (query_found i _ r0 _ Hw Hq) as (_ & Hr & _). cbn [w_db] in Hr.
  rewrite Hg in Hr. injection Hr as <-.
  destruct (sweep_undisturbed i clock request _ Hw Hg) as (r' & w1 & Hs & Hw' & Hr' & Hst).
  rewrite He in Hst. unfold execute_query in H. cbn [sq_skip_cache sq_request_id sq_lightweight] in H.
  unfold read_through in H. unfold mbind at 1, action_bind at 1 in H. rewrite Hq in H.
  unfold mbind at 1, action_bind at 1 in H. rewrite Hs in H.
  unfold answer, mbind, action_bind, call in H.
  destruct (create_from_domain r' []) as [dto|e]; injection H as _ _ <-; by exists r'.
Qed.

(** The page of a listing without a limit has at most fifty requests, however many
    there are. *)
Theorem active_page_capped q d :
  aq_limit q = None → (length (active_page q d).1 ≤ 50)%nat.
Proof.
  intros Hl. unfold active_page. rewrite Hl. cbn [fst or_int]. unfold slice, bound.
  rewrite length_drop, length_take. set (n := length _).
  set (o := or_int (aq_offset q) 0). destruct (Z.ltb_spec o 0), (Z.ltb_spec (o + Z.min 50 1000) 0); lia.
Qed.

(** Listing the requests in flight is as safe as asking for one of them. *)
Theorem active_listing_safe p sm discover now window q w r w' :
  list_active p sm discover now window q w = (r, w') → world_ok w →
  (∀ i o, stable (owned i o) w → owned i o (w_db w')) ∧
  (∀ i s, RequestStatus.is_terminal s = true → s ≠ RequestStatus.PARTIAL →
          stable (has_status i s) w → has_status i s (w_db w')).
Proof.
  intros H Hok.
  assert (Hcarry : ∀ K : db → Prop,
    (∀ rid d d', reconcile_step rid d d' → db_ok d → K d → K d') → stable K w → K (w_db w')).
  { intros K HK Hst.
    destruct (list_active_preserves (λ d, db_ok d ∧ K d) (λ d, @proj1 _ _)) with (p := p) (sm := sm)
      (discover := discover) (now := now) (window := window) (q := q) (w := w)
      as [[_ Hk] _]; [|by apply stable_and|by rewrite H in Hk].
    intros rid d d' Hd [Hdb Hk]. split; [by eapply reconcile_step_ok|by eapply HK]. }
  split; intros; eapply Hcarry; try done; intros.
  - by eapply reconcile_step_owned.
  - by eapply reconcile_step_status.
Qed.

(** ** Witnesses *)

(** A request in progress whose deadline has passed. *)
Definition overdue_request : Request.t := live_request <| Request.deadline_at := Some 5 |>.
Definition overdue_db : db :=
  save_machine None live_machine (save_request None overdue_request (mk_db ∅ ∅)).

Lemma overdue_db_ok : db_ok overdue_db.
Proof. apply save_machine_ok, save_request_ok. by split. Qed.

(** The storage takes what the sync writes, and is full when the outcome of the
    deadline is to be saved. *)
Definition undisturbed_unit : interference := λ d, (None, d).
Definition disk_full : interference := λ d, (Some (StorageError "disk full"), d).
Definition no_space : world := mk_world overdue_db (replicate 5 undisturbed_unit ++ [disk_full]) [].

(** An outcome that was not saved is cached.  When the storage fails while the
    outcome of a passed deadline is saved, the query answers with the outcome all
    the same and puts the answer into the cache; the stored request is still in
    progress, but for as long as the entry lives every query that may use the cache
    is answered with the outcome, whatever is stored and whatever the provider
    says. *)
Theorem unsaved_outcome_cached :
  ∃ dto c' w',
    execute_query unreachable demo_sm no_discovery (λ _, 10) 10 (Some 300)
      (mk_query demo_id false false) 0 1 [] no_space = (Ok dto, c', w') ∧
    dto_status dto = RequestStatus.value RequestStatus.PARTIAL ∧
    has_status demo_id RequestStatus.IN_PROGRESS (w_db w') ∧
    ∀ p sm discover clock now t0 t1 w, t0 ≤ 301 →
      execute_query p sm discover clock now (Some 300) (mk_query demo_id false false) t0 t1 c' w
      = (Ok dto, c', w).
Proof.
  do 3 eexists. split; [vm_compute; reflexivity|]. split; [reflexivity|]. split.
  - eexists. split; vm_compute; reflexivity.
  - intros p sm discover clock now t0 t1 w Ht. unfold execute_query, get_cached_request.
    cbn [sq_skip_cache sq_request_id]. cbn [dget]. rewrite decide_True by reflexivity.
    by rewrite (proj2 (Z.ltb_ge 301 t0)).
Qed.

(** Another writer cancels the request. *)
Definition cancels : interference := λ d,
  (None, match get_request d demo_id with
         | Some r => d <| db_requests := <[demo_id := r <| Request.status := RequestStatus.CANCELLED |>
                             <| Request.version := Request.version r + 1 |>]> (db_requests d) |>
         | None => d
         end).

Lemma cancels_get d i :
  get_request (cancels d).2 i =
  if decide (demo_id = i) then (λ r, r <| Request.status := RequestStatus.CANCELLED |>
                                       <| Request.version := Request.version r + 1 |>) <$> get_request d i
  else get_request d i.
Proof.
  unfold cancels, get_request. cbn [snd]. destruct d as [requests machines].
  change (db_requests (mk_db requests machines)) with requests.
  destruct (requests !! demo_id) as [r|] eqn:Hr.
  - etransitivity; [apply lookup_insert|]. case_decide as Hi; [|done]. rewrite <-Hi, Hr. reflexivity.
  - case_decide as Hi; [|done]. rewrite <-Hi, Hr. exact Hr.
Qed.

Lemma cancels_ok d : db_ok d → db_ok (cancels d).2.
Proof.
  intros [Hr Hm]. split.
  - intros j r. rewrite cancels_get. case_decide as Hj; [|apply Hr].
    destruct (get_request d j) as [r0|] eqn:Hg; [|done]. intros [= <-]. exact (Hr j r0 Hg).
  - intros j m. unfold cancels. cbn [snd]. destruct (get_request d demo_id); apply Hm.
Qed.

Lemma cancels_disciplined : disciplined demo_id cancels.
Proof.
  intros d r _ Hg. rewrite cancels_get, decide_True, Hg by done. eexists. split; [done|]. right. cbn. lia.
Qed.

(** The request is cancelled between the read and the save of the sweep. *)
Definition raced : world := mk_world overdue_db [undisturbed_unit; cancels] [].
Definition raced_query :=
  execute_query unreachable demo_sm no_discovery (λ _, 10) 10 (Some 300)
    (mk_query demo_id true true) 0 1 [] raced.

Lemma status_query_safe_witness :
  has_status demo_id RequestStatus.CANCELLED (w_db raced_query.2) ∧
  rtc (λ d d', (∃ f, f ∈ w_env raced ∧ d' = (f d).2) ∨ harmless demo_id d d')
    overdue_db (w_db raced_query.2).
Proof.
  split; [eexists; split; vm_compute; reflexivity|].
  apply (status_query_safe unreachable demo_sm no_discovery (λ _, 10) 10 (Some 300)
    (mk_query demo_id true true) 0 1 [] raced raced_query.1.1 raced_query.1.2 raced_query.2).
  - unfold raced_query. by destruct (execute_query _ _ _ _ _ _ _ _ _ _ _) as [[? ?] ?].
  - split; [exact overdue_db_ok|]. constructor; [by intros d Hd|].
    constructor; [exact cancels_ok|constructor].
  - constructor; [intros d r _ Hg; exists r; auto|]. constructor; [exact cancels_disciplined|constructor].
Defined.

Lemma status_answers_current_witness :
  ∃ dto c' w',
    execute_query unreachable demo_sm no_discovery (λ _, 10) 10 (Some 300)
      (mk_query demo_id false false) 0 1 [] (quiet overdue_db []) = (Ok dto, c', w') ∧
    cache_current c' (w_db w').
Proof.
  do 3 eexists. split; [vm_compute; reflexivity|].
  refine (proj1 (status_answers_current unreachable demo_sm no_discovery (λ _, 10) 10 (Some 300)
    (mk_query demo_id false false) 0 1 [] overdue_db [] _ _ _ _ overdue_db_ok _)).
  - vm_compute. reflexivity.
  - by intros i dto expiry.
Defined.

Lemma lightweight_query_writes_witness :
  has_status demo_id RequestStatus.PARTIAL
    (w_db (execute_query unreachable demo_sm no_discovery (λ _, 10) 10 None (mk_query demo_id true true)
             0 0 [] (quiet overdue_db [])).2).
Proof.
  refine (proj1 (lightweight_query_writes unreachable demo_sm no_discovery (λ _, 10) 10 None demo_id 0 0
    [] overdue_db [] (persisted overdue_request 0)
    (execute_query unreachable demo_sm no_discovery (λ _, 10) 10 None (mk_query demo_id true true)
             0 0 [] (quiet overdue_db [])).1.1
    (execute_query unreachable demo_sm no_discovery (λ _, 10) 10 None (mk_query demo_id true true)
             0 0 [] (quiet overdue_db [])).1.2 _ overdue_db_ok _ _ _ _)).
  - vm_compute. reflexivity.
  - vm_compute. reflexivity.
  - vm_compute. reflexivity.
  - by destruct (execute_query _ _ _ _ _ _ _ _ _ _ _) as [[? ?] ?].
Defined.

(** Every request, without a limit. *)
Definition everything : SyncAndListActiveRequestsQuery := mk_active_query None None None true None None.

Lemma active_page_capped_witness : (length (active_page everything overdue_db).1 ≤ 50)%nat.
Proof. exact (active_page_capped everything overdue_db eq_refl). Defined.

Lemma active_listing_safe_witness :
  let out := list_active unreachable demo_sm no_discovery 10 0 everything (quiet overdue_db []) in
  owned "i-1" (ownership live_machine) (w_db out.2).
Proof.
  cbv zeta.
  destruct (active_listing_safe unreachable demo_sm no_discovery 10 0 everything (quiet overdue_db [])
    (list_active unreachable demo_sm no_discovery 10 0 everything (quiet overdue_db [])).1
    (list_active unreachable demo_sm no_discovery 10 0 everything (quiet overdue_db [])).2) as (Hown & _).
  - apply surjective_pairing.
  - split; [exact overdue_db_ok|constructor].
  - apply Hown. split; [|constructor]. eexists. split; vm_compute; reflexivity.
Defined.
