(* ===== verification/Orchestrators.v ===== *)
(** * The facade of the service

    [orb/application/services/orchestration/]: what the REST, command-line and SDK
    interfaces call.  An orchestrator sends commands and queries over the two buses
    and combines their answers: it waits for a request to end by polling, returns
    machines and reports the worst outcome, cancels a request once its machines are
    returned, starts and stops machines, and counts capacity for a watching client.

    The buses are an interface, [Buses], over an arbitrary state, so that the
    theorems hold for any handlers behind them; [system_buses] puts the handlers of
    [StatusQuery], [ReturnMachines] and [Lifecycle] there.  Polls that the code runs
    concurrently ([asyncio.gather]) are run one after the other: they meet only in
    the state behind the buses.  [asyncio.sleep] leaves that state alone. *)

From stdpp Require Import base gmap strings list.
From Stdlib Require Import ZArith Lia.
From S2P Require Import Prelude ListRequests RequestTypes Diagnostic RequestAggregate FulfilmentSM.
From S2P Require Import MachineAggregate StatusService Lifecycle Deprovisioning ReturnMachines.
From S2P Require Import MachineSync Reconciler StatusQuery.
Open Scope Z_scope.

(** ** Programs over the buses *)

Definition prog (S A : Type) : Type := S → result A * S.

#[export] Instance prog_ret {S} : MRet (prog S) := λ A a s, (Ok a, s).
#[export] Instance prog_bind {S} : MBind (prog S) := λ A B f m s,
  match m s with
  | (Ok a, s') => f a s'
  | (Err e, s') => (Err e, s')
  end.

Definition throw {S A} (e : exn) : prog S A := λ s, (Err e, s).

(** [try: m except Exception as e: h(e)]; a cancellation is not an [Exception]. *)
Definition catch {S A} (m : prog S A) (h : exn → prog S A) : prog S A := λ s,
  match m s with
  | (Err e, s') => if is_cancelled e then (Err e, s') else h e s'
  | answer => answer
  end.

Definition ApplicationError (message : string) : exn := OtherError "ApplicationError" message.

Record ListMachinesQuery := mk_list_query {
  lq_provider_name : option string;
  lq_provider_type : option string;
  lq_request_id : option string;
  lq_status : option string;
  lq_all_resources : bool;
  lq_limit : option Z;
  lq_offset : option Z
}.

(** [ListMachinesQuery()]. *)
Definition default_list : ListMachinesQuery := mk_list_query None None None None false (Some 50) (Some 0).
Definition list_query_eta (q : ListMachinesQuery) : ListMachinesQuery :=
  mk_list_query (lq_provider_name q) (lq_provider_type q) (lq_request_id q) (lq_status q)
    (lq_all_resources q) (lq_limit q) (lq_offset q).
#[export] Hint Extern 1 (@Setter ListMachinesQuery _ _) => solve_setter list_query_eta : typeclass_instances.

(** What the handlers behind the buses answer. *)
Class Buses (S : Type) := {
  sync_and_get : SyncAndGetRequestQuery → prog S RequestDTO;
  (* the identifiers of the machines listed *)
  list_machines : ListMachinesQuery → prog S (list string);
  (* template, count, additional data and overrides; the identifier the command carries back *)
  create_request : string → Z → dict json → option (dict json) → prog S (option string);
  create_return : list string → bool → prog S return_outcome;
  cancel_request : string → string → prog S (bool * option string)
}.

(** ** Polling *)

Definition TERMINAL_STATUSES : list string :=
  ["complete"; "completed"; "failed"; "error"; "cancelled"; "canceled"; "partial"; "timeout"].
Definition MAX_CONSECUTIVE_POLL_ERRORS : nat := 3.
Definition interval : Z := 2.

Definition is_final (dto : RequestDTO) : bool := str_lower (dto_status dto) ∈? TERMINAL_STATUSES.

Section poll.
Context {S A : Type} (query : prog S RequestDTO) (found : RequestDTO → A) (timed_out : A).
Context (aborted : exn → exn) (timeout_seconds : Z).

(** [while elapsed < timeout_seconds]. *)
Fixpoint poll_loop (fuel : nat) (elapsed : Z) (errors : nat) : prog S A := λ s,
  match fuel with
  | O => (Ok timed_out, s)
  | Datatypes.S fuel' =>
      if elapsed <? timeout_seconds then
        match query s with
        | (Ok dto, s') =>
            if is_final dto then (Ok (found dto), s')
            else poll_loop fuel' (elapsed + interval) 0 s'
        | (Err e, s') =>
            if is_cancelled e then (Err e, s')
            else if (MAX_CONSECUTIVE_POLL_ERRORS <=? errors + 1)%nat then (Err (aborted e), s')
            else poll_loop fuel' (elapsed + interval) (errors + 1) s'
        end
      else (Ok timed_out, s)
  end.

(** The rounds there is time for. *)
Definition rounds : nat := Z.to_nat ((timeout_seconds + 1) / 2).
End poll.

Definition poll_aborted (i : string) (e : exn) : exn :=
  ApplicationError ("Polling request " +:+ i +:+ " aborted after " +:+
    fmt (Z.of_nat MAX_CONSECUTIVE_POLL_ERRORS) +:+ " consecutive errors: " +:+ exn_str e).

Section orchestrators.
Context {S : Type} `{Buses S}.

Definition poll_query (i : string) : prog S RequestDTO := sync_and_get (mk_query i false true).

(** ** Requesting machines *)

Record AcquireMachinesInput := mk_acquire_input {
  ai_template_id : string;
  ai_requested_count : Z;
  ai_wait : bool;
  ai_timeout_seconds : Z;
  ai_additional_data : dict json;
  ai_template_overrides : dict json
}.

Record AcquireMachinesOutput := mk_acquire_output {
  ao_request_id : string;
  ao_status : string;
  ao_machine_ids : list string
}.

Definition acquire_poll (i : string) (timeout_seconds : Z) : prog S (string * list string) :=
  poll_loop (poll_query i) (λ dto, (dto_status dto, ref_machine_id <$> dto_machine_references dto))
    ("timeout", []) (poll_aborted i) timeout_seconds (rounds timeout_seconds) 0 0.

Definition acquire (input : AcquireMachinesInput) : prog S AcquireMachinesOutput :=
  created ← create_request (ai_template_id input) (ai_requested_count input) (ai_additional_data input)
              (if Request.is_nil (ai_template_overrides input) then None
               else Some (ai_template_overrides input));
  let i := or_str created EmptyString in
  if ai_wait input && negb (i ≟ EmptyString) then
    '(status, ids) ← acquire_poll i (ai_timeout_seconds input);
    mret (mk_acquire_output i status ids)
  else mret (mk_acquire_output i "pending" []).

(** ** Returning machines *)

Record ReturnMachinesInput := mk_return_input {
  ri_machine_ids : list string;
  ri_all_machines : bool;
  ri_request_id : option string;
  ri_force : bool;
  ri_wait : bool;
  ri_timeout_seconds : Z;
  ri_provider_name : option string;
  ri_provider_type : option string
}.

Record ReturnMachinesOutput := mk_return_output {
  ro_request_id : option string;
  ro_status : string;
  ro_message : string;
  ro_skipped_machines : list (string * string);
  ro_machine_ids : list string;
  ro_request_ids : list string
}.

Definition _STATUS_RANK : dict Z :=
  [("completed", 1); ("complete", 1); ("cancelled", 2); ("canceled", 2); ("failed", 2);
   ("error", 2); ("partial", 3); ("timeout", 3)].

Definition rank (status : string) : Z := dget_default (str_lower status) _STATUS_RANK 0.

(** [max(statuses, key=rank)]: the first of the highest rank. *)
Definition max_rank (first : string) (rest : list string) : string :=
  foldl (λ best s, if rank best <? rank s then s else best) first rest.

Definition return_poll (i : string) (timeout_seconds : Z) : prog S string :=
  poll_loop (poll_query i) dto_status "timeout" (poll_aborted i) timeout_seconds
    (rounds timeout_seconds) 0 0.

Fixpoint poll_each (timeout_seconds : Z) (ids : list string) : prog S (list string) :=
  match ids with
  | [] => mret []
  | i :: rest =>
      status ← return_poll i timeout_seconds;
      statuses ← poll_each timeout_seconds rest;
      mret (status :: statuses)
  end.

Definition nothing_to_return (message : string) : ReturnMachinesOutput :=
  mk_return_output None "no_machines" message [] [] [].

(** From the choice of the machines on. *)
Definition return_chosen (input : ReturnMachinesInput) (machine_ids : list string)
  : prog S ReturnMachinesOutput :=
  command ← create_return machine_ids (ri_force input);
  match created_request_ids command with
  | [] => mret (mk_return_output None "no_op" EmptyString (skipped_machines command) [] [])
  | (primary :: others) as created =>
      status ←
        (if negb (Request.is_nil (unrecorded_failure_request_ids command)) then mret "failed"
         else if ri_wait input then
           first ← return_poll primary (ri_timeout_seconds input);
           rest ← poll_each (ri_timeout_seconds input) others;
           mret (max_rank first rest)
         else mret "pending");
      mret (mk_return_output (Some primary) status EmptyString [] machine_ids created)
  end.

Definition return_query (input : ReturnMachinesInput) : ListMachinesQuery :=
  default_list <| lq_provider_name := ri_provider_name input |>
               <| lq_provider_type := ri_provider_type input |>.

Definition return_machines (input : ReturnMachinesInput) : prog S ReturnMachinesOutput :=
  if ri_all_machines input then
    ids ← list_machines (return_query input <| lq_all_resources := true |>);
    match ids with
    | [] => mret (nothing_to_return "No active machines found")
    | _ => return_chosen input ids
    end
  else if str_truthy (ri_request_id input) then
    ids ← list_machines (return_query input <| lq_request_id := ri_request_id input |>);
    match ids with
    | [] => mret (nothing_to_return "No active machines found for request")
    | _ => return_chosen input ids
    end
  else return_chosen input (ri_machine_ids input).

(** ** Cancelling a request *)

Definition _BLOCKING_RETURN_STATUSES : list string := ["failed"; "error"; "partial"; "timeout"].
Definition blocking (status : string) : bool := str_lower status ∈? _BLOCKING_RETURN_STATUSES.

Definition _cancel_failed (i reason : string) : exn :=
  ApplicationError ("Cancel of request " +:+ i +:+ " aborted: " +:+ reason).

Definition is_not_found (e : exn) : bool :=
  match e with OtherError c _ => c ≟ "EntityNotFoundError" | _ => false end.

Definition _collect_machine_ids (i : string) : prog S (list string) :=
  catch (request ← sync_and_get (mk_query i false false); mret (dto_machine_ids request))
    (λ e, if is_not_found e then throw e
          else throw (_cancel_failed i ("could not load its machines (" +:+ exn_str e +:+ ")"))).

(** The first blocking status among the return requests; one that cannot be read
    counts as failed. *)
Fixpoint first_blocking (ids : list string) (dflt : string) : prog S string :=
  match ids with
  | [] => mret dflt
  | i :: rest => λ s,
      match poll_query i s with
      | (Err e, s') => if is_cancelled e then (Err e, s') else (Ok "failed", s')
      | (Ok request, s') =>
          if blocking (dto_status request) then (Ok (str_lower (dto_status request)), s')
          else first_blocking rest dflt s'
      end
  end.

Definition _worst_return_request_status (out : ReturnMachinesOutput) (dflt : string) : prog S string :=
  first_blocking
    match ro_request_ids out, ro_request_id out with
    | [], Some i => if i ≟ EmptyString then [] else [i]
    | ids, _ => ids
    end dflt.

Record CancelRequestOutput := mk_cancel_output {
  co_request_id : string;
  co_status : string;
  co_return_status : option string;
  co_return_message : string
}.

(** The machines returned; the status and message of the return. *)
Definition return_before_cancel (i : string) (machine_ids : list string)
  : prog S (option string * string) :=
  match machine_ids with
  | [] => mret (None, EmptyString)
  | _ =>
      out ← catch (return_machines (mk_return_input machine_ids false None true false 300 None None))
              (λ e, throw (_cancel_failed i ("returning machines failed (" +:+ exn_str e
                             +:+ "); machines may still be running")));
      status ← (if blocking (ro_status out) then mret (ro_status out)
                else _worst_return_request_status out (ro_status out));
      if blocking status
      then throw (_cancel_failed i ("machine return ended with status '" +:+ status
                    +:+ "'; machines may still be running"))
      else mret (Some status, ro_message out)
  end.

Definition cancel (i reason : string) : prog S CancelRequestOutput :=
  machine_ids ← _collect_machine_ids i;
  '(return_status, return_message) ← return_before_cancel i machine_ids;
  '(cancelled, final_status) ← cancel_request i reason;
  let status := if cancelled && str_truthy final_status then default EmptyString final_status
                else RequestStatus.value RequestStatus.CANCELLED in
  mret (mk_cancel_output i status return_status return_message).

(** ** The status of several requests *)

(** An entry of the answer: a request, or what is said of one that could not be read. *)
Inductive entry :=
| Snapshot (dto : RequestDTO)
| NotFound (request_id error : string)
| Errored (request_id error : string).

(** [entry.get("not_found")], [bool(entry.get("error"))] and
    [str(entry.get("status", "")).lower()] of the dictionary it is converted to. *)
Definition entry_not_found (x : entry) : bool := match x with NotFound _ _ => true | _ => false end.
Definition entry_error (x : entry) : bool :=
  match x with
  | Snapshot dto => match dto_error dto with Some (_ :: _) => true | _ => false end
  | NotFound _ error | Errored _ error => negb (error ≟ EmptyString)
  end.
Definition entry_status (x : entry) : string :=
  match x with Snapshot dto => str_lower (dto_status dto) | _ => EmptyString end.

Definition fetch_entry (verbose : bool) (i : string) : prog S entry :=
  catch (dto ← sync_and_get (mk_query i false verbose); mret (Snapshot dto))
    (λ e, mret (if is_not_found e then NotFound i (exn_str e) else Errored i (exn_str e))).

Fixpoint _fetch_once (verbose : bool) (ids : list string) : prog S (list entry) :=
  match ids with
  | [] => mret []
  | i :: rest => x ← fetch_entry verbose i; xs ← _fetch_once verbose rest; mret (x :: xs)
  end.

Definition _has_transient_error (xs : list entry) : bool :=
  existsb (λ x, negb (entry_not_found x) && entry_error x
                && negb (entry_status x ∈? TERMINAL_STATUSES)) xs.

Definition _all_terminal (xs : list entry) : bool :=
  forallb (λ x, entry_not_found x || (entry_status x ∈? TERMINAL_STATUSES)) xs.

Section wait.
(* the monotonic clock: at the start, and each time the loop looks at it *)
Context (clock : nat → Z) (timeout_seconds : Z) (fetch : prog S (list entry)).

Fixpoint wait_loop (fuel : nat) (k : nat) (xs : list entry) (errors : nat) : prog S (list entry) :=
  match fuel with
  | O => mret xs
  | Datatypes.S fuel' =>
      if negb (_all_terminal xs) && (clock k - clock 0%nat <? timeout_seconds) then
        if (MAX_CONSECUTIVE_POLL_ERRORS <=? errors)%nat then mret xs
        else
          xs' ← fetch;
          wait_loop fuel' (k + 1) xs' (if _has_transient_error xs' then errors + 1 else 0)
      else mret xs
  end.

(** Looks that find time left; each is followed by a pause of [interval]. *)
Definition looks : nat := Datatypes.S (rounds timeout_seconds).

Definition status_poll_until_terminal : prog S (list entry) :=
  xs ← fetch;
  wait_loop looks 1 xs (if _has_transient_error xs then 1 else 0).
End wait.

Definition get_request_status (clock : nat → Z) (ids : list string) (verbose wait : bool)
    (timeout_seconds : Z) : prog S (list entry) :=
  if wait && negb (Request.is_nil ids)
  then status_poll_until_terminal clock timeout_seconds (_fetch_once verbose ids)
  else _fetch_once verbose ids.
End orchestrators.

(** ** Starting and stopping machines *)

(** The data of a provider's answer, and the answer; [None] is an answer without
    data. *)
Record operation_data := mk_operation_data {
  od_results : dict bool;
  od_replicas : dict Z
}.
Record operation_answer := mk_operation_answer {
  oa_success : bool;
  oa_data : option operation_data
}.

(** Where a machine is found at its provider. *)
Record coordinates := mk_coordinates {
  mc_provider_data : dict json;
  mc_provider_api : string;
  mc_resource_id : string;
  mc_request_id : string
}.

Class MachineBuses (S : Type) := {
  list_ids : ListMachinesQuery → list string → prog S (list string);
  get_machine_dto : string → prog S (option coordinates);
  (* operation, strategy, identifiers, coordinates; [None] is a command without a result *)
  execute_operation : string → string → list string → dict coordinates → prog S (option operation_answer);
  update_machine_status : string → string → prog S unit;
  record_replicas : string → Z → prog S unit;
  select_active_provider : result string
}.

Section power.
Context {S : Type} `{MachineBuses S}.

Record PowerInput := mk_power_input {
  pi_machine_ids : list string;
  pi_all_machines : bool;
  pi_provider_name : option string;
  pi_provider_type : option string;
  pi_filter_expressions : list string
}.

Record PowerOutput := mk_power_output {
  po_done : list string;
  po_failed : list string;
  po_success : bool;
  po_message : string
}.

(** The machines asked for, or those listed with [status]. *)
Definition power_machines (status : string) (input : PowerInput) : prog S (list string) :=
  if pi_all_machines input then
    list_ids (default_list <| lq_status := Some status |>
                           <| lq_provider_name := pi_provider_name input |>
                           <| lq_provider_type := pi_provider_type input |>) (pi_filter_expressions input)
  else mret (pi_machine_ids input).

(** Name before type before the active provider. *)
Definition strategy_override (input : PowerInput) : result string :=
  if str_truthy (pi_provider_name input) then Ok (default EmptyString (pi_provider_name input))
  else if str_truthy (pi_provider_type input) then Ok (default EmptyString (pi_provider_type input))
  else select_active_provider.

Fixpoint machine_coordinates (ids : list string) (acc : dict coordinates) : prog S (dict coordinates) :=
  match ids with
  | [] => mret acc
  | i :: rest =>
      found ← catch (get_machine_dto i) (λ _, mret None);
      machine_coordinates rest (match found with Some c => dset i c acc | None => acc end)
  end.

Definition all_failed (ids : list string) : dict bool := foldl (λ d i, dset i false d) [] ids.

(** The result of each machine, and the replica counts before a stop. *)
Definition reported (ids : list string) (answer : option operation_answer)
  : result (dict bool * dict Z) :=
  match answer with
  | Some (mk_operation_answer true (Some data)) => Ok (od_results data, od_replicas data)
  | Some (mk_operation_answer true None) =>
      Err (OtherError "AttributeError" "'NoneType' object has no attribute 'get'")
  | _ => Ok (all_failed ids, [])
  end.

(** After the status of a machine was updated. *)
Definition keep_replicas (replicas : dict Z) (i : string) : prog S unit :=
  match dget i replicas with
  | Some n => catch (record_replicas i n) (λ _, mret ())
  | None => mret ()
  end.

Fixpoint settle_results (new_status : string) (replicas : dict Z) (results : dict bool)
    (done failed : list string) : prog S (list string * list string) :=
  match results with
  | [] => mret (done, failed)
  | (i, true) :: rest =>
      _ ← update_machine_status i new_status;
      _ ← keep_replicas replicas i;
      settle_results new_status replicas rest (done ++ [i]) failed
  | (i, false) :: rest => settle_results new_status replicas rest done (failed ++ [i])
  end.

(** What the two orchestrators share: [verb] and [past] name the operation in the
    messages, [none] is the message when there is nothing to do. *)
Definition power (operation listed_status new_status verb past : string) (keep : bool)
    (input : PowerInput) : prog S PowerOutput :=
  ids ← power_machines listed_status input;
  match ids with
  | [] => mret (mk_power_output [] [] true ("No machines to " +:+ verb))
  | _ =>
      match strategy_override input with
      | Err e => mret (mk_power_output [] ids false ("Cannot resolve active provider: " +:+ exn_str e))
      | Ok strategy =>
          where_ ← machine_coordinates ids [];
          answer ← execute_operation operation strategy ids where_;
          '(results, replicas) ← (λ s, (reported ids answer, s));
          '(done, failed) ← settle_results new_status (if keep then replicas else []) results [] [];
          mret (mk_power_output done failed (Request.is_nil failed)
                  (past +:+ " " +:+ fmt (Z.of_nat (length done)) +:+ " machines" +:+
                   (if Request.is_nil failed then EmptyString
                    else ", failed to " +:+ verb +:+ " " +:+ fmt (Z.of_nat (length failed)))))
      end
  end.

Definition start_machines : PowerInput → prog S PowerOutput :=
  power "start_instances" "stopped" "pending" "start" "Started" false.
Definition stop_machines : PowerInput → prog S PowerOutput :=
  power "stop_instances" "running" "stopping" "stop" "Stopped" true.
End power.

(** ** Refreshing one machine *)

Record SyncMachineOutput := mk_sync_output {
  so_machine : option Machine.t;
  so_synced : bool;
  so_error : option string
}.

Definition machine_and_request (i : string) (d : db) : option (Machine.t * option Request.t) :=
  machine ← get_machine d i;
  Some (machine, if str_truthy (Machine.request_id machine)
                 then get_request d (default EmptyString (Machine.request_id machine)) else None).

Definition machines_list (fetched : provider_fetch) : list Machine.t :=
  match fetched with Fetched ms | FailedProviderFetch ms => ms end.

(** The machine of the answer that is the one asked for. *)
Definition refreshed_machine (machine : Machine.t) (synced : list Machine.t) : Machine.t :=
  default machine (List.find (λ m, Machine.machine_id m ≟ Machine.machine_id machine) synced).

Definition sync_failed (machine : Machine.t) (e : exn) : action SyncMachineOutput :=
  if is_cancelled e then raise e else mret (mk_sync_output (Some machine) false (Some (exn_str e))).

Definition sync_machine (p : sync_ports) (i : string) (now : datetime) : action SyncMachineOutput := λ w,
  match unit_of_work (λ d, Ok (machine_and_request i d, d)) w with
  | (Err e, w') => (Err e, w')
  | (Ok None, w') => (Ok (mk_sync_output None false (Some "machine_not_found")), w')
  | (Ok (Some (machine, None)), w') =>
      (Ok (mk_sync_output (Some machine) false (Some "no_parent_request")), w')
  | (Ok (Some (machine, Some request)), w') =>
      match fetch_provider_machines p request [machine] now w' with
      | (Err e, w'') => sync_failed machine e w''
      | (Ok (fetched, _), w'') =>
          match machines_list fetched with
          | [] => (Ok (mk_sync_output (Some machine) false (Some "provider_returned_no_data")), w'')
          | _ =>
              match sync_machines_with_provider request [machine] fetched now w'' with
              | (Err e, w3) => sync_failed machine e w3
              | (Ok synced, w3) => (Ok (mk_sync_output (Some (refreshed_machine machine synced)) true None), w3)
              end
          end
      end
  end.

(** ** Watching a request *)

Record stats := mk_stats {
  st_od_vcpus : Z; st_spot_vcpus : Z;
  st_od_cap : Z; st_spot_cap : Z;
  st_od_machines : Z; st_spot_machines : Z
}.

Definition no_stats : stats := mk_stats 0 0 0 0 0 0.

(** What [getattr] finds on a machine reference: its [vcpus] and
    [availability_zone], if it has them. *)
Class WatchAttributes := {
  ref_vcpus : MachineReferenceDTO → option Z;
  ref_availability_zone : MachineReferenceDTO → option string
}.

Record totals := mk_totals {
  tt_vcpus : Z; tt_capacity : Z;
  tt_all : stats;
  tt_az_stats : dict stats
}.

Definition no_totals : totals := mk_totals 0 0 no_stats [].

Section watch.
Context `{WatchAttributes} (weighted : bool) (machine_types : dict Z).

Definition is_spot (ref : MachineReferenceDTO) : bool :=
  str_lower (or_str (ref_price_type ref) EmptyString) ≟ "spot".

Definition zone (ref : MachineReferenceDTO) : string := or_str (ref_availability_zone ref) "unknown".

(** What one machine adds: vcpus and weight count when its type is known. *)
Definition vcpus_of (ref : MachineReferenceDTO) : Z :=
  if str_truthy (ref_instance_type ref) then default 0 (ref_vcpus ref) else 0.
Definition weight_of (ref : MachineReferenceDTO) : Z :=
  if str_truthy (ref_instance_type ref) && weighted && negb (Request.is_nil machine_types)
  then dget_default (default EmptyString (ref_instance_type ref)) machine_types 0 else 0.

Definition add_machine (ref : MachineReferenceDTO) (t : stats) : stats :=
  let '(mk_stats ov sv oc sc om sm) := t in
  if is_spot ref then mk_stats ov (sv + vcpus_of ref) oc (sc + weight_of ref) om (sm + 1)
  else mk_stats (ov + vcpus_of ref) sv (oc + weight_of ref) sc (om + 1) sm.

Definition count_ref (t : totals) (ref : MachineReferenceDTO) : totals :=
  mk_totals (tt_vcpus t + vcpus_of ref) (tt_capacity t + weight_of ref) (add_machine ref (tt_all t))
    (dset (zone ref) (add_machine ref (dget_default (zone ref) (tt_az_stats t) no_stats)) (tt_az_stats t)).

Definition watch_totals (refs : list MachineReferenceDTO) : totals := foldl count_ref no_totals refs.
End watch.

(** [RequestStatus(status_str.lower()).is_terminal()], false for other texts. *)
Definition watch_is_terminal (status : string) : bool :=
  match enum_of_value (str_lower status) with
  | Some s => RequestStatus.is_terminal s
  | None => false
  end.

(** The attributes a [MachineReferenceDTO] has: neither. *)
#[export] Instance reference_attributes : WatchAttributes :=
  { ref_vcpus := λ _, None; ref_availability_zone := λ _, None }.

(** ** The listing of machines

    [ListMachinesHandler] of [orb/application/queries/machine_query_handlers.py],
    for queries without order, search, filter expressions and refresh. *)

Definition active_machine_statuses : list MachineStatus.t :=
  [MachineStatus.PENDING; MachineStatus.RUNNING; MachineStatus.LAUNCHING].

Definition listed_machines (q : ListMachinesQuery) (d : db) : result (list Machine.t) :=
  if lq_all_resources q then
    Ok (concat ((λ s, machines_where (λ m, Machine.status m ≟ s) d) <$> active_machine_statuses))
  else if str_truthy (lq_status q) then
    match enum_of_value (default EmptyString (lq_status q)) with
    | Some s => Ok (machines_where (λ m, Machine.status m ≟ s) d)
    | None => Err (ValueError (str_repr (default EmptyString (lq_status q)) +:+
                     " is not a valid MachineStatus"))
    end
  else if str_truthy (lq_request_id q) then
    Ok (machines_where (λ m, Machine.request_id m ≟ lq_request_id q) d)
  else Ok (machines_where (λ _, true) d).

(** A provider is matched by a part of its name. *)
Definition machine_matches (q : ListMachinesQuery) (m : Machine.t) : bool :=
  match given (lq_provider_name q) with
  | Some name => negb (Machine.provider_name m ≟ EmptyString) && contains name (Machine.provider_name m)
  | None => true
  end &&
  match given (lq_provider_type q) with
  | Some type => Machine.provider_type m ≟ type
  | None => true
  end.

Definition machine_slice (q : ListMachinesQuery) (machines : list Machine.t) : list Machine.t :=
  let offset := or_int (lq_offset q) 0 in
  match (λ n, Z.min n 1000) <$> lq_limit q with
  | None => slice_from machines offset
  | Some limit => if 0 <? limit then slice machines offset (offset + limit) else []
  end.

Definition machine_page (q : ListMachinesQuery) (d : db) : result (list Machine.t) :=
  machines ← listed_machines q d;
  Ok (machine_slice q (List.filter (machine_matches q) machines)).

Definition list_machines_query (q : ListMachinesQuery) : action (list string) :=
  unit_of_work (λ d,
    match machine_page q d with
    | Ok machines => Ok (Machine.machine_id <$> machines, d)
    | Err e => Err e
    end).

(** ** The handlers behind the buses *)

(** The state behind them: the readings of the clock of the cache, the cache, and
    the world of the handlers. *)
Record system := mk_system {
  sys_clock : list Z;
  sys_cache : cache;
  sys_world : world
}.

Definition on_world {A} (m : action A) : prog system A := λ s,
  let '(r, w) := m (sys_world s) in (r, mk_system (sys_clock s) (sys_cache s) w).

Section handlers.
Context {Template Config : Type} (dp : @ports Template Config).
Context (p : sync_ports) (sm : FulfilmentStateMachine.t) (max_retries : Z).
Context (discover : option string → Request.t → result fetch_result).
Context (clock : nat → datetime) (ttl : option Z).
Context (prefix : string) (uuid : nat → string).
(* the creation of requests, which [AcquireMachines] models *)
Context (creation : string → Z → dict json → option (dict json) → action (option string)).

#[local] Instance system_buses : Buses system := {
  sync_and_get q := λ s,
    let '(r, c, w) := execute_query p sm discover clock (clock 0%nat) ttl q
                        (default 0 (head (sys_clock s))) (default 0 (head (tail (sys_clock s))))
                        (sys_cache s) (sys_world s) in
    (r, mk_system (tail (tail (sys_clock s))) c w);
  list_machines q := on_world (list_machines_query q);
  create_request t n data overrides := on_world (creation t n data overrides);
  create_return ids force := on_world (handle dp sm max_retries clock prefix uuid ids [] force);
  cancel_request i reason := on_world (cancel_command sm max_retries clock i reason)
}.
End handlers.

(** [GetRequestStatusOrchestrator] asked for all requests. *)
Definition all_requests_query : SyncAndListActiveRequestsQuery :=
  mk_active_query None None None true None (Some 0).

Definition get_all_requests p sm discover now window : action (list entry) :=
  '(dtos, total_count) ← list_active p sm discover now window all_requests_query;
  mret (Snapshot <$> dtos).

(** ** Lemmas: polling *)

Lemma prog_bind_Ok {S A B} (m : prog S A) (f : A → prog S B) s b s' :
  (m ≫= f) s = (Ok b, s') → ∃ a s1, m s = (Ok a, s1) ∧ f a s1 = (Ok b, s').
Proof. unfold mbind, prog_bind. destruct (m s) as [[a|e] s1]; [eauto|done]. Qed.

Section poll_lemmas.
Context {S A : Type} (query : prog S RequestDTO) (found : RequestDTO → A) (timed_out : A).
Context (aborted : exn → exn) (timeout_seconds : Z).

(** The state after [k] queries, and the answer to the one that follows. *)
Fixpoint after_queries (k : nat) (s : S) : S :=
  match k with O => s | Datatypes.S k' => after_queries k' (query s).2 end.
Definition answer_at (s : S) (k : nat) : result RequestDTO := (query (after_queries k s)).1.

(** An answer after which the poll goes on, as far as it alone can tell. *)
Definition goes_on (r : result RequestDTO) : bool :=
  match r with Ok dto => negb (is_final dto) | Err e => negb (is_cancelled e) end.
Definition failed_answer (r : result RequestDTO) : bool := match r with Ok _ => false | Err _ => true end.

(** The errors in a row after [n] answers, [errors] before them. *)
Fixpoint errors_after (errors : nat) (s : S) (n : nat) : nat :=
  match n with
  | O => errors
  | Datatypes.S n' => if failed_answer (answer_at s n') then Datatypes.S (errors_after errors s n') else 0
  end.

(** How a poll ends: after [n] queries, none but the last of which could end it. *)
Inductive ends (s : S) (errors allowed : nat) : nat → result A → Prop :=
| ends_found n dto :
    answer_at s n = Ok dto → is_final dto = true →
    (n < allowed)%nat → (∀ k, (k < n)%nat → goes_on (answer_at s k) = true) →
    (∀ k, (k < n)%nat → (errors_after errors s (k + 1) < MAX_CONSECUTIVE_POLL_ERRORS)%nat) →
    ends s errors allowed (n + 1) (Ok (found dto))
| ends_aborted n e :
    answer_at s n = Err e → is_cancelled e = false →
    (n < allowed)%nat → (∀ k, (k < n)%nat → goes_on (answer_at s k) = true) →
    (∀ k, (k < n)%nat → (errors_after errors s (k + 1) < MAX_CONSECUTIVE_POLL_ERRORS)%nat) →
    (MAX_CONSECUTIVE_POLL_ERRORS ≤ errors_after errors s (n + 1))%nat →
    ends s errors allowed (n + 1) (Err (aborted e))
| ends_cancelled n e :
    answer_at s n = Err e → is_cancelled e = true →
    (n < allowed)%nat → (∀ k, (k < n)%nat → goes_on (answer_at s k) = true) →
    (∀ k, (k < n)%nat → (errors_after errors s (k + 1) < MAX_CONSECUTIVE_POLL_ERRORS)%nat) →
    ends s errors allowed (n + 1) (Err e)
| ends_timed_out :
    (∀ k, (k < allowed)%nat → goes_on (answer_at s k) = true) →
    (∀ k, (k < allowed)%nat → (errors_after errors s (k + 1) < MAX_CONSECUTIVE_POLL_ERRORS)%nat) →
    ends s errors allowed allowed (Ok timed_out).

Lemma answer_at_0 s : answer_at s 0 = (query s).1.
Proof. done. Qed.
Lemma answer_at_S s k : answer_at s (Datatypes.S k) = answer_at (query s).2 k.
Proof. done. Qed.

Lemma errors_after_S errors s n :
  errors_after errors s (Datatypes.S n) =
  errors_after (if failed_answer (answer_at s 0) then Datatypes.S errors else 0) (query s).2 n.
Proof.
  induction n as [|n IH]; [done|].
  change (errors_after errors s (Datatypes.S (Datatypes.S n))) with
    (if failed_answer (answer_at s (Datatypes.S n))
     then Datatypes.S (errors_after errors s (Datatypes.S n)) else 0%nat).
  rewrite IH, answer_at_S. done.
Qed.

(** One more query in front. *)
Lemma ends_step s errors allowed n r :
  goes_on (answer_at s 0) = true →
  let errors' := if failed_answer (answer_at s 0) then Datatypes.S errors else 0%nat in
  (errors' < MAX_CONSECUTIVE_POLL_ERRORS)%nat →
  ends (query s).2 errors' allowed n r →
  ends s errors (Datatypes.S allowed) (Datatypes.S n) r.
Proof.
  intros Hgo errors' He Hends.
  assert (Hall : ∀ m, (∀ k, (k < m)%nat → goes_on (answer_at (query s).2 k) = true) →
    ∀ k, (k < Datatypes.S m)%nat → goes_on (answer_at s k) = true).
  { intros m Hm [|k] Hk; [done|]. rewrite answer_at_S. apply Hm. lia. }
  assert (Herr : ∀ m, (∀ k, (k < m)%nat → (errors_after errors' (query s).2 (k + 1) < MAX_CONSECUTIVE_POLL_ERRORS)%nat) →
    ∀ k, (k < Datatypes.S m)%nat → (errors_after errors s (k + 1) < MAX_CONSECUTIVE_POLL_ERRORS)%nat).
  { intros m Hm [|k] Hk; [done|].
    replace (Datatypes.S k + 1)%nat with (Datatypes.S (k + 1)) by lia. rewrite errors_after_S. apply Hm. lia. }
  destruct Hends as [n dto Ha Hf Hn Hg Hx|n e Ha Hc Hn Hg Hx Hm|n e Ha Hc Hn Hg Hx|Hg Hx].
  - apply (ends_found s errors _ (Datatypes.S n) dto); [exact Ha|done|lia|by apply Hall|by apply Herr].
  - apply (ends_aborted s errors _ (Datatypes.S n) e);
      [exact Ha|done|lia|by apply Hall|by apply Herr|]. cbn [Nat.add]. by rewrite errors_after_S.
  - apply (ends_cancelled s errors _ (Datatypes.S n) e); [exact Ha|done|lia|by apply Hall|by apply Herr].
  - apply ends_timed_out; [by apply Hall|by apply Herr].
Qed.

Lemma poll_loop_ends fuel elapsed errors s r s' :
  (errors < MAX_CONSECUTIVE_POLL_ERRORS)%nat →
  fuel = Z.to_nat ((timeout_seconds - elapsed + 1) / 2) →
  poll_loop query found timed_out aborted timeout_seconds fuel elapsed errors s = (r, s') →
  ∃ n, s' = after_queries n s ∧ ends s errors fuel n r.
Proof.
  revert elapsed errors s. induction fuel as [|fuel IH]; intros elapsed errors s Hlt Hfuel; cbn [poll_loop].
  { intros [= <- <-]. exists 0%nat. split; [done|]. by apply ends_timed_out; intros k Hk; lia. }
  assert (Hel : elapsed < timeout_seconds) by (Z.to_euclidean_division_equations; lia).
  rewrite (proj2 (Z.ltb_lt _ _) Hel).
  assert (Hfuel' : fuel = Z.to_nat ((timeout_seconds - (elapsed + interval) + 1) / 2)).
  { unfold interval. replace (timeout_seconds - (elapsed + 2) + 1) with
      ((timeout_seconds - elapsed + 1) + -1 * 2) by lia. rewrite Z.div_add by lia. lia. }
  pose proof (answer_at_0 s) as Ha0.
  destruct (query s) as [[dto|e] s1] eqn:Hq; cbn [fst] in Ha0.
  - destruct (is_final dto) eqn:Hf.
    { intros [= <- <-]. exists 1%nat. cbn. rewrite Hq. split; [done|].
      by apply (ends_found s errors (Datatypes.S fuel) 0 dto); try done; intros; lia. }
    intros Hp. apply IH in Hp as (n & -> & Hends); [|unfold MAX_CONSECUTIVE_POLL_ERRORS; lia|done].
    exists (Datatypes.S n). cbn. rewrite Hq. split; [done|].
    apply ends_step; rewrite Ha0; cbn; [by rewrite Hf|unfold MAX_CONSECUTIVE_POLL_ERRORS; lia|].
    by rewrite Hq.
  - destruct (is_cancelled e) eqn:Hc.
    { intros [= <- <-]. exists 1%nat. cbn. rewrite Hq. split; [done|].
      by apply (ends_cancelled s errors (Datatypes.S fuel) 0 e); try done; intros; lia. }
    destruct (Nat.leb_spec MAX_CONSECUTIVE_POLL_ERRORS (errors + 1)) as [Hm|Hm].
    { intros [= <- <-]. exists 1%nat. cbn. rewrite Hq. split; [done|].
      apply (ends_aborted s errors (Datatypes.S fuel) 0 e); try done; try (intros; lia).
      cbn. rewrite Ha0. cbn. lia. }
    intros Hp. apply IH in Hp as (n & -> & Hends); [|lia|done].
    exists (Datatypes.S n). cbn. rewrite Hq. split; [done|].
    apply ends_step; rewrite Ha0; cbn; [by rewrite Hc|lia|]. rewrite Hq.
    replace (Datatypes.S errors) with (errors + 1)%nat by lia. done.
Qed.

(** More fuel changes nothing: the loop ends by itself. *)
Lemma poll_loop_fuel fuel elapsed errors s :
  (Z.to_nat ((timeout_seconds - elapsed + 1) / 2) ≤ fuel)%nat →
  poll_loop query found timed_out aborted timeout_seconds fuel elapsed errors s =
  poll_loop query found timed_out aborted timeout_seconds
    (Z.to_nat ((timeout_seconds - elapsed + 1) / 2)) elapsed errors s.
Proof.
  remember (Z.to_nat ((timeout_seconds - elapsed + 1) / 2)) as n eqn:Hn.
  revert fuel elapsed errors s Hn. induction n as [|n IH]; intros fuel elapsed errors s Hn Hle.
  { destruct fuel as [|fuel]; [done|]. cbn [poll_loop]. destruct (Z.ltb_spec elapsed timeout_seconds); [|done].
    assert (1 ≤ (timeout_seconds - elapsed + 1) / 2) by (apply Z.div_le_lower_bound; lia). lia. }
  destruct fuel as [|fuel]; [lia|]. cbn [poll_loop].
  destruct (Z.ltb_spec elapsed timeout_seconds); [|done].
  assert (Hn' : n = Z.to_nat ((timeout_seconds - (elapsed + interval) + 1) / 2)).
  { unfold interval. replace (timeout_seconds - (elapsed + 2) + 1) with
      ((timeout_seconds - elapsed + 1) + -1 * 2) by lia. rewrite Z.div_add by lia. lia. }
  destruct (query s) as [[dto|e] s1].
  - destruct (is_final dto); [done|]. apply IH; [done|lia].
  - destruct (is_cancelled e); [done|]. destruct (_ <=? _)%nat; [done|]. apply IH; [done|lia].
Qed.
End poll_lemmas.

(** ** Lemmas: the outcome of returns and cancels *)


Lemma max_rank_spec first rest :
  max_rank first rest ∈ first :: rest ∧ ∀ s, s ∈ first :: rest → rank s ≤ rank (max_rank first rest).
Proof.
  unfold max_rank. revert first. induction rest as [|x rest IH]; intros first; cbn [foldl].
  { split; [set_solver|]. by intros s ->%list_elem_of_singleton. }
  destruct (Z.ltb_spec (rank first) (rank x)) as [Hx|Hx].
  - destruct (IH x) as [Hin Hle]. split; [set_solver|].
    intros s [->|Hs]%elem_of_cons; [|by apply Hle]. specialize (Hle x). etrans; [|apply Hle; set_solver]. lia.
  - destruct (IH first) as [Hin Hle]. split; [set_solver|].
    intros s [->|[->|Hs]%elem_of_cons]%elem_of_cons; [apply Hle; set_solver| |apply Hle; set_solver].
    etrans; [exact Hx|]. apply Hle. set_solver.
Qed.

Section cancelling.
Context {S : Type} `{Buses S}.





(** What a cancel returns before it sends the command. *)
Definition cancel_return (machine_ids : list string) : ReturnMachinesInput :=
  mk_return_input machine_ids false None true false 300 None None.



End cancelling.

(** ** Lemmas: starting and stopping *)

Lemma settle_results_spec {S} `{MachineBuses S} new_status replicas results done failed s out s' :
  settle_results new_status replicas results done failed s = (Ok out, s') →
  out = (done ++ (filter (λ r, r.2 = true) results).*1, failed ++ (filter (λ r, r.2 = false) results).*1).
Proof.
  revert done failed s. induction results as [|[i []] results IH]; intros done failed s; cbn [settle_results].
  - intros [= <- _]. by rewrite !app_nil_r.
  - intros Hr. apply prog_bind_Ok in Hr as (u & s1 & _ & Hr). apply prog_bind_Ok in Hr as (u' & s2 & _ & Hr).
    apply IH in Hr as ->. by rewrite <-!app_assoc.
  - intros Hr. apply IH in Hr as ->. by rewrite <-!app_assoc.
Qed.

(** ** Lemmas: pages *)

Lemma slice_length {A} (l : list A) offset limit :
  0 ≤ limit → (length (slice l offset (offset + limit)) ≤ Z.to_nat limit)%nat.
Proof.
  intros Hl. unfold slice, bound. rewrite length_drop, length_take.
  destruct (Z.ltb_spec offset 0), (Z.ltb_spec (offset + limit) 0); lia.
Qed.

Lemma machine_page_length q d ms limit :
  lq_limit q = Some limit → 0 ≤ limit → machine_page q d = Ok ms →
  (length ms ≤ Z.to_nat (Z.min limit 1000))%nat.
Proof.
  intros Hl H0 Hp. unfold machine_page in Hp. destruct (listed_machines q d) as [l|e]; [|done].
  injection Hp as <-. unfold machine_slice. rewrite Hl. cbn [fmap option_fmap option_map].
  destruct (0 <? Z.min limit 1000) eqn:Hc; [|cbn; lia]. apply slice_length. lia.
Qed.

(** ** Lemmas: counting *)

Definition stats_plus (a b : stats) : stats :=
  mk_stats (st_od_vcpus a + st_od_vcpus b) (st_spot_vcpus a + st_spot_vcpus b)
    (st_od_cap a + st_od_cap b) (st_spot_cap a + st_spot_cap b)
    (st_od_machines a + st_od_machines b) (st_spot_machines a + st_spot_machines b).

Definition stats_sum (l : list stats) : stats := foldr stats_plus no_stats l.

Section counting.
Context `{WatchAttributes} (weighted : bool) (machine_types : dict Z).

Lemma add_machine_plus ref t :
  add_machine weighted machine_types ref t = stats_plus (add_machine weighted machine_types ref no_stats) t.
Proof.
  destruct t. unfold add_machine, stats_plus. destruct (is_spot ref); cbn; f_equal; lia.
Qed.

Lemma stats_plus_assoc a b c : stats_plus a (stats_plus b c) = stats_plus (stats_plus a b) c.
Proof. clear. unfold stats_plus. cbn. f_equal; lia. Qed.
Lemma stats_plus_comm a b : stats_plus a b = stats_plus b a.
Proof. clear. unfold stats_plus. f_equal; lia. Qed.

(** Adding to one zone adds to the sum over the zones. *)
Lemma sum_dset k x (zones : dict stats) :
  stats_sum (dset k (stats_plus x (dget_default k zones no_stats)) zones).*2
  = stats_plus x (stats_sum zones.*2).
Proof.
  clear. unfold dget_default. induction zones as [|[k' t] zones IH].
  - cbn. unfold stats_plus. cbn. f_equal; lia.
  - cbn [dset dget]. destruct (decide (k' = k)) as [->|Hk]; cbn [fmap list_fmap snd fst stats_sum foldr].
    + cbn [default from_option id]. change (foldr stats_plus no_stats zones.*2) with (stats_sum zones.*2).
      by rewrite <-stats_plus_assoc.
    + change (foldr stats_plus no_stats ?l) with (stats_sum l). rewrite IH.
      by rewrite stats_plus_assoc, (stats_plus_comm t x), <-stats_plus_assoc.
Qed.

(** The sums of the counts so far. *)
Definition balanced (t : totals) : Prop :=
  stats_sum (tt_az_stats t).*2 = tt_all t ∧
  st_od_vcpus (tt_all t) + st_spot_vcpus (tt_all t) = tt_vcpus t ∧
  st_od_cap (tt_all t) + st_spot_cap (tt_all t) = tt_capacity t.

Lemma count_ref_balanced t ref : balanced t → balanced (count_ref weighted machine_types t ref).
Proof.
  intros (Hz & Hv & Hc). unfold balanced, count_ref. cbn [tt_az_stats tt_all tt_vcpus tt_capacity].
  split.
  - rewrite add_machine_plus, sum_dset, Hz. by rewrite <-add_machine_plus.
  - destruct (tt_all t). unfold add_machine. cbn in *. destruct (is_spot ref); cbn; lia.
Qed.

Lemma count_ref_machines t ref :
  st_od_machines (tt_all (count_ref weighted machine_types t ref))
    + st_spot_machines (tt_all (count_ref weighted machine_types t ref))
  = st_od_machines (tt_all t) + st_spot_machines (tt_all t) + 1.
Proof. unfold count_ref. cbn [tt_all]. destruct (tt_all t). cbn. destruct (is_spot ref); cbn; lia. Qed.
End counting.

(** ** Lemmas: waiting for several requests *)

Section waiting.
Context {S : Type} (clock : nat → Z) (timeout_seconds : Z) (fetch : prog S (list entry)).
(* between two looks the loop pauses for [interval] *)
Context (Hstart : clock 0%nat ≤ clock 1%nat).
Context (Hpause : ∀ k, (1 ≤ k)%nat → clock k + interval ≤ clock (k + 1)%nat).

(** The looks that can still find time left. *)
Definition remaining (k : nat) : nat := Z.to_nat ((timeout_seconds - (clock k - clock 0%nat) + 1) / 2).

Fixpoint after_fetches (n : nat) (s : S) : S :=
  match n with O => s | Datatypes.S n' => after_fetches n' (fetch s).2 end.

Lemma remaining_decreases k :
  (1 ≤ k)%nat → clock k - clock 0%nat < timeout_seconds → (remaining (k + 1) < remaining k)%nat.
Proof.
  clear Hstart fetch. intros Hk Hlt. unfold remaining. specialize (Hpause k Hk). unfold interval in Hpause.
  assert ((timeout_seconds - (clock (k + 1)%nat - clock 0%nat) + 1) / 2
          ≤ (timeout_seconds - (clock k - clock 0%nat) + 1 + -1 * 2) / 2) as Hle
    by (apply Z.div_le_mono; lia).
  rewrite Z.div_add in Hle by lia.
  assert (1 ≤ (timeout_seconds - (clock k - clock 0%nat) + 1) / 2) by (apply Z.div_le_lower_bound; lia).
  lia.
Qed.

Lemma remaining_first : (remaining 1 ≤ rounds timeout_seconds)%nat.
Proof.
  clear fetch Hpause. unfold remaining, rounds.
  assert ((timeout_seconds - (clock 1%nat - clock 0%nat) + 1) / 2 ≤ (timeout_seconds + 1) / 2)
    by (apply Z.div_le_mono; lia). lia.
Qed.

Lemma wait_loop_enough f1 f2 k xs errors s :
  (1 ≤ k)%nat → (remaining k ≤ f1)%nat → (remaining k ≤ f2)%nat →
  wait_loop clock timeout_seconds fetch f1 k xs errors s =
  wait_loop clock timeout_seconds fetch f2 k xs errors s.
Proof.
  clear Hstart. revert f2 k xs errors s.
  assert (Hout : ∀ f k xs errors s, remaining k = 0%nat →
    wait_loop clock timeout_seconds fetch f k xs errors s = (Ok xs, s)).
  { intros [|f] k xs errors s Hr; [done|]. cbn [wait_loop].
    destruct (Z.ltb_spec (clock k - clock 0%nat) timeout_seconds); [|by rewrite andb_false_r].
    unfold remaining in Hr.
    assert (1 ≤ (timeout_seconds - (clock k - clock 0%nat) + 1) / 2) by (apply Z.div_le_lower_bound; lia).
    lia. }
  induction f1 as [|f1 IH]; intros f2 k xs errors s Hk H1 H2; [by rewrite !Hout by lia|].
  destruct f2 as [|f2]; [by rewrite !Hout by lia|]. cbn [wait_loop].
  destruct (negb _); [|done]. destruct (Z.ltb_spec (clock k - clock 0%nat) timeout_seconds) as [Ht|]; [|done].
  cbn [andb]. destruct (_ <=? errors)%nat; [done|]. unfold mbind, prog_bind.
  destruct (fetch s) as [[xs'|e] s1]; [|done].
  pose proof (remaining_decreases k Hk Ht). apply IH; lia.
Qed.

Lemma wait_loop_fetches f k xs errors s :
  ∃ n, (n ≤ f)%nat ∧ (wait_loop clock timeout_seconds fetch f k xs errors s).2 = after_fetches n s.
Proof.
  clear. revert k xs errors s. induction f as [|f IH]; intros k xs errors s; cbn [wait_loop].
  { by exists 0%nat. }
  destruct (_ && _); [|exists 0%nat; split; [lia|done]].
  destruct (_ <=? errors)%nat; [exists 0%nat; split; [lia|done]|].
  unfold mbind, prog_bind. destruct (fetch s) as [[xs'|e] s1] eqn:Hf.
  - destruct (IH (k + 1)%nat xs' (if _has_transient_error xs' then errors + 1 else 0)%nat s1) as (n & Hn & Hs).
    exists (Datatypes.S n). split; [lia|]. cbn. by rewrite Hf.
  - exists 1%nat. split; [lia|]. cbn. by rewrite Hf.
Qed.
End waiting.

(** ** Theorems *)

(** C17: Waiting for a request comes to an end.  With whatever handlers are behind
    the buses, a poll asks at most once for every two seconds it may take, and it
    ends in one of four ways: with the first final status it is told, with an error
    after three failed queries in a row, because its task is cancelled, or at the
    time limit; nothing earlier could have ended it.  The loop needs no more
    rounds than these, however many it is allowed. *)
Theorem polling_terminates {S A} (query : prog S RequestDTO) (found : RequestDTO → A) timed_out aborted
    timeout_seconds fuel s :
  (rounds timeout_seconds ≤ fuel)%nat →
  ∃ n r, poll_loop query found timed_out aborted timeout_seconds fuel 0 0 s = (r, after_queries query n s) ∧
    ends query found timed_out aborted s 0 (rounds timeout_seconds) n r ∧
    2 * Z.of_nat n ≤ Z.max 0 (timeout_seconds + 1).
Proof.
  intros Hfuel. unfold rounds in *. replace (timeout_seconds + 1) with (timeout_seconds - 0 + 1) in * by lia.
  rewrite poll_loop_fuel by done.
  destruct (poll_loop _ _ _ _ _ _ 0 0 s) as [r s'] eqn:Hp.
  apply poll_loop_ends in Hp as (n & -> & Hends); [|unfold MAX_CONSECUTIVE_POLL_ERRORS; lia|done].
  exists n, r. split_and!; [done|done|].
  assert (n ≤ Z.to_nat ((timeout_seconds - 0 + 1) / 2))%nat by (destruct Hends; lia).
  pose proof (Z.mul_div_le (timeout_seconds - 0 + 1) 2). lia.
Qed.

(** A request that ends in time is reported.  If the [n]-th query of a poll is
    the first to show a final status, there is time for it, and no three queries in
    a row fail before it, then the poll answers with that status. *)
Theorem poll_reports_end {S} `{Buses S} i timeout_seconds s n dto :
  (n < rounds timeout_seconds)%nat →
  answer_at (poll_query i) s n = Ok dto → is_final dto = true →
  (∀ k, (k < n)%nat → goes_on (answer_at (poll_query i) s k) = true) →
  (∀ k, (k < n)%nat → (errors_after (poll_query i) 0 s (k + 1) < MAX_CONSECUTIVE_POLL_ERRORS)%nat) →
  (return_poll i timeout_seconds s).1 = Ok (dto_status dto) ∧
  (acquire_poll i timeout_seconds s).1
    = Ok (dto_status dto, ref_machine_id <$> dto_machine_references dto).
Proof.
  intros Hn Ha Hf Hgo Herr.
  assert (Hpoll : ∀ {A} (found : RequestDTO → A) timed_out aborted,
    (poll_loop (poll_query i) found timed_out aborted timeout_seconds (rounds timeout_seconds) 0 0 s).1
    = Ok (found dto)); [|split; apply Hpoll].
  intros A found timed_out aborted. destruct (poll_loop _ _ _ _ _ _ 0 0 s) as [r s'] eqn:Hp.
  apply poll_loop_ends in Hp as (n' & _ & Hends);
    [|unfold MAX_CONSECUTIVE_POLL_ERRORS; lia|unfold rounds; do 2 f_equal; lia].
  assert (Hnot : goes_on (answer_at (poll_query i) s n) = false) by (rewrite Ha; cbn; by rewrite Hf).
  cbn [fst]. destruct Hends as [n' dto' Ha' Hf' _ Hg' _|n' e Ha' Hc' _ Hg' _ Hm'|n' e Ha' Hc' _ Hg' _|Hg' _].
  - assert (¬ (n < n')%nat) by (intros Hl; specialize (Hg' n Hl); congruence).
    destruct (Nat.lt_trichotomy n' n) as [Hl|[->|Hl]]; [|congruence|lia].
    specialize (Hgo n' Hl). rewrite Ha' in Hgo. cbn in Hgo. by rewrite Hf' in Hgo.
  - assert (¬ (n < n')%nat) by (intros Hl; specialize (Hg' n Hl); congruence).
    destruct (Nat.lt_trichotomy n' n) as [Hl|[->|Hl]]; [specialize (Herr n' Hl); lia|congruence|lia].
  - assert (¬ (n < n')%nat) by (intros Hl; specialize (Hg' n Hl); congruence).
    destruct (Nat.lt_trichotomy n' n) as [Hl|[->|Hl]]; [|congruence|lia].
    specialize (Hgo n' Hl). rewrite Ha' in Hgo. cbn in Hgo. by rewrite Hc' in Hgo.
  - specialize (Hg' n Hn). congruence.
Qed.

(** Waiting for several requests comes to an end as well, once the clock runs: the
    loop looks no more often than there is time, and asks no more often. *)
Theorem status_wait_terminates {S} (clock : nat → Z) timeout_seconds (fetch : prog S (list entry)) fuel xs errors s :
  clock 0%nat ≤ clock 1%nat → (∀ k, (1 ≤ k)%nat → clock k + interval ≤ clock (k + 1)%nat) →
  (looks timeout_seconds ≤ fuel)%nat →
  wait_loop clock timeout_seconds fetch fuel 1 xs errors s
    = wait_loop clock timeout_seconds fetch (looks timeout_seconds) 1 xs errors s ∧
  ∃ n, (n ≤ rounds timeout_seconds)%nat ∧
    (wait_loop clock timeout_seconds fetch fuel 1 xs errors s).2 = after_fetches fetch n s.
Proof.
  intros Hstart Hpause Hfuel. unfold looks in *.
  pose proof (remaining_first clock timeout_seconds Hstart) as Hr.
  split; [apply wait_loop_enough; try done; lia|].
  rewrite (wait_loop_enough clock timeout_seconds fetch Hpause fuel (rounds timeout_seconds)) by lia.
  apply wait_loop_fetches.
Qed.

(** The set of final statuses is the set of the terminal ones: a poll stops at a
    request's status exactly when the request has ended. *)
Theorem final_iff_terminal s :
  (str_lower (RequestStatus.value s) ∈? TERMINAL_STATUSES) = RequestStatus.is_terminal s.
Proof. by destruct s. Qed.


(** A return that skips every machine lets the cancel through.  The machines of
    the request may be unknown to the store, so that the return command leaves all
    of them out; the outcome, [no_op], is not among the blocking ones, and the
    request is cancelled although none of its machines was returned. *)
Theorem cancel_ignores_skipped {S} `{Buses S} i reason s dto s1 command s2 answer s3 :
  sync_and_get (mk_query i false false) s = (Ok dto, s1) → dto_machine_ids dto ≠ [] →
  create_return (dto_machine_ids dto) true s1 = (Ok command, s2) → created_request_ids command = [] →
  cancel_request i reason s2 = (Ok answer, s3) →
  ∃ out, cancel i reason s = (Ok out, s3) ∧ co_return_status out = Some "no_op".
Proof.
  intros Hq Hne Hcr Hnone Hcan. destruct (dto_machine_ids dto) as [|m ms] eqn:Hids; [done|].
  assert (Hmach : return_machines (cancel_return (m :: ms)) s1
    = (Ok (mk_return_output None "no_op" EmptyString (skipped_machines command) [] []), s2)).
  { unfold return_machines. cbn [cancel_return ri_all_machines ri_request_id str_truthy ri_machine_ids].
    unfold return_chosen, mbind, prog_bind. cbn [ri_force cancel_return]. by rewrite Hcr, Hnone. }
  assert (Hret : return_before_cancel i (m :: ms) s1 = (Ok (Some "no_op", EmptyString), s2)).
  { cbn [return_before_cancel]. unfold mbind, prog_bind, catch. fold (cancel_return (m :: ms)).
    by rewrite Hmach. }
  unfold cancel, _collect_machine_ids, catch, mbind, prog_bind. rewrite Hq. cbn [mret prog_ret].
  rewrite Hids, Hret, Hcan. destruct answer as [b f]. by eexists.
Qed.

Lemma attempts_Ok {A} (P : A → Prop) n k ft (body : nat → action A) w a w' :
  P ft → (∀ k w a w', body k w = (Ok a, w') → P a) →
  attempts n k ft body w = (Ok a, w') → P a.
Proof.
  intros Hft Hb. revert k w. induction n as [|n IH]; intros k w; cbn [attempts]; [by intros [= <- _]|].
  destruct (body k w) as [[b|e] w1] eqn:He; [intros [= <- _]; by eapply Hb|].
  destruct e; try done. destruct n; [done|apply IH].
Qed.

Lemma cancel_command_answer sm max_retries clock i reason w b final w' :
  cancel_command sm max_retries clock i reason w = (Ok (b, final), w') →
  b = true → final = Some (RequestStatus.value RequestStatus.CANCELLED).
Proof.
  unfold cancel_command. destruct (i ≟ EmptyString); [done|]. unfold with_conflict_retries.
  apply (attempts_Ok (λ x, x.1 = true → x.2 = Some (RequestStatus.value RequestStatus.CANCELLED)));
    [done|]. intros k w0 x w1 Hb.
  apply action_bind_Ok in Hb as (o & w2 & _ & Hb). destruct o as [settled|events].
  - by injection Hb as <- _.
  - apply action_bind_Ok in Hb as (u & w3 & _ & Hb). by injection Hb as <- _.
Qed.

(** A cancel always claims success.  Over the handlers of this library, every
    answer of the cancel operation says that the request is cancelled, also when
    the request had already ended otherwise and the command changed nothing. *)
Theorem cancel_claims_cancelled {Template Config} (dp : @ports Template Config) p sm max_retries discover
    clock ttl prefix uuid creation i reason s out s' :
  @cancel _ (system_buses dp p sm max_retries discover clock ttl prefix uuid creation) i reason s
    = (Ok out, s') →
  co_status out = RequestStatus.value RequestStatus.CANCELLED.
Proof.
  intros Hc. unfold cancel in Hc. apply prog_bind_Ok in Hc as (ids & s1 & _ & Hc).
  apply prog_bind_Ok in Hc as ([st msg] & s2 & _ & Hc).
  apply prog_bind_Ok in Hc as ([b final] & s3 & Hcan & Hc). injection Hc as <- _. cbn [co_status].
  cbn in Hcan. unfold on_world in Hcan.
  destruct (cancel_command sm max_retries clock i reason (sys_world s2)) as [r w] eqn:Hcmd.
  injection Hcan as -> _. destruct b; [|done]. by rewrite (cancel_command_answer _ _ _ _ _ _ _ _ _ Hcmd eq_refl).
Qed.

(** Returning all machines returns fifty.  A return of all machines, or of all
    machines of a request, lists them with the default limit and asks for no
    further page: at most fifty machines are returned, however many there are, and
    the answer does not say so. *)
Theorem return_all_capped {Template Config} (dp : @ports Template Config) p sm max_retries discover
    clock ttl prefix uuid creation input s out s' :
  @return_machines _ (system_buses dp p sm max_retries discover clock ttl prefix uuid creation) input s
    = (Ok out, s') →
  ri_all_machines input = true ∨ str_truthy (ri_request_id input) = true →
  (length (ro_machine_ids out) ≤ 50)%nat.
Proof.
  set (buses := system_buses dp p sm max_retries discover clock ttl prefix uuid creation). intros Hr Hin.
  assert (Hlist : ∀ q s ids s1, lq_limit q = Some 50 →
    @list_machines _ buses q s = (Ok ids, s1) → (length ids ≤ 50)%nat).
  { intros q s0 ids s1 Hl Hq. cbn in Hq. unfold on_world in Hq.
    destruct (list_machines_query q (sys_world s0)) as [r w] eqn:Hu. injection Hq as -> _.
    apply unit_of_work_Ok in Hu as (d' & Hb & _). destruct (machine_page q _) as [ms|e] eqn:Hm; [|done].
    injection Hb as <- _. rewrite length_fmap. apply (machine_page_length q _ _ 50) in Hm; [done|done|lia]. }
  assert (Hchosen : ∀ ids s0, (length ids ≤ 50)%nat →
    @return_chosen _ buses input ids s0 = (Ok out, s') → (length (ro_machine_ids out) ≤ 50)%nat).
  { intros ids s0 Hlen Hc. apply prog_bind_Ok in Hc as (command & s1 & _ & Hc).
    destruct (created_request_ids command) as [|primary others]; [injection Hc as <- _; cbn; lia|].
    apply prog_bind_Ok in Hc as (st & s2 & _ & Hc). by injection Hc as <- _. }
  unfold return_machines in Hr. destruct (ri_all_machines input).
  - apply prog_bind_Ok in Hr as (ids & s1 & Hl & Hr). apply Hlist in Hl; [|done].
    destruct ids as [|m ms]; [injection Hr as <- _; cbn; lia|by eapply Hchosen].
  - destruct Hin as [|Hin]; [done|]. rewrite Hin in Hr.
    apply prog_bind_Ok in Hr as (ids & s1 & Hl & Hr). apply Hlist in Hl; [|done].
    destruct ids as [|m ms]; [injection Hr as <- _; cbn; lia|by eapply Hchosen].
Qed.

(** The worst outcome of a return is not the one documented: the answer is one of
    the outcomes and of the highest rank, but a partial or timed-out return outranks
    a failed one, which it hides. *)
Theorem failed_hidden_by_partial first rest s :
  s ∈ first :: rest → rank s = 3 → str_lower (max_rank first rest) ≠ "failed".
Proof.
  intros Hs Hr. destruct (max_rank_spec first rest) as [_ Hle]. specialize (Hle s Hs). rewrite Hr in Hle.
  intros Hf. unfold rank in Hle. rewrite Hf in Hle. vm_compute in Hle. by apply Hle.
Qed.

(** Starting and stopping keep their books, by what the provider reports.  The
    machines of the provider's answer are split into those done and those failed,
    and the operation succeeds exactly when none of them failed; a machine that was
    asked for and that the provider's answer leaves out is in neither list, and
    does not count. *)
Theorem power_accounts {S} `{MachineBuses S} operation listed new_status verb past keep input s out s' :
  power operation listed new_status verb past keep input s = (Ok out, s') →
  ∃ ids s1, power_machines listed input s = (Ok ids, s1) ∧
    ((ids = [] ∧ po_done out = [] ∧ po_failed out = [] ∧ po_success out = true) ∨
     ((∃ e, strategy_override input = Err e) ∧ po_done out = [] ∧ po_failed out = ids ∧ po_success out = false) ∨
     ∃ answer results replicas, reported ids answer = Ok (results, replicas) ∧
       po_done out = (filter (λ r, r.2 = true) results).*1 ∧
       po_failed out = (filter (λ r, r.2 = false) results).*1 ∧
       po_success out = forallb snd results).
Proof.
  intros Hp. unfold power in Hp. apply prog_bind_Ok in Hp as (ids & s1 & Hids & Hp).
  exists ids, s1. split; [done|]. destruct ids as [|m ms]; [left; by injection Hp as <- _|right].
  destruct (strategy_override input) as [strategy|e]; [right|left; injection Hp as <- _; eauto].
  apply prog_bind_Ok in Hp as (wh & s2 & _ & Hp). apply prog_bind_Ok in Hp as (answer & s3 & _ & Hp).
  apply prog_bind_Ok in Hp as ([results replicas] & s4 & Hrep & Hp). injection Hrep as Hrep <-.
  apply prog_bind_Ok in Hp as ([done_ failed_] & s5 & Hset & Hp). injection Hp as <- _.
  apply settle_results_spec in Hset. injection Hset as -> ->. exists answer, results, replicas.
  split_and!; [done|done|done|]. cbn [po_success app]. clear.
  induction results as [|[i []] results IH]; [done|exact IH|done].
Qed.

(** The counts of a watched request add up.  For every answer, the machines,
    the virtual processors and the capacity on demand and on spot add up to the
    totals, and the counts of the zones add up to those of the request. *)
Theorem watch_adds_up `{WatchAttributes} weighted machine_types refs :
  let t := watch_totals weighted machine_types refs in
  stats_sum (tt_az_stats t).*2 = tt_all t ∧
  st_od_vcpus (tt_all t) + st_spot_vcpus (tt_all t) = tt_vcpus t ∧
  st_od_cap (tt_all t) + st_spot_cap (tt_all t) = tt_capacity t ∧
  st_od_machines (tt_all t) + st_spot_machines (tt_all t) = Z.of_nat (length refs).
Proof.
  cbv zeta. unfold watch_totals.
  assert (Hgen : ∀ t, balanced t →
    balanced (foldl (count_ref weighted machine_types) t refs) ∧
    st_od_machines (tt_all (foldl (count_ref weighted machine_types) t refs))
      + st_spot_machines (tt_all (foldl (count_ref weighted machine_types) t refs))
    = st_od_machines (tt_all t) + st_spot_machines (tt_all t) + Z.of_nat (length refs)).
  { induction refs as [|ref refs IH]; intros t Ht; cbn [foldl length]; [split; [done|lia]|].
    destruct (IH _ (count_ref_balanced weighted machine_types t ref Ht)) as [Hb Hm]. split; [done|].
    rewrite Hm, count_ref_machines. lia. }
  destruct (Hgen no_totals) as [(Hz & Hv & Hc) Hm]; [done|]. by rewrite Hm.
Qed.

(** The watch sees no processors and no zones: a machine reference has neither
    attribute, so for every request the processors are zero and every machine is
    counted in one zone, [unknown]. *)
Theorem watch_sees_no_vcpus weighted machine_types refs :
  let t := watch_totals weighted machine_types refs in
  tt_vcpus t = 0 ∧ ∀ z, z ∈ dkeys (tt_az_stats t) → z = "unknown".
Proof.
  cbv zeta. unfold watch_totals.
  assert (Hgen : ∀ t, tt_vcpus t = 0 ∧ (∀ z, z ∈ dkeys (tt_az_stats t) → z = "unknown") →
    let t' := foldl (count_ref weighted machine_types) t refs in
    tt_vcpus t' = 0 ∧ ∀ z, z ∈ dkeys (tt_az_stats t') → z = "unknown");
    [|apply Hgen; split; [done|by intros z Hz%not_elem_of_nil]].
  induction refs as [|ref refs IH]; intros t [Hv Hz]; [done|]. apply IH. split.
  - unfold count_ref. cbn [tt_vcpus]. unfold vcpus_of. destruct (str_truthy _); cbn; lia.
  - intros z. unfold count_ref. cbn [tt_az_stats]. rewrite dkeys_dset. case_decide; [apply Hz|].
    intros [Hin| ->%list_elem_of_singleton]%elem_of_app; [by apply Hz|done].
Qed.

(** A fetch that fails hands the stored machines back. *)
Lemma fetch_failed_stored p request dbm now w ms pm w' :
  fetch_provider_machines p request dbm now w = (Ok (FailedProviderFetch ms, pm), w') → ms = dbm.
Proof.
  intros Hf. apply try_Ok in Hf as [Hf|(e & w1 & _ & Hf)].
  2:{ unfold unless_cancelled in Hf. destruct (is_cancelled e); [done|]. by injection Hf as <- _ _. }
  apply action_bind_Ok in Hf as (op & w1 & _ & Hf). destruct op as [op|]; [|done].
  apply action_bind_Ok in Hf as (u & w2 & _ & Hf). destruct (sp_execute p) as [execute|]; [|done].
  apply action_bind_Ok in Hf as (a & w3 & _ & Hf).
  destruct (fr_success a), (fr_data a) as [inst|];
    try (apply action_bind_Ok in Hf as (ms' & w4 & _ & Hf); done); by injection Hf as <- _ _.
Qed.

(** An unreachable provider counts as a sync.  The answer of a machine's refresh
    is documented to say that it failed when the provider call failed; but the fetch
    does not raise then, it hands the stored machine back, and the answer says that
    the machine was synced although nothing was read and nothing changed. *)
Theorem unreachable_machine_synced p i now d published machine request rid ms pm w1 :
  get_machine d i = Some machine → machine_dicts machine →
  Machine.request_id machine = Some rid → rid ≠ EmptyString → get_request d rid = Some request →
  fetch_provider_machines p request [machine] now (quiet d published)
    = (Ok (FailedProviderFetch ms, pm), w1) →
  sync_machine p i now (quiet d published)
    = (Ok (mk_sync_output (Some machine) true None), quiet d published).
Proof.
  intros Hm Hd Hrid Hne Hr Hf. pose proof (fetch_failed_stored _ _ _ _ _ _ _ _ Hf) as ->.
  pose proof (fetch_reads p request [machine] now d published) as Hq. rewrite Hf in Hq. cbn in Hq. subst w1.
  unfold sync_machine. rewrite unit_of_work_quiet. unfold machine_and_request. rewrite Hm.
  cbn [mbind option_bind]. rewrite Hrid. cbn [str_truthy default from_option id].
  rewrite bool_decide_eq_false_2 by done. cbn [negb]. rewrite Hr, Hf. cbn [machines_list].
  rewrite failed_fetch_changes_nothing; [|apply NoDup_singleton|by apply Forall_singleton].
  unfold refreshed_machine. cbn [List.find]. by rewrite bool_decide_eq_true_2.
Qed.

(** ** Witnesses *)

(** The handlers over a provider that cannot be reached. *)
Definition demo_buses : Buses system :=
  system_buses demo_down unreachable demo_sm 3 no_discovery (λ _, 10) (Some 300) "ret-"
    (λ _, "00000000-0000-0000-0000-000000000002") (λ _ _ _ _, mret None).

Definition system_on (d : db) : system := mk_system [] [] (quiet d []).

(** A request that has ended, and one whose machines the store does not know. *)
Definition ended_request : Request.t :=
  live_request <| Request.status := RequestStatus.COMPLETED |> <| Request.machine_ids := [] |>.
Definition ended_db : db := save_request None ended_request (mk_db ∅ ∅).
Definition lost_db : db :=
  save_request None (live_request <| Request.machine_ids := ["i-8"; "i-9"] |>
                                  <| Request.resource_ids := ["fleet-1"] |>) (mk_db ∅ ∅).

Lemma polling_terminates_witness :
  ∃ n r, poll_loop (@poll_query _ demo_buses demo_id) dto_status "timeout" (poll_aborted demo_id) 5 3 0 0
           (system_on ended_db)
         = (r, after_queries (@poll_query _ demo_buses demo_id) n (system_on ended_db)) ∧
         2 * Z.of_nat n ≤ 6.
Proof.
  destruct (polling_terminates (@poll_query _ demo_buses demo_id) dto_status "timeout"
    (poll_aborted demo_id) 5 3 (system_on ended_db)) as (n & r & Hp & _ & Hn); [vm_compute; lia|].
  exists n, r. split; [exact Hp|exact Hn].
Defined.

Lemma poll_reports_end_witness :
  (@return_poll _ demo_buses demo_id 10 (system_on ended_db)).1 = Ok "complete".
Proof.
  edestruct (@poll_reports_end system demo_buses demo_id 10 (system_on ended_db) 0) as [Hr _];
    [vm_compute; lia|vm_compute; reflexivity|vm_compute; reflexivity|intros k Hk; lia|intros k Hk; lia|].
  exact Hr.
Defined.

Lemma status_wait_terminates_witness :
  let fetch := @_fetch_once _ demo_buses true [demo_id] in
  ∃ n, (n ≤ 3)%nat ∧
    (wait_loop (λ k, 2 * Z.of_nat k) 5 fetch 9 1 [] 0 (system_on lost_db)).2
    = after_fetches fetch n (system_on lost_db).
Proof.
  refine (proj2 (status_wait_terminates (λ k, 2 * Z.of_nat k) 5 (@_fetch_once _ demo_buses true [demo_id])
    9 [] 0 (system_on lost_db) _ _ _)).
  - cbn. lia.
  - intros k Hk. unfold interval. lia.
  - vm_compute. lia.
Defined.



Lemma cancel_ignores_skipped_witness :
  ∃ out s3, @cancel _ demo_buses demo_id "mistake" (system_on lost_db) = (Ok out, s3) ∧
    co_return_status out = Some "no_op" ∧
    has_status demo_id RequestStatus.CANCELLED (w_db (sys_world s3)).
Proof.
  edestruct (@cancel_ignores_skipped system demo_buses demo_id "mistake" (system_on lost_db))
    as (out & Hc & Hn);
    [vm_compute; reflexivity|discriminate|vm_compute; reflexivity|reflexivity|vm_compute; reflexivity|].
  exists out. eexists. split; [exact Hc|]. split; [exact Hn|].
  eexists. split; vm_compute; reflexivity.
Defined.

Lemma cancel_claims_cancelled_witness :
  ∃ out s', @cancel _ demo_buses demo_id "mistake" (system_on ended_db) = (Ok out, s') ∧
    co_status out = "cancelled" ∧ has_status demo_id RequestStatus.COMPLETED (w_db (sys_world s')).
Proof.
  do 2 eexists. split; [vm_compute; reflexivity|]. split.
  - refine (cancel_claims_cancelled demo_down unreachable demo_sm 3 no_discovery (λ _, 10) (Some 300) "ret-"
      (λ _, "00000000-0000-0000-0000-000000000002") (λ _ _ _ _, mret None) demo_id "mistake"
      (system_on ended_db) _ _ _). vm_compute. reflexivity.
  - eexists. split; vm_compute; reflexivity.
Defined.

Definition return_everything : ReturnMachinesInput := mk_return_input [] true None false false 300 None None.

Lemma return_all_capped_witness :
  ∃ out s', @return_machines _ demo_buses return_everything (system_on live_db) = (Ok out, s') ∧
    ro_machine_ids out = ["i-1"] ∧ (length (ro_machine_ids out) ≤ 50)%nat.
Proof.
  do 2 eexists. split; [vm_compute; reflexivity|]. split; [reflexivity|].
  refine (return_all_capped demo_down unreachable demo_sm 3 no_discovery (λ _, 10) (Some 300) "ret-"
    (λ _, "00000000-0000-0000-0000-000000000002") (λ _ _ _ _, mret None) return_everything
    (system_on live_db) _ _ _ (or_introl eq_refl)). vm_compute. reflexivity.
Defined.

Lemma failed_hidden_by_partial_witness :
  max_rank "failed" ["partial"] = "partial" ∧ str_lower (max_rank "failed" ["partial"]) ≠ "failed".
Proof.
  split; [reflexivity|].
  apply (failed_hidden_by_partial "failed" ["partial"] "partial"); [|reflexivity].
  right. left.
Defined.

(** A provider that starts one machine and does not mention the other. *)
Definition half_reported : MachineBuses unit :=
  {| list_ids := λ _ _, mret [];
     get_machine_dto := λ _, mret None;
     execute_operation := λ _ _ _ _,
       mret (Some (mk_operation_answer true (Some (mk_operation_data [("i-1", true)] []))));
     update_machine_status := λ _ _, mret ();
     record_replicas := λ _ _, mret ();
     select_active_provider := Ok "aws-1" |}.

Lemma power_accounts_witness :
  ∃ out, @start_machines _ half_reported (mk_power_input ["i-1"; "i-2"] false None None []) ()
         = (Ok out, ()) ∧
    po_done out = ["i-1"] ∧ po_failed out = [] ∧ po_success out = true ∧
    ∃ ids s1, @power_machines _ half_reported "stopped"
                (mk_power_input ["i-1"; "i-2"] false None None []) () = (Ok ids, s1).
Proof.
  eexists. split; [vm_compute; reflexivity|]. split_and!; [reflexivity..|].
  edestruct (@power_accounts unit half_reported "start_instances" "stopped" "pending" "start" "Started" false
    (mk_power_input ["i-1"; "i-2"] false None None []) ()) as (ids & s1 & Hids & _);
    [vm_compute; reflexivity|].
  by exists ids, s1.
Defined.

Lemma unreachable_machine_synced_witness :
  sync_machine unreachable "i-1" 10 (quiet live_db [])
  = (Ok (mk_sync_output (Some live_machine) true None), quiet live_db []).
Proof.
  eapply (unreachable_machine_synced unreachable "i-1" 10 live_db [] live_machine).
  - vm_compute. reflexivity.
  - by repeat split; vm_compute; repeat constructor.
  - reflexivity.
  - discriminate.
  - vm_compute. reflexivity.
  - vm_compute. reflexivity.
Defined.
