(* ===== verification/ProviderSelection.v ===== *)
(** * Which provider serves a template

    [orb/infrastructure/services/provider_selection_service.py] chooses the provider
    instance of a template and [orb/domain/services/template_validation_domain_service.py]
    then checks that the chosen one can serve it, both by the configuration of
    [orb/config/schemas/provider_strategy_schema.py].  [registry_ports] puts the two
    behind the handler of acquire requests of [AcquireMachines].

    A template is the dictionary of its attributes, as in [TemplateOverrides]; its
    provider fields are texts or [None].  The configuration is read once per call:
    [None] when there is none or reading it fails.  A confidence is in tenths. *)

From stdpp Require Import base gmap strings list.
From Stdlib Require Import ZArith Sorted Lia.
From S2P Require Import Prelude RequestTypes Diagnostic RequestAggregate Lifecycle AcquireMachines.
Open Scope Z_scope.

(** ** Configuration

    The fields that the selection and the validation read. *)

Record HandlerConfig := mk_handler {
  handler_class : string;
  model_extra : dict json
}.

Definition merge_with (base override : HandlerConfig) : HandlerConfig :=
  mk_handler (handler_class override) (dmerge (model_extra base) (model_extra override)).

Record ProviderDefaults := mk_defaults { default_handlers : dict HandlerConfig }.

Record ProviderInstanceConfig := mk_instance {
  name : string;
  type : string;
  enabled : bool;
  priority : Z;
  weight : Z;
  handlers : option (dict HandlerConfig);
  handler_overrides : option (dict (option HandlerConfig));
  capabilities : option (list string)
}.

Record ProviderConfig := mk_config {
  selection_policy : string;
  active_provider : option string;
  default_provider_type : option string;
  default_provider_instance : option string;
  provider_defaults : dict ProviderDefaults;
  providers : list ProviderInstanceConfig
}.

(** One entry of the partial overrides: null takes the handler away. *)
Definition apply_override (effective : dict HandlerConfig) (override : string * option HandlerConfig)
  : dict HandlerConfig :=
  match override.2 with
  | None => dpop override.1 effective
  | Some config =>
      match dget override.1 effective with
      | Some inherited => dset override.1 (merge_with inherited config) effective
      | None => dset override.1 config effective
      end
  end.

Definition get_effective_handlers (p : ProviderInstanceConfig) (defaults : option ProviderDefaults)
  : dict HandlerConfig :=
  let inherited := match defaults with Some d => default_handlers d | None => [] end in
  match handlers p with
  | Some ((_ :: _) as own) =>
      match inherited with
      | [] => own
      | _ => (λ kv, (kv.1, match dget kv.1 inherited with
                           | Some base => merge_with base kv.2
                           | None => kv.2
                           end)) <$> own
      end
  | _ => foldl apply_override inherited (default [] (handler_overrides p))
  end.

Definition valid_policies : list string :=
  ["FIRST_AVAILABLE"; "ROUND_ROBIN"; "WEIGHTED_ROUND_ROBIN"; "LEAST_CONNECTIONS"; "FASTEST_RESPONSE";
   "HIGHEST_SUCCESS_RATE"; "CAPABILITY_BASED"; "HEALTH_BASED"; "RANDOM"; "PERFORMANCE_BASED"].

Definition validate_selection_policy (v : string) : result string :=
  if v ∈? valid_policies then Ok v
  else Err (ValueError ("Selection policy must be one of " +:+ list_repr valid_policies)).

Definition validate_weight (v : Z) : result Z :=
  if v <=? 0 then Err (ValueError "Provider weight must be positive") else Ok v.

Definition validate_provider_configuration (c : ProviderConfig) : result ProviderConfig :=
  let provider_names := name <$> providers c in
  if str_truthy (active_provider c) && negb (default EmptyString (active_provider c) ∈? provider_names)
  then Err (ValueError ("Active provider '" +:+ default EmptyString (active_provider c)
                        +:+ "' not found in providers list"))
  else if bool_decide (NoDup provider_names) then Ok c
  else Err (ValueError "Provider names must be unique").

Inductive ProviderMode := SINGLE | MULTI | NONE.

Definition get_mode (c : ProviderConfig) : ProviderMode :=
  if str_truthy (active_provider c) then SINGLE
  else match providers c with
       | [] => NONE
       | all =>
           match List.filter enabled all with
           | _ :: _ :: _ => MULTI
           | [_] => SINGLE
           | [] => if (length all =? 1)%nat then SINGLE else NONE
           end
       end.

Definition multi_provider_policies : list string :=
  ["WEIGHTED_ROUND_ROBIN"; "ROUND_ROBIN"; "LEAST_CONNECTIONS"; "PERFORMANCE_BASED"; "FASTEST_RESPONSE";
   "HIGHEST_SUCCESS_RATE"; "CAPABILITY_BASED"; "HEALTH_BASED"].

Definition get_active_providers (c : ProviderConfig) : list ProviderInstanceConfig :=
  if selection_policy c ∈? multi_provider_policies then List.filter enabled (providers c)
  else match active_provider c with
       | Some active =>
           if active ≟ EmptyString then List.filter enabled (providers c)
           else List.filter (λ p, name p ≟ active) (providers c)
       | None => List.filter enabled (providers c)
       end.

Definition get_provider_by_name (c : ProviderConfig) (n : string) : option ProviderInstanceConfig :=
  List.find (λ p, name p ≟ n) (providers c).

(** ** Choosing among instances *)

(** [min] and [max] with a key: the first of the best. *)
Definition first_best {A} (better : A → A → bool) (x : A) (l : list A) : A :=
  foldl (λ best y, if better y best then y else best) x l.

Definition before (a b : ProviderInstanceConfig) : bool := priority a <? priority b.
Definition heavier (a b : ProviderInstanceConfig) : bool := weight b <? weight a.

(** The list to choose from is [first :: rest]; no caller has an empty one. *)
Definition lowest_priority (first : ProviderInstanceConfig) (rest : list ProviderInstanceConfig)
  : ProviderInstanceConfig := first_best before first rest.

Definition _weighted_round_robin_selection (first : ProviderInstanceConfig)
    (rest : list ProviderInstanceConfig) : ProviderInstanceConfig :=
  match sorted_by (λ a b, priority a <=? priority b) (first :: rest) with
  | [] => first
  | (highest :: _) as sorted_instances =>
      match List.filter (λ i, priority i =? priority highest) sorted_instances with
      | [] => highest
      | [selected] => selected
      | x :: more => first_best heavier x more
      end
  end.

Record ProviderSelectionResult := mk_selected {
  psr_provider_type : string;
  psr_provider_name : string;
  psr_selection_reason : string;
  psr_confidence : Z;
  psr_alternatives : list string
}.

(** The names of the others. *)
Definition others (instances : list ProviderInstanceConfig) (selected : ProviderInstanceConfig)
  : list string :=
  List.filter (λ n, negb (n ≟ name selected)) (name <$> instances).

(** An attribute that is a text and not empty. *)
Definition text_attr (k : string) (template : dict json) : option string :=
  match dget k template with
  | Some (JStr s) => if s ≟ EmptyString then None else Some s
  | _ => None
  end.

Section selection.
Context {F : Type} (config : option ProviderConfig).
(* the strategies in the registry's cache: the APIs each reports, or what asking raises *)
Context (get_strategy : string → option (result (list string))).
(* the fallback strategy of the registry *)
Context (get_fallback_strategy : option F).

Definition all_providers : list ProviderInstanceConfig :=
  match config with Some c => providers c | None => [] end.

Definition _apply_load_balancing_strategy (first : ProviderInstanceConfig)
    (rest : list ProviderInstanceConfig) (policy : option string) : ProviderInstanceConfig :=
  let policy := if negb (str_truthy policy)
                then match config with Some c => Some (selection_policy c) | None => policy end
                else policy in
  if policy ≟ Some "WEIGHTED_ROUND_ROBIN" then _weighted_round_robin_selection first rest
  else if policy ≟ Some "HEALTH_BASED" then lowest_priority first rest
  else if policy ≟ Some "FIRST_AVAILABLE" then first
  else lowest_priority first rest.

Definition _get_provider_instance_config (n : string) : option ProviderInstanceConfig :=
  List.find (λ p, name p ≟ n) all_providers.

Definition _get_enabled_instances_by_type (t : string) : list ProviderInstanceConfig :=
  List.filter (λ p, (type p ≟ t) && enabled p) all_providers.

Definition defaults_for (c : ProviderConfig) (p : ProviderInstanceConfig) : option ProviderDefaults :=
  dget (type p) (provider_defaults c).

Definition _provider_supports_api (p : ProviderInstanceConfig) (api : string) : bool :=
  match config with
  | None => false
  | Some c =>
      if dmem api (get_effective_handlers p (defaults_for c p)) then true
      else if match capabilities p with Some caps => api ∈? caps | None => false end then true
      else match get_strategy (name p) with
           | Some (Ok ((_ :: _) as apis)) => api ∈? apis
           | _ => true
           end
  end.

Definition _find_compatible_providers (api : string) : list ProviderInstanceConfig :=
  List.filter (λ p, enabled p && _provider_supports_api p api) all_providers.

(** The instance a name stands for, when it may be used. *)
Definition usable_instance (n not_found : string) : result ProviderInstanceConfig :=
  match _get_provider_instance_config n with
  | None => Err (ValueError ("Provider instance '" +:+ n +:+ not_found))
  | Some p => if enabled p then Ok p
              else Err (ValueError ("Provider instance '" +:+ n +:+ "' is disabled"))
  end.

Definition _select_by_cli_override (n : string) : result ProviderSelectionResult :=
  p ← usable_instance n "' not found";
  Ok (mk_selected (type p) n ("CLI name override (--provider-name " +:+ n +:+ ")") 10 []).

Definition _select_by_explicit_provider (n : string) : result ProviderSelectionResult :=
  p ← usable_instance n "' not found in configuration";
  Ok (mk_selected (type p) n "Explicitly specified in template" 10 []).

Definition _select_by_provider_type (t : string) : result ProviderSelectionResult :=
  match _get_enabled_instances_by_type t with
  | [] => Err (ValueError ("No enabled instances found for provider type '" +:+ t +:+ "'"))
  | (first :: rest) as instances =>
      let selected := _apply_load_balancing_strategy first rest None in
      Ok (mk_selected t (name selected)
            ("Load balanced across " +:+ fmt (Z.of_nat (length instances)) +:+ " " +:+ t +:+ " instances")
            9 (others instances selected))
  end.

Definition _select_by_api_capability (api : string) : result ProviderSelectionResult :=
  match _find_compatible_providers api with
  | [] => Err (ValueError ("No providers support API '" +:+ api +:+ "'"))
  | (first :: rest) as instances =>
      let selected := lowest_priority first rest in
      Ok (mk_selected (type selected) (name selected) ("Supports required API '" +:+ api +:+ "'")
            8 (others instances selected))
  end.

(** The registered fallback strategy is returned as it is, in place of a selection. *)
Definition _select_default_provider : result (ProviderSelectionResult + F) :=
  match config with
  | None =>
      match get_fallback_strategy with
      | Some fallback => Ok (inr fallback)
      | None => Err (ValueError "No provider configuration available")
      end
  | Some c =>
      let chosen t n :=
        Ok (inl (mk_selected t n "Configuration default (no provider specified in template)" 7 [])) in
      if str_truthy (default_provider_instance c)
      then chosen (default EmptyString (default_provider_type c))
                  (default EmptyString (default_provider_instance c))
      else match List.filter enabled (providers c) with
           | [] => Err (ValueError "No enabled providers found in configuration")
           | first :: _ => chosen (type first) (name first)
           end
  end.

Definition select_provider_for_template (template : dict json) (provider_name : option string)
  : result (ProviderSelectionResult + F) :=
  if str_truthy provider_name
  then inl <$> _select_by_cli_override (default EmptyString provider_name)
  else match text_attr "provider_name" template, text_attr "provider_type" template,
             text_attr "provider_api" template with
       | Some n, _, _ => inl <$> _select_by_explicit_provider n
       | None, Some t, _ => inl <$> _select_by_provider_type t
       | None, None, Some api => inl <$> _select_by_api_capability api
       | None, None, None => _select_default_provider
       end.

Definition balanced (c : ProviderConfig) (instances : list ProviderInstanceConfig)
    (none_found : string) (single balanced_prefix : string) : result ProviderSelectionResult :=
  match instances with
  | [] => Err (ValueError none_found)
  | [selected] =>
      Ok (mk_selected (type selected) (name selected) single 10 (others instances selected))
  | first :: rest =>
      let selected := _apply_load_balancing_strategy first rest (Some (selection_policy c)) in
      Ok (mk_selected (type selected) (name selected)
            (balanced_prefix +:+ "load_balanced_" +:+ str_lower (selection_policy c))
            10 (others instances selected))
  end.

Definition select_active_provider (provider_name provider_type : option string)
  : result ProviderSelectionResult :=
  if str_truthy provider_name then
    let n := default EmptyString provider_name in
    p ← usable_instance n "' not found in configuration";
    Ok (mk_selected (type p) n "CLI name override (--provider-name)" 10 [])
  else
    match config with
    | None => Err (ValueError "No provider configuration available")
    | Some c =>
        match get_active_providers c with
        | [] => Err (ValueError "No active providers found in configuration")
        | active =>
            if str_truthy provider_type then
              let t := default EmptyString provider_type in
              let how := "CLI type override (--provider-type " +:+ t +:+ ") " in
              balanced c (List.filter (λ p, type p ≟ t) active)
                ("No active providers of type '" +:+ t +:+ "'") (how +:+ "single_active_match") how
            else balanced c active "No active providers found in configuration"
                   "single_active_provider" EmptyString
        end
    end.
End selection.

(** ** Checking a template against the chosen instance *)

Inductive ValidationLevel := STRICT | PERMISSIVE | WARN_ONLY.

Record ValidationResult := mk_validation {
  is_valid : bool;
  provider_instance : string;
  errors : list string;
  warnings : list string;
  supported_features : list string;
  unsupported_features : list string
}.
#[export] Instance set_is_valid : Setter is_valid :=
  λ f r, mk_validation (f (is_valid r)) (provider_instance r) (errors r) (warnings r) (supported_features r) (unsupported_features r).
#[export] Instance set_errors : Setter errors :=
  λ f r, mk_validation (is_valid r) (provider_instance r) (f (errors r)) (warnings r) (supported_features r) (unsupported_features r).
#[export] Instance set_warnings : Setter warnings :=
  λ f r, mk_validation (is_valid r) (provider_instance r) (errors r) (f (warnings r)) (supported_features r) (unsupported_features r).
#[export] Instance set_supported_features : Setter supported_features :=
  λ f r, mk_validation (is_valid r) (provider_instance r) (errors r) (warnings r) (f (supported_features r)) (unsupported_features r).

(** A check adds to the result, and may raise after that. *)
Definition check : Type := ValidationResult → ValidationResult * result unit.

Definition passes : check := λ r, (r, Ok ()).
Definition raises (e : exn) : check := λ r, (r, Err e).
Definition error (m : string) : check := λ r, (r <| errors := errors r ++ [m] |>, Ok ()).
Definition warning (m : string) : check := λ r, (r <| warnings := warnings r ++ [m] |>, Ok ()).
Definition supported (m : string) : check := λ r,
  (r <| supported_features := supported_features r ++ [m] |>, Ok ()).

Definition and_then (c1 c2 : check) : check := λ r,
  match c1 r with
  | (r', Ok _) => c2 r'
  | (r', Err e) => (r', Err e)
  end.

Record _ProviderCapabilities := mk_capabilities {
  caps_provider_type : string;
  supported_apis : list string;
  api_capabilities : dict (dict json)
}.

(** What the configuration of a handler says about its API. *)
Definition api_capability (h : HandlerConfig) : dict json :=
  let extra := model_extra h in
  [("supports_spot", dget_default "supports_spot" extra (JBool false));
   ("supports_on_demand", match dget "supports_ondemand" extra with
                          | Some v => v
                          | None => dget_default "supports_on_demand" extra (JBool true)
                          end);
   ("supported_fleet_types", jor (dget_default "supported_fleet_types" extra JNull) (JList []))].

Definition _get_config_based_capabilities (config : option ProviderConfig) (instance : string)
  : result _ProviderCapabilities :=
  match config with
  | None => Err (EntityNotFoundError "ProviderInstance" instance)
  | Some c =>
      match get_provider_by_name c instance with
      | None => Err (EntityNotFoundError "ProviderInstance" instance)
      | Some p =>
          let effective := get_effective_handlers p (defaults_for c p) in
          Ok (mk_capabilities (type p) (dkeys effective)
                ((λ kv, (kv.1, api_capability kv.2)) <$> effective))
      end
  end.

Definition py_type (j : json) : string :=
  match j with
  | JNull => "NoneType" | JBool _ => "bool" | JInt _ => "int" | JStr _ => "str"
  | JList _ => "list" | JDict _ => "dict"
  end.

(** [x in container]. *)
Definition text_in (x : string) (container : json) : result bool :=
  match container with
  | JList l => Ok (existsb (λ j, match j with JStr s => s ≟ x | _ => false end) l)
  | JStr s => Ok (contains x s)
  | JDict d => Ok (dmem x d)
  | other => Err (TypeError ("argument of type '" +:+ py_type other +:+ "' is not iterable"))
  end.

Section validation.
Context (template : dict json) (caps : _ProviderCapabilities).

Definition caps_of (api : string) : dict json := dget_default api (api_capabilities caps) [].

(** The checks that need an API are skipped without one. *)
Definition with_api (k : string → check) : check :=
  match text_attr "provider_api" template with Some api => k api | None => passes end.

Definition _validate_api_support : check :=
  match text_attr "provider_api" template with
  | None => warning "No provider API specified in template"
  | Some api =>
      if api ∈? supported_apis caps then supported ("API: " +:+ api)
      else error ("Provider does not support API '" +:+ api +:+ "'. Supported APIs: "
                  +:+ list_repr (supported_apis caps))
  end.

Definition _validate_pricing_model : check :=
  with_api (λ api,
    match dget_default "price_type" template (JStr "ondemand") with
    | JStr price_type =>
        if price_type ≟ "spot" then
          if truthy (dget_default "supports_spot" (caps_of api) (JBool false))
          then supported "Pricing: Spot instances"
          else error ("API '" +:+ api +:+ "' does not support spot instances")
        else if price_type ≟ "ondemand" then
          if truthy (dget_default "supports_on_demand" (caps_of api) (JBool true))
          then supported "Pricing: On-demand instances"
          else error ("API '" +:+ api +:+ "' does not support on-demand instances")
        else passes
    | _ => passes
    end).

Definition _validate_fleet_type_support : check :=
  with_api (λ api,
    match text_attr "fleet_type" template with
    | None => passes
    | Some fleet_type =>
        let types := dget_default "supported_fleet_types" (caps_of api) (JList []) in
        if truthy types then
          match text_in fleet_type types with
          | Err e => raises e
          | Ok true => supported ("Fleet type: " +:+ fleet_type)
          | Ok false => error ("API '" +:+ api +:+ "' does not support fleet type '" +:+ fleet_type
                               +:+ "'. Supported types: " +:+ json_str types)
          end
        else passes
    end).

(** [requested > max_instances]; the limit is infinite when none is given. *)
Definition exceeds (requested : json) (limit : option json) : result bool :=
  let number j := match j with JInt n => Some n | JBool b => Some (Z.b2z b) | _ => None end in
  let refused l := Err (TypeError ("'>' not supported between instances of '" +:+ py_type requested
                                   +:+ "' and '" +:+ l +:+ "'")) in
  match number requested, limit with
  | Some _, None => Ok false
  | Some n, Some l => match number l with Some m => Ok (m <? n) | None => refused (py_type l) end
  | None, None => refused "float"
  | None, Some l => refused (py_type l)
  end.

Definition requested_machines : json :=
  match dget_default "max_machines" template JNull with
  | JNull => dget_default "max_instances" template (JInt 0)
  | requested => requested
  end.

Definition _validate_instance_limits : check :=
  with_api (λ api,
    let limit := dget "max_instances" (caps_of api) in
    match exceeds requested_machines limit with
    | Err e => raises e
    | Ok true => error ("Requested " +:+ json_str requested_machines +:+ " instances exceeds API limit of "
                        +:+ match limit with Some l => json_str l | None => "inf" end)
    | Ok false => supported ("Instance count: " +:+ json_str requested_machines +:+ " (within limit)")
    end).

Definition all_checks : check :=
  and_then _validate_api_support (and_then _validate_pricing_model
    (and_then _validate_fleet_type_support _validate_instance_limits)).
End validation.

Definition settle_level (level : ValidationLevel) (r : ValidationResult) : ValidationResult :=
  let r := match level, warnings r with
           | STRICT, _ :: _ => r <| errors := errors r ++ warnings r |> <| warnings := [] |>
           | PERMISSIVE, _ => r <| warnings := [] |>
           | _, _ => r
           end in
  r <| is_valid := match errors r with [] => true | _ => false end |>.

Definition validate_template_requirements (config : option ProviderConfig) (template : dict json)
    (instance : string) (level : ValidationLevel) : ValidationResult :=
  let failed r e := r <| is_valid := false |> <| errors := errors r ++ ["Validation error: " +:+ exn_str e] |> in
  let start := mk_validation true instance [] [] [] [] in
  match _get_config_based_capabilities config instance with
  | Err e => failed start e
  | Ok caps =>
      match all_checks template caps start with
      | (r, Err e) => failed r e
      | (r, Ok _) => settle_level level r
      end
  end.

(** ** Behind the acquire handler *)

(** [render] writes a number of tenths. *)
Definition to_selection (render : Z → json) (r : ProviderSelectionResult) : selection :=
  mk_selection (psr_provider_type r) (psr_provider_name r) (psr_selection_reason r)
    (render (psr_confidence r)).

(** The handler reads the selection's name first: of a strategy there is none. *)
Definition selection_of {F} (render : Z → json) (r : ProviderSelectionResult + F) : result selection :=
  match r with
  | inl r => Ok (to_selection render r)
  | inr _ => Err (OtherError "AttributeError"
                    "'FallbackProviderStrategy' object has no attribute 'provider_name'")
  end.

Definition registry_ports {F} (render : Z → json) (config : option ProviderConfig)
    (get_strategy : string → option (result (list string))) (fallback : option F)
    (base : acquire_ports) : acquire_ports :=
  mk_acquire_ports (ap_template base)
    (λ template, select_provider_for_template config get_strategy fallback template None
                 ≫= selection_of render)
    (ap_validator base)
    (λ template instance,
       let r := validate_template_requirements config template instance PERMISSIVE in
       Ok (is_valid r, errors r))
    (ap_validate_template base) (ap_diagnostic base) (ap_moment base) (ap_can_tag base) (ap_publish base).

(** ** Choices *)

(** [y] is the first of those in [l] that have the least key. *)
Definition first_min {A} (key : A → Z) (l : list A) (y : A) : Prop :=
  ∃ l1 l2, l = l1 ++ y :: l2 ∧ (∀ z, z ∈ l1 → key y < key z) ∧ (∀ z, z ∈ l2 → key y ≤ key z).

Lemma first_min_elem {A} (key : A → Z) l y : first_min key l y → y ∈ l.
Proof. intros (l1 & l2 & -> & _). set_solver. Qed.

Lemma first_min_le {A} (key : A → Z) l y z : first_min key l y → z ∈ l → key y ≤ key z.
Proof.
  intros (l1 & l2 & -> & H1 & H2) [Hz | [->|Hz]%elem_of_cons]%elem_of_app; [|lia|auto].
  apply H1 in Hz. lia.
Qed.

Lemma first_best_min {A} (better : A → A → bool) (key : A → Z) x l :
  (∀ a b, better a b = (key a <? key b)) → first_min key (x :: l) (first_best better x l).
Proof.
  intros Hb. induction l as [|y l IH] using rev_ind.
  { exists [], []. split_and!; [done|set_solver|set_solver]. }
  unfold first_best. rewrite foldl_app. cbn [foldl]. fold (first_best better x l). rewrite Hb.
  destruct (Z.ltb_spec (key y) (key (first_best better x l))) as [Hlt|Hge].
  - exists (x :: l), []. split_and!; [done| |set_solver].
    intros z Hz. apply (first_min_le _ _ _ _ IH) in Hz. lia.
  - destruct IH as (l1 & l2 & Heq & H1 & H2). exists l1, (l2 ++ [y]).
    split_and!; [|done|].
    + change (x :: l ++ [y]) with ((x :: l) ++ [y]). rewrite Heq. by rewrite <- app_assoc.
    + intros z [Hz|Hz]%elem_of_app; [auto|]. apply list_elem_of_singleton in Hz as ->. lia.
Qed.

Lemma lowest_priority_min first rest :
  first_min priority (first :: rest) (lowest_priority first rest).
Proof. by apply first_best_min. Qed.

(** Sorting by a key leaves the elements of one key in their order. *)
Lemma sorted_by_class {A} (key : A → Z) (m : Z) l :
  List.filter (λ i, key i =? m) (sorted_by (λ a b, key a <=? key b) l)
  = List.filter (λ i, key i =? m) l.
Proof.
  assert (Hins : ∀ x l', List.filter (λ i, key i =? m) (insert_sorted (λ a b, key a <=? key b) x l')
                         = List.filter (λ i, key i =? m) (x :: l')).
  { intros x l'. induction l' as [|y l' IH]; [done|]. cbn [insert_sorted].
    destruct (Z.leb_spec (key x) (key y)) as [|Hlt]; [done|].
    cbn [List.filter] in *. rewrite IH. destruct (Z.eqb_spec (key y) m), (Z.eqb_spec (key x) m); done || lia. }
  induction l as [|x l IH]; [done|]. unfold sorted_by in *. cbn [foldr].
  rewrite Hins. cbn [List.filter]. by rewrite IH.
Qed.

Lemma heavier_key a b : heavier a b = (- weight a <? - weight b).
Proof. unfold heavier. destruct (Z.ltb_spec (weight b) (weight a)), (Z.ltb_spec (- weight a) (- weight b)); done || lia. Qed.

Lemma weighted_selection_spec first rest :
  let p := _weighted_round_robin_selection first rest in
  (∀ z, z ∈ first :: rest → priority p ≤ priority z) ∧
  first_min (λ i, - weight i) (List.filter (λ i, priority i =? priority p) (first :: rest)) p.
Proof.
  cbn zeta. unfold _weighted_round_robin_selection.
  pose proof (sorted_by_perm (λ a b, priority a <=? priority b) (first :: rest)) as Hperm.
  pose proof (sorted_by_sorted (λ a b, priority a <=? priority b)
    (λ x y, ltac:(rewrite !Z.leb_le; lia)) (λ x y z, ltac:(rewrite !Z.leb_le; lia)) (first :: rest)) as Hs.
  destruct (sorted_by _ (first :: rest)) as [|h s] eqn:Hsort.
  { apply Permutation_nil in Hperm. done. }
  assert (Hmin : ∀ z, z ∈ first :: rest → priority h ≤ priority z).
  { intros z Hz. rewrite <- Hperm in Hz. apply elem_of_cons in Hz as [->|Hz]; [lia|].
    inversion Hs as [|? ? _ Hall]; subst. rewrite Forall_forall in Hall.
    specialize (Hall z Hz). cbn in Hall. by apply Z.leb_le in Hall. }
  rewrite <- Hsort, sorted_by_class.
  assert (Hfm : ∀ p, first_min (λ i, - weight i) (List.filter (λ i, priority i =? priority h) (first :: rest)) p →
    (∀ z, z ∈ first :: rest → priority p ≤ priority z) ∧
    first_min (λ i, - weight i) (List.filter (λ i, priority i =? priority p) (first :: rest)) p).
  { intros p Hp. assert (priority p = priority h) as ->; [|done].
    apply first_min_elem, list_elem_of_In, filter_In in Hp as [_ Hp]. by apply Z.eqb_eq. }
  destruct (List.filter _ _) as [|x [|y more]] eqn:Hf.
  - exfalso. assert (h ∈ first :: rest) as Hh by (rewrite <- Hperm; left).
    apply list_elem_of_In in Hh. assert (In h []) as []. rewrite <- Hf. apply filter_In. split; [done|apply Z.eqb_refl].
  - apply Hfm. apply (first_best_min heavier (λ i, - weight i) x []), heavier_key.
  - apply Hfm, first_best_min, heavier_key.
Qed.

(** What a policy chooses from a list. *)
Definition preferred (policy : string) (l : list ProviderInstanceConfig) (p : ProviderInstanceConfig)
  : Prop :=
  if policy ≟ "FIRST_AVAILABLE" then head l = Some p
  else if policy ≟ "WEIGHTED_ROUND_ROBIN"
  then (∀ z, z ∈ l → priority p ≤ priority z) ∧
       first_min (λ i, - weight i) (List.filter (λ i, priority i =? priority p) l) p
  else first_min priority l p.

Lemma balancing_preferred config first rest policy :
  policy ≠ EmptyString →
  preferred policy (first :: rest) (_apply_load_balancing_strategy config first rest (Some policy)).
Proof.
  intros Hne. unfold _apply_load_balancing_strategy, preferred. cbn [str_truthy].
  rewrite (bool_decide_eq_false_2 _ Hne). cbn [negb].
  destruct (decide (policy = "WEIGHTED_ROUND_ROBIN")) as [->|Hw].
  { cbn. apply weighted_selection_spec. }
  rewrite (bool_decide_eq_false_2 (Some policy = Some "WEIGHTED_ROUND_ROBIN")) by congruence.
  destruct (decide (policy = "FIRST_AVAILABLE")) as [->|Hf]; [done|].
  rewrite (bool_decide_eq_false_2 (policy = "FIRST_AVAILABLE")) by done.
  rewrite (bool_decide_eq_false_2 (policy = "WEIGHTED_ROUND_ROBIN")) by done.
  destruct (bool_decide (Some policy = Some "HEALTH_BASED")); [apply lowest_priority_min|].
  rewrite bool_decide_eq_false_2 by congruence. apply lowest_priority_min.
Qed.

Lemma preferred_elem policy l p : preferred policy l p → p ∈ l.
Proof.
  unfold preferred. destruct (bool_decide _).
  { destruct l; [done|]. intros [= ->]. left. }
  destruct (bool_decide _); [|apply first_min_elem].
  intros [_ H%first_min_elem]. apply list_elem_of_In, filter_In in H as [H _]. by apply list_elem_of_In.
Qed.

(** ** Selection *)

(** What a template and the caller ask for, and what serves it. *)
Inductive demand := ByName (n : string) | ByType (t : string) | ByApi (api : string) | Anything.

Definition demanded (template : dict json) (provider_name : option string) : demand :=
  if str_truthy provider_name then ByName (default EmptyString provider_name)
  else match text_attr "provider_name" template, text_attr "provider_type" template,
             text_attr "provider_api" template with
       | Some n, _, _ => ByName n
       | None, Some t, _ => ByType t
       | None, None, Some api => ByApi api
       | None, None, None => Anything
       end.

(** The strategy of an instance lists the APIs it has, and this one is not among
    them. *)
Definition disowned (get_strategy : string → option (result (list string)))
    (p : ProviderInstanceConfig) (api : string) : bool :=
  match get_strategy (name p) with
  | Some (Ok apis) => bool_decide (apis ≠ [] ∧ api ∉ apis)
  | _ => false
  end.

(** An instance serves an API when the configuration gives it a handler or lists it
    among its capabilities, or when its strategy does not disown it. *)
Definition serves (c : ProviderConfig) (get_strategy : string → option (result (list string)))
    (d : demand) (p : ProviderInstanceConfig) : bool :=
  match d with
  | ByName n => name p ≟ n
  | ByType t => type p ≟ t
  | ByApi api =>
      bool_decide (api ∈ dkeys (get_effective_handlers p (dget (type p) (provider_defaults c))) ∨
                   api ∈ default [] (capabilities p) ∨
                   disowned get_strategy p api = false)
  | Anything => true
  end.

Lemma supports_api_spec c get_strategy p api :
  _provider_supports_api (Some c) get_strategy p api = serves c get_strategy (ByApi api) p.
Proof.
  unfold _provider_supports_api, serves, defaults_for, disowned.
  destruct (dmem api _) eqn:Hh.
  { symmetry. apply bool_decide_eq_true_2. left. by apply dmem_elem_of. }
  assert (api ∉ dkeys (get_effective_handlers p (dget (type p) (provider_defaults c)))) as Hno
    by (intros ?%dmem_elem_of; congruence).
  destruct (match capabilities p with Some caps => api ∈? caps | None => false end) eqn:Hc.
  { symmetry. apply bool_decide_eq_true_2. right. left. destruct (capabilities p) as [caps|]; [|done].
    by apply bool_decide_eq_true in Hc. }
  assert (api ∉ default [] (capabilities p)) as Hno'.
  { destruct (capabilities p) as [caps|]; [by apply bool_decide_eq_false in Hc|apply not_elem_of_nil]. }
  destruct (get_strategy (name p)) as [[[|x apis]|e]|];
    try (symmetry; apply bool_decide_eq_true_2; right; right; done).
  apply bool_decide_ext. rewrite bool_decide_eq_false. split; [intros ?; right; right; naive_solver|].
  intros [?|[?|Hn]]; [done|done|]. destruct (decide (api ∈ x :: apis)); [done|]. by destruct Hn.
Qed.

(** Which of the instances that may serve is taken. *)
Definition taken (policy : string) (d : demand) (l : list ProviderInstanceConfig)
    (p : ProviderInstanceConfig) : Prop :=
  match d with
  | ByType _ => preferred policy l p
  | ByApi _ => first_min priority l p
  | _ => head l = Some p
  end.

Definition config_ok (c : ProviderConfig) : Prop :=
  validate_provider_configuration c = Ok c ∧
  validate_selection_policy (selection_policy c) = Ok (selection_policy c).

Lemma config_ok_NoDup c : config_ok c → NoDup (name <$> providers c).
Proof.
  intros [H _]. unfold validate_provider_configuration in H. destruct (_ && _); [done|].
  destruct (bool_decide _) eqn:Hd; [by apply bool_decide_eq_true in Hd|done].
Qed.

Lemma config_ok_policy c : config_ok c → selection_policy c ≠ EmptyString.
Proof. intros [_ H] He. rewrite He in H. vm_compute in H. done. Qed.

Lemma find_filter_head {A} (f : A → bool) l : List.find f l = head (List.filter f l).
Proof. induction l as [|x l IH]; cbn; [done|]. by destruct (f x). Qed.

Lemma filter_find_enabled {A} (f g : A → bool) l x :
  (∀ y z, y ∈ l → z ∈ l → f y = true → f z = true → y = z) →
  List.find f l = Some x → head (List.filter (λ y, g y && f y) l) = if g x then Some x else None.
Proof.
  intros Huniq Hf. apply find_some in Hf as Hx. destruct Hx as [Hin Hfx]. apply list_elem_of_In in Hin.
  destruct (g x) eqn:Hg.
  - assert (Hall : ∀ y, y ∈ List.filter (λ y, g y && f y) l → y = x).
    { intros y Hy. apply list_elem_of_In, filter_In in Hy as [Hy [_ Hfy]%andb_prop].
      apply Huniq; [by apply list_elem_of_In|done|done|done]. }
    assert (Hmem : x ∈ List.filter (λ y, g y && f y) l).
    { apply list_elem_of_In, filter_In. by rewrite <- list_elem_of_In, Hg, Hfx. }
    destruct (List.filter _ l) as [|y l']; [by apply not_elem_of_nil in Hmem|].
    cbn. f_equal. apply Hall. left.
  - destruct (List.filter _ l) as [|y l'] eqn:Hl; [done|].
    assert (In y (List.filter (λ y, g y && f y) l)) as [Hy [Hgy Hfy]%andb_prop]%filter_In by (rewrite Hl; left; done).
    rewrite (Huniq y x) in Hgy; [congruence|by apply list_elem_of_In|done|done|done].
Qed.

(** Two instances of one name are the same. *)
Lemma name_unique c p q :
  config_ok c → p ∈ providers c → q ∈ providers c → name p = name q → p = q.
Proof.
  intros Hok Hp Hq Heq. apply list_elem_of_lookup in Hp as [i Hi], Hq as [j Hj].
  assert (i = j) as ->; [|congruence].
  apply (NoDup_lookup (name <$> providers c) i j (name p)).
  - by apply config_ok_NoDup.
  - by rewrite list_lookup_fmap, Hi.
  - by rewrite list_lookup_fmap, Hj, Heq.
Qed.

Section refinement.
Context {F : Type} (c : ProviderConfig) (get_strategy : string → option (result (list string))).
Context (fallback : option F).
Context (Hok : config_ok c).

Definition candidates (d : demand) : list ProviderInstanceConfig :=
  List.filter (λ p, enabled p && serves c get_strategy d p) (providers c).

(** What a choice from the candidates must be. *)
Definition choice_of (d : demand) (r : result ProviderSelectionResult) : Prop :=
  match r with
  | Ok s => ∃ p, taken (selection_policy c) d (candidates d) p ∧
                 psr_provider_name s = name p ∧ psr_provider_type s = type p
  | Err _ => candidates d = []
  end.

Lemma usable_instance_spec n text :
  match usable_instance (Some c) n text with
  | Ok p => head (candidates (ByName n)) = Some p ∧ name p = n
  | Err _ => candidates (ByName n) = []
  end.
Proof using Hok.
  unfold usable_instance, _get_provider_instance_config. cbn [all_providers].
  destruct (List.find _ _) as [p|] eqn:Hf.
  - apply (filter_find_enabled _ enabled) in Hf as Hh.
    2:{ intros y z Hy Hz H1%bool_decide_eq_true H2%bool_decide_eq_true. apply (name_unique c); congruence. }
    apply find_some in Hf as [_ Hn%bool_decide_eq_true]. change (head (candidates (ByName n)) = if enabled p then Some p else None) in Hh.
    destruct (enabled p); [done|]. by destruct (candidates (ByName n)).
  - unfold candidates. destruct (List.filter _ _) as [|y l] eqn:Hl; [done|].
    assert (In y (y :: l)) as Hy by (left; done). rewrite <- Hl in Hy. apply filter_In in Hy as [Hy Hb].
    apply (find_none _ _ Hf) in Hy. cbn in Hb. rewrite Hy, andb_false_r in Hb. done.
Qed.

Lemma by_type_candidates t : _get_enabled_instances_by_type (Some c) t = candidates (ByType t).
Proof. unfold candidates. cbn. apply filter_ext. intros p. apply andb_comm. Qed.

Lemma balancing_none first rest :
  _apply_load_balancing_strategy (Some c) first rest None =
  _apply_load_balancing_strategy (Some c) first rest (Some (selection_policy c)).
Proof. unfold _apply_load_balancing_strategy. by destruct (str_truthy (Some (selection_policy c))). Qed.

Lemma by_type_choice t : choice_of (ByType t) (_select_by_provider_type (Some c) t).
Proof using Hok.
  unfold _select_by_provider_type. rewrite by_type_candidates.
  destruct (candidates (ByType t)) as [|first rest] eqn:Hc; [done|].
  pose proof (balancing_preferred (Some c) first rest _ (config_ok_policy c Hok)) as Hp.
  cbn [choice_of]. rewrite Hc, balancing_none. eexists. split; [exact Hp|]. split; [done|].
  apply preferred_elem in Hp. rewrite <- Hc in Hp.
  apply list_elem_of_In, filter_In in Hp as [_ [_ Ht]%andb_prop]. cbn in Ht. by apply bool_decide_eq_true in Ht.
Qed.

Lemma by_api_choice api : choice_of (ByApi api) (_select_by_api_capability (Some c) get_strategy api).
Proof.
  unfold _select_by_api_capability.
  assert (_find_compatible_providers (Some c) get_strategy api = candidates (ByApi api)) as ->
    by (apply filter_ext; intros p; by rewrite supports_api_spec).
  destruct (candidates (ByApi api)) as [|first rest] eqn:Hc; [done|].
  cbn [choice_of]. rewrite Hc. exists (lowest_priority first rest). split; [apply lowest_priority_min|done].
Qed.
End refinement.

(** The one case in which nothing is checked: the configured default. *)
Definition unchecked_default (c : ProviderConfig) (d : demand) : bool :=
  match d with Anything => str_truthy (default_provider_instance c) | _ => false end.

Lemma choice_lift {F} c get_strategy d (r : result ProviderSelectionResult) :
  choice_of c get_strategy d r →
  match (inl <$> r : result (ProviderSelectionResult + F)) with
  | Ok (inl s) => choice_of c get_strategy d (Ok s)
  | Ok (inr _) => False
  | Err e => choice_of c get_strategy d (Err e)
  end.
Proof. by destruct r. Qed.

Lemma selection_choice {F} c get_strategy (fallback : option F) template provider_name :
  config_ok c →
  let d := demanded template provider_name in
  unchecked_default c d = false →
  match select_provider_for_template (Some c) get_strategy fallback template provider_name with
  | Ok (inl s) => choice_of c get_strategy d (Ok s)
  | Ok (inr _) => False
  | Err e => choice_of c get_strategy d (Err e)
  end.
Proof.
  intros Hok d Hd. subst d. unfold select_provider_for_template, demanded in *.
  assert (Hname : ∀ n text (k : ProviderInstanceConfig → ProviderSelectionResult),
    (∀ p, psr_provider_name (k p) = n ∧ psr_provider_type (k p) = type p) →
    choice_of c get_strategy (ByName n) (p ← usable_instance (Some c) n text; Ok (k p))).
  { intros n text k Hk. pose proof (usable_instance_spec c get_strategy Hok n text) as Hu.
    destruct (usable_instance _ _ _) as [p|e]; cbn; [|done]. destruct Hu as [Hh Hn].
    exists p. destruct (Hk p) as [-> ->]. by rewrite Hn. }
  destruct (str_truthy provider_name); [by apply choice_lift, Hname|].
  destruct (text_attr "provider_name" template) as [n|]; [by apply choice_lift, Hname|].
  destruct (text_attr "provider_type" template) as [t|]; [by apply choice_lift, by_type_choice|].
  destruct (text_attr "provider_api" template) as [api|]; [by apply choice_lift, by_api_choice|].
  cbn [unchecked_default] in Hd. unfold _select_default_provider. rewrite Hd.
  assert (Hc : candidates c get_strategy Anything = List.filter enabled (providers c)).
  { unfold candidates. apply filter_ext. intros p. apply andb_true_r. }
  destruct (List.filter enabled (providers c)) as [|first rest] eqn:Hf; cbn; rewrite Hc; [done|].
  exists first. done.
Qed.


Definition plain_instance (n t : string) (on : bool) (prio w : Z) : ProviderInstanceConfig :=
  mk_instance n t on prio w None None None.
Definition fleet_handlers : dict HandlerConfig :=
  [("EC2Fleet", mk_handler "EC2FleetHandler" [("supports_spot", JBool true)]);
   ("RunInstances", mk_handler "RunInstancesHandler" [])].
Definition no_strategies : string → option (result (list string)) := λ _, None.


(** ** Active providers *)

Lemma active_providers_spec c p :
  p ∈ get_active_providers c →
  p ∈ providers c ∧
  (enabled p = true ∨
   (selection_policy c ∉ multi_provider_policies ∧ active_provider c = Some (name p))).
Proof.
  unfold get_active_providers. intros Hp.
  destruct (bool_decide (selection_policy c ∈ _)) eqn:Hm.
  { apply list_elem_of_In, filter_In in Hp as [Hp%list_elem_of_In He]. auto. }
  apply bool_decide_eq_false in Hm.
  destruct (active_provider c) as [a|].
  2:{ apply list_elem_of_In, filter_In in Hp as [Hp%list_elem_of_In He]. auto. }
  destruct (bool_decide (a = _));
    apply list_elem_of_In, filter_In in Hp as [Hp%list_elem_of_In He]; [auto|].
  apply bool_decide_eq_true in He as <-. auto.
Qed.

Lemma balanced_elem config c instances none_found single prefix s :
  selection_policy c ≠ EmptyString →
  balanced config c instances none_found single prefix = Ok s →
  ∃ p, p ∈ instances ∧ psr_provider_name s = name p ∧ psr_provider_type s = type p.
Proof.
  intros Hne. destruct instances as [|p [|q rest]]; [done|intros [= <-]; exists p; set_solver|].
  intros [= <-]. eexists. split; [|done]. by apply (preferred_elem (selection_policy c)), balancing_preferred.
Qed.

(** The active provider may be a disabled one.  An active provider is an instance of
    the configuration of the type asked for, and it is enabled, unless it is the one
    [active_provider] names and the policy is not one of several providers: then it
    is selected without a look at whether it is enabled. *)
Theorem active_selection_sound c provider_type s :
  config_ok c →
  select_active_provider (Some c) None provider_type = Ok s →
  ∃ p, p ∈ providers c ∧ psr_provider_name s = name p ∧ psr_provider_type s = type p ∧
    (str_truthy provider_type = true → provider_type = Some (type p)) ∧
    (enabled p = true ∨
     (selection_policy c ∉ multi_provider_policies ∧ active_provider c = Some (name p))).
Proof.
  intros Hok H. unfold select_active_provider in H. cbn [str_truthy] in H.
  pose proof (active_providers_spec c) as Hact. pose proof (config_ok_policy c Hok) as Hpol.
  destruct (get_active_providers c) as [|a rest]; [done|].
  destruct (str_truthy provider_type) eqn:Ht.
  - apply balanced_elem in H as (p & Hp & Hn & Hty); [|done].
    apply list_elem_of_In, filter_In in Hp as [Hp%list_elem_of_In Hb%bool_decide_eq_true].
    destruct (Hact p Hp). exists p. split_and!; try done.
    intros _. destruct provider_type; [cbn in Hb; by rewrite Hb|done].
  - apply balanced_elem in H as (p & Hp & Hn & Hty); [|done].
    destruct (Hact p Hp). exists p. split_and!; try done.
Qed.

Definition disabled_active : ProviderConfig :=
  mk_config "FIRST_AVAILABLE" (Some "aws-off") None None []
    [plain_instance "aws-off" "aws" false 0 100; plain_instance "aws-eu" "aws" true 1 100].

(** It is selected, although asking for it by name is refused. *)
Lemma active_selection_sound_witness :
  ∃ s, select_active_provider (Some disabled_active) None None = Ok s ∧
    select_active_provider (Some disabled_active) (Some "aws-off") None
      = Err (ValueError "Provider instance 'aws-off' is disabled") ∧
    ∃ p, p ∈ providers disabled_active ∧ psr_provider_name s = name p ∧ psr_provider_type s = type p ∧
      (str_truthy None = true → None = Some (type p)) ∧
      (enabled p = true ∨
       (selection_policy disabled_active ∉ multi_provider_policies ∧
        active_provider disabled_active = Some (name p))).
Proof.
  eexists. split; [vm_compute; reflexivity|]. split; [vm_compute; reflexivity|].
  apply (active_selection_sound disabled_active None); [split; vm_compute; reflexivity|vm_compute; reflexivity].
Defined.

(** ** Validation *)

(** Checks only add errors. *)
Definition grows (k : check) : Prop := ∀ r, ∃ es, errors (k r).1 = errors r ++ es.

Lemma grows_none (k : check) : (∀ r, errors (k r).1 = errors r) → grows k.
Proof. intros H r. exists []. by rewrite H, app_nil_r. Qed.

Lemma grows_error m : grows (error m).
Proof. intros r. by exists [m]. Qed.

Lemma grows_and_then k1 k2 : grows k1 → grows k2 → grows (and_then k1 k2).
Proof.
  intros H1 H2 r. unfold and_then. destruct (H1 r) as [es1 He1]. destruct (k1 r) as [r1 [|e]].
  - destruct (H2 r1) as [es2 He2]. exists (es1 ++ es2). cbn in He1. by rewrite He2, He1, <- app_assoc.
  - by exists es1.
Qed.

Ltac check_grows :=
  repeat match goal with
  | |- grows (match ?x with _ => _ end) => destruct x
  | |- grows (if ?b then _ else _) => destruct b
  end; solve [apply grows_error | by apply grows_none].

Lemma fleet_grows template caps : grows (_validate_fleet_type_support template caps).
Proof. unfold _validate_fleet_type_support, with_api. cbn zeta. check_grows. Qed.

Lemma limits_grow template caps : grows (_validate_instance_limits template caps).
Proof. unfold _validate_instance_limits, with_api. cbn zeta. check_grows. Qed.

Lemma pricing_grows template caps : grows (_validate_pricing_model template caps).
Proof. unfold _validate_pricing_model, with_api. check_grows. Qed.

(** A sequence that leaves no error had none on the way. *)
Lemma and_then_clean k1 k2 r r' :
  grows k2 → and_then k1 k2 r = (r', Ok ()) → errors r' = [] →
  ∃ r1, k1 r = (r1, Ok ()) ∧ errors r1 = [] ∧ k2 r1 = (r', Ok ()).
Proof.
  intros Hg H He. unfold and_then in H. destruct (k1 r) as [r1 [[]|e]]; [|done].
  exists r1. split_and!; [done| |done]. destruct (Hg r1) as [es Hes]. rewrite H in Hes. cbn in Hes.
  rewrite He in Hes. by destruct (errors r1).
Qed.

Lemma settle_permissive r : is_valid (settle_level PERMISSIVE r) = true → errors r = [].
Proof. unfold settle_level. cbn. by destruct (errors r). Qed.

Lemma caps_of_handler c p api :
  caps_of (mk_capabilities (type p) (dkeys (get_effective_handlers p (defaults_for c p)))
             ((λ kv, (kv.1, api_capability kv.2)) <$> get_effective_handlers p (defaults_for c p))) api
  = match dget api (get_effective_handlers p (defaults_for c p)) with
    | Some h => api_capability h
    | None => []
    end.
Proof.
  unfold caps_of, dget_default. cbn [api_capabilities].
  induction (get_effective_handlers p (defaults_for c p)) as [|[k h] l IH]; [done|].
  cbn. by destruct (decide (k = api)).
Qed.

Definition priced (template : dict json) (price : string) : bool :=
  match dget_default "price_type" template (JStr "ondemand") with JStr s => s ≟ price | _ => false end.

(** What a passed validation means. *)
Lemma validation_sound c template instance api :
  is_valid (validate_template_requirements (Some c) template instance PERMISSIVE) = true →
  text_attr "provider_api" template = Some api →
  ∃ p h, get_provider_by_name c instance = Some p ∧
    dget api (get_effective_handlers p (defaults_for c p)) = Some h ∧
    (priced template "spot" = true → truthy (dget_default "supports_spot" (model_extra h) (JBool false)) = true).
Proof.
  intros Hv Hapi. unfold validate_template_requirements, _get_config_based_capabilities in Hv.
  destruct (get_provider_by_name c instance) as [p|] eqn:Hp; [|done].
  set (caps := mk_capabilities _ _ _) in Hv.
  destruct (all_checks template caps _) as [r [[]|e]] eqn:Hc; [|done].
  apply settle_permissive in Hv. unfold all_checks in Hc.
  apply and_then_clean in Hc as (r1 & H1 & He1 & Hc); [|auto using grows_and_then, pricing_grows, fleet_grows, limits_grow|done].
  apply and_then_clean in Hc as (r2 & H2 & He2 & _); [|auto using grows_and_then, fleet_grows, limits_grow|done].
  unfold _validate_api_support in H1. rewrite Hapi in H1.
  destruct (bool_decide (api ∈ supported_apis caps)) eqn:Hin.
  2:{ injection H1 as <-. cbn in He1. done. }
  apply bool_decide_eq_true, dmem_elem_of in Hin. unfold dmem in Hin. apply bool_decide_eq_true in Hin as [h Hh].
  exists p, h. split_and!; [done|done|]. intros Hspot.
  unfold _validate_pricing_model, with_api in H2. rewrite Hapi in H2. unfold priced in Hspot.
  destruct (dget_default "price_type" template _) as [| | |s| |]; try done. rewrite Hspot in H2.
  subst caps. rewrite caps_of_handler, Hh in H2. change (dget_default "supports_spot" (api_capability h) (JBool false))
    with (dget_default "supports_spot" (model_extra h) (JBool false)) in H2.
  destruct (truthy _); [done|]. injection H2 as <-. cbn in He2. by destruct (errors r1).
Qed.

(** ** Requests *)

Lemma select_and_validate_spec {F} render config get_strategy (fallback : option F) base template sel :
  select_and_validate_provider (registry_ports render config get_strategy fallback base) template = Ok sel →
  ∃ s, select_provider_for_template config get_strategy fallback template None = Ok (inl s) ∧
    sel = to_selection render s ∧
    is_valid (validate_template_requirements config template (psr_provider_name s) PERMISSIVE) = true.
Proof.
  unfold select_and_validate_provider. cbn [ap_select ap_validator ap_requirements registry_ports].
  intros (sel0 & Hs & H)%result_bind_Ok. apply result_bind_Ok in Hs as (s & Hs & Hsel).
  destruct s as [s|f]; [|done]. cbn in Hsel. injection Hsel as <-.
  apply result_bind_Ok in H as (u & _ & H). apply result_bind_Ok in H as (u' & Hr & [= <-]).
  exists s. split_and!; [done|done|]. cbn in Hr. unfold checked in Hr. cbn in Hr.
  by destruct (is_valid _).
Qed.

Lemma taken_elem policy d l p : taken policy d l p → p ∈ l.
Proof.
  destruct d; cbn; [|apply preferred_elem|apply first_min_elem|]; (destruct l; [done|]; intros [= ->]; left).
Qed.

(** C9: Whatever a template asks for, it is asked of a provider that has it.  When the
    selection and the validation are behind it, the acquire handler creates a request
    only for an enabled instance of the configuration that has a handler of the
    template's API, spot machines only where the handler sells them; the
    request carries the name and type of that instance. *)
Theorem acquired_from_capable_provider {F} c render get_strategy (fallback : option F) base
    cmd uuid now holder template sel request api :
  config_ok c →
  prepare (registry_ports render (Some c) get_strategy fallback base) cmd uuid now holder
    = Ok (template, sel, request) →
  text_attr "provider_api" template = Some api →
  ∃ p h, p ∈ providers c ∧ enabled p = true ∧
    Request.provider_name request = Some (name p) ∧ Request.provider_type request = type p ∧
    Request.provider_api request = Some api ∧
    dget api (get_effective_handlers p (defaults_for c p)) = Some h ∧
    (priced template "spot" = true → truthy (dget_default "supports_spot" (model_extra h) (JBool false)) = true).
Proof.
  intros Hok Hprep Hapi. unfold prepare in Hprep.
  apply result_bind_Ok in Hprep as (t0 & _ & Hprep). apply result_bind_Ok in Hprep as (t1 & _ & Hprep).
  apply result_bind_Ok in Hprep as (sel1 & Hsel & Hprep). apply result_bind_Ok in Hprep as (r1 & Hr & [= -> -> ->]).
  apply select_and_validate_spec in Hsel as (s & Hs & -> & Hv).
  destruct (validation_sound _ _ _ _ Hv Hapi) as (p & h & Hp & Hh & Hspot).
  pose proof (selection_choice c get_strategy fallback template None Hok) as Href. rewrite Hs in Href.
  destruct Href as (q & Hq & Hn & Hty).
  { unfold demanded. cbn. rewrite Hapi. by repeat destruct (text_attr _ _). }
  apply taken_elem in Hq. apply list_elem_of_In, filter_In in Hq as [Hin%list_elem_of_In [Hen _]%andb_prop].
  unfold get_provider_by_name in Hp. apply find_some in Hp as [Hpin%list_elem_of_In Hpn%bool_decide_eq_true].
  assert (p = q) as -> by (apply (name_unique c); congruence).
  exists q, h. unfold create_machine_request in Hr. apply result_bind_Ok in Hr as (u & _ & Hr).
  apply result_bind_Ok in Hr as (r2 & Hr2 & Hr).
  unfold Request.create_new_request in Hr2. apply result_bind_Ok in Hr2 as (rid & _ & [= <-]).
  unfold text_attr in Hapi. unfold jget in Hr.
  destruct (dget "provider_api" template) as [[| | |a| |]|]; try done.
  destruct (bool_decide (a = EmptyString)) eqn:Ha; [done|]. injection Hapi as ->.
  change (truthy (default JNull (Some (JStr api)))) with (negb (bool_decide (api = EmptyString))) in Hr.
  rewrite Ha in Hr. injection Hr as <-. cbn. rewrite Hn, Hty. split_and!; done.
Qed.

Definition spot_template : dict json :=
  [("template_id", JStr "t"); ("provider_api", JStr "EC2Fleet"); ("price_type", JStr "spot");
   ("max_instances", JInt 5)].
Definition template_ports (template : dict json) : acquire_ports :=
  mk_acquire_ports (λ _, Ok (Some template)) (λ _, Err (ValueError "unused")) None
    (λ _ _, Err (ValueError "unused")) Ok (λ _, None) (λ _, Ok None) (λ _, Ok true) (λ _ _, true).
Definition fleets_only : ProviderConfig :=
  mk_config "FIRST_AVAILABLE" None None None [("aws", mk_defaults fleet_handlers)]
    [plain_instance "aws-off" "aws" false 0 100; plain_instance "aws-eu" "aws" true 1 100].
Definition demo_command : command := mk_command None "t" 2 [] [] [] false.

Lemma acquired_from_capable_provider_witness :
  ∃ sel request p h,
    prepare (registry_ports JInt (Some fleets_only) no_strategies (None : option unit)
               (template_ports spot_template)) demo_command "12345678-1234-1234-1234-123456789abc" 0 0
      = Ok (spot_template, sel, request) ∧
    p ∈ providers fleets_only ∧ enabled p = true ∧
    Request.provider_name request = Some (name p) ∧ Request.provider_type request = type p ∧
    Request.provider_api request = Some "EC2Fleet" ∧
    dget "EC2Fleet" (get_effective_handlers p (defaults_for fleets_only p)) = Some h ∧
    (priced spot_template "spot" = true →
     truthy (dget_default "supports_spot" (model_extra h) (JBool false)) = true).
Proof.
  eexists _, _.
  destruct (acquired_from_capable_provider fleets_only JInt no_strategies (None : option unit)
    (template_ports spot_template) demo_command "12345678-1234-1234-1234-123456789abc" 0 0 spot_template _ _
    "EC2Fleet" (conj eq_refl eq_refl) eq_refl eq_refl) as (p & h & Hw).
  exists p, h. split; [reflexivity|exact Hw].
Defined.

(** ** Where the two disagree *)




(** With no configuration a template that asks for nothing gets the fallback strategy
    in place of a selection, and the handler fails on it. *)
Theorem fallback_is_no_selection {F} render get_strategy (fallback : F) base template :
  demanded template None = Anything →
  select_and_validate_provider (registry_ports render None get_strategy (Some fallback) base) template
    = Err (OtherError "AttributeError" "'FallbackProviderStrategy' object has no attribute 'provider_name'").
Proof.
  unfold demanded, select_and_validate_provider. cbn [str_truthy ap_select registry_ports].
  unfold select_provider_for_template. cbn [str_truthy].
  by destruct (text_attr "provider_name" template), (text_attr "provider_type" template),
    (text_attr "provider_api" template).
Qed.

Lemma text_attr_dset_ne k k' v d : k ≠ k' → text_attr k (dset k' v d) = text_attr k d.
Proof. intros H. unfold text_attr. by rewrite dget_dset_ne. Qed.

Lemma dget_default_dset_ne {V} k k' (v w : V) d : k ≠ k' → dget_default k (dset k' v d) w = dget_default k d w.
Proof. intros H. unfold dget_default. by rewrite dget_dset_ne. Qed.

(** The check of the number of machines, when it is one and there is no limit. *)
Lemma limits_pass caps template n r :
  (∀ api, dget "max_instances" (caps_of caps api) = None) →
  dget "max_machines" template = None → dget "max_instances" template = Some (JInt n) →
  ∃ fs, _validate_instance_limits template caps r = (r <| supported_features := fs |>, Ok ()).
Proof.
  intros Hcaps Hm Hi. unfold _validate_instance_limits, with_api.
  destruct (text_attr "provider_api" template) as [api|].
  2:{ exists (supported_features r). by destruct r. }
  assert (requested_machines template = JInt n) as ->.
  { unfold requested_machines, dget_default. by rewrite Hm, Hi. }
  rewrite Hcaps. cbn [exceeds]. by eexists.
Qed.

(** No limit on the number of machines is ever enforced: the check reads a limit that
    the table of capabilities it is given never has, so that a template is as valid
    for one machine as for any other number, with the same errors. *)
Theorem instance_limit_unenforced config template instance level n m :
  dget "max_machines" template = None →
  let validate k := validate_template_requirements config (dset "max_instances" (JInt k) template) instance level in
  errors (validate n) = errors (validate m) ∧ is_valid (validate n) = is_valid (validate m).
Proof.
  intros Hm validate. subst validate. cbn beta. unfold validate_template_requirements, _get_config_based_capabilities.
  destruct config as [c|]; [|done]. destruct (get_provider_by_name c instance) as [p|]; [|done].
  set (caps := mk_capabilities _ _ _).
  assert (Hpre : ∀ k, all_checks (dset "max_instances" (JInt k) template) caps =
    and_then (_validate_api_support template caps) (and_then (_validate_pricing_model template caps)
      (and_then (_validate_fleet_type_support template caps)
         (_validate_instance_limits (dset "max_instances" (JInt k) template) caps)))).
  { intros k. unfold all_checks, _validate_api_support, _validate_pricing_model, _validate_fleet_type_support, with_api.
    rewrite !text_attr_dset_ne, dget_default_dset_ne by done. done. }
  rewrite !Hpre. unfold and_then.
  destruct (_validate_api_support template caps _) as [r1 [[]|e1]]; [|done].
  destruct (_validate_pricing_model template caps _) as [r2 [[]|e2]]; [|done].
  destruct (_validate_fleet_type_support template caps _) as [r3 [[]|e3]]; [|done].
  assert (Hlim : ∀ k, ∃ fs, _validate_instance_limits (dset "max_instances" (JInt k) template) caps r3 =
    (r3 <| supported_features := fs |>, Ok ())).
  { intros k. apply (limits_pass _ _ k).
    - intros api. subst caps. rewrite caps_of_handler. by destruct (dget api _).
    - by rewrite dget_dset_ne.
    - apply dget_dset_eq. }
  destruct (Hlim n) as [fn ->], (Hlim m) as [fm ->]. by destruct level, r3 as [? ? ? [] ? ?].
Qed.

Lemma instance_limit_unenforced_witness :
  errors (validate_template_requirements (Some fleets_only) (dset "max_instances" (JInt 1) spot_template)
            "aws-eu" STRICT) = [] ∧
  (let validate k := validate_template_requirements (Some fleets_only)
                       (dset "max_instances" (JInt k) spot_template) "aws-eu" STRICT in
   errors (validate 1) = errors (validate 1000000) ∧ is_valid (validate 1) = is_valid (validate 1000000)).
Proof.
  split; [reflexivity|].
  apply (instance_limit_unenforced (Some fleets_only) spot_template "aws-eu" STRICT 1 1000000 eq_refl).
Defined.

(** ** Effective handlers *)

Lemma dget_overrides k l inherited :
  dict_wf l →
  dget k (foldl apply_override inherited l) =
  match dget k l with
  | None => dget k inherited
  | Some None => None
  | Some (Some config) =>
      Some (match dget k inherited with Some base => merge_with base config | None => config end)
  end.
Proof.
  revert inherited. induction l as [|[k' o] l IH]; intros inherited Hwf; [done|].
  apply NoDup_cons in Hwf as [Hk' Hwf]. cbn [foldl dget]. rewrite (IH _ Hwf).
  assert (Hne : k ≠ k' → dget k (apply_override inherited (k', o)) = dget k inherited).
  { intros Hk. unfold apply_override. cbn. destruct o as [cfg|].
    - by destruct (dget k' inherited); rewrite dget_dset_ne by done.
    - rewrite dget_dpop. by destruct (decide _). }
  destruct (decide (k' = k)) as [->|Hk]; [|by rewrite Hne].
  rewrite (proj2 (dget_None k l) Hk'). unfold apply_override. cbn. destruct o as [cfg|].
  - by destruct (dget k inherited); rewrite dget_dset_eq.
  - rewrite dget_dpop. by destruct (decide _).
Qed.

Lemma dget_map {A B} (f : string → A → B) k l :
  dget k ((λ kv, (kv.1, f kv.1 kv.2)) <$> l) = f k <$> dget k l.
Proof. induction l as [|[k' a] l IH]; [done|]. cbn. destruct (decide (k' = k)) as [->|]; done. Qed.

(** How an instance inherits its handlers.  An instance with handlers of its own has
    exactly these, each filled up from the handler its type has under the name;
    otherwise it has those of its type, without the ones overridden by null, and
    with the others overridden or added. *)
Theorem effective_handlers_spec p defaults k :
  dict_wf (default [] (handler_overrides p)) →
  let inherited := match defaults with Some d => dget k (default_handlers d) | None => None end in
  let merged config := match inherited with Some base => merge_with base config | None => config end in
  dget k (get_effective_handlers p defaults) =
  match handlers p with
  | Some ((_ :: _) as own) => merged <$> dget k own
  | _ => match dget k (default [] (handler_overrides p)) with
         | None => inherited
         | Some override => merged <$> override
         end
  end.
Proof.
  intros Hwf. cbn zeta. unfold get_effective_handlers.
  set (inherited := match defaults with Some d => default_handlers d | None => [] end).
  assert (Hi : match defaults with Some d => dget k (default_handlers d) | None => None end = dget k inherited)
    by (by destruct defaults).
  rewrite Hi. destruct (handlers p) as [[|h own]|].
  2:{ destruct inherited as [|i more]; [by destruct (dget k (h :: own))|].
      apply (dget_map (λ n cfg, match dget n (i :: more) with Some base => merge_with base cfg | None => cfg end)). }
  all: rewrite dget_overrides by done; destruct (dget k (default [] _)) as [[cfg|]|]; done.
Qed.

Lemma effective_handlers_spec_witness :
  let p := mk_instance "aws-eu" "aws" true 0 100 None
             (Some [("RunInstances", None); ("ASG", Some (mk_handler "ASGHandler" []))]) None in
  let defaults := Some (mk_defaults fleet_handlers) in
  dkeys (get_effective_handlers p defaults) = ["EC2Fleet"; "ASG"] ∧
  dget "RunInstances" (get_effective_handlers p defaults) = None.
Proof.
  split; [reflexivity|].
  exact (effective_handlers_spec
    (mk_instance "aws-eu" "aws" true 0 100 None
       (Some [("RunInstances", None); ("ASG", Some (mk_handler "ASGHandler" []))]) None)
    (Some (mk_defaults fleet_handlers)) "RunInstances"
    (bool_decide_eq_true_1 (NoDup ["RunInstances"; "ASG"]) eq_refl)).
Defined.
