(* ===== verification/Schedulers.v ===== *)
(** * What a scheduler is told

    [orb/infrastructure/scheduler]: the formats in which a scheduler asks and is
    answered.  [HostFactory] is the strategy of IBM Symphony's HostFactory
    ([hostfactory/hostfactory_strategy.py], [hostfactory/formatters/status_mapper.py]),
    [Default] that of ORB itself ([default/default_strategy.py], [base/strategy.py]); the
    class [SchedulerPort] is what the command line
    ([orb/interface/catalog.py]) sees of them.  The entries they
    format are those of [Orchestrators.get_request_status].

    Requests and machines come as dictionaries.  Of the dictionary of a
    [RequestDTO] the entries that are read here are spelled out; [unread] gives the
    others, the capacity units and the dumped diagnostic among them. *)

From stdpp Require Import base gmap strings list.
From Stdlib Require Import ZArith Lia Ascii.
From S2P Require Import Prelude RequestTypes Diagnostic RequestAggregate MachineAggregate JsonText.
From S2P Require Import Deprovisioning MachineSync StatusQuery Orchestrators.
Open Scope Z_scope.

Abbreviation object := (dict json).

(** ** Dynamic values *)

Definition AttributeError (type_name : string) (attribute : string) : exn :=
  OtherError "AttributeError" ("'" +:+ type_name +:+ "' object has no attribute '" +:+ attribute +:+ "'").

Definition type_name (j : json) : string :=
  match j with
  | JNull => "NoneType" | JBool _ => "bool" | JInt _ => "int" | JStr _ => "str"
  | JList _ => "list" | JDict _ => "dict"
  end.

(** [x.get(k)] on whatever [x] is. *)
Definition as_object (j : json) : result object :=
  match j with JDict d => Ok d | other => Err (AttributeError (type_name other) "get") end.

(** The elements a loop that calls their [get] sees. *)
Definition objects_of (j : json) : result (list object) :=
  match j with
  | JList l => mapM_result as_object l
  | JStr EmptyString | JDict [] => Ok []
  | JStr _ | JDict _ => Err (AttributeError "str" "get")
  | other => Err (TypeError ("'" +:+ type_name other +:+ "' object is not iterable"))
  end.

(** [int(text)]: surrounding blanks, a sign, digits with single underscores between. *)
Definition is_blank (c : ascii) : bool :=
  let n := nat_of_ascii c in ((9 <=? n) && (n <=? 13) || (28 <=? n) && (n <=? 32))%nat.
Fixpoint drop_blanks (l : list ascii) : list ascii :=
  match l with c :: l' => if is_blank c then drop_blanks l' else l | [] => [] end.
Definition digit (c : ascii) : option Z :=
  let n := nat_of_ascii c in if ((48 <=? n) && (n <=? 57))%nat then Some (Z.of_nat n - 48) else None.
Fixpoint digits (a : Z) (l : list ascii) : option Z :=
  match l with
  | [] => Some a
  | c :: l' =>
      match digit c with
      | Some d => digits (10 * a + d) l'
      | None =>
          match l' with
          | c' :: _ => if (c ≟ "_"%char) && bool_decide (is_Some (digit c')) then digits a l' else None
          | [] => None
          end
      end
  end.
Definition int_text (s : string) : option Z :=
  let l := reverse (drop_blanks (reverse (drop_blanks (String.list_ascii_of_string s)))) in
  let unsigned l := match l with
                    | c :: _ => if bool_decide (is_Some (digit c)) then digits 0 l else None
                    | [] => None
                    end in
  match l with
  | c :: l' => if c ≟ "-"%char then Z.opp <$> unsigned l'
               else if c ≟ "+"%char then unsigned l' else unsigned l
  | [] => None
  end.

Definition int_of (j : json) : result Z :=
  match j with
  | JInt z => Ok z
  | JBool b => Ok (Z.b2z b)
  | JStr s => match int_text s with
              | Some z => Ok z
              | None => Err (ValueError ("invalid literal for int() with base 10: " +:+ str_repr s))
              end
  | other => Err (TypeError ("int() argument must be a string, a bytes-like object or a real number, not '"
                             +:+ type_name other +:+ "'"))
  end.

(** [json.dumps(j, sort_keys=True)]. *)
Fixpoint sort_keys (j : json) : json :=
  match j with
  | JList l => JList (map sort_keys l)
  | JDict d => JDict (sorted_by (λ a b, String.leb a.1 b.1) (map (λ kv, (kv.1, sort_keys kv.2)) d))
  | other => other
  end.
Definition dumps_sorted (j : json) : string := dumps ", " ": " (sort_keys j).

(** An entry when there is a value. *)
Definition given_text (k : string) (o : option string) : object :=
  match o with Some s => [(k, JStr s)] | None => [] end.
Definition when_truthy (k : string) (j : json) : object := if truthy j then [(k, j)] else [].

(** ** Dictionaries of answers *)

(** [MachineReferenceDTO.to_dict]. *)
Definition reference_dict (r : MachineReferenceDTO) : object :=
  [("machine_id", JStr (ref_machine_id r)); ("name", JStr (ref_name r));
   ("result", JStr (result_value (ref_result r))); ("status", JStr (ref_status r))] ++
  given_text "private_ip_address" (ref_private_ip_address r) ++
  given_text "public_ip_address" (ref_public_ip_address r) ++
  given_text "instance_type" (ref_instance_type r) ++
  given_text "price_type" (ref_price_type r) ++
  match ref_tags r with Some tags => [("tags", JDict ((λ kv, (kv.1, JStr kv.2)) <$> tags))] | None => [] end ++
  given_text "vpc_id" (ref_vpc_id r) ++
  [("launch_time", JInt (ref_launch_time r))] ++
  given_text "request_id" (ref_request_id r) ++
  given_text "return_request_id" (ref_return_request_id r) ++
  [("message", JStr (ref_message r));
   ("cloud_host_id", match ref_cloud_host_id r with Some h => JStr h | None => JNull end)].

Section dictionaries.
Context (unread : RequestDTO → object).

(** [RequestDTO.to_dict]. *)
Definition dto_dict (dto : RequestDTO) : object :=
  [("request_id", JStr (dto_request_id dto)); ("status", JStr (dto_status dto));
   ("machines", JList ((λ r, JDict (reference_dict r)) <$> dto_machine_references dto));
   ("message", JStr (dto_message dto)); ("request_type", JStr (dto_request_type dto));
   ("requested_count", JInt (dto_requested_count dto));
   ("successful_count", JInt (dto_successful_count dto));
   ("resource_ids", JList (JStr <$> dto_resource_ids dto))] ++
  given_text "provider_name" (dto_provider_name dto) ++
  given_text "provider_type" (dto_provider_type dto) ++
  given_text "provider_api" (dto_provider_api dto) ++
  match dto_error dto with Some ((_ :: _) as e) => [("error", JDict e)] | _ => [] end ++
  unread dto.

End dictionaries.

(** ** The port *)

Class SchedulerPort := {
  format_request_status_response : list object → result object;
  (* the status, or [None] when the request could not be looked up *)
  get_status_poll_exit_code : option string → Z;
  parse_request_data : object → result json
}.



(** ** HostFactory *)

Module HostFactory.

Definition status_mapping : dict string :=
  [("pending", "running"); ("in_progress", "running"); ("acquiring", "running");
   ("provisioning", "running"); ("partial_pending", "running"); ("complete", "complete");
   ("completed", "complete"); ("partial", "complete_with_error"); ("failed", "complete_with_error");
   ("cancelled", "complete_with_error"); ("timeout", "complete_with_error");
   ("error", "complete_with_error")].

Definition map_domain_status_to_hostfactory (domain_status : string) : string :=
  dget_default (str_lower domain_status) status_mapping "running".

(** [x in [...]] and [x == "..."], for texts of a list. *)
Definition one_of (j : json) (l : list string) : bool :=
  match j with JStr s => s ∈? l | _ => false end.

Definition map_machine_status_to_result (status request_type : json) : string :=
  if one_of request_type ["return"] then
    if one_of status ["terminated"; "stopped"] then "succeed"
    else if one_of status ["shutting-down"; "stopping"; "pending"; "terminating"; "running"]
    then "executing"
    else "fail"
  else if one_of status ["running"] then "succeed"
  else if one_of status ["pending"; "launching"] then "executing"
  else if one_of status ["terminated"; "failed"; "error"] then "fail"
  else "executing".

Definition no_detail : string := "Machine failed (no detail available)".

Definition machine_message (machine : object) (outcome : string) : json :=
  if outcome ≟ "fail"
  then jor (jget "status_reason" machine) (jor (jget "error" machine)
         (jor (jget "message" machine) (JStr no_detail)))
  else dget_default "message" machine (JStr EmptyString).

(** The requests a machine belongs to, by the kind of answer it is part of. *)
Definition machine_requests (machine : object) (request_type : json) : object :=
  let return_id := when_truthy "returnRequestId" (jget "return_request_id" machine) in
  if one_of request_type ["return"] then [("requestId", jget "request_id" machine)]
  else if one_of request_type ["acquire"; "provision"] then return_id
  else when_truthy "requestId" (jget "request_id" machine) ++ return_id.

Definition format_machine (request_type : json) (machine : object) : result object :=
  let outcome := map_machine_status_to_result (jget "status" machine) request_type in
  launchtime ← int_of (jor (jget "launch_time" machine) (JInt 0));
  let raw_ip := match dget "private_ip_address" machine with
                | Some ip => ip | None => jget "private_ip" machine end in
  Ok ([("machineId", match dget "machine_id" machine with
                     | Some i => i | None => jget "instance_id" machine end);
       ("name", match dget "name" machine with
                | Some n => n
                | None => match dget "instance_id" machine with
                          | Some i => i
                          | None => dget_default "private_ip" machine (JStr EmptyString)
                          end
                end);
       ("result", JStr outcome);
       ("status", dget_default "status" machine (JStr "unknown"));
       ("privateIpAddress", jor raw_ip JNull);
       ("launchtime", JInt launchtime);
       ("message", machine_message machine outcome);
       ("cloudHostId", jor (jget "cloud_host_id" machine) JNull)] ++
      machine_requests machine request_type ++
      [("publicIpAddress", jor (jget "public_ip_address" machine)
                             (jor (jget "public_ip" machine) JNull))] ++
      when_truthy "instanceType" (jget "instance_type" machine) ++
      when_truthy "priceType" (jget "price_type" machine) ++
      if truthy (jget "tags" machine)
      then [("instanceTags", JStr (dumps_sorted (jget "tags" machine)))] else []).

Definition _format_machines_for_hostfactory (machines request_type : json) : result (list object) :=
  ms ← objects_of machines; mapM_result (format_machine request_type) ms.

Definition lowered (j : json) : result string :=
  match j with JStr s => Ok s | other => Err (AttributeError (type_name other) "lower") end.

Definition capacity_fields : list string := ["target_units"; "fulfilled_units"; "running_count"; "pending_count"].

Definition present (k : string) (d : object) : object :=
  match jget k d with JNull => [] | v => [(k, v)] end.

Definition format_request (request : object) : result object :=
  let request := match dget "machine_references" request with
                 | Some refs => dset "machines" refs (dpop "machine_references" request)
                 | None => request
                 end in
  machines ← match dget "machines" request with
             | Some ms => _format_machines_for_hostfactory ms (jget "request_type" request)
             | None => Ok []
             end;
  status ← lowered (jor (jget "status" request) (JStr "pending"));
  Ok ([("requestId", jget "request_id" request);
       ("status", JStr (map_domain_status_to_hostfactory status));
       ("message", dget_default "message" request (JStr EmptyString));
       ("machines", JList (JDict <$> machines));
       ("resource_ids", jor (jget "resource_ids" request) (JList []))] ++
      when_truthy "providerName" (jget "provider_name" request) ++
      when_truthy "providerType" (jget "provider_type" request) ++
      when_truthy "providerApi" (jget "provider_api" request) ++
      mjoin ((λ k, present k request) <$> capacity_fields)).

Definition format_requests (requests : list object) : result object :=
  formatted ← mapM_result format_request requests;
  Ok [("requests", JList (JDict <$> formatted))].

(** One request named in a query. *)
Definition parse_reference (req : object) : json :=
  JDict [("request_id", match dget "requestId" req with
                        | Some i => i | None => jget "request_id" req end)].

Definition first_present (keys : list string) (d : object) (dflt : json) : json :=
  foldr (λ k rest, match dget k d with Some v => v | None => rest end) dflt keys.

Definition parse (raw : object) : result json :=
  match dget "requests" raw, dget "template" raw with
  | Some requests, _ =>
      listed ← mapM_result as_object (match requests with JList l => l | one => [one] end);
      Ok (JList (parse_reference <$> listed))
  | None, Some template =>
      template ← as_object template;
      Ok (JDict [("template_id", jget "templateId" template);
                 ("requested_count", dget_default "machineCount" template (JInt 1));
                 ("request_type", dget_default "requestType" template (JStr "provision"));
                 ("metadata", dget_default "metadata" raw (JDict []))])
  | None, None =>
      Ok (JDict [("template_id", jor (jget "templateId" raw) (jget "template_id" raw));
                 ("requested_count",
                    first_present ["requested_count"; "maxNumber"; "machineCount"] raw (JInt 1));
                 ("request_type", dget_default "requestType" raw (JStr "provision"));
                 ("request_id", first_present ["requestId"; "request_id"] raw JNull);
                 ("metadata", dget_default "metadata" raw (JDict []))])
  end.

Definition poll_exit_code (status : option string) : Z := 0.

(** The machines of a return request that has to be carried out. *)
Definition return_item (grace_period : Z) (machine : object) : option json :=
  let identifier := jor (jget "name" machine) (jget "machine_id" machine) in
  if truthy identifier
  then Some (JDict [("machine", identifier); ("gracePeriod", JInt grace_period)]) else None.

Definition return_items (request : object) : result (list json) :=
  grace_period ← int_of (dget_default "grace_period" request (JInt 0));
  machines ← objects_of (jor (jget "machines" request)
                           (jor (jget "machine_references" request) (JList [])));
  Ok (omap (M:=list) (return_item grace_period) machines).

Definition format_return_requests_response (requests : list object) : result object :=
  items ← mapM_result return_items requests;
  let items := mjoin items in
  Ok [("status", JStr "complete");
      ("message", JStr (match items with
                        | [] => "No machines to return."
                        | _ => "Return requests retrieved successfully." end));
      ("requests", JList items)].

(** *** Messages *)

Definition generate_status_message (status : string) (machine_count : Z) : string :=
  if status ≟ "completed" then EmptyString
  else if status ≟ "partial" then "Partially fulfilled: " +:+ fmt machine_count +:+ " instances created"
  else if status ≟ "failed" then "Failed to create instances"
  else EmptyString.

(** The codes of the provider errors, each once, in order. *)
Definition error_code (err : json) : option string :=
  match err with
  | JDict d => if truthy (jget "code" d) then Some (json_str (jget "code" d)) else None
  | _ => None
  end.
Definition error_codes (errors : list json) : list string :=
  sorted_by String.leb (dedup_by id (omap error_code errors)).

Definition text_or (j : json) (dflt : string) : string := if truthy j then json_str j else dflt.

(** [counts] is the text of fulfilled and target, [None] when one is missing.  The
    summary and the detail of a dumped diagnostic are texts or [None]. *)
Definition summarise_diagnostic (diagnostic : object) (counts : option (Z * Z)) (fallback : string)
  : string :=
  match diagnostic with
  | [] => fallback
  | _ =>
      let category := json_str (dget_default "category" diagnostic (JStr "unknown")) in
      let detail := jget "detail" diagnostic in
      let summary := jget "summary" diagnostic in
      let counts := match counts with Some (f, t) => " " +:+ fmt f +:+ "/" +:+ fmt t | None => EmptyString end in
      if category ≟ "capacity" then "Partially fulfilled:" +:+ counts +:+ " (insufficient provider capacity)"
      else if category ≟ "auth" then "Failed: provider authentication denied"
      else if category ≟ "rate_limit" then "Throttled by provider; retry recommended"
      else if category ≟ "validation" then
        (if truthy detail then "Configuration error: " +:+ json_str detail else "Configuration error")
      else if category ≟ "cancelled" then text_or summary (text_or (JStr fallback) "Request cancelled")
      else if category ≟ "deadline" then "Deadline exceeded:" +:+ counts +:+ " fulfilled"
      else if category ≟ "internal" then text_or summary (text_or (JStr fallback) "Provisioning failed")
      else
        let base := text_or (JStr fallback) (text_or summary "Request incomplete") in
        match error_codes (match jget "provider_errors" diagnostic with JList l => l | _ => [] end) with
        | [] => base
        | codes => base +:+ " (" +:+ str_join ", " codes +:+ ")"
        end
  end.

#[export] Instance hostfactory_port : SchedulerPort := {
  format_request_status_response := format_requests;
  get_status_poll_exit_code := poll_exit_code;
  parse_request_data := parse
}.
End HostFactory.

(** ** ORB's own format *)

Module Default.

Definition problem_statuses : list string := ["failed"; "cancelled"; "timeout"; "partial"].

Definition get_exit_code_for_status (status : string) : Z := if status ∈? problem_statuses then 1 else 0.

Definition poll_exit_code (status : option string) : Z :=
  match status with None => 1 | Some s => get_exit_code_for_status s end.

(** Dictionaries are passed on; none holds a [datetime]. *)
Definition format_requests (requests : list object) : result object :=
  Ok [("requests", JList (JDict <$> requests));
      ("message", JStr "Request status retrieved successfully");
      ("count", JInt (Z.of_nat (length requests)))].

Definition parse_reference (req : object) : json :=
  JDict [("request_id", jor (jget "request_id" req) (jget "requestId" req))].

Definition parse (raw : object) : result json :=
  match dget "requests" raw, dget "template" raw with
  | Some requests, _ => listed ← objects_of requests; Ok (JList (parse_reference <$> listed))
  | None, Some template =>
      template ← as_object template;
      Ok (JDict [("template_id", jor (jget "template_id" template) (jget "templateId" template));
                 ("requested_count", jor (jget "machine_count" template)
                                       (dget_default "machineCount" template (JInt 1)));
                 ("request_type", jor (jget "request_type" template)
                                    (dget_default "requestType" template (JStr "provision")));
                 ("metadata", dget_default "metadata" raw (JDict []))])
  | None, None =>
      Ok (JDict [("template_id", jget "template_id" raw);
                 ("requested_count", match dget "requested_count" raw with
                                     | Some n => n | None => dget_default "count" raw (JInt 1) end);
                 ("request_type", dget_default "request_type" raw (JStr "provision"));
                 ("request_id", jget "request_id" raw);
                 ("metadata", dget_default "metadata" raw (JDict []))])
  end.

End Default.

(** ** Lemmas *)

Lemma jor_truthy a b : truthy b = true → truthy (jor a b) = true.
Proof. intros H. unfold jor. by destruct (truthy a) eqn:?. Qed.

Lemma jor_JNull a : jor a JNull = JNull ∨ truthy (jor a JNull) = true.
Proof. unfold jor. destruct (truthy a) eqn:?; auto. Qed.

Lemma objects_of_JDict (l : list object) : objects_of (JList (JDict <$> l)) = Ok l.
Proof.
  unfold objects_of. apply mapM_result_Forall2. apply Forall2_fmap_l. induction l; constructor; done.
Qed.

Lemma as_object_JDict (l : list object) : mapM_result as_object (JDict <$> l) = Ok l.
Proof. apply (objects_of_JDict l). Qed.

Lemma dget_given k k' o d : k ≠ k' → dget k (given_text k' o ++ d) = dget k d.
Proof. intros H. destruct o; [|done]. cbn. destruct (decide (k' = k)); [congruence|done]. Qed.

Lemma jget_cons_ne k k' v (d : object) : k ≠ k' → jget k ((k', v) :: d) = jget k d.
Proof. intros H. unfold jget. cbn. destruct (decide (k' = k)); [congruence|done]. Qed.

Module HostFactoryFacts.
Import HostFactory.

Lemma map_result_agrees (status request_type : string) :
  HostFactory.map_machine_status_to_result (JStr status) (JStr request_type)
  = result_value (StatusQuery.map_machine_status_to_result status request_type).
Proof.
  unfold HostFactory.map_machine_status_to_result, StatusQuery.map_machine_status_to_result, one_of.
  assert (Hs : ∀ x y : string, bool_decide (x ∈ [y]) = bool_decide (x = y)).
  { intros. apply bool_decide_ext, list_elem_of_singleton. }
  rewrite !Hs. repeat case_bool_decide; done.
Qed.

(** What a formatted machine has. *)
Definition machine_wf (d : object) : Prop :=
  (∃ o, jget "result" d = JStr o ∧ o ∈ ["succeed"; "executing"; "fail"] ∧
        (o = "fail" → truthy (jget "message" d) = true)) ∧
  (∃ t, jget "launchtime" d = JInt t) ∧
  (jget "privateIpAddress" d = JNull ∨ truthy (jget "privateIpAddress" d) = true) ∧
  (jget "publicIpAddress" d = JNull ∨ truthy (jget "publicIpAddress" d) = true) ∧
  dmem "machineId" d = true ∧ dmem "name" d = true ∧ dmem "status" d = true ∧ dmem "cloudHostId" d = true.

Lemma result_values status request_type :
  HostFactory.map_machine_status_to_result status request_type ∈ ["succeed"; "executing"; "fail"].
Proof.
  unfold HostFactory.map_machine_status_to_result. repeat case_match; set_solver.
Qed.

Lemma public_ip_found m rt rest v :
  jget "publicIpAddress" (machine_requests m rt ++ ("publicIpAddress", v) :: rest) = v.
Proof.
  unfold machine_requests, when_truthy. repeat case_match; cbn; done.
Qed.

Lemma format_machine_fields request_type m d :
  format_machine request_type m = Ok d →
  machine_wf d ∧
  jget "machineId" d = match dget "machine_id" m with Some i => i | None => jget "instance_id" m end ∧
  jget "result" d = JStr (HostFactory.map_machine_status_to_result (jget "status" m) request_type).
Proof.
  unfold format_machine. intros (t & _ & [= <-])%result_bind_Ok. split; [|done].
  unfold machine_wf. split_and!; try done.
  - eexists. split; [done|]. split; [apply result_values|]. intros Ho.
    change (truthy (machine_message m (HostFactory.map_machine_status_to_result (jget "status" m) request_type)) = true).
    unfold machine_message. rewrite Ho. rewrite bool_decide_eq_true_2 by done.
    by repeat apply jor_truthy.
  - by exists t.
  - change (jget "privateIpAddress" _) with
      (jor (match dget "private_ip_address" m with Some ip => ip | None => jget "private_ip" m end) JNull).
    apply jor_JNull.
  - rewrite !jget_cons_ne by done. rewrite public_ip_found.
    destruct (truthy (jget "public_ip_address" m)) eqn:Hp; unfold jor at 1 3; rewrite Hp; [auto|apply jor_JNull].
Qed.

Lemma reference_fields r :
  jget "status" (reference_dict r) = JStr (ref_status r) ∧
  dget "machine_id" (reference_dict r) = Some (JStr (ref_machine_id r)) ∧
  jget "launch_time" (reference_dict r) = JInt (ref_launch_time r).
Proof.
  split_and!; [done|done|]. unfold jget, reference_dict. cbn [app dget].
  repeat (destruct (decide _); [done|]). rewrite !dget_given by done.
  destruct (ref_tags r); cbn [app dget]; repeat (destruct (decide _); [done|]);
    rewrite dget_given by done; done.
Qed.

Lemma format_reference request_type r :
  ∃ d, format_machine request_type (reference_dict r) = Ok d.
Proof.
  unfold format_machine. destruct (reference_fields r) as (_ & _ & ->).
  assert (∃ t, int_of (jor (JInt (ref_launch_time r)) (JInt 0)) = Ok t) as [t ->]; [|eexists; done].
  unfold jor. destruct (truthy _); eauto.
Qed.
End HostFactoryFacts.

(** ** Theorems *)

Section theorems.
Import HostFactory HostFactoryFacts.

(** A machine is well formed on the wire.  Whatever dictionary a machine is, when it
    is formatted its result is one of the three of the interface, a failed machine
    has a message, its launch time is a number, an address is [null] or not empty,
    and no mandatory field is missing. *)
Theorem hostfactory_machine_wf request_type m d :
  format_machine request_type m = Ok d → machine_wf d.
Proof. by intros [H _]%format_machine_fields. Qed.

Lemma hostfactory_machine_wf_witness :
  ∃ d, format_machine (JStr "acquire") [("machine_id", JStr "i-1"); ("status", JStr "failed");
         ("private_ip", JStr EmptyString)] = Ok d ∧ machine_wf d.
Proof.
  eexists. split; [reflexivity|]. by apply (hostfactory_machine_wf (JStr "acquire")
    [("machine_id", JStr "i-1"); ("status", JStr "failed"); ("private_ip", JStr EmptyString)]).
Defined.

Lemma hostfactory_status s :
  (map_domain_status_to_hostfactory (RequestStatus.value s) = "running" ↔ RequestStatus.is_active s = true) ∧
  (map_domain_status_to_hostfactory (RequestStatus.value s) = "complete" ↔ s = RequestStatus.COMPLETED).
Proof. destruct s; vm_compute; split; split; congruence. Qed.

Lemma dto_dict_fields unread dto :
  dget "machine_references" (unread dto) = None →
  dget "machine_references" (dto_dict unread dto) = None.
Proof.
  intros H. unfold dto_dict. cbn [app dget]. repeat (destruct (decide _); [done|]).
  rewrite !dget_given by done. by destruct (dto_error dto) as [[|]|].
Qed.

Lemma references_of request machines dto :
  create_from_domain request machines = Ok dto →
  dto_request_id dto = Request.request_id request ∧
  dto_status dto = RequestStatus.value (Request.status request) ∧
  dto_request_type dto = RequestType.value (Request.request_type request) ∧
  Forall2 (λ m r, ref_machine_id r = Machine.machine_id m ∧
                  ref_status r = MachineStatus.value (Machine.status m)) machines (dto_machine_references dto).
Proof.
  unfold create_from_domain. intros (refs & Hrefs & H)%result_bind_Ok. unfold from_domain in H.
  apply result_bind_Ok in H as (? & _ & H). apply result_bind_Ok in H as (? & _ & H).
  apply result_bind_Ok in H as (? & _ & H). destruct (Request.created_at request); [|done].
  injection H as <-. cbn. split_and!; [done|done|done|].
  apply mapM_result_Forall2 in Hrefs. eapply Forall2_impl; [exact Hrefs|].
  intros m r Hr. unfold reference_of in Hr. by apply result_bind_Ok in Hr as (? & _ & [= <-]).
Qed.

Lemma format_references request_type refs :
  ∃ ms, mapM_result (format_machine request_type) (reference_dict <$> refs) = Ok ms ∧
    Forall2 (λ r d, machine_wf d ∧ jget "machineId" d = JStr (ref_machine_id r) ∧
                    jget "result" d = JStr (HostFactory.map_machine_status_to_result (JStr (ref_status r)) request_type))
      refs ms.
Proof.
  induction refs as [|r refs (ms & Hms & Hall)]; [by exists []|].
  destruct (format_reference request_type r) as [d Hd]. exists (d :: ms). split.
  { rewrite fmap_cons. cbn [mapM_result]. rewrite Hd. cbn [mbind result_bind]. by rewrite Hms. }
  constructor; [|done]. apply format_machine_fields in Hd as (Hwf & Hi & Hr).
  destruct (reference_fields r) as (Hs & Hm & _). rewrite Hs in Hr. by rewrite Hm in Hi.
Qed.

(** C18: HostFactory is told the truth about a request.  The answer about a request that
    was read carries its identifier; it says running exactly while the request is in
    flight, and complete exactly when it was completed; it lists one machine per
    machine of the request, under its identifier and with the result that its status
    has for the kind of request, each well formed. *)
Theorem hostfactory_answer_faithful unread request machines dto :
  create_from_domain request machines = Ok dto →
  dget "machine_references" (unread dto) = None →
  ∃ d ms, format_request (dto_dict unread dto) = Ok d ∧
    jget "requestId" d = JStr (Request.request_id request) ∧
    (jget "status" d = JStr "running" ↔ RequestStatus.is_active (Request.status request) = true) ∧
    (jget "status" d = JStr "complete" ↔ Request.status request = RequestStatus.COMPLETED) ∧
    jget "machines" d = JList (JDict <$> ms) ∧
    Forall2 (λ m x, machine_wf x ∧ jget "machineId" x = JStr (Machine.machine_id m) ∧
       jget "result" x = JStr (result_value (StatusQuery.map_machine_status_to_result
         (MachineStatus.value (Machine.status m)) (RequestType.value (Request.request_type request)))))
      machines ms.
Proof.
  intros (Hid & Hst & Hty & Hrefs)%references_of Hun.
  destruct (format_references (JStr (dto_request_type dto)) (dto_machine_references dto)) as (ms & Hms & Hall).
  unfold format_request. rewrite (dto_dict_fields unread dto Hun).
  change (dget "machines" (dto_dict unread dto))
    with (Some (JList ((λ r, JDict (reference_dict r)) <$> dto_machine_references dto))).
  change (jget "request_type" (dto_dict unread dto)) with (JStr (dto_request_type dto)).
  change (jget "status" (dto_dict unread dto)) with (JStr (dto_status dto)).
  unfold _format_machines_for_hostfactory.
  rewrite (list_fmap_compose reference_dict JDict), objects_of_JDict. cbn [mbind result_bind].
  rewrite Hms. cbn [mbind result_bind].
  assert (lowered (jor (JStr (dto_status dto)) (JStr "pending")) = Ok (dto_status dto)) as ->.
  { rewrite Hst. by destruct (Request.status request). }
  eexists _, ms. split; [done|]. cbn [jget]. rewrite <- Hid, Hst.
  destruct (hostfactory_status (Request.status request)) as [Hr Hc].
  split_and!; [done| | |done|].
  - rewrite <- Hr. cbn. split; [by intros [= ->]|by intros ->].
  - rewrite <- Hc. cbn. split; [by intros [= ->]|by intros ->].
  - rewrite <- Hty. eapply Forall2_trans; [|exact Hrefs|exact Hall].
    intros m r x [Hi Hs] (Hwf & Hxi & Hxr). rewrite <- Hi, <- Hs. split_and!; [done|done|].
    by rewrite Hxr, map_result_agrees.
Qed.

Definition lab_request : Request.t := Reconciler.live_request <| Request.status := RequestStatus.PARTIAL |>.
Definition lab_machines : list Machine.t :=
  [demo_machine "i-1" None; demo_machine "i-2" None <| Machine.status := MachineStatus.FAILED |>].
Definition nothing_else : RequestDTO → object := λ _, [].

Lemma hostfactory_answer_faithful_witness :
  ∃ dto, create_from_domain lab_request lab_machines = Ok dto ∧
  ∃ d ms, format_request (dto_dict nothing_else dto) = Ok d ∧
    jget "requestId" d = JStr (Request.request_id lab_request) ∧
    (jget "status" d = JStr "running" ↔ RequestStatus.is_active (Request.status lab_request) = true) ∧
    (jget "status" d = JStr "complete" ↔ Request.status lab_request = RequestStatus.COMPLETED) ∧
    jget "machines" d = JList (JDict <$> ms) ∧
    Forall2 (λ m x, machine_wf x ∧ jget "machineId" x = JStr (Machine.machine_id m) ∧
       jget "result" x = JStr (result_value (StatusQuery.map_machine_status_to_result
         (MachineStatus.value (Machine.status m)) (RequestType.value (Request.request_type lab_request)))))
      lab_machines ms.
Proof.
  eexists. split; [vm_compute; reflexivity|].
  apply (hostfactory_answer_faithful nothing_else lab_request lab_machines); [vm_compute; reflexivity|reflexivity].
Defined.




Lemma format_request_id request d :
  format_request request = Ok d → dget "requestId" d = Some (jget "request_id" request).
Proof.
  unfold format_request. intros (ms & _ & H)%result_bind_Ok. apply result_bind_Ok in H as (st & _ & [= <-]).
  cbn. f_equal. destruct (dget "machine_references" request); [|done].
  unfold jget. by rewrite dget_dset_ne, dget_dpop by done.
Qed.

(** C20: An answer can be sent back as a question.  HostFactory asks for the status of
    requests in the shape it is answered in: reading an answer gives the requests
    it is about, in order. *)
Theorem answer_reads_as_query requests answer :
  @format_request_status_response HostFactory.hostfactory_port requests = Ok answer →
  @parse_request_data HostFactory.hostfactory_port answer =
    Ok (JList ((λ r, JDict [("request_id", jget "request_id" r)]) <$> requests)).
Proof.
  cbn [format_request_status_response parse_request_data HostFactory.hostfactory_port].
  unfold format_requests. intros (ds & Hds & [= <-])%result_bind_Ok.
  unfold parse. cbn [dget]. rewrite decide_True by done. rewrite as_object_JDict. cbn [mbind result_bind].
  do 2 f_equal. apply mapM_result_Forall2 in Hds. induction Hds as [|r d requests ds Hd _ IH]; [done|].
  rewrite !fmap_cons, IH. f_equal. unfold parse_reference. by rewrite (format_request_id r d Hd).
Qed.

Lemma answer_reads_as_query_witness :
  ∃ answer, @format_request_status_response HostFactory.hostfactory_port
      [[("request_id", JStr "req-1"); ("status", JStr "complete")]; [("request_id", JStr "req-2")]] = Ok answer ∧
  @parse_request_data HostFactory.hostfactory_port answer =
    Ok (JList ((λ r, JDict [("request_id", jget "request_id" r)]) <$>
      [[("request_id", JStr "req-1"); ("status", JStr "complete")]; [("request_id", JStr "req-2")]])).
Proof.
  eexists. split; [vm_compute; reflexivity|].
  apply (answer_reads_as_query
    [[("request_id", JStr "req-1"); ("status", JStr "complete")]; [("request_id", JStr "req-2")]]).
  vm_compute. reflexivity.
Defined.

(** No text of a provider reaches the scheduler through its errors: two diagnostics
    that differ only in the provider errors give the same message when these have
    the same codes. *)
Theorem message_hides_provider_errors diagnostic errors errors' counts fallback :
  (error_code <$> errors) = (error_code <$> errors') →
  summarise_diagnostic (dset "provider_errors" (JList errors) diagnostic) counts fallback =
  summarise_diagnostic (dset "provider_errors" (JList errors') diagnostic) counts fallback.
Proof.
  intros Hcodes.
  assert (Ho : omap error_code errors = omap error_code errors').
  { revert errors' Hcodes. induction errors as [|e errors IH]; intros [|e' errors'] H; try done.
    rewrite !fmap_cons in H. injection H as He Hr. specialize (IH errors' Hr).
    unfold omap in *. cbn [list_omap]. by rewrite He, IH. }
  assert (Hne : ∀ es, ∃ kv l, dset "provider_errors" (JList es) diagnostic = kv :: l).
  { intros es. destruct diagnostic as [|[k v] d]; cbn; [by eexists _, _|].
    destruct (decide (k = "provider_errors")); by eexists _, _. }
  assert (Hk : ∀ k es, k ≠ "provider_errors" →
            dget k (dset "provider_errors" (JList es) diagnostic) = dget k diagnostic).
  { intros k es Hk. by apply dget_dset_ne. }
  unfold summarise_diagnostic, dget_default, jget, error_codes.
  destruct (Hne errors) as (kv & l & Hl), (Hne errors') as (kv' & l' & Hl').
  rewrite Hl, Hl', <- Hl, <- Hl'. rewrite !(λ k, Hk k errors), !(λ k, Hk k errors'), !dget_dset_eq by done.
  cbn [from_option id]. by rewrite Ho.
Qed.

Lemma message_hides_provider_errors_witness :
  summarise_diagnostic [("category", JStr "unknown"); ("provider_errors",
      JList [JDict [("code", JStr "Boom"); ("message", JStr "arn:aws:secret")]])] None "Failed" = "Failed (Boom)" ∧
  summarise_diagnostic (dset "provider_errors" (JList [JDict [("code", JStr "Boom"); ("message", JStr "arn:aws:secret")]])
      [("category", JStr "unknown")]) None "Failed" =
  summarise_diagnostic (dset "provider_errors" (JList [JDict [("code", JStr "Boom")]])
      [("category", JStr "unknown")]) None "Failed".
Proof.
  split; [reflexivity|].
  apply (message_hides_provider_errors [("category", JStr "unknown")]
    [JDict [("code", JStr "Boom"); ("message", JStr "arn:aws:secret")]] [JDict [("code", JStr "Boom")]]).
  reflexivity.
Defined.

(** What becomes of a machine on the wire.  In a return request a machine that is
    [returned] counts as failed, like one that was never known; in an acquire request
    a machine that is stopped or returned counts as executing, although neither will
    ever run. *)
Theorem machine_results_table s :
  let result ty := HostFactory.map_machine_status_to_result (JStr (MachineStatus.value s))
                     (JStr (RequestType.value ty)) in
  result RequestType.RETURN =
    match s with
    | MachineStatus.TERMINATED | MachineStatus.STOPPED => "succeed"
    | MachineStatus.RETURNED | MachineStatus.FAILED | MachineStatus.LAUNCHING | MachineStatus.UNKNOWN => "fail"
    | _ => "executing"
    end ∧
  result RequestType.ACQUIRE =
    match s with
    | MachineStatus.RUNNING => "succeed"
    | MachineStatus.TERMINATED | MachineStatus.FAILED => "fail"
    | _ => "executing"
    end.
Proof. by destruct s. Qed.
End theorems.
